(* ===== verification/_CoqProject ===== *)
-Q . S2P
Prelude.v
RustStr.v
Json.v
McpGates.v
Op.v
McpTools.v
IpcProtocol.v
McpProtocol.v
McpModels.v
McpBridge.v
StdioFrames.v
MailParser.v
Utf8.v
McpStdio.v
MailThreading.v
MailReply.v
ReplyExtract.v
MailBuilder.v
Wire.v
IpcServer.v
IpcClient.v
ImapWindow.v
DbCore.v
DbMail.v
DbInv.v
DbDrafts.v
Attachments.v
AttachmentFiles.v
Auth.v
Smtp.v
Secrets.v
OAuth.v
Reconciler.v
ReconcilerProps.v
Worker.v
Manager.v
SqlQuery.v
Search.v
DbMcp.v
Dispatcher.v
DispatcherProps.v
Daemon.v
DaemonOps.v
DaemonRun.v
DaemonProps.v
DaemonSend.v
DaemonTrial.v
System.v
Config.v
EditDistance.v
TuiCommand.v
TuiText.v
TuiComposer.v
TuiEditing.v
TuiItems.v
TuiApprovals.v
TuiApp.v
TuiConversations.v
TuiInvariant.v
TuiSteps.v
TuiCache.v
TuiEvents.v
TuiModes.v
TuiIpc.v
TuiMailbox.v
TuiForward.v
TuiKeys.v
TuiLoop.v
TuiSession.v
TuiRequests.v
TuiOutcomes.v
TuiDaemon.v
TuiRun.v
TuiHelp.v
TuiFrame.v
TuiPanes.v
TuiRender.v
TuiScreen.v
TuiOverlay.v
TuiView.v
