(* ===== verification/Prelude.v ===== *)
(** * postblox: a verification development

    postblox is a local mail system written in Rust: a daemon that keeps a SQLite
    store of mail synchronised with IMAP servers and serves it over a Unix
    socket, a terminal client, and a bridge that offers the daemon's operations
    as tools to an AI agent (MCP, JSON-RPC over stdio) under gates and human
    approvals.  A library crate, crates/postblox-mail, holds the pure mail code.
    Paths below are relative to src/ of this repository; files of the daemon are
    under src/src/.

    ** The parts and their files

    Foundations.  [Prelude] (this file): results, the state-and-error monad [M],
    the invariant judgement [preserves], automation and generic lemmas.
    [RustStr]: Rust strings as lists of code points with the operations the code
    uses; Unicode case mapping is the class [UnicodeCase].  [Utf8]: decoding and
    encoding.  [Json]: [serde_json::Value], objects ordered by key; parsing and
    printing text is the class [JsonCodec].

    The bridge (src/mcp/).  [McpGates] models gates.rs (glob and pattern
    matching, the first matching gate decides), [McpTools] tools.rs (the
    catalogue, its JSON schemas with what they admit, and the argument validator), [McpProtocol]
    protocol.rs (JSON-RPC framing), [McpModels] the gate and approval rows of
    models.rs with their JSON, [StdioFrames] the bounded line reader,
    [McpBridge] the request handlers of server.rs and [McpStdio] its loop: main
    task, forwarders of events and writer as a step relation.  The daemon is the
    class [DaemonBridge], the source's trait: any state and any answers, so what
    other clients do between two requests is covered.  Each run also yields the
    trace of its requests; [budget] bounds the rounds of the approval wait before
    its deadline, and every theorem is for every budget.

    The socket (src/ipc/).  [Op] models daemon/op.rs, [IpcProtocol] protocol.rs
    and the topics of hub.rs, [Wire] wire.rs (length-prefixed frames over byte
    streams that can fail anywhere), [IpcServer] server.rs and [IpcClient]
    client.rs: the tasks of one connection, on either side, as a step relation,
    so that invariants hold for all interleavings (the reader of the
    client also waits on full queues, and can be left waiting); Module [Lifecycle] of
    [IpcServer] is the socket file from [listen] to [shutdown]
    ([server_lifecycle]).

    The mail crate (crates/postblox-mail/src/).  [MailParser] is parser.rs over
    the parse tree of the MIME library (class [MessageParser]); [MailThreading]
    threading.rs; [MailReply] reply.rs; [ReplyExtract] reply_extract.rs;
    [MailBuilder] builder.rs, with the date, UUIDs and base64 in [MimeEnv].

    The store (src/db/, migrations/).  [DbCore]: tables as lists of rows in rowid
    order inside a [World] that also has the clock, the supply of UUIDs, the
    attachment files and the published events.  A SQL statement is atomic and may
    fail by itself; [faults] lists which do, so theorems hold for every failure
    pattern.  [DbMail] models accounts.rs, folders.rs, threads.rs, messages.rs
    and attachments.rs with the uniqueness constraints, references and cascades of
    the schema; [DbDrafts] drafts.rs and draft_attachments.rs with transactions;
    [DbInv] the integrity invariant [store_inv]; [DbMcp] mcp.rs and audit.rs;
    [SqlQuery] sql_query.rs (the engine is the class [SqlEngine]); [Search]
    search.rs (the index and LIKE are [Fts] and [SqlLike], the latter with its
    documented laws and a matcher that satisfies them).

    Synchronisation (src/imap/, src/sync/).  [ImapWindow]: the windowed fetch of
    imap/client.rs over the class [ImapSession].  [Attachments] and
    [AttachmentFiles]: attachments.rs (names and storage; preview and export).
    [Reconciler]: sync/reconciler.rs over the class [ImapSync];
    [ReconcilerProps] its theorems.  [Worker]: both loops of sync/worker.rs as
    one state machine whose inputs are the answers of the awaited calls.
    [Manager]: sync/manager.rs as a step relation.

    Credentials and services.  [Auth] (auth.rs), [Smtp] (smtp/mod.rs over the
    class [Lettre]), [Secrets] (secrets/: the trait as a class with laws, the
    encrypted file and the keyring as instances), [OAuth] (oauth/google.rs over
    [TokenEndpoint]), [Config] (config.rs, theme names, the choice of the secret
    store in bin/postbloxd.rs).

    Requests (src/daemon/dispatcher.rs).  [Dispatcher]: the handlers that need
    only the store; [DispatcherProps] their invariant.  [Daemon] and [DaemonOps]:
    the handlers that also use files, SMTP, IMAP, secrets and OAuth, and
    [daemon_dispatch], total over the operations.  [DaemonRun], [DaemonProps] and
    [DaemonSend] hold the theorems over every sequence of requests and worker
    steps, [DaemonTrial] concrete services and witnesses.  A request is one step of
    [daemon_step], which the theorems on the rows it writes allow; the creation of
    a draft is several transactions, and [draft_step] interleaves them with other
    requests statement by statement.  [System] puts the bridge in front of the
    dispatcher, with other clients acting in between, and logs each request the
    daemon serves for the bridge with the state it was served in.

    The terminal (src/tui/).  Its state is [TuiApp] (app.rs, [AppState]), built
    from [TuiText] (texts with line offsets), [TuiComposer], [TuiItems] and
    [TuiApprovals]; [TuiCommand] and [EditDistance] are command.rs; [TuiIpc] is
    ipc.rs, every request with its arguments and decoding.  [TuiMailbox] gives
    the trait [Mailbox] of mod.rs as a class over a world, with a monad [K] that
    logs each request with its answer, and the functions that refresh the panes;
    [TuiForward] replies, forwards and exports; [TuiKeys] and [TuiLoop] the key
    handlers, the event handler and the loop, with the terminal device around it
    ([terminal_is_given_back]).  Properties: [TuiEditing] (the
    composer as an editor), [TuiConversations] (grouping), [TuiInvariant],
    [TuiSteps] and [TuiModes] (the invariant of the state), [TuiCache] (the
    folder cache), [TuiEvents] (events), [TuiSession] (the invariant over whole
    sessions), [TuiRequests] (which key causes which request), [TuiOutcomes]
    (sending, refused removals, batches, export names), [TuiDaemon] (the
    terminal's client with the dispatcher behind it); [TuiRun] is a small mailbox
    to run it on.

    The screen.  A frame is the list of widgets, areas and cursor positions handed
    to ratatui: [TuiHelp] is the catalogue of help.rs, [TuiFrame] the palettes of
    theme.rs ([Palettes]) and the rectangles, widgets and the fitting of text into
    columns of render.rs, [TuiPanes] its panes, [TuiRender] the status bar, the
    help overlay and the frame.  How ratatui splits an area and how wide unicode-width takes a
    text to be are the classes [Layout] and [Widths] with their documented laws.
    [TuiScreen] and [TuiOverlay] hold the theorems, [TuiView] a layout
    and tables of widths to run them on.

    ** What the theorems show

    Authorisation: no dangerous operation is forwarded without an auto-allow gate
    or an allowed approval for the same arguments (C1), and end to end the gate or
    the approval row is in the very state the daemon serves the request in (C5); an agent can neither approve
    itself nor touch gates (C4); approvals are decided at most once under any
    interleaving (C3), are final once decided, and keep what was shown (C2); gates
    apply as documented (C17); the validator accepts the objects the advertised
    schema of the tool admits (C36); answers come in the order of the lines and notifications are
    redacted (C33).

    The store: synchronisation and requests keep it sound under every failure
    (C7); a successful sync has stored each message it was served as it was
    served, unless its UID was taken, and recorded how far it came (C6), and it
    ends (C32); windows tile the mailbox (C25); attachment paths stay in the store
    (C23), exports overwrite nothing (C24), drafts stay within their limit (C8);
    read-only SQL is filtered (C21) and answers within its budgets
    ([query_answers_within_budget]).

    Sending and credentials: what an attempt to send leaves behind (C9), secrets
    only over TLS (C10), tokens that have not expired (C11), the secret file as a
    map (C26).

    Concurrency: limits of a connection (C18), responses that reach their
    request (C19), requests that can complete while no queue has the reader waiting (C20)
    and [events_deadlock_a_request] for the case where one has, one worker per folder
    (C34).

    Formats: frames (C30); built messages cannot be injected into (C22); quoting
    is undone by extraction (C40).  Threads and replies: assignment follows its
    priorities (C31); [reply_all_recipients] says whom reply-all reaches.

    The terminal: every session keeps the state consistent (C12); requests need
    their key and concern what is selected (C13); what is sent is what is shown
    (C15); a removal has been made when the daemon confirmed it (C35) and changes
    nothing when it is refused ([refused_removal_changes_nothing]); its approval
    decisions are refused, since it signs them with a name the daemon does not
    accept (C37); the folder cache is
    a map of recent snapshots (C27); composer keys edit at the cursor (C28);
    forwards are fetched in batches both sides can take (C38); suggestions use
    the optimal string alignment distance (C39), which [two_edits_suffice] tells
    from the distance the comments name.

    The screen: what is drawn stays inside the frame, the help overlay of a frame
    without rows apart (C16, [help_overlay_leaves_rowless_frame]); the approval a
    key decides is the one highlighted and described in the panes, when neither a
    composer nor a search covers them (C14, [approval_decided_behind_composer]); the
    help overlay lists everything once, the rows of the focused pane first (C29).
    [highlighted_row_is_selected] and [body_cursor_on_its_line] say the same of the
    other lists and of the composer, [help_and_parser_agree] that the overlay and
    the command parser know the same commands.

    Next to these are lemmas that pin down what the code does where that is not
    what it or its comments intend, such as [new_request_takes_the_cursor],
    [known_message_id_blocks_sync], [update_during_creation_adds_up], [failed_fetch_is_skipped],
    [request_after_loss_is_stuck], [delete_command_leaves_composer_behind],
    [end_key_pins_help_overlay], [help_end_is_out_of_reach] or
    [oversize_response_breaks_client].

    ** Bounds and fuel

    Machine integers are [Z] or [N] with their width written out where it
    matters (u32 UIDs saturate, usize sizes saturate or are checked, durations are
    capped); cursors and lengths that nothing can take past a text or a list are
    natural numbers.  Recursion that is not structural has fuel: the prefix
    stripping of subjects and the line wrapping take the length of their input,
    which each round shortens; the window loop of the reconciler takes fuel that
    C32 shows is never exhausted when there is some for each 32-bit UID.  A
    session of the terminal is a list of rounds of any length.

    ** What is not modelled

    What ratatui makes of the widgets it is handed (wrapping, clipping, painting).
    The polling of the key reader thread; the permissions of the socket file and
    the draining of a server on shutdown; connecting, authenticating, listing and IDLE of the IMAP client, which are network
    exchanges; pool options and migrations of SQLite; the broadcast buffers of the
    hub, of which only the published events and the lag notice appear; process
    start-up, the demo data and the benchmarks of the binaries. *)

From stdpp Require Export base tactics list numbers option strings.
From Stdlib Require Export ZArith Lia.

#[global] Open Scope list_scope.

(** ** Results: Rust's [Result<A, E>], error type first so that [result E]
    is a monad. *)

Inductive result (E A : Type) : Type :=
| Ok (a : A)
| Err (e : E).
Arguments Ok {E A} a.
Arguments Err {E A} e.

#[global] Instance result_ret {E} : MRet (result E) := fun _ a => Ok a.
#[global] Instance result_bind {E} : MBind (result E) :=
  fun _ _ k r => match r with Ok a => k a | Err e => Err e end.
#[global] Instance result_fmap {E} : FMap (result E) :=
  fun _ _ f r => match r with Ok a => Ok (f a) | Err e => Err e end.

#[global] Instance result_eq_dec {E A} `{EqDecision E, EqDecision A} :
  EqDecision (result E A).
Proof. solve_decision. Defined.

Definition is_ok {E A} (r : result E A) : bool :=
  match r with Ok _ => true | Err _ => false end.

(** [Option::ok_or] and [Result::map_err]. *)
Definition ok_or {E A} (o : option A) (e : E) : result E A :=
  match o with Some a => Ok a | None => Err e end.

Definition map_err {E F A} (f : E -> F) (r : result E A) : result F A :=
  match r with Ok a => Ok a | Err e => Err (f e) end.

(** [Option::filter], [Option::unwrap_or]. *)
Definition opt_filter {A} (f : A -> bool) (o : option A) : option A :=
  match o with Some a => if f a then Some a else None | None => None end.

Definition unwrap_or {A} (d : A) (o : option A) : A :=
  match o with Some a => a | None => d end.

Definition is_none {A} (o : option A) : bool :=
  match o with Some _ => false | None => true end.

(** ** The state-and-error monad: stateful fallible code threads a state [S]
    which keeps the effects done before an error. *)

Definition M (S E A : Type) : Type := S -> result E A * S.

Definition mret_M {S E A} (a : A) : M S E A := fun s => (Ok a, s).
Definition mthrow {S E A} (e : E) : M S E A := fun s => (Err e, s).
Definition mbind_M {S E A B} (k : A -> M S E B) (m : M S E A) : M S E B :=
  fun s => match m s with
           | (Ok a, s') => k a s'
           | (Err e, s') => (Err e, s')
           end.
Definition mget {S E} : M S E S := fun s => (Ok s, s).
Definition mput {S E} (s' : S) : M S E unit := fun _ => (Ok tt, s').
Definition mgets {S E A} (f : S -> A) : M S E A := fun s => (Ok (f s), s).
Definition mmodify {S E} (f : S -> S) : M S E unit := fun s => (Ok tt, f s).
Definition mlift {S E A} (r : result E A) : M S E A := fun s => (r, s).

(** [m.await.map_err(f)]. *)
Definition mmap_err {S E F A} (f : E -> F) (m : M S E A) : M S F A :=
  fun s => match m s with (r, s') => (map_err f r, s') end.

Declare Scope monad_scope.
Delimit Scope monad_scope with monad.
Notation "'let!' x ':=' m 'in' k" := (mbind_M (fun x => k) m)
  (at level 10, x binder, m at level 100, k at level 200,
   format "'[v' 'let!'  x  ':='  m  'in' '/' k ']'") : monad_scope.
Notation "m ';!' k" := (mbind_M (fun _ => k) m)
  (at level 100, right associativity) : monad_scope.
#[global] Open Scope monad_scope.

(** ** Field updates: [r <| field := v |>] is [r] with one field replaced, for
    a record type whose fields are listed by an instance of [Fields]. *)

Class Fields (R : Type) := rebuild : R -> R.
Class Update {R E : Type} (field : R -> E) := update : (E -> E) -> R -> R.
Arguments update {R E} field {_} f r.

Ltac solve_update :=
  lazymatch goal with
  | |- @Update ?R ?E ?field =>
      let inst := constr:(_ : Fields R) in
      let body := eval hnf in inst in
      lazymatch eval pattern field in body with
      | ?with_field _ =>
          let u := eval cbv beta in (fun (f : E -> E) (r : R) => with_field (fun x => f (field x)) r) in exact u
      end
  end.
#[export] Hint Extern 1 (Update _) => solve_update : typeclass_instances.

Declare Scope record_scope.
Notation "r <| field := v |>" := (update field (fun _ => v) r)
  (at level 8, left associativity, format "r <| field  :=  v |>") : record_scope.
#[global] Open Scope record_scope.

(** ** Tactics *)

(** Case analysis on the scrutinee of a [match] or [if], in the goal or in a
    hypothesis. *)
Ltac case_goal :=
  match goal with
  | |- context [match ?x with _ => _ end] => destruct x eqn:?
  end.
Ltac case_hyp H :=
  match type of H with
  | context [match ?x with _ => _ end] => destruct x eqn:?
  end.
(** Split all pairs, conjunctions and existentials, close the absurd cases. *)
Ltac inv_step :=
  match goal with
  | H : (_, _) = (_, _) |- _ => injection H as H; subst
  | H : Ok _ = Ok _ |- _ => injection H as H; subst
  | H : Err _ = Err _ |- _ => injection H as H; subst
  | H : Some _ = Some _ |- _ => injection H as H; subst
  | H : Ok _ = Err _ |- _ => discriminate H
  | H : Err _ = Ok _ |- _ => discriminate H
  | H : Some _ = None |- _ => discriminate H
  | H : None = Some _ |- _ => discriminate H
  | H : true = false |- _ => discriminate H
  | H : false = true |- _ => discriminate H
  | H : _ /\ _ |- _ => destruct H
  | H : exists _, _ |- _ => destruct H
  end.
Ltac invs := repeat inv_step.

(** Reflection of boolean tests into propositions. *)
Ltac brefl :=
  repeat match goal with
  | H : (_ && _)%bool = true |- _ => apply andb_true_iff in H; destruct H
  | H : (_ && _)%bool = false |- _ => apply andb_false_iff in H
  | H : (_ || _)%bool = true |- _ => apply orb_true_iff in H
  | H : (_ || _)%bool = false |- _ => apply orb_false_iff in H; destruct H
  | H : negb _ = true |- _ => apply negb_true_iff in H
  | H : negb _ = false |- _ => apply negb_false_iff in H
  | H : bool_decide _ = true |- _ => apply bool_decide_eq_true in H
  | H : bool_decide _ = false |- _ => apply bool_decide_eq_false in H
  | H : (_ <=? _)%Z = true |- _ => apply Z.leb_le in H
  | H : (_ <=? _)%Z = false |- _ => apply Z.leb_gt in H
  | H : (_ <? _)%Z = true |- _ => apply Z.ltb_lt in H
  | H : (_ <? _)%Z = false |- _ => apply Z.ltb_ge in H
  | H : (_ =? _)%Z = true |- _ => apply Z.eqb_eq in H
  | H : (_ =? _)%Z = false |- _ => apply Z.eqb_neq in H
  | H : (_ <=? _)%N = true |- _ => apply N.leb_le in H
  | H : (_ <=? _)%N = false |- _ => apply N.leb_gt in H
  | H : (_ <? _)%N = true |- _ => apply N.ltb_lt in H
  | H : (_ <? _)%N = false |- _ => apply N.ltb_ge in H
  | H : (_ =? _)%N = true |- _ => apply N.eqb_eq in H
  | H : (_ =? _)%N = false |- _ => apply N.eqb_neq in H
  | H : (_ <=? _)%nat = true |- _ => apply Nat.leb_le in H
  | H : (_ <=? _)%nat = false |- _ => apply Nat.leb_gt in H
  | H : (_ <? _)%nat = true |- _ => apply Nat.ltb_lt in H
  | H : (_ <? _)%nat = false |- _ => apply Nat.ltb_ge in H
  | H : (_ =? _)%nat = true |- _ => apply Nat.eqb_eq in H
  | H : (_ =? _)%nat = false |- _ => apply Nat.eqb_neq in H
  end.

(** ** Rewriting with the monad's equations *)

Create HintDb monad.

Lemma mbind_M_Ok {S E A B} (k : A -> M S E B) (m : M S E A) s a s' :
  m s = (Ok a, s') -> mbind_M k m s = k a s'.
Proof. unfold mbind_M. now intros ->. Qed.

Lemma mbind_M_Err {S E A B} (k : A -> M S E B) (m : M S E A) s e s' :
  m s = (Err e, s') -> mbind_M k m s = (Err e, s').
Proof. unfold mbind_M. now intros ->. Qed.

(** Inversion of a successful sequence. *)
Lemma mbind_M_inv_Ok {S E A B} (k : A -> M S E B) (m : M S E A) s b s'' :
  mbind_M k m s = (Ok b, s'') ->
  exists a s', m s = (Ok a, s') /\ k a s' = (Ok b, s'').
Proof.
  unfold mbind_M. destruct (m s) as [[a|e] s'] eqn:?; intros; invs; eauto.
Qed.

Lemma mmap_err_Ok {S E F A} (f : E -> F) (m : M S E A) s a s' :
  mmap_err f m s = (Ok a, s') -> m s = (Ok a, s').
Proof.
  unfold mmap_err. destruct (m s) as [[x|e] s1]; cbn; intros; invs; done.
Qed.

(** Hoare-style reasoning: an invariant of the state is kept on success and on
    failure, so a sequence keeps it when its parts do. *)
Definition preserves {S E A} (P : S -> Prop) (m : M S E A) : Prop :=
  forall s r s', P s -> m s = (r, s') -> P s'.

Lemma preserves_ret {S E A} (P : S -> Prop) (a : A) :
  preserves P (mret_M a : M S E A).
Proof. intros s r s' HP. unfold mret_M. intros; invs; done. Qed.

Lemma preserves_throw {S E A} (P : S -> Prop) (e : E) :
  preserves P (mthrow e : M S E A).
Proof. intros s r s' HP. unfold mthrow. intros; invs; done. Qed.

Lemma preserves_lift {S E A} (P : S -> Prop) (r : result E A) :
  preserves P (mlift r : M S E A).
Proof. intros s r' s' HP. unfold mlift. intros; invs; done. Qed.

Lemma preserves_gets {S E A} (P : S -> Prop) (f : S -> A) :
  preserves P (mgets f : M S E A).
Proof. intros s r' s' HP. unfold mgets. intros; invs; done. Qed.

Lemma preserves_modify {S E} (P : S -> Prop) (f : S -> S) :
  (forall s, P s -> P (f s)) -> preserves P (mmodify f : M S E unit).
Proof. intros Hf s r' s' HP. unfold mmodify. intros; invs; auto. Qed.

Lemma preserves_bind {S E A B} (P : S -> Prop) (m : M S E A) (k : A -> M S E B) :
  preserves P m -> (forall a, preserves P (k a)) -> preserves P (mbind_M k m).
Proof.
  intros Hm Hk s r s' HP. unfold mbind_M.
  destruct (m s) as [[a|e] s1] eqn:Hs; intros Heq.
  - eapply Hk; [|exact Heq]. eapply Hm; eauto.
  - invs. eapply Hm; eauto.
Qed.

Lemma preserves_map_err {S E F A} (P : S -> Prop) (f : E -> F) (m : M S E A) :
  preserves P m -> preserves P (mmap_err f m).
Proof.
  intros Hm s r s' HP. unfold mmap_err.
  destruct (m s) as [r1 s1] eqn:Hs; intros Heq; invs. eapply Hm; eauto.
Qed.

#[export] Hint Resolve preserves_ret preserves_throw preserves_lift
  preserves_gets preserves_bind preserves_map_err : monad.

(** ** Lists *)

Lemma app_inj_length {A} (a b c d : list A) :
  length a = length c -> a ++ b = c ++ d -> a = c /\ b = d.
Proof. intros. by apply app_inj_1. Qed.

Lemma find_some_first {A} (f : A -> bool) l x :
  List.find f l = Some x ->
  exists l1 l2, l = l1 ++ x :: l2 /\ f x = true /\ Forall (fun y => f y = false) l1.
Proof.
  induction l as [|a l IH]; cbn; [done|].
  destruct (f a) eqn:E; intros H; invs.
  - exists [], l. repeat split; auto.
  - destruct (IH H) as (l1 & l2 & -> & ? & ?).
    exists (a :: l1), l2. repeat split; auto.
Qed.

Lemma find_none_all {A} (f : A -> bool) l :
  List.find f l = None <-> Forall (fun y => f y = false) l.
Proof.
  rewrite List.Forall_forall. split.
  - intros H x Hx. exact (List.find_none f l H x Hx).
  - induction l as [|a l IH]; cbn; [done|]. intros H.
    rewrite (H a) by auto. apply IH. auto.
Qed.

Lemma existsb_false {A} (f : A -> bool) l :
  existsb f l = false <-> Forall (fun y => f y = false) l.
Proof.
  induction l as [|a l IH]; cbn; [intuition|].
  rewrite orb_false_iff, Forall_cons, IH. done.
Qed.

Lemma NoDup_snoc {A} (l : list A) x : NoDup l -> x ∉ l -> NoDup (l ++ [x]).
Proof.
  intros Hl Hx. apply NoDup_app. split; [done|]. split.
  - intros y Hy Hin. apply list_elem_of_singleton in Hin. by subst.
  - apply NoDup_singleton.
Qed.

Lemma filter_sublist {A} (f : A -> bool) l : List.filter f l `sublist_of` l.
Proof. induction l as [|a l IH]; cbn; [constructor|]. destruct (f a); by constructor. Qed.
