(* ===== verification/RustStr.v ===== *)
(** * Rust strings

    Rust's [char] is a Unicode scalar value and a [str] a sequence of them
    (stored as UTF-8): here a [char] is its code point in [N] and a [str] the
    list of its chars.  The file defines the [str] methods the sources call and
    the facts about them every component shares.  Byte lengths
    ([str::len]) go through [len_utf8].

    Full Unicode case mapping is a table of the standard library; the class
    [UnicodeCase] carries the three functions the sources use and what the
    standard library documents of them on ASCII. *)

From S2P Require Import Prelude.
From Stdlib Require Import Ascii String.
#[local] Open Scope N_scope.
#[local] Open Scope bool_scope.

Abbreviation char := N (only parsing).
Abbreviation str := (list N) (only parsing).

(** String literals (ASCII): [lit "Re: "]. *)
Definition lit (s : string) : str := map N_of_ascii (list_ascii_of_string s).

Arguments lit s%_string_scope : simpl never.

Definition CR : char := 13.
Definition LF : char := 10.
Definition CRLF : str := [CR; LF].
Definition DQUOTE : char := 34.

Definition str_eqb (a b : str) : bool := bool_decide (a = b).

Lemma str_eqb_eq a b : str_eqb a b = true <-> a = b.
Proof. unfold str_eqb. apply bool_decide_eq_true. Qed.
Lemma str_eqb_refl a : str_eqb a a = true.
Proof. by apply str_eqb_eq. Qed.
Lemma str_eqb_neq a b : str_eqb a b = false <-> a <> b.
Proof. unfold str_eqb. apply bool_decide_eq_false. Qed.

Definition is_empty (s : str) : bool := match s with [] => true | _ => false end.

Lemma is_empty_true s : is_empty s = true <-> s = [].
Proof. destruct s; split; done. Qed.
Lemma is_empty_false s : is_empty s = false <-> s <> [].
Proof. destruct s; split; done. Qed.

(** ** Characters *)

(** [char::is_whitespace]: Unicode's White_Space property. *)
Definition is_whitespace (c : char) : bool :=
  ((9 <=? c) && (c <=? 13)) || (c =? 32) || (c =? 133) || (c =? 160)
  || (c =? 5760) || ((8192 <=? c) && (c <=? 8202)) || (c =? 8232) || (c =? 8233)
  || (c =? 8239) || (c =? 8287) || (c =? 12288).

(** [char::len_utf8]. *)
Definition len_utf8 (c : char) : N :=
  if c <? 128 then 1 else if c <? 2048 then 2 else if c <? 65536 then 3 else 4.

(** [str::len]: the number of bytes. *)
Fixpoint str_len (s : str) : N :=
  match s with
  | [] => 0
  | c :: r => len_utf8 c + str_len r
  end.

Definition is_ascii_upper (c : char) : bool := (65 <=? c) && (c <=? 90).
Definition is_ascii_lower (c : char) : bool := (97 <=? c) && (c <=? 122).
Definition is_ascii_digit (c : char) : bool := (48 <=? c) && (c <=? 57).
Definition is_ascii_alphanumeric (c : char) : bool :=
  is_ascii_upper c || is_ascii_lower c || is_ascii_digit c.
Definition ascii_lower (c : char) : char := if is_ascii_upper c then c + 32 else c.
Definition ascii_upper (c : char) : char := if is_ascii_lower c then c - 32 else c.
Definition to_ascii_lowercase (s : str) : str := map ascii_lower s.
Definition to_ascii_uppercase (s : str) : str := map ascii_upper s.
Definition eq_ignore_ascii_case (a b : str) : bool :=
  str_eqb (to_ascii_lowercase a) (to_ascii_lowercase b).
Definition is_ascii (s : str) : Prop := Forall (fun c => c < 128) s.

(** ** Searching and trimming *)

Fixpoint starts_with (s p : str) : bool :=
  match p, s with
  | [], _ => true
  | c :: p', d :: s' => (c =? d) && starts_with s' p'
  | _ :: _, [] => false
  end.
Definition ends_with (s p : str) : bool := starts_with (rev s) (rev p).
Definition contains_char (s : str) (c : char) : bool := existsb (N.eqb c) s.

Fixpoint drop_while (f : char -> bool) (s : str) : str :=
  match s with
  | c :: r => if f c then drop_while f r else s
  | [] => []
  end.
Definition trim_start_by (f : char -> bool) (s : str) : str := drop_while f s.
Definition trim_end_by (f : char -> bool) (s : str) : str := rev (drop_while f (rev s)).
Definition trim_start (s : str) : str := trim_start_by is_whitespace s.
Definition trim_end (s : str) : str := trim_end_by is_whitespace s.
Definition trim (s : str) : str := trim_end (trim_start s).

(** ** Splitting and joining *)

(** [str::split] on a character predicate: always at least one piece. *)
Fixpoint split_by (f : char -> bool) (s : str) : list str :=
  match s with
  | [] => [[]]
  | c :: r =>
      if f c then [] :: split_by f r
      else match split_by f r with
           | w :: ws => (c :: w) :: ws
           | [] => [[c]]
           end
  end.
Definition split_char (c : char) (s : str) : list str := split_by (N.eqb c) s.
Definition split_whitespace (s : str) : list str :=
  List.filter (fun w => negb (is_empty w)) (split_by is_whitespace s).

(** [slice::join]. *)
Fixpoint join (sep : str) (l : list str) : str :=
  match l with
  | [] => []
  | [w] => w
  | w :: r => w ++ sep ++ join sep r
  end.

(** [str::replace] of a non-empty pattern, leftmost first, not overlapping. *)
Fixpoint replace_go (from to : str) (skip : nat) (s : str) : str :=
  match s with
  | [] => []
  | c :: r =>
      match skip with
      | S k => replace_go from to k r
      | O => if starts_with s from
             then to ++ replace_go from to (List.length from - 1) r
             else c :: replace_go from to 0 r
      end
  end.
Definition replace (s from to : str) : str := replace_go from to 0 s.

(** [str::strip_suffix] of one character. *)
Definition strip_suffix_char (s : str) (c : char) : option str :=
  match rev s with
  | d :: r => if c =? d then Some (rev r) else None
  | [] => None
  end.

(** Decimal rendering of integers ([Display]); one digit per round, so the
    bit size is enough fuel. *)
Fixpoint digits_go (fuel : nat) (n : N) (acc : str) : str :=
  match fuel with
  | O => acc
  | S k => let acc' := (48 + n mod 10) :: acc in
           if n <? 10 then acc' else digits_go k (n / 10) acc'
  end.
Definition show_N (n : N) : str := digits_go (S (N.size_nat n)) n [].
Definition show_Z (z : Z) : str :=
  if (z <? 0)%Z then lit "-" ++ show_N (Z.to_N (- z)) else show_N (Z.to_N z).

(** ** Unicode case mapping *)

Class UnicodeCase := {
  (** [str::to_lowercase] (context dependent: final sigma). *)
  to_lowercase : str -> str;
  (** [char::to_lowercase], [char::to_uppercase]; [str::to_uppercase] maps the
      latter over the string. *)
  char_to_lowercase : char -> str;
  char_to_uppercase : char -> str;
  is_uppercase : char -> bool;
  to_lowercase_ascii : forall s, is_ascii s -> to_lowercase s = to_ascii_lowercase s;
  char_to_lowercase_ascii : forall c, c < 128 -> char_to_lowercase c = [ascii_lower c];
  char_to_uppercase_ascii : forall c, c < 128 -> char_to_uppercase c = [ascii_upper c];
  is_uppercase_ascii : forall c, c < 128 -> is_uppercase c = is_ascii_upper c;
}.

Definition to_uppercase `{UnicodeCase} (s : str) : str := flat_map char_to_uppercase s.

(** The instance that maps ASCII letters and nothing else. *)
Definition ascii_case : UnicodeCase.
Proof.
  refine {| to_lowercase := to_ascii_lowercase;
            char_to_lowercase c := [ascii_lower c];
            char_to_uppercase c := [ascii_upper c];
            is_uppercase := is_ascii_upper |}; done.
Defined.

(** Decide the equality tests between literals that occur in the goal. *)
Ltac eval_lits :=
  repeat match goal with
  | |- context [str_eqb (lit ?a) (lit ?b)] =>
      let v := eval vm_compute in (str_eqb (lit a) (lit b)) in
      replace (str_eqb (lit a) (lit b)) with v by (vm_compute; reflexivity)
  end.

(** ** Facts: prefixes and suffixes *)

Create HintDb rstr.

Lemma starts_with_spec s p : starts_with s p = true <-> exists r, s = p ++ r.
Proof.
  revert s. induction p as [|c p IH]; intros s; [destruct s; cbn; naive_solver|].
  destruct s as [|d s]; cbn.
  - split; [done|]. intros [r ?]; done.
  - rewrite andb_true_iff, N.eqb_eq, IH. split.
    + intros [-> [r ->]]. eauto.
    + intros [r H]. injection H as -> ->. eauto.
Qed.

Lemma starts_with_app p r : starts_with (p ++ r) p = true.
Proof. apply starts_with_spec. eauto. Qed.

Lemma starts_with_refl s : starts_with s s = true.
Proof. apply starts_with_spec. exists []. by rewrite app_nil_r. Qed.

Lemma ends_with_spec s p : ends_with s p = true <-> exists r, s = r ++ p.
Proof.
  unfold ends_with. rewrite starts_with_spec. split.
  - intros [r H]. exists (rev r). rewrite <- (rev_involutive s), H, rev_app_distr.
    by rewrite rev_involutive.
  - intros [r ->]. exists (rev r). by rewrite rev_app_distr.
Qed.

Lemma ends_with_app r p : ends_with (r ++ p) p = true.
Proof. apply ends_with_spec. eauto. Qed.

Lemma contains_char_spec s c : contains_char s c = true <-> c ∈ s.
Proof.
  unfold contains_char. rewrite existsb_exists. split.
  - intros (x & Hin & Heq). apply N.eqb_eq in Heq. subst. by apply list_elem_of_In.
  - intros H. exists c. split; [by apply list_elem_of_In|apply N.eqb_refl].
Qed.

Lemma contains_char_false s c : contains_char s c = false <-> c ∉ s.
Proof.
  rewrite <- contains_char_spec. destruct (contains_char s c); intuition congruence.
Qed.

#[export] Hint Resolve starts_with_app starts_with_refl ends_with_app str_eqb_refl : rstr.

(** ** Facts: lengths *)

Lemma len_utf8_pos c : 1 <= len_utf8 c <= 4.
Proof. unfold len_utf8. repeat case_match; lia. Qed.

Lemma str_len_app a b : str_len (a ++ b) = str_len a + str_len b.
Proof. induction a as [|c a IH]; cbn; [done|]. rewrite IH. lia. Qed.

Lemma str_len_length s : N.of_nat (List.length s) <= str_len s.
Proof.
  induction s as [|c s IH]; cbn [List.length str_len]; [lia|].
  pose proof (len_utf8_pos c). lia.
Qed.

Lemma str_len_ascii s : is_ascii s -> str_len s = N.of_nat (List.length s).
Proof.
  induction 1 as [|c s Hc Hs IH]; cbn [List.length str_len]; [lia|].
  rewrite IH. unfold len_utf8.
  destruct (c <? 128) eqn:E; brefl; lia.
Qed.

(** ** Facts: [drop_while] and trimming *)

Lemma drop_while_id f s : (forall c r, s = c :: r -> f c = false) -> drop_while f s = s.
Proof. destruct s as [|c r]; cbn; [done|]. intros H. by rewrite (H c r). Qed.

Lemma drop_while_head f s c r : drop_while f s = c :: r -> f c = false.
Proof.
  induction s as [|d s IH]; cbn; [done|]. destruct (f d) eqn:E; [done|].
  intros H. injection H as -> ->. done.
Qed.

Lemma drop_while_idem f s : drop_while f (drop_while f s) = drop_while f s.
Proof.
  apply drop_while_id. intros c r H. eauto using drop_while_head.
Qed.

Lemma drop_while_split f s : exists w, s = w ++ drop_while f s /\ Forall (fun c => f c = true) w.
Proof.
  induction s as [|d s (w & Hw & HF)]; cbn; [exists []; by split|].
  destruct (f d) eqn:E.
  - exists (d :: w). cbn. rewrite <- Hw. split; auto.
  - exists []. by split.
Qed.

Lemma drop_while_app f w s :
  Forall (fun c => f c = true) w -> drop_while f (w ++ s) = drop_while f s.
Proof. induction 1 as [|c w Hc Hw IH]; cbn; [done|]. by rewrite Hc. Qed.

Lemma drop_while_all f w : Forall (fun c => f c = true) w -> drop_while f w = [].
Proof. intros H. rewrite <- (app_nil_r w), drop_while_app by done. done. Qed.

Lemma drop_while_app_nonempty f s t :
  drop_while f s <> [] -> drop_while f (s ++ t) = drop_while f s ++ t.
Proof.
  induction s as [|c s IH]; cbn; [done|]. destruct (f c); auto.
Qed.

Lemma drop_while_length f s : (List.length (drop_while f s) <= List.length s)%nat.
Proof. induction s as [|c s IH]; cbn; [lia|]. destruct (f c); cbn; lia. Qed.

Lemma drop_while_Forall (P : char -> Prop) f s : Forall P s -> Forall P (drop_while f s).
Proof. induction 1; cbn; auto. destruct (f x); auto. Qed.

Lemma trim_end_by_split f s :
  exists w, s = trim_end_by f s ++ w /\ Forall (fun c => f c = true) w.
Proof.
  unfold trim_end_by. destruct (drop_while_split f (rev s)) as (w & Hw & HF).
  exists (rev w). split.
  - rewrite <- rev_app_distr, <- Hw. by rewrite rev_involutive.
  - by apply Forall_rev.
Qed.

Lemma trim_end_by_app f s w :
  Forall (fun c => f c = true) w -> trim_end_by f (s ++ w) = trim_end_by f s.
Proof.
  intros H. unfold trim_end_by. rewrite rev_app_distr, drop_while_app; [done|].
  by apply Forall_rev.
Qed.

Lemma trim_end_by_idem f s : trim_end_by f (trim_end_by f s) = trim_end_by f s.
Proof. unfold trim_end_by. by rewrite rev_involutive, drop_while_idem. Qed.

Lemma trim_end_by_Forall (P : char -> Prop) f s : Forall P s -> Forall P (trim_end_by f s).
Proof.
  intros H. unfold trim_end_by. apply Forall_rev, drop_while_Forall, Forall_rev, H.
Qed.

Lemma trim_end_by_last f s c : f c = false -> trim_end_by f (s ++ [c]) = s ++ [c].
Proof.
  intros H. unfold trim_end_by. rewrite rev_app_distr. cbn. rewrite H.
  cbn. by rewrite rev_involutive.
Qed.

(** A string with no white space at either end. *)
Definition trimmed (s : str) : Prop := trim s = s.

Lemma trim_end_by_cons_ne f c s :
  f c = false -> trim_end_by f (c :: s) = c :: trim_end_by f s.
Proof.
  intros H. unfold trim_end_by. cbn [rev].
  destruct (drop_while f (rev s)) as [|d r] eqn:E.
  - destruct (drop_while_split f (rev s)) as (w & Hw & HF).
    rewrite E, app_nil_r in Hw. rewrite Hw, drop_while_app by done.
    cbn. by rewrite H.
  - rewrite drop_while_app_nonempty by (rewrite E; done). rewrite E.
    by rewrite rev_app_distr.
Qed.

Lemma trim_start_head_trim_end f s c r :
  drop_while f s = c :: r -> drop_while f (trim_end_by f (drop_while f s)) = trim_end_by f (drop_while f s).
Proof.
  intros H. pose proof (drop_while_head _ _ _ _ H) as Hc. rewrite H.
  rewrite trim_end_by_cons_ne by done. cbn. by rewrite Hc.
Qed.

Lemma trim_start_trim s : trim_start (trim s) = trim s.
Proof.
  unfold trim, trim_start, trim_end, trim_start_by.
  destruct (drop_while is_whitespace s) as [|c r] eqn:E; [done|].
  rewrite <- E. eauto using trim_start_head_trim_end.
Qed.

Lemma trim_end_trim s : trim_end (trim s) = trim s.
Proof. apply trim_end_by_idem. Qed.

Lemma trim_trimmed s : trimmed (trim s).
Proof.
  unfold trimmed. unfold trim at 1. rewrite trim_start_trim. apply trim_end_trim.
Qed.

Lemma trim_idem s : trim (trim s) = trim s.
Proof. apply trim_trimmed. Qed.

Lemma trim_app_l w s :
  Forall (fun c => is_whitespace c = true) w -> trim (w ++ s) = trim s.
Proof. intros. unfold trim, trim_start, trim_start_by. by rewrite drop_while_app. Qed.

Lemma trim_app_r s w :
  Forall (fun c => is_whitespace c = true) w -> trim (s ++ w) = trim s.
Proof.
  intros H. unfold trim, trim_start, trim_start_by, trim_end.
  destruct (decide (drop_while is_whitespace s = [])) as [E|E].
  - destruct (drop_while_split is_whitespace s) as (v & Hv & HF).
    rewrite E, app_nil_r in Hv. rewrite Hv, drop_while_app by done.
    rewrite (drop_while_all _ v) by done. by rewrite drop_while_all.
  - rewrite drop_while_app_nonempty by done. by apply trim_end_by_app.
Qed.

Lemma trim_nil_iff s : trim s = [] <-> Forall (fun c => is_whitespace c = true) s.
Proof.
  split.
  - unfold trim, trim_start, trim_start_by, trim_end.
    destruct (drop_while is_whitespace s) as [|c r] eqn:E.
    + destruct (drop_while_split is_whitespace s) as (w & Hw & HF).
      rewrite E, app_nil_r in Hw. by subst w.
    + rewrite trim_end_by_cons_ne by eauto using drop_while_head. done.
  - intros H. rewrite <- (app_nil_r s), trim_app_l by done. done.
Qed.

(** ** Facts: ASCII case *)

Lemma is_whitespace_ascii_lower c : is_whitespace (ascii_lower c) = is_whitespace c.
Proof.
  unfold ascii_lower. destruct (is_ascii_upper c) eqn:E; [|done].
  unfold is_ascii_upper in E. brefl.
  assert (Hrange : forall d, 65 <= d <= 122 -> is_whitespace d = false).
  { intros d Hd. unfold is_whitespace. repeat (apply orb_false_iff; split);
      rewrite ?andb_false_iff, ?N.eqb_neq, ?N.leb_gt; lia. }
  rewrite !Hrange; lia || done.
Qed.

Lemma drop_while_map (f : char -> bool) (g : char -> char) s :
  (forall c, f (g c) = f c) -> drop_while f (map g s) = map g (drop_while f s).
Proof.
  intros H. induction s as [|c s IH]; cbn; [done|]. rewrite H. by destruct (f c).
Qed.

Lemma trim_to_ascii_lowercase s : trim (to_ascii_lowercase s) = to_ascii_lowercase (trim s).
Proof.
  unfold trim, trim_start, trim_end, trim_start_by, trim_end_by, to_ascii_lowercase.
  rewrite (drop_while_map _ _ s) by apply is_whitespace_ascii_lower.
  rewrite <- map_rev, (drop_while_map _ _ (rev _)) by apply is_whitespace_ascii_lower.
  by rewrite map_rev.
Qed.

Lemma split_by_none f (s : str) : Forall (fun c => f c = false) s -> split_by f s = [s].
Proof. induction 1 as [|c s Hc _ IH]; cbn; [done|]. by rewrite Hc, IH. Qed.
Lemma split_by_nonempty f (s : str) : split_by f s <> [].
Proof. destruct s as [|c s]; cbn; [done|]. destruct (f c); [done|]. by destruct (split_by f s). Qed.

#[export] Hint Resolve trim_trimmed : rstr.
#[export] Hint Rewrite trim_idem trim_start_trim trim_end_trim str_eqb_refl : rstr.
