(* ===== verification/Json.v ===== *)
(** * [serde_json::Value]

    JSON values as the sources see them: the [Value] enum, the accessors
    ([as_str], [as_i64], [get], ...) and the object map.  [serde_json::Map] is a
    [BTreeMap] keyed by string (the [preserve_order] feature is off), so an
    object is an association list kept sorted by key; [map_insert] replaces the
    value of an existing key.  Integers are exact; a float is carried by its
    printed text.  Parsing and printing belong to [serde_json]: the class
    [JsonCodec] gives them as functions. *)

From S2P Require Import Prelude RustStr.
#[local] Open Scope Z_scope.

Inductive number : Type :=
| NInt (z : Z)
| NFloat (text : str).

Inductive value : Type :=
| VNull
| VBool (b : bool)
| VNumber (n : number)
| VString (s : str)
| VArray (l : list value)
| VObject (m : list (str * value)).

Abbreviation object := (list (list N * value)) (only parsing).

#[global] Instance number_eq_dec : EqDecision number.
Proof. solve_decision. Defined.

(** Induction over nested values. *)
Section value_ind.
Variable P : value -> Prop.
Hypothesis HNull : P VNull.
Hypothesis HBool : forall b, P (VBool b).
Hypothesis HNumber : forall n, P (VNumber n).
Hypothesis HString : forall s, P (VString s).
Hypothesis HArray : forall l, Forall P l -> P (VArray l).
Hypothesis HObject : forall m, Forall (fun kv => P kv.2) m -> P (VObject m).

Fixpoint value_nested_ind (v : value) : P v :=
  match v with
  | VNull => HNull
  | VBool b => HBool b
  | VNumber n => HNumber n
  | VString s => HString s
  | VArray l =>
      HArray l ((fix go l := match l return Forall P l with
                             | [] => List.Forall_nil _
                             | x :: r => List.Forall_cons _ x r (value_nested_ind x) (go r)
                             end) l)
  | VObject m =>
      HObject m ((fix go m := match m return Forall (fun kv => P kv.2) m with
                              | [] => List.Forall_nil _
                              | x :: r => List.Forall_cons _ x r (value_nested_ind x.2) (go r)
                              end) m)
  end.
End value_ind.

(** [PartialEq for Value]. *)
Fixpoint value_eqb (a b : value) : bool :=
  match a, b with
  | VNull, VNull => true
  | VBool x, VBool y => Bool.eqb x y
  | VNumber x, VNumber y => bool_decide (x = y)
  | VString x, VString y => str_eqb x y
  | VArray x, VArray y =>
      (fix go x y := match x, y with
                     | [], [] => true
                     | u :: x', v :: y' => (value_eqb u v && go x' y')%bool
                     | _, _ => false
                     end) x y
  | VObject x, VObject y =>
      (fix go (x y : object) :=
         match x, y with
         | [], [] => true
         | (k, u) :: x', (l, v) :: y' => (str_eqb k l && value_eqb u v && go x' y')%bool
         | _, _ => false
         end) x y
  | _, _ => false
  end.

Lemma value_eqb_eq a b : value_eqb a b = true <-> a = b.
Proof.
  revert b. induction a as [| |n|s|l IH|m IH] using value_nested_ind;
    intros [| |n'|s'|l'|m']; cbn; try (split; [done|intros [=]; fail]);
    try (split; congruence).
  - rewrite Bool.eqb_true_iff. split; congruence.
  - rewrite bool_decide_eq_true. split; congruence.
  - rewrite str_eqb_eq. split; congruence.
  - revert l'. induction IH as [|x l Hx Hl IHl]; intros [|y l']; try (split; congruence).
    rewrite andb_true_iff, Hx, IHl. split; [intros [-> [= ->]]|intros [= -> ->]]; done.
  - revert m'. induction IH as [|[k x] m Hx Hm IHm]; intros [|[k' y] m']; cbn in *;
      try (split; congruence).
    rewrite !andb_true_iff, str_eqb_eq, Hx, IHm.
    split; [intros [[-> ->] [= ->]]|intros [= -> -> ->]]; done.
Qed.

#[global] Instance value_eq_dec : EqDecision value.
Proof.
  intros a b. destruct (value_eqb a b) eqn:E.
  - left. by apply value_eqb_eq.
  - right. intros ->. rewrite (proj2 (value_eqb_eq b b) eq_refl) in E. discriminate.
Defined.

(** ** Accessors *)

Definition as_str (v : value) : option str :=
  match v with VString s => Some s | _ => None end.
Definition as_object (v : value) : option object :=
  match v with VObject m => Some m | _ => None end.
Definition as_array (v : value) : option (list value) :=
  match v with VArray l => Some l | _ => None end.
Definition as_bool (v : value) : option bool :=
  match v with VBool b => Some b | _ => None end.
Definition i64_min : Z := - 2 ^ 63.
Definition i64_max : Z := 2 ^ 63 - 1.
Definition as_i64 (v : value) : option Z :=
  match v with
  | VNumber (NInt z) => if (i64_min <=? z) && (z <=? i64_max) then Some z else None
  | _ => None
  end%bool.
Definition as_u64 (v : value) : option Z :=
  match v with
  | VNumber (NInt z) => if (0 <=? z) && (z <? 2 ^ 64) then Some z else None
  | _ => None
  end%bool.
Definition is_null (v : value) : bool := match v with VNull => true | _ => false end.
Definition is_string (v : value) : bool := match v with VString _ => true | _ => false end.
Definition is_boolean (v : value) : bool := match v with VBool _ => true | _ => false end.
Definition is_object (v : value) : bool := match v with VObject _ => true | _ => false end.

(** ** Objects: a [BTreeMap<String, Value>] *)

Fixpoint str_compare (a b : str) : comparison :=
  match a, b with
  | [], [] => Eq
  | [], _ => Lt
  | _, [] => Gt
  | x :: a', y :: b' =>
      match (x ?= y)%N with Eq => str_compare a' b' | c => c end
  end.

Fixpoint map_get (m : object) (k : str) : option value :=
  match m with
  | [] => None
  | (l, v) :: r => if str_eqb k l then Some v else map_get r k
  end.
Definition contains_key (m : object) (k : str) : bool := negb (is_none (map_get m k)).
Fixpoint map_insert (k : str) (v : value) (m : object) : object :=
  match m with
  | [] => [(k, v)]
  | (l, w) :: r =>
      match str_compare k l with
      | Lt => (k, v) :: m
      | Eq => (k, v) :: r
      | Gt => (l, w) :: map_insert k v r
      end
  end.

(** [json!({ k1: v1, ... })]. *)
Definition obj_of (l : object) : object := foldl (fun m kv => map_insert kv.1 kv.2 m) [] l.
Definition json (l : object) : value := VObject (obj_of l).

(** [Value::get(key)]: [None] on anything but an object. *)
Definition vget (v : value) (k : str) : option value :=
  match v with VObject m => map_get m k | _ => None end.

(** Parsing and printing of [serde_json], as functions on text; what is relied
    on is stated where it is used. *)
Class JsonCodec := {
  from_str : str -> option value;
  to_string : value -> str;
  to_string_pretty : value -> str;
}.

(** ** Facts *)

Lemma str_compare_eq a b : str_compare a b = Eq <-> a = b.
Proof.
  revert b. induction a as [|x a IH]; intros [|y b]; cbn; try (split; congruence).
  destruct (x ?= y)%N eqn:E.
  - apply N.compare_eq in E. subst. rewrite IH. split; congruence.
  - split; [done|]. intros [= -> ->]. by rewrite N.compare_refl in E.
  - split; [done|]. intros [= -> ->]. by rewrite N.compare_refl in E.
Qed.

Lemma map_get_insert_eq k v m : map_get (map_insert k v m) k = Some v.
Proof.
  induction m as [|[l w] m IH]; cbn; [by rewrite str_eqb_refl|].
  destruct (str_compare k l) eqn:E; cbn.
  - by rewrite str_eqb_refl.
  - by rewrite str_eqb_refl.
  - destruct (str_eqb k l) eqn:El; [|done].
    apply str_eqb_eq, str_compare_eq in El. congruence.
Qed.

Lemma map_get_insert_ne k k' v m : k <> k' -> map_get (map_insert k v m) k' = map_get m k'.
Proof.
  intros Hne. induction m as [|[l w] m IH]; cbn.
  - by rewrite (proj2 (str_eqb_neq k' k)) by done.
  - destruct (str_compare k l) eqn:E; cbn.
    + apply str_compare_eq in E. subst l. by rewrite (proj2 (str_eqb_neq k' k)) by done.
    + by rewrite (proj2 (str_eqb_neq k' k)) by done.
    + by rewrite IH.
Qed.

Lemma map_get_insert k k' v m :
  map_get (map_insert k v m) k' = if str_eqb k k' then Some v else map_get m k'.
Proof.
  destruct (str_eqb k k') eqn:E.
  - apply str_eqb_eq in E. subst. apply map_get_insert_eq.
  - apply str_eqb_neq in E. by apply map_get_insert_ne.
Qed.

Lemma map_get_obj_of l k m :
  map_get (foldl (fun m kv => map_insert kv.1 kv.2 m) m l) k =
  match map_get (rev l) k with Some v => Some v | None => map_get m k end.
Proof.
  revert m. induction l as [|[k' v] l IH]; intros m; cbn [foldl rev]; [done|].
  rewrite IH. cbn.
  assert (Happ : forall a b, map_get (a ++ b) k =
    match map_get a k with Some v => Some v | None => map_get b k end).
  { induction a as [|[x y] a IHa]; intros b; cbn; [done|]. by destruct (str_eqb k x). }
  rewrite Happ. destruct (map_get (rev l) k); [done|]. cbn.
  destruct (str_eqb k k') eqn:E.
  - apply str_eqb_eq in E. subst. apply map_get_insert_eq.
  - apply str_eqb_neq in E. by apply map_get_insert_ne.
Qed.

Lemma map_get_In m k v : map_get m k = Some v -> In (k, v) m.
Proof.
  induction m as [|[l w] m IH]; cbn; [done|].
  destruct (str_eqb k l) eqn:E.
  - apply str_eqb_eq in E. intros [= ->]. subst. auto.
  - auto.
Qed.

(** Evaluate lookups of literal keys in objects built by [json]. *)
Ltac json_eval :=
  unfold json, vget, obj_of; rewrite ?map_get_obj_of;
  cbn [rev app map_get fst snd]; eval_lits; cbn [mbind option_bind option_fmap fmap].
