(* ===== verification/McpGates.v ===== *)
(** * MCP gates (src/mcp/gates.rs)

    Which tool calls of an agent are allowed, denied or sent to the user: the
    wildcard language of gate patterns, matching of a pattern object against
    the call's arguments, and the first-match policy over the ordered gates. *)

From S2P Require Import Prelude RustStr Json.
#[local] Open Scope bool_scope.

(** [models::GateAction] and [models::McpGate]; identifiers (UUIDs) are
    numbers. *)
Inductive GateAction : Type := AutoAllow | Require | Deny.

#[global] Instance GateAction_eq_dec : EqDecision GateAction.
Proof. solve_decision. Defined.

Record McpGate : Type := mkMcpGate {
  gate_id : N;
  gate_tool : str;
  arg_pattern : option str;
  gate_action : GateAction;
  gate_note : option str;
  gate_created_at : Z;
}.

Inductive GateDecision : Type :=
| DAutoAllow (gate : option N)
| DDeny (gate : option N)
| DRequire (gate : option N).

#[global] Instance GateDecision_eq_dec : EqDecision GateDecision.
Proof. solve_decision. Defined.

Definition STAR : N := 42%N.

(** [str::split_once]. *)
Fixpoint split_once (s : str) (c : N) : option (str * str) :=
  match s with
  | [] => None
  | d :: r => if (c =? d)%N then Some ([], r)
              else match split_once r c with
                   | Some (a, b) => Some (d :: a, b)
                   | None => None
                   end
  end.

(** [s.matches(c).count()]. *)
Definition count_char (c : N) (s : str) : nat := List.length (List.filter (N.eqb c) s).

Definition wildcard_matches (pattern actual : str) : bool :=
  if str_eqb pattern [STAR] then true
  else if negb (Nat.eqb (count_char STAR pattern) 1) then false
  else match split_once pattern STAR with
       | None => false
       | Some (prefix, suffix) =>
           starts_with actual prefix && ends_with actual suffix
           && (str_len prefix + str_len suffix <=? str_len actual)%N
       end.

Definition value_matches (expected actual : value) : bool :=
  match as_str expected, as_str actual with
  | Some pattern, Some s =>
      if contains_char pattern STAR then wildcard_matches pattern s
      else value_eqb expected actual
  | _, _ => value_eqb expected actual
  end.

Definition pattern_matches (pattern args : value) : bool :=
  match as_object pattern, as_object args with
  | Some p, Some a =>
      forallb (fun '(field, expected) =>
                 match map_get a field with
                 | Some actual => value_matches expected actual
                 | None => false
                 end) p
  | _, _ => false
  end.

Definition gate_matches `{JsonCodec} (gate : McpGate) (args : value) : bool :=
  match arg_pattern gate with
  | None => true
  | Some text =>
      match from_str text with
      | Some pattern => pattern_matches pattern args
      | None => false
      end
  end.

Fixpoint decide_gates `{JsonCodec} (gates : list McpGate) (args : value) : GateDecision :=
  match gates with
  | [] => DRequire None
  | gate :: rest =>
      if gate_matches gate args then
        match gate_action gate with
        | AutoAllow => DAutoAllow (Some (gate_id gate))
        | Deny => DDeny (Some (gate_id gate))
        | Require => DRequire (Some (gate_id gate))
        end
      else decide_gates rest args
  end.

(** ** The wildcard language *)

Lemma split_once_None s c : split_once s c = None <-> c ∉ s.
Proof.
  induction s as [|d s IH]; cbn; [split; [intros _; apply not_elem_of_nil|done]|].
  rewrite not_elem_of_cons. destruct (c =? d)%N eqn:E.
  - apply N.eqb_eq in E. split; [done|]. intros []; congruence.
  - apply N.eqb_neq in E. destruct (split_once s c) as [[a b]|]; [|tauto].
    split; [done|]. intros [_ H]. apply IH in H. done.
Qed.

Lemma split_once_Some s c a b :
  split_once s c = Some (a, b) <-> s = a ++ c :: b /\ c ∉ a.
Proof.
  revert a. induction s as [|d s IH]; intros a; cbn.
  - split; [done|]. intros [H _]. by destruct a.
  - destruct (c =? d)%N eqn:E.
    + apply N.eqb_eq in E. subst d. split.
      * intros [= <- <-]. split; [done|apply not_elem_of_nil].
      * intros [H Ha]. destruct a as [|x a]; [by injection H as ->|].
        injection H as -> ->. destruct Ha. apply list_elem_of_here.
    + apply N.eqb_neq in E.
      assert (Hcons : forall x a0, d :: s = (x :: a0) ++ c :: b /\ c ∉ x :: a0 <->
                        x = d /\ s = a0 ++ c :: b /\ c ∉ a0).
      { intros x a0. rewrite not_elem_of_cons. split.
        - intros [[= -> ->] []]. done.
        - intros (-> & -> & ?). done. }
      destruct a as [|x a].
      * split; [by destruct (split_once s c) as [[]|]|]. intros [[= -> _] _]. done.
      * rewrite Hcons, <- IH. destruct (split_once s c) as [[a' b']|].
        -- split; [intros [= -> -> ->]|intros (-> & [= -> ->])]; done.
        -- split; [done|]. intros (_ & [=]).
Qed.

Lemma count_char_app c a b : count_char c (a ++ b) = (count_char c a + count_char c b)%nat.
Proof. unfold count_char. by rewrite List.filter_app, length_app. Qed.

Lemma count_char_0 c s : count_char c s = 0%nat <-> c ∉ s.
Proof.
  induction s as [|d s IH]; [split; [intros _; apply not_elem_of_nil|done]|].
  unfold count_char in *. cbn. rewrite not_elem_of_cons.
  destruct (c =? d)%N eqn:E; brefl; cbn; [|tauto].
  split; [done|]. intros []; congruence.
Qed.

Lemma prefix_suffix_split (p q s : str) :
  starts_with s p = true -> ends_with s q = true -> (str_len p + str_len q <= str_len s)%N ->
  exists m, s = p ++ m ++ q.
Proof.
  intros [r ->]%starts_with_spec [l Hl]%ends_with_spec Hlen.
  rewrite str_len_app in Hlen.
  assert (Hr : (List.length q <= List.length r)%nat).
  { destruct (decide (List.length r < List.length q)%nat) as [Hlt|]; [|lia].
    assert (exists d, q = d ++ r /\ d <> []) as (d & -> & Hd).
    { exists (take (List.length q - List.length r) q).
      assert (Hq : drop (List.length q - List.length r) q = r).
      { assert (H : drop (List.length (p ++ r) - List.length r) (p ++ r) = r).
        { rewrite length_app. replace (_ + _ - _)%nat with (List.length p) by lia.
          by rewrite drop_app_length. }
        rewrite Hl in H. rewrite <- H at 2. rewrite length_app.
        rewrite drop_app_ge by lia. f_equal. lia. }
      split.
      { rewrite <- (take_drop (List.length q - List.length r) q) at 1. by rewrite Hq. }
      intros Hnil. apply (f_equal List.length) in Hnil. rewrite length_take in Hnil.
      cbn in Hnil. lia. }
    rewrite str_len_app in Hlen. destruct d as [|x d]; [done|].
    cbn [str_len] in Hlen. pose proof (len_utf8_pos x). lia. }
  exists (take (List.length r - List.length q) r).
  rewrite <- (take_drop (List.length r - List.length q) r) at 1. do 2 f_equal.
  assert (H : drop (List.length (l ++ q) - List.length q) (l ++ q) = q).
  { rewrite length_app. replace (_ + _ - _)%nat with (List.length l) by lia.
    by rewrite drop_app_length. }
  rewrite <- Hl in H. rewrite length_app, drop_app_ge in H by lia.
  etransitivity; [|exact H]. f_equal. lia.
Qed.

(** The glob of a pattern with one star: what the gate's author writes. *)
Definition glob (pattern actual : str) : Prop :=
  exists prefix suffix middle,
    pattern = prefix ++ STAR :: suffix /\ STAR ∉ prefix /\ STAR ∉ suffix /\
    actual = prefix ++ middle ++ suffix.

Lemma wildcard_matches_glob pattern actual :
  wildcard_matches pattern actual = true <-> glob pattern actual.
Proof.
  unfold wildcard_matches, glob. destruct (str_eqb pattern [STAR]) eqn:Es.
  - apply str_eqb_eq in Es. split; [intros _|done].
    exists [], [], actual. rewrite app_nil_r. repeat split; auto using not_elem_of_nil.
  - destruct (split_once pattern STAR) as [[p q]|] eqn:Ep.
    + apply split_once_Some in Ep as [-> Hp].
      assert (Hc : count_char STAR (p ++ STAR :: q) = S (count_char STAR q)).
      { rewrite count_char_app, (proj2 (count_char_0 STAR p) Hp). reflexivity. }
      rewrite Hc. change (Nat.eqb (S ?x) 1) with (Nat.eqb x 0).
      destruct (Nat.eqb (count_char STAR q) 0) eqn:Eq; cbn [negb]; brefl.
      * apply count_char_0 in Eq. rewrite !andb_true_iff, N.leb_le. split.
        -- intros [[Hs He] Hl]. destruct (prefix_suffix_split p q actual) as [m ->]; auto.
           exists p, q, m. done.
        -- intros (p' & q' & m & Heq & Hp' & Hq' & ->).
           assert (split_once (p ++ STAR :: q) STAR = Some (p', q')) as H
             by (apply split_once_Some; done).
           rewrite (proj2 (split_once_Some _ _ p q)) in H by done. injection H as <- <-.
           rewrite starts_with_app, app_assoc, ends_with_app, !str_len_app. intuition lia.
      * split; [done|]. intros (p' & q' & m & Heq & Hp' & Hq' & ->). exfalso.
        assert (split_once (p ++ STAR :: q) STAR = Some (p', q')) as H
          by (apply split_once_Some; done).
        rewrite (proj2 (split_once_Some _ _ p q)) in H by done. injection H as <- <-.
        by apply Eq, count_char_0.
    + apply split_once_None in Ep.
      rewrite (proj2 (count_char_0 STAR pattern) Ep). cbn. split; [done|].
      intros (p' & q' & m & -> & _). destruct Ep. apply elem_of_app. right.
      apply list_elem_of_here.
Qed.

(** What a pattern field asks of the actual argument: a string pattern with a
    star matches a string by [glob]; anything else is equality of values. *)
Definition field_ok (expected actual : value) : Prop :=
  match expected, actual with
  | VString p, VString s => if contains_char p STAR then glob p s else p = s
  | _, _ => expected = actual
  end.

Lemma value_matches_ok expected actual :
  value_matches expected actual = true <-> field_ok expected actual.
Proof.
  unfold value_matches, field_ok.
  destruct expected as [| | |p| |], actual as [| | |s| |]; cbn [as_str];
    try apply value_eqb_eq.
  destruct (contains_char p STAR); [apply wildcard_matches_glob|].
  rewrite value_eqb_eq. split; congruence.
Qed.

(** ** Gates *)

Section gates.
Context `{JsonCodec}.

(** What it means for a gate to apply to a call. *)
Definition gate_applies (gate : McpGate) (args : value) : Prop :=
  arg_pattern gate = None \/
  exists text pattern fields,
    arg_pattern gate = Some text /\ from_str text = Some (VObject pattern) /\
    args = VObject fields /\
    forall field expected, In (field, expected) pattern ->
      exists actual, map_get fields field = Some actual /\ field_ok expected actual.

Lemma pattern_matches_ok pattern args :
  pattern_matches pattern args = true <->
  exists p a, pattern = VObject p /\ args = VObject a /\
    forall field expected, In (field, expected) p ->
      exists actual, map_get a field = Some actual /\ field_ok expected actual.
Proof.
  unfold pattern_matches.
  destruct pattern as [| | | | |p], args as [| | | | |a]; cbn [as_object];
    try (split; [done|intros (? & ? & ? & ? & ?); congruence]).
  rewrite forallb_forall. split.
  - intros Hall. exists p, a. do 2 (split; [done|]). intros f e Hin.
    specialize (Hall (f, e) Hin). cbn in Hall. destruct (map_get a f) as [v|]; [|done].
    exists v. split; [done|]. by apply value_matches_ok.
  - intros (p' & a' & [= <-] & [= <-] & Hall) [f e] Hin.
    destruct (Hall f e Hin) as (v & -> & Hv). by apply value_matches_ok.
Qed.

Lemma gate_matches_ok gate args :
  gate_matches gate args = true <-> gate_applies gate args.
Proof.
  unfold gate_matches, gate_applies. destruct (arg_pattern gate) as [text|].
  - destruct (from_str text) as [p|] eqn:E.
    + rewrite pattern_matches_ok. split.
      * intros (p' & a & -> & -> & Hall). right. exists text, p', a. done.
      * intros [[=]|(t & p' & a & [= <-] & Hp & -> & Hall)].
        rewrite E in Hp. injection Hp as ->. exists p', a. done.
    + split; [done|]. intros [[=]|(t & p' & a & [= <-] & Hp & _)]. congruence.
  - split; auto.
Qed.

Definition decision_of (gate : McpGate) : GateDecision :=
  match gate_action gate with
  | AutoAllow => DAutoAllow (Some (gate_id gate))
  | Deny => DDeny (Some (gate_id gate))
  | Require => DRequire (Some (gate_id gate))
  end.

(** First match wins: the decision is that of the first gate that applies,
    and a call no gate applies to needs the user's approval. *)
Theorem decide_gates_first_match gates args d :
  decide_gates gates args = d <->
  (exists before gate after,
      gates = before ++ gate :: after /\
      Forall (fun g => ~ gate_applies g args) before /\
      gate_applies gate args /\ d = decision_of gate)
  \/ (Forall (fun g => ~ gate_applies g args) gates /\ d = DRequire None).
Proof.
  assert (Hdec : forall g, gate_matches g args = false <-> ~ gate_applies g args).
  { intros g. rewrite <- gate_matches_ok. symmetry. apply not_true_iff_false. }
  induction gates as [|g gates IH]; cbn.
  - split; [intros <-; right; auto|].
    intros [(b & g & a & Heq & _)|[_ ->]]; [by destruct b|done].
  - destruct (gate_matches g args) eqn:E.
    + pose proof (proj1 (gate_matches_ok g args) E) as Ha.
      fold (decision_of g). split.
      * intros <-. left. exists [], g, gates. auto.
      * intros [(b & g' & a & Heq & Hb & _ & ->)|[HF _]].
        -- destruct b as [|x b]; [by injection Heq as -> _|].
           injection Heq as -> _. by inversion Hb.
        -- by inversion HF.
    + apply Hdec in E. rewrite IH. split.
      * intros [(b & g' & a & -> & Hb & Hg & ->)|[HF ->]].
        -- left. exists (g :: b), g', a. auto.
        -- right. auto.
      * intros [(b & g' & a & Heq & Hb & Hg & ->)|[HF ->]].
        -- destruct b as [|x b]; injection Heq as -> ->; [done|].
           left. inversion Hb; subst. exists b, g', a. auto.
        -- right. inversion HF; subst. auto.
Qed.

(** Consequence used by the bridge: an automatic allow names a gate of the list
    whose action is [AutoAllow] and which applies. *)
Lemma decide_gates_auto_allow gates args id :
  decide_gates gates args = DAutoAllow id ->
  exists gate, In gate gates /\ gate_action gate = AutoAllow /\
    gate_applies gate args /\ id = Some (gate_id gate).
Proof.
  induction gates as [|g gates IH]; cbn; [done|].
  destruct (gate_matches g args) eqn:E.
  - destruct (gate_action g) eqn:Ea; [|done..]. intros [= <-].
    exists g. rewrite <- gate_matches_ok. auto.
  - intros Hd. destruct (IH Hd) as (g' & ? & ?). eauto.
Qed.
(** C17. A gate applies to a call exactly when it has no pattern, or its pattern
    text parses to a JSON object, the arguments are an object, and every field
    of the pattern is present in the arguments with an acceptable value (equal,
    or matching the one-star glob).  In particular a gate whose pattern text is
    malformed or is not an object applies to no call. *)
Theorem gate_matches_iff_applies gate args :
  gate_matches gate args = true <-> gate_applies gate args.
Proof. apply gate_matches_ok. Qed.
End gates.

(** The hand-written matcher decides the one-star glob: it accepts a text
    exactly when the pattern has one star and the text is what is before the
    star, then anything, then what is after it, the two ends not overlapping.  A
    pattern with no star or with several matches nothing. *)
Theorem wildcard_matches_spec pattern actual :
  wildcard_matches pattern actual = true <-> glob pattern actual.
Proof. apply wildcard_matches_glob. Qed.
