(* ===== verification/Op.v ===== *)
(** * The dispatcher's vocabulary (src/daemon/op.rs)

    The closed enum of daemon operations with its wire strings and the parser
    the IPC server runs at the boundary. *)

From S2P Require Import Prelude RustStr.

Inductive Op : Type :=
| AccountList
| FolderList
| ThreadList
| MessageListByFolder
| MessageListByThread
| MessageGet
| AttachmentList
| AttachmentPreview
| Search
| SqlQuery
| SqlSchema
| AuditListRecent
| McpGateList
| McpGateCreate
| McpGateDelete
| McpApprovalCreate
| McpApprovalList
| McpApprovalGet
| McpApprovalDecide
| AccountCreate
| AccountDelete
| FolderUpsert
| MessageSetFlags
| MessageArchive
| MessageDelete
| MessageMove
| DraftCreate
| DraftUpdate
| DraftDelete
| DraftList
| DraftGet
| AttachmentExport
| MessagePrepareReply
| MessagePrepareForward
| AttachmentFetchForForward
| AttachmentFetchForForwardBatch
| MessageSend
| AccountTestLogin
| AccountSyncFolder
| AccountStartSync
| AccountStopSync
| AccountSetSecret
| AccountDeleteSecret
| OauthGoogleAuthUrl
| OauthGoogleComplete.

#[global] Instance Op_eq_dec : EqDecision Op.
Proof. solve_decision. Defined.

Definition op_as_str (op : Op) : str :=
  match op with
  | AccountList => lit "account.list"
  | FolderList => lit "folder.list"
  | ThreadList => lit "thread.list"
  | MessageListByFolder => lit "message.list_by_folder"
  | MessageListByThread => lit "message.list_by_thread"
  | MessageGet => lit "message.get"
  | AttachmentList => lit "attachment.list"
  | AttachmentPreview => lit "attachment.preview"
  | Search => lit "search"
  | SqlQuery => lit "sql.query"
  | SqlSchema => lit "sql.schema"
  | AuditListRecent => lit "audit.list_recent"
  | McpGateList => lit "mcp.gate.list"
  | McpGateCreate => lit "mcp.gate.create"
  | McpGateDelete => lit "mcp.gate.delete"
  | McpApprovalCreate => lit "mcp.approval.create"
  | McpApprovalList => lit "mcp.approval.list"
  | McpApprovalGet => lit "mcp.approval.get"
  | McpApprovalDecide => lit "mcp.approval.decide"
  | AccountCreate => lit "account.create"
  | AccountDelete => lit "account.delete"
  | FolderUpsert => lit "folder.upsert"
  | MessageSetFlags => lit "message.set_flags"
  | MessageArchive => lit "message.archive"
  | MessageDelete => lit "message.delete"
  | MessageMove => lit "message.move"
  | DraftCreate => lit "draft.create"
  | DraftUpdate => lit "draft.update"
  | DraftDelete => lit "draft.delete"
  | DraftList => lit "draft.list"
  | DraftGet => lit "draft.get"
  | AttachmentExport => lit "attachment.export"
  | MessagePrepareReply => lit "message.prepare_reply"
  | MessagePrepareForward => lit "message.prepare_forward"
  | AttachmentFetchForForward => lit "attachment.fetch_for_forward"
  | AttachmentFetchForForwardBatch => lit "attachment.fetch_for_forward_batch"
  | MessageSend => lit "message.send"
  | AccountTestLogin => lit "account.test_login"
  | AccountSyncFolder => lit "account.sync_folder"
  | AccountStartSync => lit "account.start_sync"
  | AccountStopSync => lit "account.stop_sync"
  | AccountSetSecret => lit "account.set_secret"
  | AccountDeleteSecret => lit "account.delete_secret"
  | OauthGoogleAuthUrl => lit "oauth.google.auth_url"
  | OauthGoogleComplete => lit "oauth.google.complete"
  end.

(** [Op::from_str]: the arms in source order; [None] is [ParseOpError]. *)
Definition op_arms : list (str * Op) :=
  [ (lit "account.list", AccountList);
    (lit "folder.list", FolderList);
    (lit "thread.list", ThreadList);
    (lit "message.list_by_folder", MessageListByFolder);
    (lit "message.list_by_thread", MessageListByThread);
    (lit "message.get", MessageGet);
    (lit "attachment.list", AttachmentList);
    (lit "attachment.preview", AttachmentPreview);
    (lit "search", Search);
    (lit "sql.query", SqlQuery);
    (lit "sql.schema", SqlSchema);
    (lit "audit.list_recent", AuditListRecent);
    (lit "mcp.gate.list", McpGateList);
    (lit "mcp.gate.create", McpGateCreate);
    (lit "mcp.gate.delete", McpGateDelete);
    (lit "mcp.approval.create", McpApprovalCreate);
    (lit "mcp.approval.list", McpApprovalList);
    (lit "mcp.approval.get", McpApprovalGet);
    (lit "mcp.approval.decide", McpApprovalDecide);
    (lit "account.create", AccountCreate);
    (lit "account.delete", AccountDelete);
    (lit "folder.upsert", FolderUpsert);
    (lit "message.set_flags", MessageSetFlags);
    (lit "message.archive", MessageArchive);
    (lit "message.delete", MessageDelete);
    (lit "message.move", MessageMove);
    (lit "draft.create", DraftCreate);
    (lit "draft.update", DraftUpdate);
    (lit "draft.delete", DraftDelete);
    (lit "draft.list", DraftList);
    (lit "draft.get", DraftGet);
    (lit "attachment.export", AttachmentExport);
    (lit "message.prepare_reply", MessagePrepareReply);
    (lit "message.prepare_forward", MessagePrepareForward);
    (lit "attachment.fetch_for_forward", AttachmentFetchForForward);
    (lit "attachment.fetch_for_forward_batch", AttachmentFetchForForwardBatch);
    (lit "message.send", MessageSend);
    (lit "account.test_login", AccountTestLogin);
    (lit "account.sync_folder", AccountSyncFolder);
    (lit "account.start_sync", AccountStartSync);
    (lit "account.stop_sync", AccountStopSync);
    (lit "account.set_secret", AccountSetSecret);
    (lit "account.delete_secret", AccountDeleteSecret);
    (lit "oauth.google.auth_url", OauthGoogleAuthUrl);
    (lit "oauth.google.complete", OauthGoogleComplete) ].

Fixpoint match_str {A} (arms : list (str * A)) (s : str) : option A :=
  match arms with
  | [] => None
  | (k, a) :: rest => if str_eqb s k then Some a else match_str rest s
  end.

Definition op_from_str (s : str) : option Op := match_str op_arms s.

Lemma match_str_In {A} (arms : list (str * A)) s a :
  match_str arms s = Some a -> In (s, a) arms.
Proof.
  induction arms as [|[k b] arms IH]; cbn; [done|].
  destruct (str_eqb s k) eqn:E; [|auto].
  apply str_eqb_eq in E. intros [= ->]. subst. auto.
Qed.

(** Finite tables are compared by evaluation. *)
Lemma op_arms_sound : Forall (fun p => p.1 = op_as_str p.2) op_arms.
Proof. repeat constructor. Qed.

(** The wire vocabulary is a bijection: every operation's string parses back
    to it, and a string that parses to an operation is that operation's string
    (so no two operations share a name and no alias exists). *)
Lemma op_from_str_iff s op : op_from_str s = Some op <-> s = op_as_str op.
Proof.
  split.
  - intros H. apply match_str_In in H.
    pose proof (proj1 (List.Forall_forall _ _) op_arms_sound _ H) as E. exact E.
  - intros ->. destruct op; vm_compute; reflexivity.
Qed.
