(* ===== verification/McpTools.v ===== *)
(** * MCP tools (src/mcp/tools.rs)

    The catalogue of tools, the argument validator and the JSON schema the bridge
    advertises.  A field's kind is a table of (tool, field) arms in source order,
    searched like the source's [match].  UUID and RFC-3339 parsing belong to the
    [uuid] and [chrono] crates: the class [TextParsers] gives them. *)

From S2P Require Import Prelude RustStr Json Op.
#[local] Open Scope Z_scope.
#[local] Open Scope bool_scope.

Class TextParsers := {
  uuid_parse_str : str -> option N;
  uuid_to_string : N -> str;
  parse_from_rfc3339 : str -> option Z;
  to_rfc3339 : Z -> str;
  uuid_round_trip : forall u, uuid_parse_str (uuid_to_string u) = Some u;
  rfc3339_round_trip : forall t, parse_from_rfc3339 (to_rfc3339 t) = Some t;
}.

(** A concrete instance, for examples: an identifier is a one-character string,
    a timestamp its sign and absolute value. *)
Definition plain_parsers : TextParsers.
Proof.
  refine {| uuid_parse_str s := match s with [u] => Some u | _ => None end;
            uuid_to_string u := [u];
            parse_from_rfc3339 s :=
              match s with
              | [0%N; n] => Some (Z.of_N n)
              | [1%N; n] => Some (- Z.of_N n)
              | _ => None
              end;
            to_rfc3339 t := if t <? 0 then [1%N; Z.to_N (- t)] else [0%N; Z.to_N t] |}.
  - done.
  - intros t. destruct (t <? 0) eqn:E; brefl; f_equal; lia.
Defined.

(** [db::sql_query::MAX_ROWS]. *)
Definition MAX_ROWS : Z := 1000.
Definition SEARCH_MAX_ROWS : Z := 200.

Record ToolSpec : Type := mkTool {
  tool_name : str;
  tool_op : Op;
  tool_description : str;
  dangerous : bool;
  required : list str;
}.

#[global] Instance ToolSpec_eq_dec : EqDecision ToolSpec.
Proof. solve_decision. Defined.

Inductive FieldKind : Type :=
| FString
| FNullableString
| FUuidString
| FNullableUuidString
| FNullableRfc3339
| FStringArray
| FBoolean
| FInteger (minimum maximum : Z).

#[global] Instance FieldKind_eq_dec : EqDecision FieldKind.
Proof. solve_decision. Defined.

Definition TOOLS : list ToolSpec :=
  [ mkTool (lit "postblox_account_list") AccountList
      (lit "List configured postblox email accounts.")
      false [];
    mkTool (lit "postblox_folder_list") FolderList
      (lit "List folders for one account.")
      false [lit "account_id"];
    mkTool (lit "postblox_thread_list") ThreadList
      (lit "List recent threads for one account.")
      false [lit "account_id"];
    mkTool (lit "postblox_message_list_by_folder") MessageListByFolder
      (lit "List message summary rows in a folder (no text_body/html_body).")
      false [lit "folder_id"];
    mkTool (lit "postblox_message_list_by_thread") MessageListByThread
      (lit "List message summary rows in a thread (no text_body/html_body).")
      false [lit "thread_id"];
    mkTool (lit "postblox_message_get") MessageGet
      (lit "Fetch one full message by id, including text_body/html_body.")
      false [lit "id"];
    mkTool (lit "postblox_search") Search
      (lit "Search local indexed email and return summary rows (no text_body/html_body) with optional account/folder/thread/date/sender/flag filters.")
      false [lit "q"];
    mkTool (lit "postblox_draft_create") DraftCreate
      (lit "Create an email draft.")
      true [lit "account_id"; lit "to_addrs"; lit "cc_addrs"; lit "bcc_addrs"];
    mkTool (lit "postblox_draft_update") DraftUpdate
      (lit "Update an email draft.")
      true [lit "id"; lit "to_addrs"; lit "cc_addrs"; lit "bcc_addrs"; lit "subject"; lit "text_body"; lit "html_body"];
    mkTool (lit "postblox_draft_delete") DraftDelete
      (lit "Delete an email draft.")
      true [lit "id"];
    mkTool (lit "postblox_message_set_flags") MessageSetFlags
      (lit "Replace flags on one message.")
      true [lit "id"; lit "flags"];
    mkTool (lit "postblox_message_send") MessageSend
      (lit "Send an existing draft through the account SMTP settings.")
      true [lit "account_id"; lit "draft_id"];
    mkTool (lit "postblox_sql_query") SqlQuery
      (lit "Run a read-only SQL query against the local postblox database. Only SELECT statements are accepted; DDL and DML are rejected. Returns up to `limit` rows as JSON objects.")
      true [lit "sql"];
    mkTool (lit "postblox_sql_schema") SqlSchema
      (lit "Return CREATE statements for every table, view, index, and trigger in the postblox database. Use this before issuing ad-hoc queries via postblox_sql_query.")
      false [] ].

Definition find_tool (name : str) : option ToolSpec :=
  List.find (fun tool => str_eqb (tool_name tool) name) TOOLS.

Definition field_kind_arms : list (str * str * FieldKind) :=
  [ (lit "postblox_folder_list", lit "account_id", FUuidString);
    (lit "postblox_thread_list", lit "account_id", FUuidString);
    (lit "postblox_message_list_by_folder", lit "folder_id", FUuidString);
    (lit "postblox_message_list_by_thread", lit "thread_id", FUuidString);
    (lit "postblox_message_get", lit "id", FUuidString);
    (lit "postblox_draft_create", lit "account_id", FUuidString);
    (lit "postblox_draft_update", lit "id", FUuidString);
    (lit "postblox_draft_delete", lit "id", FUuidString);
    (lit "postblox_message_set_flags", lit "id", FUuidString);
    (lit "postblox_message_send", lit "account_id", FUuidString);
    (lit "postblox_message_send", lit "draft_id", FUuidString);
    (lit "postblox_draft_create", lit "in_reply_to_msg", FNullableUuidString);
    (lit "postblox_search", lit "q", FString);
    (lit "postblox_search", lit "account_id", FNullableUuidString);
    (lit "postblox_search", lit "folder_id", FNullableUuidString);
    (lit "postblox_search", lit "thread_id", FNullableUuidString);
    (lit "postblox_search", lit "date_from", FNullableRfc3339);
    (lit "postblox_search", lit "date_to", FNullableRfc3339);
    (lit "postblox_search", lit "from_addr", FNullableString);
    (lit "postblox_search", lit "to_addr", FNullableString);
    (lit "postblox_search", lit "has_attachments", FBoolean);
    (lit "postblox_search", lit "unread", FBoolean);
    (lit "postblox_draft_create", lit "to_addrs", FStringArray);
    (lit "postblox_draft_create", lit "cc_addrs", FStringArray);
    (lit "postblox_draft_create", lit "bcc_addrs", FStringArray);
    (lit "postblox_draft_update", lit "to_addrs", FStringArray);
    (lit "postblox_draft_update", lit "cc_addrs", FStringArray);
    (lit "postblox_draft_update", lit "bcc_addrs", FStringArray);
    (lit "postblox_message_set_flags", lit "flags", FStringArray);
    (lit "postblox_draft_create", lit "subject", FNullableString);
    (lit "postblox_draft_create", lit "text_body", FNullableString);
    (lit "postblox_draft_create", lit "html_body", FNullableString);
    (lit "postblox_draft_update", lit "subject", FNullableString);
    (lit "postblox_draft_update", lit "text_body", FNullableString);
    (lit "postblox_draft_update", lit "html_body", FNullableString);
    (lit "postblox_thread_list", lit "limit", FInteger 1 500);
    (lit "postblox_message_list_by_folder", lit "limit", FInteger 1 500);
    (lit "postblox_search", lit "limit", FInteger 1 SEARCH_MAX_ROWS);
    (lit "postblox_thread_list", lit "offset", FInteger 0 i64_max);
    (lit "postblox_message_list_by_folder", lit "offset", FInteger 0 i64_max);
    (lit "postblox_search", lit "offset", FInteger 0 i64_max);
    (lit "postblox_sql_query", lit "sql", FString);
    (lit "postblox_sql_query", lit "limit", FInteger 1 MAX_ROWS) ].

Definition field_kind (tool : ToolSpec) (field : str) : option FieldKind :=
  option_map snd
    (List.find (fun '(t, f, _) => str_eqb (tool_name tool) t && str_eqb field f)
       field_kind_arms).

Section validate.
Context `{TextParsers}.

Definition validate_field (field : str) (v : value) (kind : FieldKind) : result str unit :=
  match kind with
  | FString =>
      if is_string v then Ok tt else Err (field ++ lit " must be a string")
  | FNullableString =>
      if is_string v || is_null v then Ok tt
      else Err (field ++ lit " must be a string or null")
  | FUuidString =>
      match as_str v with
      | None => Err (field ++ lit " must be a string")
      | Some s => match uuid_parse_str s with
                  | Some _ => Ok tt
                  | None => Err (field ++ lit " must be a uuid string")
                  end
      end
  | FNullableUuidString =>
      if is_null v then Ok tt
      else match as_str v with
           | None => Err (field ++ lit " must be a string or null")
           | Some s => match uuid_parse_str s with
                       | Some _ => Ok tt
                       | None => Err (field ++ lit " must be a uuid string or null")
                       end
           end
  | FNullableRfc3339 =>
      if is_null v then Ok tt
      else match as_str v with
           | None => Err (field ++ lit " must be an rfc3339 string or null")
           | Some s => match parse_from_rfc3339 s with
                       | Some _ => Ok tt
                       | None => Err (field ++ lit " must be an rfc3339 string or null")
                       end
           end
  | FStringArray =>
      match as_array v with
      | None => Err (field ++ lit " must be an array of strings")
      | Some l => if forallb is_string l then Ok tt
                  else Err (field ++ lit " must be an array of strings")
      end
  | FBoolean =>
      if is_boolean v then Ok tt else Err (field ++ lit " must be a boolean")
  | FInteger minimum maximum =>
      match as_i64 v with
      | None => Err (field ++ lit " must be an integer")
      | Some n =>
          if (n <? minimum) || (maximum <? n)
          then Err (field ++ lit " must be between " ++ show_Z minimum ++ lit " and "
                      ++ show_Z maximum)
          else Ok tt
      end
  end.

(** The two loops of [validate_arguments]. *)
Fixpoint check_required (fields : list str) (obj : object) : result str unit :=
  match fields with
  | [] => Ok tt
  | field :: rest =>
      if contains_key obj field then check_required rest obj
      else Err (lit "missing required argument '" ++ field ++ lit "'")
  end.

Fixpoint check_fields (tool : ToolSpec) (entries : object) : result str unit :=
  match entries with
  | [] => Ok tt
  | (field, v) :: rest =>
      match field_kind tool field with
      | None => Err (lit "unexpected argument '" ++ field ++ lit "'")
      | Some kind =>
          match validate_field field v kind with
          | Ok _ => check_fields tool rest
          | Err e => Err e
          end
      end
  end.

Definition validate_arguments (tool : ToolSpec) (arguments : value) : result str value :=
  let run (obj : object) :=
    match check_required (required tool) obj with
    | Err e => Err e
    | Ok _ => match check_fields tool obj with
              | Err e => Err e
              | Ok _ => Ok (VObject obj)
              end
    end in
  match arguments with
  | VNull => run []
  | VObject obj => run obj
  | _ => Err (lit "arguments must be an object")
  end.
End validate.

(** ** The advertised schema *)

Definition string_ (name description : str) : str * value :=
  (name, json [(lit "type", VString (lit "string")); (lit "description", VString description)]).
Definition type_or_null : value := VArray [VString (lit "string"); VString (lit "null")].
Definition nullable_string (name description : str) : str * value :=
  (name, json [(lit "type", type_or_null); (lit "description", VString description)]).
Definition uuid_ (name description : str) : str * value :=
  (name, json [(lit "type", VString (lit "string")); (lit "format", VString (lit "uuid"));
               (lit "description", VString description)]).
Definition nullable_uuid (name description : str) : str * value :=
  (name, json [(lit "type", type_or_null); (lit "format", VString (lit "uuid"));
               (lit "description", VString description)]).
Definition nullable_rfc3339 (name description : str) : str * value :=
  (name, json [(lit "type", type_or_null); (lit "format", VString (lit "date-time"));
               (lit "description", VString description)]).
Definition boolean (name description : str) : str * value :=
  (name, json [(lit "type", VString (lit "boolean")); (lit "description", VString description)]).
Definition string_array (name description : str) : str * value :=
  (name, json [(lit "type", VString (lit "array"));
               (lit "items", json [(lit "type", VString (lit "string"))]);
               (lit "description", VString description)]).
Definition integer (name : str) (minimum maximum : Z) (description : str) : str * value :=
  (name, json [(lit "type", VString (lit "integer"));
               (lit "minimum", VNumber (NInt minimum)); (lit "maximum", VNumber (NInt maximum));
               (lit "description", VString description)]).
Definition fields (l : list (str * value)) : object := obj_of l.

(** The [match tool.name] of [input_schema]. *)
Definition schema_arms : list (str * object) :=
  [ (lit "postblox_account_list", []);
    (lit "postblox_folder_list", fields
      [ uuid_ (lit "account_id") (lit "Account id.") ]);
    (lit "postblox_thread_list", fields
      [ uuid_ (lit "account_id") (lit "Account id.");
        integer (lit "limit") 1 500 (lit "Maximum rows to return.");
        integer (lit "offset") 0 i64_max (lit "Rows to skip.") ]);
    (lit "postblox_message_list_by_folder", fields
      [ uuid_ (lit "folder_id") (lit "Folder id.");
        integer (lit "limit") 1 500 (lit "Maximum rows to return.");
        integer (lit "offset") 0 i64_max (lit "Rows to skip.") ]);
    (lit "postblox_message_list_by_thread", fields
      [ uuid_ (lit "thread_id") (lit "Thread id.") ]);
    (lit "postblox_message_get", fields
      [ uuid_ (lit "id") (lit "Message id.") ]);
    (lit "postblox_search", fields
      [ string_ (lit "q") (lit "Search query.");
        nullable_uuid (lit "account_id") (lit "Restrict to one account.");
        nullable_uuid (lit "folder_id") (lit "Restrict to one folder.");
        nullable_uuid (lit "thread_id") (lit "Restrict to one thread.");
        nullable_rfc3339 (lit "date_from") (lit "Earliest internal date (inclusive).");
        nullable_rfc3339 (lit "date_to") (lit "Latest internal date (inclusive).");
        nullable_string (lit "from_addr") (lit "Substring match against the sender.");
        nullable_string (lit "to_addr") (lit "Substring match against the recipients.");
        boolean (lit "has_attachments") (lit "Filter by presence of attachments.");
        boolean (lit "unread") (lit "Filter by read state (true = unread).");
        integer (lit "limit") 1 SEARCH_MAX_ROWS (lit "Maximum rows to return.");
        integer (lit "offset") 0 i64_max (lit "Rows to skip.") ]);
    (lit "postblox_draft_create", fields
      [ uuid_ (lit "account_id") (lit "Account id.");
        nullable_uuid (lit "in_reply_to_msg") (lit "Message id this draft replies to.");
        string_array (lit "to_addrs") (lit "To recipients.");
        string_array (lit "cc_addrs") (lit "Cc recipients.");
        string_array (lit "bcc_addrs") (lit "Bcc recipients.");
        nullable_string (lit "subject") (lit "Draft subject.");
        nullable_string (lit "text_body") (lit "Plain text body.");
        nullable_string (lit "html_body") (lit "HTML body.") ]);
    (lit "postblox_draft_update", fields
      [ uuid_ (lit "id") (lit "Draft id.");
        string_array (lit "to_addrs") (lit "To recipients.");
        string_array (lit "cc_addrs") (lit "Cc recipients.");
        string_array (lit "bcc_addrs") (lit "Bcc recipients.");
        nullable_string (lit "subject") (lit "Draft subject.");
        nullable_string (lit "text_body") (lit "Plain text body.");
        nullable_string (lit "html_body") (lit "HTML body.") ]);
    (lit "postblox_draft_delete", fields
      [ uuid_ (lit "id") (lit "Draft id.") ]);
    (lit "postblox_message_set_flags", fields
      [ uuid_ (lit "id") (lit "Message id.");
        string_array (lit "flags") (lit "Complete replacement flag list.") ]);
    (lit "postblox_message_send", fields
      [ uuid_ (lit "account_id") (lit "Account id.");
        uuid_ (lit "draft_id") (lit "Draft id.") ]);
    (lit "postblox_sql_query", fields
      [ string_ (lit "sql") (lit "Read-only SQL statement to execute.");
        integer (lit "limit") 1 MAX_ROWS (lit "Maximum rows to return; omitted limits use the daemon default.") ]);
    (lit "postblox_sql_schema", []) ].

Definition properties (tool : ToolSpec) : object :=
  match match_str schema_arms (tool_name tool) with
  | Some m => m
  | None => []
  end.

Definition input_schema (tool : ToolSpec) : value :=
  json [(lit "type", VString (lit "object")); (lit "additionalProperties", VBool false);
        (lit "properties", VObject (properties tool));
        (lit "required", VArray (map VString (required tool)))].

Definition tool_json (tool : ToolSpec) : value :=
  json [(lit "name", VString (tool_name tool));
        (lit "description", VString (tool_description tool));
        (lit "inputSchema", input_schema tool)].

Definition list_tools : value := json [(lit "tools", VArray (map tool_json TOOLS))].

(** ** What the validator accepts *)

Section accepts.
Context `{TextParsers}.

(** The values of a field kind, in the words of the schema. *)
Definition kind_accepts (kind : FieldKind) (v : value) : Prop :=
  match kind with
  | FString => exists s, v = VString s
  | FNullableString => v = VNull \/ exists s, v = VString s
  | FUuidString => exists s u, v = VString s /\ uuid_parse_str s = Some u
  | FNullableUuidString =>
      v = VNull \/ exists s u, v = VString s /\ uuid_parse_str s = Some u
  | FNullableRfc3339 =>
      v = VNull \/ exists s t, v = VString s /\ parse_from_rfc3339 s = Some t
  | FStringArray => exists l, v = VArray (map VString l)
  | FBoolean => exists b, v = VBool b
  | FInteger minimum maximum =>
      exists n, v = VNumber (NInt n) /\ i64_min <= n <= i64_max /\ minimum <= n <= maximum
  end.

Lemma forallb_is_string l : forallb is_string l = true <-> exists l', l = map VString l'.
Proof.
  induction l as [|v l IH]; cbn.
  - split; [|done]. intros _. by exists [].
  - rewrite andb_true_iff, IH. split.
    + intros [Hv [l' ->]]. destruct v as [| | |s| |]; try done. by exists (s :: l').
    + intros [[|s l'] [=]]; subst. eauto.
Qed.

Lemma validate_field_ok field v kind :
  validate_field field v kind = Ok tt <-> kind_accepts kind v.
Proof.
  destruct kind; cbn.
  - destruct v; cbn; naive_solver.
  - destruct v; cbn; naive_solver.
  - destruct v as [| | |s| |]; cbn; try naive_solver.
    destruct (uuid_parse_str s) eqn:E; naive_solver.
  - destruct v as [| | |s| |]; cbn; try naive_solver.
    destruct (uuid_parse_str s) eqn:E; naive_solver.
  - destruct v as [| | |s| |]; cbn; try naive_solver.
    destruct (parse_from_rfc3339 s) eqn:E; naive_solver.
  - destruct v as [| | | |l|]; cbn; try naive_solver.
    destruct (forallb is_string l) eqn:E.
    + apply forallb_is_string in E as [l' ->]. naive_solver.
    + split; [done|]. intros [l' [= ->]].
      by rewrite (proj2 (forallb_is_string _)) in E by eauto.
  - destruct v; cbn; naive_solver.
  - destruct v as [| |[z|f]| | |]; cbn; try naive_solver.
    destruct ((i64_min <=? z) && (z <=? i64_max)) eqn:E; brefl.
    + destruct ((z <? minimum) || (maximum <? z)) eqn:E2; brefl.
      * split; [done|]. intros (n & [= <-] & ? & ?). lia.
      * split; [|done]. intros _. exists z. split; [done|lia].
    + split; [done|]. intros (n & [= <-] & ? & ?). destruct E; brefl; lia.
Qed.

Lemma check_required_ok fs obj :
  check_required fs obj = Ok tt <-> forall f, In f fs -> exists v, map_get obj f = Some v.
Proof.
  induction fs as [|f fs IH]; cbn; [naive_solver|].
  unfold contains_key. destruct (map_get obj f) as [v|] eqn:E; cbn.
  - rewrite IH. split; [intros Hall g [->|?]; eauto|eauto].
  - split; [done|]. intros Hall. destruct (Hall f); [auto|congruence].
Qed.

Lemma check_fields_ok tool entries :
  check_fields tool entries = Ok tt <->
  forall f v, In (f, v) entries ->
    exists kind, field_kind tool f = Some kind /\ kind_accepts kind v.
Proof.
  induction entries as [|[f v] entries IH]; cbn; [naive_solver|].
  destruct (field_kind tool f) as [kind|] eqn:Ek.
  - destruct (validate_field f v kind) as [[]|e] eqn:Ev.
    + rewrite IH. apply validate_field_ok in Ev. naive_solver.
    + split; [done|]. intros Hall. destruct (Hall f v (or_introl eq_refl)) as (k & Hk & Hv).
      rewrite Ek in Hk. injection Hk as <-. apply (validate_field_ok f) in Hv. congruence.
  - split; [done|]. intros Hall. destruct (Hall f v (or_introl eq_refl)) as (k & Hk & _).
    congruence.
Qed.

(** The arguments object of a call: [null] stands for no arguments. *)
Definition args_object (arguments : value) : option object :=
  match arguments with VNull => Some [] | VObject obj => Some obj | _ => None end.

Definition args_valid (tool : ToolSpec) (obj : object) : Prop :=
  (forall f, In f (required tool) -> exists v, map_get obj f = Some v) /\
  (forall f v, In (f, v) obj ->
     exists kind, field_kind tool f = Some kind /\ kind_accepts kind v).

Lemma validate_arguments_ok tool arguments v :
  validate_arguments tool arguments = Ok v <->
  exists obj, args_object arguments = Some obj /\ v = VObject obj /\ args_valid tool obj.
Proof.
  assert (Hrun : forall obj,
    match check_required (required tool) obj with
    | Ok _ => match check_fields tool obj with Ok _ => Ok (VObject obj) | Err e => Err e end
    | Err e => Err e
    end = Ok v <-> v = VObject obj /\ args_valid tool obj).
  { intros obj. unfold args_valid. rewrite <- check_required_ok, <- check_fields_ok.
    destruct (check_required _ _) as [[]|], (check_fields _ _) as [[]|]; naive_solver. }
  unfold validate_arguments.
  destruct arguments; cbn; try (rewrite Hrun); naive_solver.
Qed.

End accepts.

(** ** The advertised schema is the enforced one *)

(** Reading a property schema back as a field kind, as a JSON-schema consumer
    would. *)
Definition kind_of_schema (schema : value) : option FieldKind :=
  let ty := vget schema (lit "type") in
  let format := vget schema (lit "format") in
  if bool_decide (ty = Some (VString (lit "string"))) then
    match format with
    | None => Some FString
    | Some f => if bool_decide (f = VString (lit "uuid")) then Some FUuidString else None
    end
  else if bool_decide (ty = Some type_or_null) then
    match format with
    | None => Some FNullableString
    | Some f => if bool_decide (f = VString (lit "uuid")) then Some FNullableUuidString
                else if bool_decide (f = VString (lit "date-time")) then Some FNullableRfc3339
                else None
    end
  else if bool_decide (ty = Some (VString (lit "boolean"))) then Some FBoolean
  else if bool_decide (ty = Some (VString (lit "array"))) then
    if bool_decide (vget schema (lit "items") = Some (json [(lit "type", VString (lit "string"))]))
    then Some FStringArray else None
  else if bool_decide (ty = Some (VString (lit "integer"))) then
    match vget schema (lit "minimum"), vget schema (lit "maximum") with
    | Some (VNumber (NInt a)), Some (VNumber (NInt b)) => Some (FInteger a b)
    | _, _ => None
    end
  else None.

Definition advertised_kind (tool : ToolSpec) (field : str) : option FieldKind :=
  match map_get (properties tool) field with
  | Some schema => kind_of_schema schema
  | None => None
  end.

(** Two lookups that agree on the listed keys, and are [None] elsewhere, agree. *)
Lemma lookup_agree {A} `{EqDecision A} (f g : str -> option A) (keys : list str) :
  (forall k, k ∉ keys -> f k = None /\ g k = None) ->
  forallb (fun k => bool_decide (f k = g k)) keys = true ->
  forall k, f k = g k.
Proof.
  intros Hout Hin k. destruct (decide (k ∈ keys)) as [Hk|Hk].
  - apply list_elem_of_In in Hk. rewrite forallb_forall in Hin.
    specialize (Hin k Hk). by apply bool_decide_eq_true in Hin.
  - destruct (Hout k Hk) as [-> ->]. done.
Qed.

Definition schema_keys (tool : ToolSpec) : list str :=
  map (fun '(_, f, _) => f)
      (List.filter (fun '(t, _, _) => str_eqb (tool_name tool) t) field_kind_arms)
  ++ map fst (properties tool).

Lemma field_kind_out tool k : k ∉ schema_keys tool -> field_kind tool k = None.
Proof.
  unfold schema_keys. rewrite not_elem_of_app. intros [Hk _]. unfold field_kind.
  induction field_kind_arms as [|[[t f] kd] arms IH]; [done|]. cbn in *.
  destruct (str_eqb (tool_name tool) t) eqn:Et; cbn in *; [|by apply IH].
  apply not_elem_of_cons in Hk as [Hne Hk].
  rewrite (proj2 (str_eqb_neq k f)) by done. by apply IH.
Qed.

Lemma map_get_out (m : object) k : k ∉ map fst m -> map_get m k = None.
Proof.
  induction m as [|[l v] m IH]; cbn; [done|]. intros [Hne Hk]%not_elem_of_cons.
  rewrite (proj2 (str_eqb_neq k l)) by done. auto.
Qed.

(** For every tool of the catalogue the advertised schema and the validator
    agree on every field name: a field is declared in [inputSchema.properties]
    exactly when the validator knows it, with the same kind and the same integer
    range, and every required field is declared. *)
Theorem schema_matches_validator tool :
  In tool TOOLS ->
  (forall field, advertised_kind tool field = field_kind tool field) /\
  (forall field, In field (required tool) -> exists kind, field_kind tool field = Some kind).
Proof.
  intros Hin. split.
  - apply (lookup_agree _ _ (schema_keys tool)).
    + intros k Hk. split; [|by apply field_kind_out].
      unfold advertised_kind. rewrite map_get_out; [done|].
      intros Hm. apply Hk. unfold schema_keys. apply elem_of_app. auto.
    + revert tool Hin. apply List.Forall_forall. repeat constructor; vm_compute; reflexivity.
  - intros field Hf.
    assert (H : forallb (fun f => bool_decide (field_kind tool f <> None)) (required tool) = true).
    { clear Hf. revert tool Hin. apply List.Forall_forall.
      repeat constructor; vm_compute; reflexivity. }
    rewrite forallb_forall in H. specialize (H field Hf). apply bool_decide_eq_true in H.
    destruct (field_kind tool field); [eauto|done].
Qed.

(** ** JSON Schema

    What the keywords the schemas use mean, whatever the tool: [type] is a name or
    a list of names, [format] speaks of strings, [minimum] and [maximum] of
    numbers, [items] of the elements of an array; [required] lists names that must
    be present, and with [additionalProperties] false no other name may be.  The
    texts of a format are those the parsers of the uuid and chrono crates take, an
    integer is a number without fraction. *)

Section schema.
Context `{TextParsers}.

Definition type_is (v : value) (ty : value) : bool :=
  match ty, v with
  | VString t, VNull => str_eqb t (lit "null")
  | VString t, VBool _ => str_eqb t (lit "boolean")
  | VString t, VString _ => str_eqb t (lit "string")
  | VString t, VArray _ => str_eqb t (lit "array")
  | VString t, VObject _ => str_eqb t (lit "object")
  | VString t, VNumber (NInt _) => str_eqb t (lit "integer") || str_eqb t (lit "number")
  | VString t, VNumber _ => str_eqb t (lit "number")
  | _, _ => false
  end.
Definition type_admits (ty : option value) (v : value) : bool :=
  match ty with
  | Some (VArray l) => existsb (type_is v) l
  | Some ty => type_is v ty
  | None => true
  end.
Definition format_admits (format : option value) (v : value) : bool :=
  match format, v with
  | Some (VString f), VString s =>
      if str_eqb f (lit "uuid") then bool_decide (is_Some (uuid_parse_str s))
      else if str_eqb f (lit "date-time") then bool_decide (is_Some (parse_from_rfc3339 s))
      else true
  | _, _ => true
  end.
Definition bound_admits (holds : Z -> Z -> bool) (bound : option value) (v : value) : bool :=
  match bound, v with
  | Some (VNumber (NInt b)), VNumber (NInt n) => holds b n
  | _, _ => true
  end.
Definition items_admit (items : option value) (v : value) : bool :=
  match items, v with
  | Some schema, VArray l => forallb (type_admits (vget schema (lit "type"))) l
  | _, _ => true
  end.
Definition property_admits (schema v : value) : bool :=
  type_admits (vget schema (lit "type")) v && format_admits (vget schema (lit "format")) v
  && bound_admits Z.leb (vget schema (lit "minimum")) v && bound_admits Z.geb (vget schema (lit "maximum")) v
  && items_admit (vget schema (lit "items")) v.

Definition schema_properties (schema : value) : object :=
  match vget schema (lit "properties") with Some (VObject m) => m | _ => [] end.
Definition required_admits (schema : value) (obj : object) : bool :=
  match vget schema (lit "required") with
  | Some (VArray l) => forallb (fun n => match n with VString f => bool_decide (is_Some (map_get obj f)) | _ => true end) l
  | _ => true
  end.
Definition schema_admits (schema : value) (obj : object) : bool :=
  type_admits (vget schema (lit "type")) (VObject obj) && required_admits schema obj &&
  forallb (fun p => match map_get (schema_properties schema) p.1 with
                    | Some s => property_admits s p.2
                    | None => negb (bool_decide (vget schema (lit "additionalProperties") = Some (VBool false)))
                    end) obj.

(** The keywords the schema of a kind has. *)
Definition keywords (schema : value) : list (option value) :=
  map (fun k => vget schema (lit k)) ["type"%string; "format"%string; "minimum"%string; "maximum"%string; "items"%string].
Definition keywords_of (kind : FieldKind) : list (option value) :=
  let s t := Some (VString (lit t)) in
  match kind with
  | FString => [s "string"%string; None; None; None; None]
  | FNullableString => [Some type_or_null; None; None; None; None]
  | FUuidString => [s "string"%string; s "uuid"%string; None; None; None]
  | FNullableUuidString => [Some type_or_null; s "uuid"%string; None; None; None]
  | FNullableRfc3339 => [Some type_or_null; s "date-time"%string; None; None; None]
  | FStringArray => [s "array"%string; None; None; None; Some (json [(lit "type", VString (lit "string"))])]
  | FBoolean => [s "boolean"%string; None; None; None; None]
  | FInteger a b => [s "integer"%string; None; Some (VNumber (NInt a)); Some (VNumber (NInt b)); None]
  end.
Definition i64_range (kind : FieldKind) : bool :=
  match kind with FInteger a b => (i64_min <=? a) && (b <=? i64_max) | _ => true end.

Lemma property_admits_kind schema kind v :
  keywords schema = keywords_of kind -> i64_range kind = true ->
  property_admits schema v = true <-> kind_accepts kind v.
Proof.
  unfold keywords. cbn [map]. intros Hk Hr. unfold property_admits.
  destruct kind; cbn [keywords_of] in Hk; injection Hk as -> -> -> -> ->.
  all: destruct v as [| |[n|x]|s|l|o]; cbn; try (rewrite ?andb_false_r; naive_solver).
  all: rewrite ?andb_true_r; cbn.
  - change (bool_decide (is_Some (uuid_parse_str s)) = true <-> exists s' u, VString s = VString s' /\ uuid_parse_str s' = Some u).
    rewrite bool_decide_eq_true. unfold is_Some. naive_solver.
  - change (bool_decide (is_Some (uuid_parse_str s)) = true <->
      VString s = VNull \/ exists s' u, VString s = VString s' /\ uuid_parse_str s' = Some u).
    rewrite bool_decide_eq_true. unfold is_Some. naive_solver.
  - change (bool_decide (is_Some (parse_from_rfc3339 s)) = true <->
      VString s = VNull \/ exists s' t, VString s = VString s' /\ parse_from_rfc3339 s' = Some t).
    rewrite bool_decide_eq_true. unfold is_Some. naive_solver.
  - change (forallb (type_admits (Some (VString (lit "string")))) l = true <-> exists l', VArray l = VArray (map VString l')).
    assert (E : forallb (type_admits (Some (VString (lit "string")))) l = forallb is_string l).
    { clear. induction l as [|x l IH]; [done|]. cbn [forallb]. rewrite IH. f_equal. by destruct x as [| |[]| | |]. }
    rewrite E, forallb_is_string. naive_solver.
  - change ((minimum <=? n) && (maximum >=? n) = true <->
      exists n0, VNumber (NInt n) = VNumber (NInt n0) /\ i64_min <= n0 <= i64_max /\ minimum <= n0 <= maximum).
    cbn in Hr. rewrite andb_true_iff, Z.leb_le, Z.geb_le in *. split; [|intros (n0 & [= <-] & ? & ?); lia].
    intros []. exists n. split; [done|]. lia.
Qed.

(** The schemas of the catalogue. *)
Lemma catalogue_properties tool field schema :
  In tool TOOLS -> In (field, schema) (properties tool) ->
  exists kind, field_kind tool field = Some kind /\ keywords schema = keywords_of kind /\ i64_range kind = true.
Proof.
  intros Hin Hp.
  assert (Hall : forallb (fun p => match field_kind tool p.1 with
                                   | Some kind => bool_decide (keywords p.2 = keywords_of kind) && i64_range kind
                                   | None => false
                                   end) (properties tool) = true).
  { clear Hp. revert tool Hin. apply List.Forall_forall. repeat constructor; vm_compute; reflexivity. }
  rewrite forallb_forall in Hall. specialize (Hall _ Hp). cbn in Hall. destruct (field_kind tool field) as [kind|]; [|done].
  apply andb_true_iff in Hall as [Hk Hr]. exists kind. split_and!; [done|by apply bool_decide_eq_true in Hk|done].
Qed.
Lemma map_get_in (m : object) k v : map_get m k = Some v -> In (k, v) m.
Proof.
  induction m as [|[l x] m IH]; cbn; [done|]. destruct (str_eqb k l) eqn:E; [|auto]. apply str_eqb_eq in E as ->. intros [= ->]. by left.
Qed.
Lemma property_validated tool field v :
  In tool TOOLS ->
  (match map_get (properties tool) field with Some s => property_admits s v | None => false end = true <->
   exists kind, field_kind tool field = Some kind /\ kind_accepts kind v).
Proof.
  intros Hin. destruct (schema_matches_validator tool Hin) as [Hadv _]. specialize (Hadv field). unfold advertised_kind in Hadv.
  destruct (map_get (properties tool) field) as [s|] eqn:E.
  - apply map_get_in in E. destruct (catalogue_properties tool field s Hin E) as (kind & Hk & Hw & Hr). rewrite Hk.
    rewrite (property_admits_kind s kind v Hw Hr). clear. split; [eauto|]. by intros (k & [= <-] & ?).
  - rewrite <- Hadv. clear. split; [done|]. by intros (k & [=] & _).
Qed.
Lemma required_validated tool obj :
  required_admits (input_schema tool) obj = true <-> (forall f, In f (required tool) -> exists v, map_get obj f = Some v).
Proof.
  unfold required_admits. replace (vget (input_schema tool) (lit "required")) with (Some (VArray (map VString (required tool))))
    by (unfold input_schema; json_eval; reflexivity).
  rewrite forallb_forall. setoid_rewrite in_map_iff. split.
  - intros H1 f Hf. specialize (H1 (VString f) (ex_intro _ f (conj eq_refl Hf))). by apply bool_decide_eq_true in H1 as [v ?]; eauto.
  - intros H1 x (f & <- & Hf). apply bool_decide_eq_true. by destruct (H1 f Hf); eauto.
Qed.

End schema.

Definition no_tool : ToolSpec := mkTool [] AccountList [] false [].
Definition search_tool : ToolSpec := nth 6 TOOLS no_tool.

Lemma schema_matches_validator_witness :
  In search_tool TOOLS /\
  advertised_kind search_tool (lit "limit") = field_kind search_tool (lit "limit").
Proof.
  assert (H : In search_tool TOOLS) by (do 6 right; left; reflexivity).
  split; [exact H|]. apply (schema_matches_validator search_tool H).
Defined.

(** A search with its query; a limit over the advertised maximum. *)
Definition search_args (limit : Z) : value := json [(lit "q", VString (lit "x")); (lit "limit", VNumber (NInt limit))].
