(* ===== verification/IpcProtocol.v ===== *)
(** * The IPC protocol (src/ipc/protocol.rs, the topics of src/ipc/hub.rs)

    The JSON shapes on the daemon's socket: requests, responses, events, typed
    errors, and the subscription topics with their wire names. *)

From S2P Require Import Prelude RustStr Json Op.
#[local] Open Scope Z_scope.

Record Request : Type := mkRequest {
  req_id : Z;
  req_op : str;
  req_args : value;
}.

Record RpcError : Type := mkRpcError {
  err_code : str;
  err_message : str;
}.

#[global] Instance RpcError_eq_dec : EqDecision RpcError.
Proof. solve_decision. Defined.

Record Response : Type := mkResponse {
  resp_id : Z;
  resp_ok : bool;
  resp_data : value;
  resp_error : option RpcError;
}.

Record Event : Type := mkEvent {
  ev_sub : Z;
  ev_topic : str;
  ev_data : value;
}.

Definition rpc_unknown_op (op : str) : RpcError :=
  mkRpcError (lit "unknown_op") (lit "unknown op '" ++ op ++ lit "'").
Definition rpc_bad_args (message : str) : RpcError := mkRpcError (lit "bad_args") message.
Definition rpc_internal (message : str) : RpcError := mkRpcError (lit "internal") message.
Definition rpc_internal_ctx (context err : str) : RpcError :=
  mkRpcError (lit "internal") (context ++ lit ": " ++ err).

Definition response_ok (id : Z) (data : value) : Response := mkResponse id true data None.
Definition response_err (id : Z) (e : RpcError) : Response := mkResponse id false VNull (Some e).

(** ** Topics *)

Inductive Topic : Type :=
| MailNew
| MailUpdated
| AccountSynced
| SyncStateTopic
| McpApprovalRequested
| McpApprovalDecided.

#[global] Instance Topic_eq_dec : EqDecision Topic.
Proof. solve_decision. Defined.

Definition topic_as_str (t : Topic) : str :=
  match t with
  | MailNew => lit "mail.new"
  | MailUpdated => lit "mail.updated"
  | AccountSynced => lit "account.synced"
  | SyncStateTopic => lit "sync.state"
  | McpApprovalRequested => lit "mcp.approval_requested"
  | McpApprovalDecided => lit "mcp.approval_decided"
  end.

Definition topic_from_str (s : str) : option Topic :=
  match_str
    [ (lit "mail.new", MailNew);
      (lit "mail.updated", MailUpdated);
      (lit "account.synced", AccountSynced);
      (lit "sync.state", SyncStateTopic);
      (lit "mcp.approval_requested", McpApprovalRequested);
      (lit "mcp.approval_decided", McpApprovalDecided) ] s.

Lemma topic_round_trip t : topic_from_str (topic_as_str t) = Some t.
Proof. destruct t; vm_compute; reflexivity. Qed.

(** ** JSON encodings (serde derives) *)

Definition rpc_error_to_json (e : RpcError) : value :=
  json [(lit "code", VString (err_code e)); (lit "message", VString (err_message e))].

Definition request_to_json (r : Request) : value :=
  json [(lit "id", VNumber (NInt (req_id r))); (lit "op", VString (req_op r));
        (lit "args", req_args r)].

(** [data] is omitted when null, [error] when absent. *)
Definition response_to_json (r : Response) : value :=
  json ([(lit "id", VNumber (NInt (resp_id r))); (lit "ok", VBool (resp_ok r))]
        ++ (if is_null (resp_data r) then [] else [(lit "data", resp_data r)])
        ++ (match resp_error r with
            | Some e => [(lit "error", rpc_error_to_json e)]
            | None => []
            end)).

Definition event_to_json (e : Event) : value :=
  json [(lit "sub", VNumber (NInt (ev_sub e))); (lit "topic", VString (ev_topic e));
        (lit "data", ev_data e)].

(** Deserialisation: a missing required key or a wrong type is an error
    ([None]); [#[serde(default)]] fields default to null/absent. *)
Definition field_or (v : value) (k : str) (d : value) : value :=
  match vget v k with Some x => x | None => d end.

Definition request_of_json (v : value) : option Request :=
  id ← vget v (lit "id") ≫= as_u64;
  op ← vget v (lit "op") ≫= as_str;
  if is_object v then Some (mkRequest id op (field_or v (lit "args") VNull)) else None.

Definition rpc_error_of_json (v : value) : option RpcError :=
  code ← vget v (lit "code") ≫= as_str;
  message ← vget v (lit "message") ≫= as_str;
  Some (mkRpcError code message).

Definition response_of_json (v : value) : option Response :=
  id ← vget v (lit "id") ≫= as_u64;
  ok ← vget v (lit "ok") ≫= as_bool;
  error ← match vget v (lit "error") with
          | None | Some VNull => Some None
          | Some e => Some <$> rpc_error_of_json e
          end;
  Some (mkResponse id ok (field_or v (lit "data") VNull) error).

Definition event_of_json (v : value) : option Event :=
  sub ← vget v (lit "sub") ≫= as_u64;
  topic ← vget v (lit "topic") ≫= as_str;
  Some (mkEvent sub topic (field_or v (lit "data") VNull)).

Definition is_u64 (z : Z) : Prop := 0 <= z < 2 ^ 64.

Lemma as_u64_int z : is_u64 z -> as_u64 (VNumber (NInt z)) = Some z.
Proof. unfold is_u64, as_u64. intros. rewrite (proj2 (andb_true_iff _ _)); [done|lia]. Qed.

(** Responses survive the wire: decoding the JSON form of a response with a
    64-bit id gives the response back, with the omitted [data] and [error] keys
    restored to null and absent. *)
Theorem response_json_round_trip r :
  is_u64 (resp_id r) -> response_of_json (response_to_json r) = Some r.
Proof.
  intros Hid. destruct r as [id ok data [[code msg]|]]; cbn [resp_id] in Hid;
    unfold response_of_json, response_to_json, field_or; cbn [resp_id resp_ok resp_data resp_error].
  all: destruct (is_null data) eqn:En; unfold rpc_error_to_json, rpc_error_of_json.
  all: json_eval; cbn -[as_u64 lit str_eqb]; eval_lits; rewrite ?as_u64_int by done.
  all: cbn; by destruct data.
Qed.

Lemma response_json_round_trip_witness :
  is_u64 7 /\
  response_of_json (response_to_json (response_err 7 (rpc_bad_args (lit "x"))))
  = Some (response_err 7 (rpc_bad_args (lit "x"))).
Proof.
  split; [unfold is_u64; lia|]. apply response_json_round_trip. unfold is_u64; cbn; lia.
Defined.
