(* ===== verification/McpProtocol.v ===== *)
(** * JSON-RPC framing of the MCP bridge (src/mcp/protocol.rs)

    Classification of an incoming JSON value as request, notification or
    response, the error constructors and the outgoing frames. *)

From S2P Require Import Prelude RustStr Json.
#[local] Open Scope Z_scope.
#[local] Open Scope bool_scope.

Definition JSONRPC_VERSION : str := lit "2.0".
Definition MCP_PROTOCOL_VERSION : str := lit "2025-06-18".

Inductive Incoming : Type :=
| IRequest (id : value) (method : str) (params : value)
| INotification (method : str) (params : value)
| IResponse.

Record JsonRpcError : Type := mkJsonRpcError {
  rpc_code : Z;
  rpc_message : str;
  rpc_data : option value;
}.

Definition parse_error (message : str) : JsonRpcError := mkJsonRpcError (-32700) message None.
Definition invalid_request (message : str) : JsonRpcError := mkJsonRpcError (-32600) message None.
Definition method_not_found (method : str) : JsonRpcError :=
  mkJsonRpcError (-32601) (lit "method not found: " ++ method) None.
Definition invalid_params (message : str) : JsonRpcError := mkJsonRpcError (-32602) message None.
Definition internal_error (message : str) : JsonRpcError := mkJsonRpcError (-32603) message None.
Definition server_error (code message : str) : JsonRpcError :=
  mkJsonRpcError (-32000) message (Some (json [(lit "code", VString code)])).

Definition json_rpc_error_to_json (e : JsonRpcError) : value :=
  json ([(lit "code", VNumber (NInt (rpc_code e))); (lit "message", VString (rpc_message e))]
        ++ (match rpc_data e with Some d => [(lit "data", d)] | None => [] end)).

Definition success_response (id result : value) : value :=
  json [(lit "jsonrpc", VString JSONRPC_VERSION); (lit "id", id); (lit "result", result)].
Definition error_response (id : value) (e : JsonRpcError) : value :=
  json [(lit "jsonrpc", VString JSONRPC_VERSION); (lit "id", id);
        (lit "error", json_rpc_error_to_json e)].
Definition notification (method : str) (params : value) : value :=
  json [(lit "jsonrpc", VString JSONRPC_VERSION); (lit "method", VString method);
        (lit "params", params)].

(** [env!("CARGO_PKG_VERSION")] is fixed by the build: an argument here. *)
Definition initialize_result (version : str) (client_protocol : option str) : value :=
  json [(lit "protocolVersion", VString (unwrap_or MCP_PROTOCOL_VERSION client_protocol));
        (lit "capabilities", json [(lit "tools", json [(lit "listChanged", VBool false)])]);
        (lit "serverInfo", json [(lit "name", VString (lit "postblox-mcp"));
                                 (lit "version", VString version)])].

Definition object_params (params : value) : result JsonRpcError object :=
  match params with
  | VNull => Ok []
  | VObject obj => Ok obj
  | _ => Err (invalid_params (lit "params must be an object"))
  end.

Definition is_valid_id (id : value) : bool :=
  match id with VString _ | VNumber _ | VNull => true | _ => false end.

Definition parse_value (v : value) : result (option value * JsonRpcError) Incoming :=
  match as_object v with
  | None => Err (None, invalid_request (lit "message must be an object"))
  | Some obj =>
      let id := map_get obj (lit "id") in
      let params := unwrap_or VNull (map_get obj (lit "params")) in
      let version := map_get obj (lit "jsonrpc") ≫= as_str in
      if negb (bool_decide (version = Some JSONRPC_VERSION))
      then Err (id, invalid_request (lit "jsonrpc must be " ++ [DQUOTE] ++ lit "2.0" ++ [DQUOTE]))
      else
        match opt_filter (fun m => negb (is_empty m)) (map_get obj (lit "method") ≫= as_str) with
        | None =>
            if contains_key obj (lit "result") || contains_key obj (lit "error")
            then Ok IResponse
            else Err (id, invalid_request (lit "method must be a non-empty string"))
        | Some method =>
            match id with
            | Some id =>
                if is_valid_id id then Ok (IRequest id method params)
                else Err (Some id, invalid_request (lit "id must be a string, number, or null"))
            | None => Ok (INotification method params)
            end
        end
  end.

(** [parse_line]: the text of a JSON syntax error comes from [serde_json]. *)
Definition parse_line `{JsonCodec} (json_error : str -> str) (line : str) : result value Incoming :=
  match from_str line with
  | None => Err (error_response VNull (parse_error (json_error line)))
  | Some v =>
      match parse_value v with
      | Ok i => Ok i
      | Err (id, e) => Err (error_response (unwrap_or VNull id) e)
      end
  end.

(** A JSON-RPC 2.0 call: the fields the framing rules ask for. *)
Definition rpc_call (obj : object) (method : str) : Prop :=
  map_get obj (lit "jsonrpc") = Some (VString JSONRPC_VERSION) /\
  map_get obj (lit "method") = Some (VString method) /\ method <> [].

Lemma opt_method_ok obj method :
  opt_filter (fun m => negb (is_empty m)) (map_get obj (lit "method") ≫= as_str) = Some method <->
  map_get obj (lit "method") = Some (VString method) /\ method <> [].
Proof.
  destruct (map_get obj (lit "method")) as [[| | |s| |]|]; cbn; try naive_solver.
  destruct s as [|c s]; cbn; naive_solver.
Qed.

Lemma version_ok obj :
  map_get obj (lit "jsonrpc") ≫= as_str = Some JSONRPC_VERSION <->
  map_get obj (lit "jsonrpc") = Some (VString JSONRPC_VERSION).
Proof. destruct (map_get obj (lit "jsonrpc")) as [[]|]; cbn; naive_solver. Qed.

(** Framing: a value is taken as a request exactly when it is an object that
    is a JSON-RPC 2.0 call with an [id] that is a string, a number or null, and as
    a notification exactly when it is such a call without an [id]. *)
Theorem parse_value_classifies v method params :
  (forall id, parse_value v = Ok (IRequest id method params) <->
     exists obj, v = VObject obj /\ rpc_call obj method /\
       map_get obj (lit "id") = Some id /\ is_valid_id id = true /\
       params = unwrap_or VNull (map_get obj (lit "params"))) /\
  (parse_value v = Ok (INotification method params) <->
     exists obj, v = VObject obj /\ rpc_call obj method /\
       map_get obj (lit "id") = None /\
       params = unwrap_or VNull (map_get obj (lit "params"))).
Proof.
  unfold parse_value, rpc_call.
  destruct v as [| | | | |obj]; cbn [as_object]; try (split; [intros id|]; naive_solver).
  setoid_rewrite <- version_ok.
  destruct (bool_decide (map_get obj (lit "jsonrpc") ≫= as_str = Some JSONRPC_VERSION)) eqn:Ev;
    cbn [negb]; brefl.
  2:{ split; [intros id|]; (split; [done|]);
      intros (o & [= <-] & (Hv & _) & _); rewrite Hv in Ev; done. }
  assert (Hm := opt_method_ok obj).
  destruct (opt_filter _ _) as [m|] eqn:Em.
  - pose proof (proj1 (Hm m) eq_refl) as [Hm1 Hm2].
    assert (Hinj : forall o m', VObject obj = VObject o -> map_get o (lit "method") = Some (VString m') ->
              o = obj /\ m' = m) by (intros o m' [= <-] H'; rewrite Hm1 in H'; by injection H').
    destruct (map_get obj (lit "id")) as [id0|] eqn:Eid; [destruct (is_valid_id id0) eqn:Evid|].
    all: split; [intros id|]; split.
    all: try discriminate.
    all: try (intros [= <- <- <-]; exists obj; auto 10; fail).
    all: try (intros [= <- <-]; exists obj; auto 10; fail).
    all: intros (o & Ho & (_ & Hm3 & _) & Hid & Hrest); destruct (Hinj _ _ Ho Hm3) as [-> ->].
    all: rewrite Eid in Hid; try discriminate.
    all: try (destruct Hrest as [Hv ->]; injection Hid as ->; rewrite ?Evid in Hv; congruence).
    by rewrite Hrest.
  - assert (Hno : forall m, ~ (map_get obj (lit "method") = Some (VString m) /\ m <> [])).
    { intros m Hx. apply Hm in Hx. discriminate. }
    split; [intros id|]; (split; [by destruct (_ || _)|]);
      intros (o & [= <-] & (_ & H1 & H2) & _); exfalso; eapply Hno; eauto.
Qed.
