(* ===== verification/McpModels.v ===== *)
(** * MCP rows and their JSON (src/models.rs)

    The approval row with its lifecycle state, and the serde encodings of gates
    and approvals exchanged between the daemon and the bridge. *)

From S2P Require Import Prelude RustStr Json Op McpGates McpTools.
#[local] Open Scope Z_scope.

Inductive ApprovalState : Type := Pending | Allowed | Denied | Expired.

#[global] Instance ApprovalState_eq_dec : EqDecision ApprovalState.
Proof. solve_decision. Defined.

Definition approval_state_as_str (s : ApprovalState) : str :=
  match s with
  | Pending => lit "pending"
  | Allowed => lit "allowed"
  | Denied => lit "denied"
  | Expired => lit "expired"
  end.
Definition approval_state_from_str (s : str) : option ApprovalState :=
  match_str [ (lit "pending", Pending); (lit "allowed", Allowed);
              (lit "denied", Denied); (lit "expired", Expired) ] s.

Definition gate_action_as_str (a : GateAction) : str :=
  match a with
  | AutoAllow => lit "auto_allow"
  | Require => lit "require"
  | Deny => lit "deny"
  end.
Definition gate_action_from_str (s : str) : option GateAction :=
  match_str [ (lit "auto_allow", AutoAllow); (lit "require", Require); (lit "deny", Deny) ] s.

Arguments approval_state_as_str : simpl never.
Arguments approval_state_from_str : simpl never.
Arguments gate_action_as_str : simpl never.
Arguments gate_action_from_str : simpl never.

Record McpApproval : Type := mkMcpApproval {
  approval_id : N;
  approval_tool : str;
  approval_args : value;
  approval_summary_text : str;
  approval_state : ApprovalState;
  decided_at : option Z;
  decided_by : option str;
  approval_created_at : Z;
}.

Section codecs.
Context `{TextParsers}.

Definition opt_str_to_json (o : option str) : value :=
  match o with Some s => VString s | None => VNull end.
Definition opt_time_to_json (o : option Z) : value :=
  match o with Some t => VString (to_rfc3339 t) | None => VNull end.

(** A missing or null key of an [Option] field is [None]. *)
Definition opt_field {A} (decode : value -> option A) (v : value) (k : str)
    : option (option A) :=
  match vget v k with
  | None | Some VNull => Some None
  | Some x => Some <$> decode x
  end.
Definition time_of_json (v : value) : option Z := as_str v ≫= parse_from_rfc3339.
Definition uuid_of_json (v : value) : option N := as_str v ≫= uuid_parse_str.

Definition gate_to_json (g : McpGate) : value :=
  json [(lit "id", VString (uuid_to_string (gate_id g)));
        (lit "tool", VString (gate_tool g));
        (lit "arg_pattern", opt_str_to_json (arg_pattern g));
        (lit "action", VString (gate_action_as_str (gate_action g)));
        (lit "note", opt_str_to_json (gate_note g));
        (lit "created_at", VString (to_rfc3339 (gate_created_at g)))].

Definition gate_of_json (v : value) : option McpGate :=
  id ← vget v (lit "id") ≫= uuid_of_json;
  tool ← vget v (lit "tool") ≫= as_str;
  pattern ← opt_field as_str v (lit "arg_pattern");
  action ← (vget v (lit "action") ≫= as_str) ≫= gate_action_from_str;
  note ← opt_field as_str v (lit "note");
  created ← vget v (lit "created_at") ≫= time_of_json;
  Some (mkMcpGate id tool pattern action note created).

Fixpoint traverse {A B} (f : A -> option B) (l : list A) : option (list B) :=
  match l with
  | [] => Some []
  | a :: r => b ← f a; bs ← traverse f r; Some (b :: bs)
  end.
Definition gates_of_json (v : value) : option (list McpGate) :=
  as_array v ≫= traverse gate_of_json.

Definition approval_to_json (a : McpApproval) : value :=
  json [(lit "id", VString (uuid_to_string (approval_id a)));
        (lit "tool", VString (approval_tool a));
        (lit "args", approval_args a);
        (lit "summary", VString (approval_summary_text a));
        (lit "state", VString (approval_state_as_str (approval_state a)));
        (lit "decided_at", opt_time_to_json (decided_at a));
        (lit "decided_by", opt_str_to_json (decided_by a));
        (lit "created_at", VString (to_rfc3339 (approval_created_at a)))].

Definition approval_of_json (v : value) : option McpApproval :=
  id ← vget v (lit "id") ≫= uuid_of_json;
  tool ← vget v (lit "tool") ≫= as_str;
  args ← vget v (lit "args");
  summary ← vget v (lit "summary") ≫= as_str;
  state ← (vget v (lit "state") ≫= as_str) ≫= approval_state_from_str;
  at_ ← opt_field time_of_json v (lit "decided_at");
  by_ ← opt_field as_str v (lit "decided_by");
  created ← vget v (lit "created_at") ≫= time_of_json;
  Some (mkMcpApproval id tool args summary state at_ by_ created).

Lemma approval_state_round_trip s :
  approval_state_from_str (approval_state_as_str s) = Some s.
Proof. destruct s; vm_compute; reflexivity. Qed.

Lemma gate_action_round_trip a : gate_action_from_str (gate_action_as_str a) = Some a.
Proof. destruct a; vm_compute; reflexivity. Qed.

Lemma gate_json_round_trip g : gate_of_json (gate_to_json g) = Some g.
Proof.
  destruct g as [id tool pat act note created].
  unfold gate_of_json, gate_to_json, opt_field. json_eval.
  cbn. rewrite uuid_round_trip. cbn.
  destruct pat, note; cbn; rewrite gate_action_round_trip; cbn;
    by rewrite rfc3339_round_trip.
Qed.

Lemma gates_json_round_trip gs : gates_of_json (VArray (map gate_to_json gs)) = Some gs.
Proof.
  unfold gates_of_json. cbn. induction gs as [|g gs IH]; [done|].
  cbn [map traverse]. by rewrite gate_json_round_trip, IH.
Qed.

Lemma approval_json_round_trip a : approval_of_json (approval_to_json a) = Some a.
Proof.
  destruct a as [id tool args summary st at_ by_ created].
  unfold approval_of_json, approval_to_json, opt_field. json_eval.
  cbn. rewrite uuid_round_trip. cbn.
  rewrite approval_state_round_trip. cbn.
  destruct at_, by_; cbn; rewrite ?rfc3339_round_trip; cbn; rewrite ?rfc3339_round_trip; done.
Qed.
End codecs.
