(* ===== verification/McpBridge.v ===== *)
(** * The MCP bridge (src/mcp/server.rs)

    Tool calls of an agent, from the JSON-RPC frame to the daemon request: tool
    lookup, argument validation, the gate, the approval wait and the forwarding.
    The daemon is an interface ([DaemonBridge], the source's trait): any function
    from its state to a reply, so that everything other clients do between two
    requests is covered.  Every computation also yields its trace: the requests
    with their replies and the events received.

    The wait is a [select!] between a deadline and the event stream; [budget] is
    the number of rounds the select takes before the deadline fires. *)

From S2P Require Import Prelude RustStr Json Op McpGates McpTools IpcProtocol McpProtocol McpModels.
#[local] Open Scope bool_scope.

Inductive BridgeError : Type :=
| BIo (message : str)
| BJson (message : str)
| BIpc (message : str)
| BDaemon (code message : str)
| BBadDaemonResponse (message : str).

Definition to_json_rpc (e : BridgeError) : JsonRpcError :=
  match e with
  | BDaemon code message => server_error code message
  | BBadDaemonResponse message => internal_error message
  | BIo message => internal_error message
  | BJson message => internal_error message
  | BIpc message => server_error (lit "ipc_error") message
  end.

(** Outcome of one round of the [select!]. *)
Inductive Wait : Type :=
| WTimeout
| WRecv (ev : Event)
| WClosed.

Inductive item : Type :=
| TReq (op : str) (args : value) (reply : result BridgeError value)
| TSub (topic : Topic)
| TEvent (ev : Event).

Class DaemonBridge (S : Type) := {
  d_request : str -> value -> S -> result BridgeError value * S;
  d_subscribe : Topic -> S -> result BridgeError unit * S;
  d_wait : S -> Wait * S;
}.

(** ** Computations with a trace *)

Definition T (S A : Type) : Type := S -> list item * result BridgeError A * S.

Definition tret {S A} (a : A) : T S A := fun s => ([], Ok a, s).
Definition tthrow {S A} (e : BridgeError) : T S A := fun s => ([], Err e, s).
Definition tbind {S A B} (k : A -> T S B) (m : T S A) : T S B :=
  fun s => match m s with
           | (t1, Ok a, s1) =>
               match k a s1 with (t2, r, s2) => (t1 ++ t2, r, s2) end
           | (t1, Err e, s1) => (t1, Err e, s1)
           end.
Notation "'let*' x ':=' m 'in' k" := (tbind (fun x => k) m)
  (at level 10, x binder, m at level 100, k at level 200).

Section bridge.
Context {S : Type} `{DaemonBridge S} `{JsonCodec} `{TextParsers}.
(** Texts of decoding errors (serde's messages). *)
Context (decode_error : str).

Definition request (op : str) (args : value) : T S value :=
  fun s => match d_request op args s with (r, s') => ([TReq op args r], r, s') end.
Definition subscribe (topic : Topic) : T S unit :=
  fun s => match d_subscribe topic s with (r, s') => ([TSub topic], r, s') end.
Definition select_round : T S Wait :=
  fun s => match d_wait s with
           | (WRecv ev, s') => ([TEvent ev], Ok (WRecv ev), s')
           | (w, s') => ([], Ok w, s')
           end.

Definition actor_of (tool : ToolSpec) : value := VString (lit "mcp:" ++ tool_name tool).

Definition approval_summary (tool : ToolSpec) (arguments : value) : str :=
  let add m key := match vget arguments key with
                   | Some v => map_insert key v m
                   | None => m
                   end in
  let fields := foldl add [] [lit "id"; lit "account_id"; lit "draft_id"; lit "subject"] in
  match fields with
  | [] => lit "MCP tool " ++ tool_name tool ++ lit " requested"
  | _ => lit "MCP tool " ++ tool_name tool ++ lit " requested with " ++ to_string (VObject fields)
  end.

Definition gate_decision (tool : ToolSpec) (arguments : value) : T S GateDecision :=
  let* reply := request (lit "mcp.gate.list") (json [(lit "tool", VString (tool_name tool))]) in
  match gates_of_json reply with
  | Some gates => tret (decide_gates gates arguments)
  | None => tthrow (BBadDaemonResponse (lit "mcp.gate.list: " ++ decode_error))
  end.

Definition approval_request (tool : ToolSpec) (arguments : value) : value :=
  json [(lit "tool", VString (tool_name tool)); (lit "args", arguments);
        (lit "summary", VString (approval_summary tool arguments));
        (lit "_actor", actor_of tool)].

Definition create_approval (tool : ToolSpec) (arguments : value) : T S McpApproval :=
  let* reply := request (lit "mcp.approval.create") (approval_request tool arguments) in
  match approval_of_json reply with
  | Some a => tret a
  | None => tthrow (BBadDaemonResponse (lit "mcp.approval.create: " ++ decode_error))
  end.

Definition id_args (id : N) : value := json [(lit "id", VString (uuid_to_string id))].

Definition get_approval (id : N) : T S McpApproval :=
  let* reply := request (lit "mcp.approval.get") (id_args id) in
  if is_null reply
  then tthrow (BBadDaemonResponse (lit "approval " ++ uuid_to_string id ++ lit " not found"))
  else match approval_of_json reply with
       | Some a => tret a
       | None => tthrow (BBadDaemonResponse (lit "mcp.approval.get: " ++ decode_error))
       end.

Definition expire_approval (id : N) : T S ApprovalState :=
  let* reply := request (lit "mcp.approval.decide")
      (json [(lit "id", VString (uuid_to_string id)); (lit "state", VString (lit "expired"));
             (lit "decided_by", VString (lit "mcp:timeout"))]) in
  if unwrap_or false (vget reply (lit "decided") ≫= as_bool)
  then tret Expired
  else let* a := get_approval id in tret (approval_state a).

Definition match_decided_event (id : N) (ev : Event) : option ApprovalState :=
  payload ← as_object (ev_data ev);
  event_id ← map_get payload (lit "approval_id") ≫= as_str;
  parsed ← uuid_parse_str event_id;
  if (parsed =? id)%N
  then (map_get payload (lit "state") ≫= as_str) ≫= approval_state_from_str
  else None.

Definition event_is_lagged (ev : Event) : bool :=
  match as_object (ev_data ev) with
  | Some m => contains_key m (lit "lagged")
  | None => false
  end.

Fixpoint wait_loop (budget : nat) (id : N) : T S ApprovalState :=
  match budget with
  | O => expire_approval id
  | Datatypes.S b =>
      let* w := select_round in
      match w with
      | WTimeout => expire_approval id
      | WRecv ev =>
          match match_decided_event id ev with
          | Some state => tret state
          | None =>
              if event_is_lagged ev then
                let* a := get_approval id in
                if bool_decide (approval_state a = Pending) then wait_loop b id
                else tret (approval_state a)
              else wait_loop b id
          end
      | WClosed =>
          let* a := get_approval id in
          if bool_decide (approval_state a = Pending) then expire_approval id
          else tret (approval_state a)
      end
  end.

Definition wait_for_approval (budget : nat) (id : N) : T S ApprovalState :=
  let* _ := subscribe McpApprovalDecided in
  let* a := get_approval id in
  if bool_decide (approval_state a = Pending) then wait_loop budget id
  else tret (approval_state a).

(** [object.insert("_actor", ...)] then the request. *)
Definition with_actor (tool : ToolSpec) (arguments : value) : value :=
  match arguments with
  | VObject obj => VObject (map_insert (lit "_actor") (actor_of tool) obj)
  | v => v
  end.
Definition forward_dangerous_tool (tool : ToolSpec) (arguments : value) : T S value :=
  request (op_as_str (tool_op tool)) (with_actor tool arguments).

Definition call_after_required_approval (budget : nat) (tool : ToolSpec) (arguments : value)
    : T S value :=
  let* approval := create_approval tool arguments in
  let* state := wait_for_approval budget (approval_id approval) in
  let shown := uuid_to_string (approval_id approval) in
  match state with
  | Allowed => forward_dangerous_tool tool arguments
  | Denied => tthrow (BDaemon (lit "approval_denied") (lit "MCP approval " ++ shown ++ lit " was denied"))
  | Expired => tthrow (BDaemon (lit "approval_expired") (lit "MCP approval " ++ shown ++ lit " expired"))
  | Pending => tthrow (BDaemon (lit "approval_timeout") (lit "MCP approval " ++ shown ++ lit " timed out"))
  end.

Definition call_tool (budget : nat) (tool : ToolSpec) (arguments : value) : T S value :=
  if negb (dangerous tool) then request (op_as_str (tool_op tool)) arguments
  else
    let* decision := gate_decision tool arguments in
    match decision with
    | DAutoAllow _ => forward_dangerous_tool tool arguments
    | DDeny _ => tthrow (BDaemon (lit "gate_denied") (lit "MCP gate denied " ++ tool_name tool))
    | DRequire _ => call_after_required_approval budget tool arguments
    end.

(** ** The JSON-RPC handlers *)

Definition tool_result (v : value) : value :=
  json [(lit "content", VArray [json [(lit "type", VString (lit "text"));
                                      (lit "text", VString (to_string_pretty v))]]);
        (lit "structuredContent", v)].

(** Handlers never fail the bridge: their errors are JSON-RPC errors. *)
Definition handle_tool_call (budget : nat) (params : value) (s : S)
    : list item * result JsonRpcError value * S :=
  match object_params params with
  | Err e => ([], Err e, s)
  | Ok obj =>
      match map_get obj (lit "name") ≫= as_str with
      | None => ([], Err (invalid_params (lit "tools/call missing 'name'")), s)
      | Some name =>
          match find_tool name with
          | None => ([], Err (invalid_params (lit "unknown tool '" ++ name ++ lit "'")), s)
          | Some tool =>
              match validate_arguments tool (unwrap_or (json []) (map_get obj (lit "arguments"))) with
              | Err e => ([], Err (invalid_params e), s)
              | Ok arguments =>
                  match call_tool budget tool arguments s with
                  | (t, Ok v, s') => (t, Ok (tool_result v), s')
                  | (t, Err e, s') => (t, Err (to_json_rpc e), s')
                  end
              end
          end
      end
  end.

Definition handle_initialize (version : str) (params : value) : result JsonRpcError value :=
  match object_params params with
  | Err e => Err e
  | Ok obj => Ok (initialize_result version (map_get obj (lit "protocolVersion") ≫= as_str))
  end.

Definition handle_request (version : str) (budget : nat) (id : value) (method : str)
    (params : value) (s : S) : list item * value * S :=
  let answer r := match r with Ok v => success_response id v | Err e => error_response id e end in
  if str_eqb method (lit "initialize") then ([], answer (handle_initialize version params), s)
  else if str_eqb method (lit "tools/list") then ([], answer (Ok list_tools), s)
  else if str_eqb method (lit "tools/call") then
    match handle_tool_call budget params s with (t, r, s') => (t, answer r, s') end
  else if str_eqb method (lit "ping") then ([], answer (Ok (json [])), s)
  else ([], answer (Err (method_not_found method)), s).

Definition handle_incoming (version : str) (budget : nat) (incoming : Incoming) (s : S)
    : list item * option value * S :=
  match incoming with
  | IRequest id method params =>
      match handle_request version budget id method params s with
      | (t, v, s') => (t, Some v, s')
      end
  | INotification _ _ | IResponse => ([], None, s)
  end.

Definition handle_line (json_error : str -> str) (version : str) (budget : nat) (line : str) (s : S)
    : list item * option value * S :=
  match parse_line json_error line with
  | Ok incoming => handle_incoming version budget incoming s
  | Err response => ([], Some response, s)
  end.
End bridge.

(** Redaction of forwarded events. *)
Definition forward_event_data (ev : Event) : value :=
  if negb (str_eqb (ev_topic ev) (topic_as_str McpApprovalRequested)) then ev_data ev
  else match as_object (ev_data ev) with
       | None => json []
       | Some payload =>
           VObject (foldl (fun m key => match map_get payload key with
                                        | Some v => map_insert key v m
                                        | None => m
                                        end) []
                      [lit "approval_id"; lit "tool"; lit "state"; lit "summary"])
       end.

Definition notification_topics : list Topic :=
  [MailNew; MailUpdated; AccountSynced; McpApprovalRequested; McpApprovalDecided].

Definition is_initialized_method (method : str) : bool :=
  str_eqb method (lit "initialized") || str_eqb method (lit "notifications/initialized").
Definition is_initialized_notification `{JsonCodec} (json_error : str -> str) (line : str) : bool :=
  match parse_line json_error line with
  | Ok (INotification method _) => is_initialized_method method
  | _ => false
  end.

(** ** Traces *)

Lemma tbind_inv {S A B} (k : A -> T S B) (m : T S A) s t r s' :
  tbind k m s = (t, r, s') ->
  (exists t1 a s1 t2, m s = (t1, Ok a, s1) /\ k a s1 = (t2, r, s') /\ t = t1 ++ t2) \/
  (exists e, m s = (t, Err e, s') /\ r = Err e).
Proof.
  unfold tbind. destruct (m s) as [[t1 [a|e]] s1].
  - destruct (k a s1) as [[t2 r2] s2] eqn:E. intros [= <- <- <-]. left. eauto 10.
  - intros [= <- <- <-]. right. eauto.
Qed.

(** Run through a sequence: one case per way it can end. *)
Ltac tsteps :=
  repeat match goal with
  | Hx : tbind _ _ _ = (_, _, _) |- _ =>
      apply tbind_inv in Hx as [(? & ? & ? & ? & ? & Hx & ->)|(? & Hx & ->)]
  | Hx : tret _ _ = _ |- _ => unfold tret in Hx; first [discriminate Hx|injection Hx as <- <- <-]
  | Hx : tthrow _ _ = _ |- _ => unfold tthrow in Hx; first [discriminate Hx|injection Hx as <- <- <-]
  end.

(** The daemon operations that manage gates and approvals. *)
Definition control_ops : list str :=
  [lit "mcp.gate.list"; lit "mcp.approval.create"; lit "mcp.approval.get";
   lit "mcp.approval.decide"].

(** A control request; a decision it sends can only be an expiry. *)
Definition control_item (it : item) : Prop :=
  match it with
  | TReq op args _ =>
      In op control_ops /\
      (op = lit "mcp.approval.decide" -> vget args (lit "state") = Some (VString (lit "expired")))
  | _ => True
  end.

(** A trace that only reads gates and manages approvals. *)
Definition quiet (t : list item) : Prop := Forall control_item t.

Lemma quiet_app a b : quiet a -> quiet b -> quiet (a ++ b).
Proof. apply Forall_app_2. Qed.

(** Close [control_item] of one of the bridge's own control requests. *)
Ltac control_req :=
  split; [vm_compute; auto|];
  first [ let E := fresh in intros E; vm_compute in E; discriminate E
        | intros _; json_eval; reflexivity ].

Create HintDb bridge.
#[export] Hint Resolve quiet_app : bridge.

Section safety.
Context {S : Type} `{DaemonBridge S} `{JsonCodec} `{TextParsers} (decode_error : str).

(** What a trace shows about an approval: the daemon reported it allowed, or a
    decision event for it said so. *)
Definition allowed_evidence (id : N) (t : list item) : Prop :=
  (exists reply a, In (TReq (lit "mcp.approval.get") (id_args id) (Ok reply)) t /\
     approval_of_json reply = Some a /\ approval_state a = Allowed) \/
  (exists ev, In (TEvent ev) t /\ match_decided_event id ev = Some Allowed).

Definition gate_allows (tool : ToolSpec) (args : value) (t : list item) : Prop :=
  exists reply gates id,
    In (TReq (lit "mcp.gate.list") (json [(lit "tool", VString (tool_name tool))]) (Ok reply)) t /\
    gates_of_json reply = Some gates /\ decide_gates gates args = DAutoAllow id.

Definition approval_allows (tool : ToolSpec) (args : value) (t : list item) : Prop :=
  exists reply a,
    In (TReq (lit "mcp.approval.create") (approval_request tool args) (Ok reply)) t /\
    approval_of_json reply = Some a /\ allowed_evidence (approval_id a) t.

Definition forwards (tool : ToolSpec) (it : item) : Prop :=
  exists a r, it = TReq (op_as_str (tool_op tool)) a r.

Lemma allowed_evidence_app id a b :
  allowed_evidence id a \/ allowed_evidence id b -> allowed_evidence id (a ++ b).
Proof.
  unfold allowed_evidence. setoid_rewrite in_app_iff.
  intros [[(reply & x & Hin & ?)|(ev & Hin & ?)]|[(reply & x & Hin & ?)|(ev & Hin & ?)]];
    [left; exists reply, x|right; exists ev|left; exists reply, x|right; exists ev]; tauto.
Qed.

Lemma request_inv op args s t r s' :
  request op args s = (t, r, s') -> t = [TReq op args r].
Proof. unfold request. destruct (d_request op args s). by intros [= <- <- <-]. Qed.

Lemma quiet_request op args r : control_item (TReq op args r) -> quiet [TReq op args r].
Proof. intros Hin. constructor; [exact Hin|constructor]. Qed.

Lemma get_approval_trace id s t r s' :
  get_approval decode_error id s = (t, r, s') ->
  quiet t /\
  forall a, r = Ok a ->
    (approval_state a = Allowed -> allowed_evidence id t).
Proof.
  unfold get_approval. intros Hx.
  apply tbind_inv in Hx as [(t1 & reply & s1 & t2 & Hr & Hk & ->)|(e & Hr & ->)];
    apply request_inv in Hr as ->; [|split; [apply quiet_request; control_req|done]].
  split.
  - apply quiet_app; [apply quiet_request; control_req|].
    destruct (is_null reply), (approval_of_json reply); tsteps; constructor.
  - intros a -> Hst. destruct (is_null reply); [by tsteps|].
    destruct (approval_of_json reply) as [a'|] eqn:Ea; [|by tsteps].
    unfold tret in Hk. injection Hk as <- -> <-.
    left. exists reply, a. repeat split; auto. apply in_or_app. left. by left.
Qed.

Lemma expire_approval_trace id s t r s' :
  expire_approval decode_error id s = (t, r, s') ->
  quiet t /\ (r = Ok Allowed -> allowed_evidence id t).
Proof.
  unfold expire_approval. intros Hx.
  apply tbind_inv in Hx as [(t1 & reply & s1 & t2 & Hr & Hk & ->)|(e & Hr & ->)];
    apply request_inv in Hr as ->; [|split; [apply quiet_request; control_req|done]].
  destruct (unwrap_or _ _).
  - tsteps. split; [apply quiet_app; [apply quiet_request; control_req|constructor]|done].
  - apply tbind_inv in Hk as [(t3 & a & s3 & t4 & Hg & Hk & ->)|(e & Hg & ->)].
    + tsteps. apply get_approval_trace in Hg as [Hq Hev]. split.
      * apply quiet_app; [apply quiet_request; control_req|].
        apply quiet_app; [done|constructor].
      * intros [= Ha]. apply allowed_evidence_app. right. rewrite app_nil_r. by eapply Hev.
    + apply get_approval_trace in Hg as [Hq _]. split; [|done].
      apply quiet_app; [apply quiet_request; control_req|done].
Qed.

(** The tail of a round that has just read the approval. *)
Lemma after_get_trace (k : T S ApprovalState) id s t r s' :
  (forall s t r s', k s = (t, r, s') -> quiet t /\ (r = Ok Allowed -> allowed_evidence id t)) ->
  tbind (fun a => if bool_decide (approval_state a = Pending) then k else tret (approval_state a))
    (get_approval decode_error id) s = (t, r, s') ->
  quiet t /\ (r = Ok Allowed -> allowed_evidence id t).
Proof.
  intros IH Hx.
  apply tbind_inv in Hx as [(t1 & a & s1 & t2 & Hg & Hk & ->)|(e & Hg & ->)].
  - apply get_approval_trace in Hg as [Hq Hev]. destruct (bool_decide _).
    + apply IH in Hk as [Hq2 Hev2]. split; [auto with bridge|].
      intros Hr. apply allowed_evidence_app. auto.
    + tsteps. split; [by rewrite app_nil_r|]. intros [= Ha]. rewrite app_nil_r. by eapply Hev.
  - apply get_approval_trace in Hg as [Hq _]. done.
Qed.

Lemma wait_loop_trace budget id s t r s' :
  wait_loop decode_error budget id s = (t, r, s') ->
  quiet t /\ (r = Ok Allowed -> allowed_evidence id t).
Proof.
  revert s t r s'. induction budget as [|b IH]; intros s t r s' Hx; cbn [wait_loop] in Hx.
  { by apply expire_approval_trace in Hx. }
  apply tbind_inv in Hx as [(t1 & w & s1 & t2 & Hw & Hk & ->)|(e & Hw & ->)].
  2:{ unfold select_round in Hw. by destruct (d_wait s) as [[]]. }
  assert (Hq1 : quiet t1 /\ forall ev, w = WRecv ev -> t1 = [TEvent ev]).
  { unfold select_round in Hw. destruct (d_wait s) as [[|ev|] s0]; injection Hw as <- <- <-;
      (split; [repeat constructor|]); by intros ? [= <-]. }
  destruct Hq1 as [Hq1 Hev1].
  assert (Hlift : quiet t2 /\ (r = Ok Allowed -> allowed_evidence id t2) ->
                  quiet (t1 ++ t2) /\ (r = Ok Allowed -> allowed_evidence id (t1 ++ t2))).
  { intros [? ?]. split; [auto with bridge|]. intros. apply allowed_evidence_app. auto. }
  destruct w as [|ev|].
  - apply Hlift. by apply expire_approval_trace in Hk.
  - destruct (match_decided_event id ev) as [st|] eqn:Em.
    + tsteps. split; [by rewrite app_nil_r|]. intros [= ->]. rewrite app_nil_r.
      rewrite (Hev1 ev eq_refl). right. exists ev. split; [by left|done].
    + apply Hlift. destruct (event_is_lagged ev); [|by apply IH in Hk].
      eapply (after_get_trace (wait_loop decode_error b id)); [|exact Hk]. exact IH.
  - apply Hlift. eapply (after_get_trace (expire_approval decode_error id)); [|exact Hk].
    apply expire_approval_trace.
Qed.

Lemma wait_for_approval_trace budget id s t r s' :
  wait_for_approval decode_error budget id s = (t, r, s') ->
  quiet t /\ (r = Ok Allowed -> allowed_evidence id t).
Proof.
  unfold wait_for_approval. intros Hx.
  apply tbind_inv in Hx as [(t1 & u & s1 & t2 & Hs & Hk & ->)|(e & Hs & ->)];
    unfold subscribe in Hs; destruct (d_subscribe _ s); injection Hs as <- -> <-;
    [|split; [repeat constructor|done]].
  eapply (after_get_trace (wait_loop decode_error budget id)) in Hk as [Hq Hev].
  - split; [by constructor|]. intros Hr. apply (allowed_evidence_app id [_]). auto.
  - apply wait_loop_trace.
Qed.

(** Requests of a dangerous tool are not control requests. *)
Lemma dangerous_op_not_control tool :
  In tool TOOLS -> dangerous tool = true -> ~ In (op_as_str (tool_op tool)) control_ops.
Proof.
  assert (Hall : forallb (fun t => negb (dangerous t) ||
    negb (existsb (str_eqb (op_as_str (tool_op t))) control_ops)) TOOLS = true)
    by (vm_compute; reflexivity).
  rewrite forallb_forall in Hall. intros Hin Hd Hc. specialize (Hall _ Hin).
  rewrite Hd in Hall. cbn [negb orb] in Hall. brefl.
  rewrite existsb_false in Hall. rewrite List.Forall_forall in Hall.
  specialize (Hall _ Hc). by rewrite str_eqb_refl in Hall.
Qed.

Lemma quiet_not_forwards tool t :
  In tool TOOLS -> dangerous tool = true -> quiet t ->
  Forall (fun it => ~ forwards tool it) t.
Proof.
  intros Hin Hd Hq. eapply Forall_impl; [exact Hq|]. intros it Hit (a & r & ->).
  destruct Hit. by eapply dangerous_op_not_control.
Qed.

(** A forward happens at the end of a quiet trace. *)
Definition authorised (tool : ToolSpec) (args : value) (t : list item)
    (r : result BridgeError value) : Prop :=
  Forall (fun it => ~ forwards tool it) t \/
  exists t0, t = t0 ++ [TReq (op_as_str (tool_op tool)) (with_actor tool args) r] /\
    Forall (fun it => ~ forwards tool it) t0 /\
    (gate_allows tool args t0 \/ approval_allows tool args t0).

Lemma gate_decision_trace tool args s t r s' :
  gate_decision decode_error tool args s = (t, r, s') ->
  quiet t /\
  forall d, r = Ok d -> exists reply gates,
    In (TReq (lit "mcp.gate.list") (json [(lit "tool", VString (tool_name tool))]) (Ok reply)) t /\
    gates_of_json reply = Some gates /\ d = decide_gates gates args.
Proof.
  unfold gate_decision. intros Hx.
  apply tbind_inv in Hx as [(t1 & reply & s1 & t2 & Hr & Hk & ->)|(e & Hr & ->)];
    apply request_inv in Hr as ->; [|split; [apply quiet_request; control_req|done]].
  destruct (gates_of_json reply) as [gates|] eqn:Eg; tsteps;
    (split; [apply quiet_app; [apply quiet_request; control_req|constructor]|]); [|done].
  intros d [= <-]. exists reply, gates. repeat split; auto. by left.
Qed.

Lemma create_approval_trace tool args s t r s' :
  create_approval decode_error tool args s = (t, r, s') ->
  quiet t /\
  forall a, r = Ok a -> exists reply,
    In (TReq (lit "mcp.approval.create") (approval_request tool args) (Ok reply)) t /\
    approval_of_json reply = Some a.
Proof.
  unfold create_approval. intros Hx.
  apply tbind_inv in Hx as [(t1 & reply & s1 & t2 & Hr & Hk & ->)|(e & Hr & ->)];
    apply request_inv in Hr as ->; [|split; [apply quiet_request; control_req|done]].
  destruct (approval_of_json reply) as [a|] eqn:Ea; tsteps;
    (split; [apply quiet_app; [apply quiet_request; control_req|constructor]|]); [|done].
  intros a' [= <-]. exists reply. split; [by left|done].
Qed.

Lemma forward_authorised tool args t0 s t r s' :
  In tool TOOLS -> dangerous tool = true -> quiet t0 ->
  gate_allows tool args t0 \/ approval_allows tool args t0 ->
  forward_dangerous_tool tool args s = (t, r, s') -> authorised tool args (t0 ++ t) r.
Proof.
  intros Hin Hd Hq Hallow Hx. apply request_inv in Hx as ->. right. exists t0.
  auto using quiet_not_forwards.
Qed.

Lemma quiet_authorised tool args t r :
  In tool TOOLS -> dangerous tool = true -> quiet t -> authorised tool args t r.
Proof. left. auto using quiet_not_forwards. Qed.

Lemma after_approval_authorised budget tool args t0 s t r s' :
  In tool TOOLS -> dangerous tool = true -> quiet t0 ->
  call_after_required_approval decode_error budget tool args s = (t, r, s') ->
  authorised tool args (t0 ++ t) r.
Proof.
  intros Hin Hd Hq0 Hx. unfold call_after_required_approval in Hx.
  apply tbind_inv in Hx as [(t1 & ap & s1 & t2 & Hc & Hk & ->)|(e & Hc & ->)];
    apply create_approval_trace in Hc as [Hcq Hc].
  2: { apply quiet_authorised; auto with bridge. }
  destruct (Hc ap eq_refl) as (reply & Hcr & Ha).
  apply tbind_inv in Hk as [(t3 & st & s3 & t4 & Hw & Hk & ->)|(e & Hw & ->)];
    apply wait_for_approval_trace in Hw as [Hwq Hev].
  2: { apply quiet_authorised; auto with bridge. }
  rewrite !app_assoc. rewrite <- (app_assoc t0).
  destruct st; [| |tsteps; rewrite app_nil_r; apply quiet_authorised; auto with bridge..].
  - tsteps. rewrite app_nil_r. apply quiet_authorised; auto with bridge.
  - eapply forward_authorised; [done|done|auto with bridge| |exact Hk].
    right. exists reply, ap. rewrite !in_app_iff. split; [auto|]. split; [done|].
    apply allowed_evidence_app. right. apply allowed_evidence_app. auto.
Qed.

Lemma call_tool_authorised budget tool args s t r s' :
  In tool TOOLS -> dangerous tool = true ->
  call_tool decode_error budget tool args s = (t, r, s') ->
  authorised tool args t r.
Proof.
  intros Hin Hd Hx. unfold call_tool in Hx. rewrite Hd in Hx. cbn [negb] in Hx.
  apply tbind_inv in Hx as [(t1 & dec & s1 & t2 & Hg & Hk & ->)|(e & Hg & ->)];
    apply gate_decision_trace in Hg as [Hgq Hg].
  2: { by apply quiet_authorised. }
  destruct (Hg dec eq_refl) as (reply & gates & Hin1 & Hgates & Hdec).
  destruct dec as [gid|gid|gid].
  - eapply forward_authorised; [done|done|done| |exact Hk].
    left. exists reply, gates, gid. auto.
  - tsteps. rewrite app_nil_r. by apply quiet_authorised.
  - by eapply after_approval_authorised.
Qed.

(** C1. No dangerous tool runs without authorisation.  Whatever the daemon
    answers and whatever other clients do meanwhile, a call of a dangerous tool
    either sends no request for the tool's operation, or sends exactly one, as
    its last request, with exactly the call's arguments plus the bridge's own
    [_actor], after the daemon listed gates that auto-allow these arguments, or
    after an approval was created for this tool and these very arguments and the
    daemon reported that approval allowed. *)
Theorem dangerous_tool_needs_authorisation budget tool args s t r s' :
  In tool TOOLS -> dangerous tool = true ->
  call_tool decode_error budget tool args s = (t, r, s') ->
  authorised tool args t r.
Proof. apply call_tool_authorised. Qed.
End safety.

(** A scripted daemon: it answers from a list of replies, and the deadline fires
    as soon as the bridge waits. *)
Definition scripted_daemon : DaemonBridge (list (result BridgeError value)) :=
  {| d_request _ _ s := match s with r :: s' => (r, s') | [] => (Ok VNull, []) end;
     d_subscribe _ s := (Ok tt, s);
     d_wait s := (WTimeout, s) |}.
Definition no_codec : JsonCodec :=
  {| from_str _ := None; to_string _ := []; to_string_pretty _ := [] |}.
Definition delete_tool : ToolSpec := nth 9 TOOLS no_tool.
Definition delete_args : value := json [(lit "id", VString [7%N])].

Lemma dangerous_tool_needs_authorisation_witness :
  In delete_tool TOOLS /\ dangerous delete_tool = true /\
  exists t r s',
    @call_tool _ scripted_daemon no_codec plain_parsers [] 3 delete_tool delete_args
      [Ok (VArray [@gate_to_json plain_parsers
                     (mkMcpGate 1%N (tool_name delete_tool) None AutoAllow None 0%Z)]);
       Ok VNull] = (t, r, s') /\
    @authorised no_codec plain_parsers delete_tool delete_args t r.
Proof.
  assert (H1 : In delete_tool TOOLS) by (do 9 right; left; reflexivity).
  assert (H2 : dangerous delete_tool = true) by reflexivity.
  split; [exact H1|]. split; [exact H2|].
  do 3 eexists. split; [vm_compute; reflexivity|].
  eapply (@dangerous_tool_needs_authorisation _ scripted_daemon no_codec plain_parsers [] 3
            delete_tool delete_args
      [Ok (VArray [@gate_to_json plain_parsers
                     (mkMcpGate 1%N (tool_name delete_tool) None AutoAllow None 0%Z)]);
       Ok VNull] _ _ _ H1 H2).
  vm_compute. reflexivity.
Defined.

(** ** Answers *)

(** A well-formed JSON-RPC answer to [id]: the version, the id, and exactly one of
    [result] and [error]. *)
Definition answers (id v : value) : Prop :=
  vget v (lit "jsonrpc") = Some (VString JSONRPC_VERSION) /\ vget v (lit "id") = Some id /\
  ((exists x, vget v (lit "result") = Some x) /\ vget v (lit "error") = None \/
   (exists x, vget v (lit "error") = Some x) /\ vget v (lit "result") = None).

Lemma success_response_answers id x : answers id (success_response id x).
Proof. unfold answers, success_response. json_eval. repeat split; eauto. Qed.
Lemma error_response_answers id e : answers id (error_response id e).
Proof. unfold answers, error_response. json_eval. repeat split; eauto. Qed.

Section answering.
Context {S : Type} `{DaemonBridge S} `{JsonCodec} `{TextParsers} (decode_error : str).

(** Every request gets exactly one answer, carrying the request's id and
    exactly one of a result and an error, whatever the method, its parameters
    and the daemon's replies; notifications and responses get none and reach
    the daemon with nothing. *)
Theorem every_request_answered version budget incoming s :
  let '(t, out, s') := handle_incoming decode_error version budget incoming s in
  match incoming with
  | IRequest id _ _ => exists v, out = Some v /\ answers id v
  | _ => out = None /\ t = [] /\ s' = s
  end.
Proof.
  destruct incoming as [id method params|method params|]; cbn [handle_incoming]; auto.
  unfold handle_request.
  repeat match goal with |- context [if ?b then _ else _] => destruct b end;
    cbn [fst snd]; try (eexists; split; [reflexivity|]);
    auto using success_response_answers, error_response_answers.
  - destruct (handle_initialize version params);
      auto using success_response_answers, error_response_answers.
  - destruct (handle_tool_call decode_error budget params s) as [[t r] s'].
    eexists; split; [reflexivity|].
    destruct r; auto using success_response_answers, error_response_answers.
Qed.

(** ** What an agent can make the daemon do *)

(** The requests a frame can cause: the operation of a catalogue tool, or a
    control request. *)
Definition agent_item (it : item) : Prop :=
  control_item it \/
  exists tool args r, In tool TOOLS /\ it = TReq (op_as_str (tool_op tool)) args r.

Lemma control_agent t : quiet t -> Forall agent_item t.
Proof. intros Hq. eapply Forall_impl; [exact Hq|]. by left. Qed.

Lemma call_tool_agent budget tool args s t r s' :
  In tool TOOLS -> call_tool decode_error budget tool args s = (t, r, s') -> Forall agent_item t.
Proof.
  intros Hin Hx. unfold call_tool in Hx.
  assert (Hfwd : forall a s t r s', request (op_as_str (tool_op tool)) a s = (t, r, s') ->
                   Forall agent_item t).
  { intros a s0 t0 r0 s0' Hr. apply request_inv in Hr as ->. constructor; [|constructor].
    right. eauto. }
  destruct (dangerous tool); cbn [negb] in Hx; [|by eapply Hfwd].
  apply tbind_inv in Hx as [(t1 & dec & s1 & t2 & Hg & Hk & ->)|(e & Hg & ->)];
    apply gate_decision_trace in Hg as [Hgq Hg]; [|by apply control_agent].
  apply Forall_app. split; [by apply control_agent|].
  destruct dec; [by eapply Hfwd|by tsteps|]. unfold call_after_required_approval in Hk.
  apply tbind_inv in Hk as [(t3 & ap & s3 & t4 & Hc & Hk & ->)|(e & Hc & ->)];
    apply create_approval_trace in Hc as [Hcq _]; [|by apply control_agent].
  apply Forall_app. split; [by apply control_agent|].
  apply tbind_inv in Hk as [(t5 & st & s5 & t6 & Hw & Hk & ->)|(e & Hw & ->)];
    apply wait_for_approval_trace in Hw as [Hwq _]; [|by apply control_agent].
  apply Forall_app. split; [by apply control_agent|].
  destruct st; try (by tsteps). by eapply Hfwd.
Qed.

Lemma handle_line_agent json_error version budget line s :
  let '(t, _, _) := handle_line decode_error json_error version budget line s in
  Forall agent_item t.
Proof.
  unfold handle_line. destruct (parse_line json_error line) as [[id method params| |]|e];
    cbn [handle_incoming]; try constructor.
  unfold handle_request.
  repeat match goal with |- context [if ?b then _ else _] => destruct b end; try constructor.
  unfold handle_tool_call. destruct (object_params params) as [obj|]; [|constructor].
  destruct (map_get obj (lit "name") ≫= as_str) as [name|]; [|constructor].
  destruct (find_tool name) as [tool|] eqn:Ef; [|constructor].
  destruct (validate_arguments tool _) as [arguments|]; [|constructor].
  apply List.find_some in Ef as [Hin _].
  destruct (call_tool decode_error budget tool arguments s) as [[t [v|e]] s'] eqn:Ec;
    by eapply call_tool_agent.
Qed.

(** C4. An agent cannot approve itself: whatever line it sends and whatever
    the daemon answers, the bridge never asks the daemon to create or delete a
    gate, and the only approval decision it ever sends is an expiry. *)
Theorem agent_cannot_self_approve json_error version budget line s :
  let '(t, _, _) := handle_line decode_error json_error version budget line s in
  forall op args r, In (TReq op args r) t ->
    op <> op_as_str McpGateCreate /\ op <> op_as_str McpGateDelete /\
    (op = op_as_str McpApprovalDecide ->
     vget args (lit "state") = Some (VString (lit "expired"))).
Proof.
  pose proof (handle_line_agent json_error version budget line s) as Hag.
  destruct (handle_line _ _ _ _ _ _) as [[t out] s']. intros op args r Hin.
  rewrite List.Forall_forall in Hag. specialize (Hag _ Hin).
  destruct Hag as [[Hc Hexp]|(tool & a & r' & Ht & [= -> -> ->])].
  - repeat split; [| |exact Hexp]; intros ->; vm_compute in Hc; intuition discriminate.
  - assert (Hall : forallb (fun t => negb (existsb (str_eqb (op_as_str (tool_op t)))
        [op_as_str McpGateCreate; op_as_str McpGateDelete; op_as_str McpApprovalDecide])) TOOLS = true)
      by (vm_compute; reflexivity).
    rewrite forallb_forall in Hall. specialize (Hall _ Ht). brefl.
    rewrite existsb_false, List.Forall_forall in Hall.
    assert (Hne : forall x, In x [op_as_str McpGateCreate; op_as_str McpGateDelete;
              op_as_str McpApprovalDecide] -> op_as_str (tool_op tool) <> x).
    { intros x Hx. apply str_eqb_neq. auto. }
    repeat split; [apply Hne; cbn; auto..|]. intros E. exfalso. revert E. apply Hne. cbn. auto.
Qed.
End answering.

(** ** Redaction *)

Definition visible_keys : list str :=
  [lit "approval_id"; lit "tool"; lit "state"; lit "summary"].

Lemma copy_keys_get payload keys m k v :
  map_get (foldl (fun m key => match map_get payload key with
                               | Some v => map_insert key v m
                               | None => m
                               end) m keys) k = Some v ->
  map_get m k = Some v \/ (In k keys /\ map_get payload k = Some v).
Proof.
  revert m. induction keys as [|key keys IH]; intros m Hget; cbn in Hget; [auto|].
  apply IH in Hget as [Hget|[? ?]]; [|cbn; auto].
  destruct (map_get payload key) as [x|] eqn:E; [|auto].
  rewrite map_get_insert in Hget. destruct (str_eqb key k) eqn:Ek; [|auto].
  apply str_eqb_eq in Ek. subst. right. cbn. split; [auto|congruence].
Qed.

(** Redaction: what the bridge forwards of an approval request carries only
    the identifier, the tool, the state and the summary, each unchanged, so the
    call's raw arguments (message bodies) never reach other agents; every other
    event is forwarded as it is. *)
Theorem forwarded_approval_request_is_redacted ev k v :
  vget (forward_event_data ev) k = Some v ->
  vget (ev_data ev) k = Some v /\
  (ev_topic ev = topic_as_str McpApprovalRequested -> In k visible_keys).
Proof.
  unfold forward_event_data.
  destruct (str_eqb (ev_topic ev) (topic_as_str McpApprovalRequested)) eqn:Et; cbn [negb].
  - destruct (ev_data ev) as [| | | | |payload]; cbn [as_object]; try (by cbn).
    cbn [vget]. intros Hget. apply copy_keys_get in Hget as [Hget|[? ?]]; [done|auto].
  - apply str_eqb_neq in Et. intros. split; [done|]. by intros.
Qed.

Lemma forwarded_approval_request_is_redacted_witness :
  vget (forward_event_data (mkEvent 1 (lit "mcp.approval_requested")
          (json [(lit "tool", VString (lit "t")); (lit "args", VNull)]))) (lit "tool")
    = Some (VString (lit "t")) /\ In (lit "tool") visible_keys.
Proof.
  split; [vm_compute; reflexivity|].
  eapply (forwarded_approval_request_is_redacted (mkEvent 1 (lit "mcp.approval_requested")
          (json [(lit "tool", VString (lit "t")); (lit "args", VNull)]))).
  - vm_compute. reflexivity.
  - reflexivity.
Defined.
