(* ===== verification/StdioFrames.v ===== *)
(** * Line framing of the bridge's stdin (src/mcp/server.rs)

    [read_bounded_line] pulls buffered chunks from the input until a newline and
    refuses over-long lines without buffering them.  The input is the list of
    chunks the buffered reader delivers, each possibly an I/O error; an empty
    chunk or the end of the list is end of file. *)

From S2P Require Import Prelude RustStr.
#[local] Open Scope nat_scope.

Abbreviation bytes := (list N) (only parsing).

Inductive StdioFrame : Type :=
| Line (line : str)
| Oversized.

Section stdio.
Context {IoError : Type} (invalid_data : IoError).
(** [String::from_utf8]. *)
Context (from_utf8 : bytes -> option str).

Abbreviation chunk := (result IoError bytes) (only parsing).

Fixpoint position (b : N) (l : bytes) : option nat :=
  match l with
  | [] => None
  | x :: r => if (x =? b)%N then Some 0 else S <$> position b r
  end.

Definition decode_stdio_line (line : bytes) : result IoError StdioFrame :=
  let line := match rev line with
              | b :: r => if (b =? CR)%N then rev r else line
              | [] => line
              end in
  match from_utf8 line with
  | Some s => Ok (Line s)
  | None => Err invalid_data
  end.

(** [reader.consume(n)] with bytes of the current chunk left over. *)
Definition unread (l : bytes) (rest : list chunk) : list chunk :=
  match l with [] => rest | _ => Ok l :: rest end.

Fixpoint discard_until_newline (input : list chunk) : result IoError unit * list chunk :=
  match input with
  | [] => (Ok tt, [])
  | Err e :: rest => (Err e, rest)
  | Ok [] :: rest => (Ok tt, rest)
  | Ok available :: rest =>
      match position LF available with
      | Some newline => (Ok tt, unread (drop (newline + 1) available) rest)
      | None => discard_until_newline rest
      end
  end.

Fixpoint read_line_go (max_line_bytes : nat) (line : bytes) (input : list chunk)
    : result IoError (option StdioFrame) * list chunk :=
  let at_eof := if is_empty line then Ok None else Some <$> decode_stdio_line line in
  match input with
  | [] => (at_eof, [])
  | Err e :: rest => (Err e, rest)
  | Ok [] :: rest => (at_eof, rest)
  | Ok available :: rest =>
      match position LF available with
      | Some newline =>
          let rest' := unread (drop (newline + 1) available) rest in
          if max_line_bytes <? length line + newline then (Ok (Some Oversized), rest')
          else (Some <$> decode_stdio_line (line ++ take newline available), rest')
      | None =>
          if max_line_bytes <? length line + length available then
            match discard_until_newline rest with
            | (Ok _, rest') => (Ok (Some Oversized), rest')
            | (Err e, rest') => (Err e, rest')
            end
          else read_line_go max_line_bytes (line ++ available) rest
      end
  end.

Definition read_bounded_line (max_line_bytes : nat) (input : list chunk) :=
  read_line_go max_line_bytes [] input.

(** ** The specification: lines of the byte stream *)

(** The first line of a stream and what follows its newline. *)
Fixpoint cut_line (b : bytes) : bytes * bytes :=
  match b with
  | [] => ([], [])
  | x :: r => if (x =? LF)%N then ([], r)
              else match cut_line r with (l, rest) => (x :: l, rest) end
  end.

Definition next_frame (max_line_bytes : nat) (b : bytes) : result IoError (option StdioFrame) :=
  match b with
  | [] => Ok None
  | _ => if max_line_bytes <? length (cut_line b).1 then Ok (Some Oversized)
         else Some <$> decode_stdio_line (cut_line b).1
  end.

(** An error-free input: the bytes it delivers. *)
Definition delivers (input : list chunk) (b : bytes) : Prop :=
  exists chunks, input = map Ok chunks /\ Forall (fun c => c <> []) chunks /\ b = concat chunks.

Lemma delivers_unread l input b : delivers input b -> delivers (unread l input) (l ++ b).
Proof.
  intros (cs & -> & HF & ->). destruct l as [|x l]; cbn; [exists cs; auto|].
  exists ((x :: l) :: cs). cbn. auto.
Qed.

Lemma position_cut l n rest :
  position LF l = Some n -> cut_line (l ++ rest) = (take n l, drop (n + 1) l ++ rest) /\ n < length l.
Proof.
  revert n. induction l as [|x l IH]; cbn; intros n; [done|].
  destruct (x =? LF)%N; [intros [= <-]; split; [done|lia]|].
  destruct (position LF l) as [m|]; cbn; [|done]. intros [= <-].
  destruct (IH m eq_refl) as [-> Hlt]. cbn. split; [done|lia].
Qed.

Lemma position_none_cut l rest :
  position LF l = None -> cut_line (l ++ rest) = (l ++ (cut_line rest).1, (cut_line rest).2).
Proof.
  induction l as [|x l IH]; cbn; [by destruct (cut_line rest)|].
  destruct (x =? LF)%N; [done|]. destruct (position LF l); cbn; [done|].
  intros _. by rewrite IH.
Qed.

Lemma discard_spec input b :
  delivers input b ->
  exists rest, discard_until_newline input = (Ok tt, rest) /\ delivers rest (cut_line b).2.
Proof.
  intros (cs & -> & HF & ->). induction HF as [|c cs Hc HF IH]; cbn.
  { exists []. split; [done|]. exists []. auto. }
  destruct c as [|x c]; [done|]. set (ch := x :: c) in *.
  change (match ch with [] => (Ok tt, map Ok cs) | _ :: _ => ?k end) with k.
  destruct (position LF ch) as [n|] eqn:Ep.
  - destruct (position_cut ch n (concat cs) Ep) as [-> Hlt]. eexists. split; [done|].
    apply delivers_unread. exists cs. auto.
  - rewrite position_none_cut by done. exact IH.
Qed.

Lemma read_line_go_spec max line input b :
  length line <= max -> position LF line = None -> delivers input b ->
  exists rest, read_line_go max line input = (next_frame max (line ++ b), rest) /\
    delivers rest (cut_line (line ++ b)).2.
Proof.
  intros Hlen Hnl (cs & -> & HF & ->). revert line Hlen Hnl.
  induction HF as [|c cs Hc HF IH]; intros line Hlen Hnl; cbn [map read_line_go concat].
  { exists []. rewrite app_nil_r. pose proof (position_none_cut line [] Hnl) as Hcut.
    cbn in Hcut. rewrite !app_nil_r in Hcut. split; [|by rewrite Hcut; exists []].
    f_equal. unfold next_frame. destruct line as [|x line]; [done|]. rewrite Hcut. cbn [fst is_empty].
    by rewrite (proj2 (Nat.ltb_ge _ _)). }
  destruct c as [|x c]; [done|]. set (ch := x :: c) in *.
  change (match ch with [] => _ | _ :: _ => ?k end) with k.
  assert (Hne : next_frame max (line ++ ch ++ concat cs) =
    if max <? length (cut_line (line ++ ch ++ concat cs)).1 then Ok (Some Oversized)
    else Some <$> decode_stdio_line (cut_line (line ++ ch ++ concat cs)).1).
  { unfold next_frame. destruct line; done. }
  rewrite Hne. rewrite (position_none_cut line) by done.
  destruct (position LF ch) as [n|] eqn:Ep.
  - destruct (position_cut ch n (concat cs) Ep) as [-> Hlt]. cbn [fst snd].
    rewrite length_app, length_take, Nat.min_l by lia.
    destruct (max <? length line + n); (eexists; split; [reflexivity|]);
      apply delivers_unread; exists cs; auto.
  - rewrite (position_none_cut ch) by done. cbn [fst snd].
    assert (Hd : delivers (map Ok cs) (concat cs)) by (exists cs; auto).
    destruct (max <? length line + length ch) eqn:Em; brefl.
    + destruct (discard_spec _ _ Hd) as (rest & -> & Hrest). eexists. split; [|exact Hrest].
      rewrite (proj2 (Nat.ltb_lt _ _)); [done|]. rewrite !length_app. lia.
    + destruct (IH (line ++ ch)) as (rest & -> & Hrest).
      * rewrite length_app. lia.
      * clear -Hnl Ep. induction line as [|y line IHl]; [done|]. cbn in *.
        destruct (y =? LF)%N; [done|]. by destruct (position LF line); [|rewrite IHl].
      * rewrite <- app_assoc in Hrest |- *. eexists. split; [|].
        -- rewrite Hne. rewrite (position_none_cut line), (position_none_cut ch) by done. done.
        -- rewrite (position_none_cut line), (position_none_cut ch) in Hrest by done. exact Hrest.
Qed.

(** Framing does not depend on how the input is chunked: on any error-free
    delivery of the bytes [b], the next frame is the first line of [b] (without
    its newline), an over-long line gives one [Oversized] and is skipped up to
    its newline, end of file gives [None], and what remains to be read is
    exactly what follows the line. *)
Theorem read_bounded_line_chunking max_line_bytes input b :
  delivers input b ->
  exists rest, read_bounded_line max_line_bytes input = (next_frame max_line_bytes b, rest) /\
    delivers rest (cut_line b).2.
Proof. intros Hd. apply (read_line_go_spec max_line_bytes [] input b); [cbn; lia|done|done]. Qed.
End stdio.

Lemma read_bounded_line_chunking_witness :
  exists rest : list (result unit (list N)),
    read_bounded_line tt Some 3 [Ok [65%N]; Ok [66%N; 13%N]; Ok [10%N; 67%N]]
      = (next_frame tt Some 3 [65%N; 66%N; 13%N; 10%N; 67%N], rest) /\
    delivers rest [67%N].
Proof.
  apply (read_bounded_line_chunking tt Some 3 _ [65%N; 66%N; 13%N; 10%N; 67%N]).
  exists [[65%N]; [66%N; 13%N]; [10%N; 67%N]]. repeat split. repeat constructor; discriminate.
Defined.
