(* ===== verification/MailParser.v ===== *)
(** * Message parsing (crates/postblox-mail/src/parser.rs)

    [parse_with_options] is a projection of the tree the [mail-parser] crate
    builds.  That crate is a parameter: [MessageParser] maps raw bytes to the
    view of a [mail_parser::Message] the code reads, below.  Everything the
    postblox code does with that view is modelled: header selection, angle
    stripping, body selection, the attachment loop and the raw-header map. *)

From S2P Require Import Prelude RustStr Json.
#[local] Open Scope N_scope.
#[local] Open Scope bool_scope.

Abbreviation bytes := (list N) (only parsing).

(** ** The view of [mail_parser::Message] *)

(** An address: [None] when the entry has no address part. *)
Abbreviation Address := (list (option (list N))) (only parsing).

Inductive HeaderValue : Type :=
| HText (s : str)
| HTextList (l : list str)
| HAddress (a : Address)
| HDateTime (rfc3339 : str)
| HContentType (ctype : str) (subtype : option str)
| HEmpty
| HOther (debug : str).

Inductive PartType : Type :=
| PText (s : str)
| PHtml (s : str)
| PBinary (b : bytes)
| PInlineBinary (b : bytes)
| PMessage
| PMultipart.

Record MessagePart : Type := mkPart {
  content_disposition : option str;
  attachment_name : option str;
  body : PartType;
  part_content_type : option (str * option str);
  part_content_id : option str;
}.

Record MpMessage : Type := mkMpMessage {
  mp_message_id : option str;
  mp_in_reply_to : HeaderValue;
  mp_references : HeaderValue;
  mp_from : option Address;
  mp_to : option Address;
  mp_cc : option Address;
  mp_subject : option str;
  mp_body_text : option str;
  mp_body_html : option str;
  mp_headers : list (str * HeaderValue);
  mp_parts : list MessagePart;
}.

(** [MessageParser::default().parse] of the [mail-parser] crate. *)
Class MessageParser := { mp_parse : bytes -> option MpMessage }.

(** ** Output types *)

Inductive Disposition : Type := Inline | Attachment.

Record ParsedAttachment : Type := mkParsedAttachment {
  pa_filename : str;
  pa_content_type : str;
  pa_data : bytes;
  pa_disposition : Disposition;
  pa_content_id : option str;
}.

Record ParsedEmail : Type := mkParsedEmail {
  pe_message_id : option str;
  pe_in_reply_to : option str;
  pe_references : list str;
  pe_from : str;
  pe_to : list str;
  pe_cc : list str;
  pe_subject : option str;
  pe_text_body : option str;
  pe_html_body : option str;
  pe_raw_headers : value;
  pe_attachments : list ParsedAttachment;
}.

Record ParseOptions : Type := mkParseOptions { include_raw_headers : bool }.
Definition with_raw_headers : ParseOptions := mkParseOptions true.
Definition without_raw_headers : ParseOptions := mkParseOptions false.

Inductive MailError : Type := Parse (message : str).

(** ** Helpers *)

Definition LT : N := 60.
Definition GT : N := 62.

Definition strip_angles (s : str) : str :=
  trim (trim_end_by (N.eqb GT) (trim_start_by (N.eqb LT) (trim s))).

Definition mime_to_ext (content_type : str) : str :=
  let eq_ct := str_eqb content_type in
  if eq_ct (lit "image/png") then lit "png"
  else if eq_ct (lit "image/jpeg") then lit "jpg"
  else if eq_ct (lit "image/gif") then lit "gif"
  else if eq_ct (lit "image/webp") then lit "webp"
  else if eq_ct (lit "image/svg+xml") then lit "svg"
  else if eq_ct (lit "application/pdf") then lit "pdf"
  else if eq_ct (lit "text/plain") then lit "txt"
  else if eq_ct (lit "text/html") then lit "html"
  else if eq_ct (lit "text/csv") then lit "csv"
  else if eq_ct (lit "application/json") then lit "json"
  else if eq_ct (lit "application/zip") then lit "zip"
  else if eq_ct (lit "application/gzip") then lit "gz"
  else lit "bin".

Definition extract_addresses (addr : Address) : list str := omap id addr.

Definition extract_text_value (v : HeaderValue) : list str :=
  match v with
  | HText s => [s]
  | HTextList l => l
  | _ => []
  end.

Definition render_content_type (ctype : str) (subtype : option str) : str :=
  match subtype with
  | Some sub => ctype ++ lit "/" ++ sub
  | None => ctype
  end.

Definition header_value_to_json (v : HeaderValue) : value :=
  match v with
  | HText s => VString s
  | HTextList l => VArray (map VString l)
  | HAddress a => VArray (map VString (extract_addresses a))
  | HDateTime d => VString d
  | HContentType c s => VString (render_content_type c s)
  | HEmpty => VNull
  | HOther d => VString d
  end.

Definition add_header (m : object) (h : str * HeaderValue) : object :=
  let v := header_value_to_json h.2 in
  match map_get m h.1 with
  | None => map_insert h.1 v m
  | Some (VArray arr) => map_insert h.1 (VArray (arr ++ [v])) m
  | Some prev => map_insert h.1 (VArray [prev; v]) m
  end.
Definition build_raw_headers (message : MpMessage) : value :=
  VObject (foldl add_header [] (mp_headers message)).

(** [str::as_bytes]: the UTF-8 encoding of a character and of a string. *)
Definition utf8_char (c : N) : bytes :=
  if c <? 128 then [c]
  else if c <? 2048 then [192 + c / 64; 128 + c mod 64]
  else if c <? 65536 then [224 + c / 4096; 128 + (c / 64) mod 64; 128 + c mod 64]
  else [240 + c / 262144; 128 + (c / 4096) mod 64; 128 + (c / 64) mod 64; 128 + c mod 64].
Definition as_bytes (s : str) : bytes := flat_map utf8_char s.

(** ** The attachment loop *)

(** One iteration of the loop over [message.parts]: [None] is [continue]. *)
Definition part_attachment (i : nat) (part : MessagePart) : option ParsedAttachment :=
  let disposition_type := content_disposition part in
  let is_attachment := bool_decide (disposition_type = Some (lit "attachment")) in
  let is_inline := bool_decide (disposition_type = Some (lit "inline")) in
  let has_filename := negb (is_none (attachment_name part)) in
  if negb is_attachment && negb is_inline && negb has_filename then None
  else if Nat.eqb i 0 then None
  else
    let skip := match body part with
                | PText _ | PHtml _ => negb is_attachment && negb has_filename
                | PMultipart | PMessage => true
                | _ => false
                end in
    if skip then None
    else
      match (match body part with
             | PBinary b | PInlineBinary b => Some b
             | PText s => Some (as_bytes s)
             | PHtml s => Some (as_bytes s)
             | _ => None
             end) with
      | None => None
      | Some data =>
          let content_type := match part_content_type part with
                              | Some (c, s) => render_content_type c s
                              | None => lit "application/octet-stream"
                              end in
          let filename := match attachment_name part with
                          | Some s => s
                          | None => lit "attachment_" ++ show_N (N.of_nat i) ++ lit "."
                                      ++ mime_to_ext content_type
                          end in
          Some (mkParsedAttachment filename content_type data
                  (if is_inline then Inline else Attachment)
                  (strip_angles <$> part_content_id part))
      end.

Fixpoint collect_attachments (i : nat) (parts : list MessagePart) : list ParsedAttachment :=
  match parts with
  | [] => []
  | part :: rest =>
      match part_attachment i part with
      | Some a => a :: collect_attachments (S i) rest
      | None => collect_attachments (S i) rest
      end
  end.

(** [a.iter().find_map(|x| x.address())]. *)
Fixpoint first_address (a : Address) : option str :=
  match a with
  | [] => None
  | Some s :: _ => Some s
  | None :: r => first_address r
  end.

Definition project_message (message : MpMessage) (options : ParseOptions) : ParsedEmail :=
  {| pe_message_id := strip_angles <$> mp_message_id message;
     pe_in_reply_to := strip_angles <$> head (extract_text_value (mp_in_reply_to message));
     pe_references := map strip_angles (extract_text_value (mp_references message));
     pe_from := unwrap_or [] (mp_from message ≫= first_address);
     pe_to := unwrap_or [] (extract_addresses <$> mp_to message);
     pe_cc := unwrap_or [] (extract_addresses <$> mp_cc message);
     pe_subject := mp_subject message;
     pe_text_body := opt_filter (fun s => negb (is_empty s)) (mp_body_text message);
     pe_html_body := opt_filter (fun s => negb (is_empty s)) (mp_body_html message);
     pe_raw_headers := if include_raw_headers options then build_raw_headers message else VNull;
     pe_attachments := collect_attachments 0 (mp_parts message) |}.

Definition parse_with_options `{MessageParser} (raw : bytes) (options : ParseOptions)
    : result MailError ParsedEmail :=
  match mp_parse raw with
  | None => Err (Parse (lit "completely unparseable message"))
  | Some message => Ok (project_message message options)
  end.

Definition parse `{MessageParser} (raw : bytes) : result MailError ParsedEmail :=
  parse_with_options raw with_raw_headers.

(** ** Facts *)

(** A message identifier as RFC 5322 writes it inside its angle brackets: not
    empty, no white space and no bracket at either end. *)
Definition clean_id (s : str) : Prop :=
  trimmed s /\ trim_start_by (N.eqb LT) s = s /\ trim_end_by (N.eqb GT) s = s /\ s <> [].

Lemma LT_not_ws : is_whitespace LT = false. Proof. reflexivity. Qed.
Lemma GT_not_ws : is_whitespace GT = false. Proof. reflexivity. Qed.

Lemma trim_wrapped s : trim (LT :: s ++ [GT]) = LT :: s ++ [GT].
Proof.
  unfold trim, trim_start, trim_start_by, trim_end.
  rewrite (drop_while_id _ (LT :: _)) by (intros c r [= <- _]; done).
  change (LT :: s ++ [GT]) with ((LT :: s) ++ [GT]). by apply trim_end_by_last.
Qed.

(** Stripping undoes wrapping. *)
Lemma strip_angles_wrapped s : clean_id s -> strip_angles (LT :: s ++ [GT]) = s.
Proof.
  intros (Ht & Hl & Hg & Hne). unfold strip_angles. rewrite trim_wrapped.
  unfold trim_start_by. cbn [drop_while]. rewrite N.eqb_refl.
  replace (drop_while (N.eqb LT) (s ++ [GT])) with (s ++ [GT]).
  - rewrite trim_end_by_app by (repeat constructor; apply N.eqb_refl). by rewrite Hg.
  - unfold trim_start_by in Hl. rewrite drop_while_app_nonempty; rewrite Hl; done.
Qed.

(** And leaves an unwrapped identifier alone. *)
Lemma strip_angles_clean s : clean_id s -> strip_angles s = s.
Proof.
  intros (Ht & Hl & Hg & Hne). unfold strip_angles. by rewrite Ht, Hl, Hg, Ht.
Qed.

(** A part that becomes an attachment, in the source's terms. *)
Definition attachment_part (i : nat) (part : MessagePart) : Prop :=
  (1 <= i)%nat /\
  (content_disposition part = Some (lit "attachment") \/
   content_disposition part = Some (lit "inline") \/
   attachment_name part <> None) /\
  match body part with
  | PText _ | PHtml _ =>
      content_disposition part = Some (lit "attachment") \/ attachment_name part <> None
  | PMessage | PMultipart => False
  | _ => True
  end.

Lemma part_attachment_iff i part :
  (exists a, part_attachment i part = Some a) <-> attachment_part i part.
Proof.
  unfold part_attachment, attachment_part.
  destruct (bool_decide (content_disposition part = Some (lit "attachment"))) eqn:Ea;
    destruct (bool_decide (content_disposition part = Some (lit "inline"))) eqn:Ei;
    destruct (attachment_name part) as [fn|]; brefl; cbn [is_none negb andb];
    destruct i as [|i]; cbn [Nat.eqb];
    destruct (body part);
    (split; [intros [a Hx]; try discriminate Hx; try (repeat split; auto; lia)
            | intros (Hi & Hd & Hb); try lia; try done; try (eexists; reflexivity)]).
  all: try (exfalso; naive_solver).
  all: try (repeat split; naive_solver lia).
Qed.

(** What becomes an attachment: the attachments of a parsed message are, in
    order, exactly those of the parts after the root that are marked attachment
    or inline or carry a file name, that are not containers or nested messages,
    and that, for text and HTML, are not plain inline bodies. *)
Theorem attachments_are_the_attachment_parts message options :
  exists sel,
    pe_attachments (project_message message options) = omap id sel /\
    length sel = length (mp_parts message) /\
    forall i part, mp_parts message !! i = Some part ->
      exists o, sel !! i = Some o /\ o = part_attachment i part /\
        ((exists a, o = Some a) <-> attachment_part i part).
Proof.
  cbn [project_message pe_attachments].
  assert (H : forall i0 parts,
    collect_attachments i0 parts = omap id (imap (fun i p => part_attachment (i0 + i) p) parts)).
  { intros i0 parts. revert i0. induction parts as [|p parts IH]; intros i0; [done|].
    cbn. rewrite Nat.add_0_r, IH.
    assert (Hi : imap ((fun i q => part_attachment (i0 + i) q) ∘ S) parts =
                 imap (fun i q => part_attachment (S i0 + i) q) parts).
    { apply imap_ext. intros i q _. cbn. by rewrite Nat.add_succ_r. }
    rewrite Hi. destruct (part_attachment i0 p); done. }
  exists (imap part_attachment (mp_parts message)). split; [apply (H 0%nat)|].
  split; [apply length_imap|]. intros i part Hp. exists (part_attachment i part).
  rewrite list_lookup_imap, Hp. split; [done|]. split; [done|]. apply part_attachment_iff.
Qed.
