(* ===== verification/Utf8.v ===== *)
(** * UTF-8 ([std::str::from_utf8])

    Decoding is one step per character on the longest valid prefix; the second
    component is what is left at the first error, so its start is [valid_up_to]. *)

From S2P Require Import Prelude RustStr Json MailParser.
#[local] Open Scope N_scope.
#[local] Open Scope bool_scope.

(** [lia] with division by constants. *)
Ltac dlia := zify; Z.to_euclidean_division_equations; lia.

(** Unicode scalar values: Rust's [char]. *)
Definition is_scalar (c : N) : bool := (c <? 55296) || ((57344 <=? c) && (c <? 1114112)).

Definition is_cont (b : N) : bool := (128 <=? b) && (b <? 192).

(** The next character of a byte string, when a valid one starts it. *)
Definition utf8_next (b : bytes) : option (char * bytes) :=
  match b with
  | [] => None
  | b0 :: r =>
      if b0 <? 128 then Some (b0, r)
      else if (192 <=? b0) && (b0 <? 224) then
        match r with
        | b1 :: r => let c := (b0 - 192) * 64 + (b1 - 128) in
                     if is_cont b1 && (128 <=? c) then Some (c, r) else None
        | _ => None
        end
      else if (224 <=? b0) && (b0 <? 240) then
        match r with
        | b1 :: b2 :: r => let c := (b0 - 224) * 4096 + (b1 - 128) * 64 + (b2 - 128) in
                           if is_cont b1 && is_cont b2 && (2048 <=? c) && is_scalar c
                           then Some (c, r) else None
        | _ => None
        end
      else if (240 <=? b0) && (b0 <? 248) then
        match r with
        | b1 :: b2 :: b3 :: r =>
            let c := (b0 - 240) * 262144 + (b1 - 128) * 4096 + (b2 - 128) * 64 + (b3 - 128) in
            if is_cont b1 && is_cont b2 && is_cont b3 && (65536 <=? c) && is_scalar c
            then Some (c, r) else None
        | _ => None
        end
      else None
  end.

Fixpoint utf8_prefix_go (fuel : nat) (b : bytes) : str * bytes :=
  match fuel with
  | O => ([], b)
  | S k => match utf8_next b with
           | Some (c, r) => let '(s, rest) := utf8_prefix_go k r in (c :: s, rest)
           | None => ([], b)
           end
  end.
(** The longest valid prefix; each round takes at least one byte. *)
Definition utf8_prefix (b : bytes) : str * bytes := utf8_prefix_go (List.length b) b.

Definition from_utf8 (b : bytes) : option str :=
  match utf8_prefix b with (s, []) => Some s | _ => None end.

(** ** Facts *)

Lemma utf8_char_len c : N.of_nat (List.length (utf8_char c)) = len_utf8 c.
Proof. unfold utf8_char, len_utf8. repeat case_match; done. Qed.

Lemma as_bytes_len s : N.of_nat (List.length (as_bytes s)) = str_len s.
Proof.
  unfold as_bytes. induction s as [|c s IH]; cbn [flat_map str_len]; [done|].
  rewrite length_app, Nat2N.inj_add, utf8_char_len, IH. done.
Qed.

Lemma as_bytes_app a b : as_bytes (a ++ b) = as_bytes a ++ as_bytes b.
Proof. apply flat_map_app. Qed.

(** Decide the comparisons of a goal by arithmetic. *)
#[local] Ltac arith_if :=
  repeat match goal with
  | |- context [?a <? ?b] => first [ rewrite (proj2 (N.ltb_lt a b)) by dlia
                                   | rewrite (proj2 (N.ltb_ge a b)) by dlia ]
  | |- context [?a <=? ?b] => first [ rewrite (proj2 (N.leb_le a b)) by dlia
                                    | rewrite (proj2 (N.leb_gt a b)) by dlia ]
  end; cbn [andb orb negb].

Lemma is_scalar_range c : is_scalar c = true <-> c < 55296 \/ 57344 <= c < 1114112.
Proof.
  unfold is_scalar. rewrite orb_true_iff, andb_true_iff, !N.ltb_lt, N.leb_le. done.
Qed.

Lemma utf8_next_encode c r : is_scalar c = true -> utf8_next (utf8_char c ++ r) = Some (c, r).
Proof.
  intros Hs. pose proof (proj1 (is_scalar_range c) Hs) as Hr. unfold utf8_char.
  destruct (N.ltb_spec c 128); [cbn [app utf8_next]; by arith_if|].
  destruct (N.ltb_spec c 2048).
  { cbn [app utf8_next]. unfold is_cont.
    replace ((192 + c / 64 - 192) * 64 + (128 + c mod 64 - 128)) with c by dlia. by arith_if. }
  destruct (N.ltb_spec c 65536).
  { cbn [app utf8_next]. unfold is_cont.
    replace ((224 + c / 4096 - 224) * 4096 + (128 + c / 64 mod 64 - 128) * 64
             + (128 + c mod 64 - 128)) with c by dlia. rewrite Hs. by arith_if. }
  cbn [app utf8_next]. unfold is_cont.
  replace ((240 + c / 262144 - 240) * 262144 + (128 + c / 4096 mod 64 - 128) * 4096
           + (128 + c / 64 mod 64 - 128) * 64 + (128 + c mod 64 - 128)) with c by dlia.
  rewrite Hs. by arith_if.
Qed.

Lemma utf8_next_sound b c r : utf8_next b = Some (c, r) -> b = utf8_char c ++ r /\ is_scalar c = true.
Proof.
  unfold utf8_next, is_cont. intros Hn.
  repeat (case_match; brefl; try discriminate; subst); injection Hn as <- <-;
    (split; [|first [done | apply is_scalar_range; lia]]); unfold utf8_char; arith_if;
    cbn [app]; repeat (f_equal; try dlia).
Qed.

Lemma utf8_char_nonempty c : utf8_char c <> [].
Proof. unfold utf8_char. by repeat case_match. Qed.

(** Enough fuel: one round per byte. *)
Lemma utf8_prefix_go_encode s fuel r :
  Forall (fun c => is_scalar c = true) s -> (List.length s <= fuel)%nat ->
  utf8_next r = None -> utf8_prefix_go fuel (as_bytes s ++ r) = (s, r).
Proof.
  intros HF. revert fuel. induction HF as [|c s Hc HF IH]; intros fuel Hl Hr.
  - destruct fuel; cbn; [done|]. by rewrite Hr.
  - destruct fuel; cbn in Hl; [lia|]. cbn [utf8_prefix_go as_bytes flat_map].
    rewrite <- app_assoc, utf8_next_encode by done.
    change (flat_map utf8_char s) with (as_bytes s). by rewrite IH by (done || lia).
Qed.

Lemma as_bytes_length_ge s : (List.length s <= List.length (as_bytes s))%nat.
Proof.
  unfold as_bytes. induction s as [|c s IH]; cbn; [done|]. rewrite length_app.
  pose proof (utf8_char_nonempty c). destruct (utf8_char c); cbn; [done|lia].
Qed.

Lemma utf8_prefix_encode s r :
  Forall (fun c => is_scalar c = true) s -> utf8_next r = None ->
  utf8_prefix (as_bytes s ++ r) = (s, r).
Proof.
  intros HF Hr. apply utf8_prefix_go_encode; [done| |done].
  rewrite length_app. pose proof (as_bytes_length_ge s). lia.
Qed.

Lemma from_utf8_encode s : Forall (fun c => is_scalar c = true) s -> from_utf8 (as_bytes s) = Some s.
Proof.
  intros HF. unfold from_utf8. pose proof (utf8_prefix_encode s [] HF eq_refl) as E.
  rewrite app_nil_r in E. by rewrite E.
Qed.

(** The prefix is valid and maximal. *)
Lemma utf8_prefix_go_spec fuel b s r :
  (List.length b <= fuel)%nat -> utf8_prefix_go fuel b = (s, r) ->
  b = as_bytes s ++ r /\ Forall (fun c => is_scalar c = true) s /\ utf8_next r = None.
Proof.
  revert b s r. induction fuel as [|k IH]; cbn; intros b s r Hl H.
  - injection H as <- <-. destruct b; [done|cbn in Hl; lia].
  - destruct (utf8_next b) as [[c t]|] eqn:E; [|by injection H as <- <-].
    destruct (utf8_prefix_go k t) as [s' r'] eqn:E'. injection H as <- <-.
    apply utf8_next_sound in E as [-> Hc].
    apply IH in E' as (-> & HF & Hn).
    + cbn [as_bytes flat_map]. by rewrite <- app_assoc; auto.
    + rewrite length_app in Hl. pose proof (utf8_char_nonempty c). destruct (utf8_char c); cbn in *; [done|lia].
Qed.

Lemma utf8_prefix_spec b s r : utf8_prefix b = (s, r) ->
  b = as_bytes s ++ r /\ Forall (fun c => is_scalar c = true) s /\ utf8_next r = None.
Proof. apply utf8_prefix_go_spec. lia. Qed.

Lemma from_utf8_Some b s : from_utf8 b = Some s -> b = as_bytes s.
Proof.
  unfold from_utf8. destruct (utf8_prefix b) as [s' r] eqn:E. destruct r; [|done].
  intros [= ->]. apply utf8_prefix_spec in E as (-> & _). by rewrite app_nil_r.
Qed.

(** Literals that are not ASCII: the bytes of the source file, decoded. *)
Definition ulit (s : String.string) : str := unwrap_or [] (from_utf8 (lit s)).
Arguments ulit s%_string_scope : simpl never.
