(* ===== verification/McpStdio.v ===== *)
(** * The bridge over stdin and stdout (src/mcp/server.rs)

    [serve_stdio_io_with_limit] and its tasks as a step relation.  The main task
    reads a line, answers it and starts the notifications once the client is
    initialised; one forwarder per topic turns events into notifications; the
    writer prints what arrives in the output channel, which holds 128 messages
    and makes its senders wait when it is full.  Every task may move whenever it
    can, input may fail anywhere, a topic's stream may be dropped and the output
    may break.

    The theorem is about the conversation: which answers are printed, in which
    order, and which notifications come in between. *)

From stdpp Require Import relations.
From S2P Require Import Prelude RustStr Json Op McpGates McpTools IpcProtocol McpProtocol McpModels McpBridge StdioFrames Utf8.
#[local] Open Scope nat_scope.
#[local] Open Scope bool_scope.

Definition NOTIFICATION_METHOD : str := lit "notifications/postblox/event".
Definition NOTIFICATION_ERROR_METHOD : str := lit "notifications/postblox/error".
Definition OUTPUT_MAILBOX : nat := 128.
Definition SUBSCRIPTION_MAILBOX : nat := 256.
Definition STDIO_MAX_LINE_BYTES : N := 4 * 1024 * 1024.

Definition event_notification (ev : Event) : value :=
  notification NOTIFICATION_METHOD (json [(lit "topic", VString (ev_topic ev)); (lit "data", forward_event_data ev)]).
Definition topic_error (topic : Topic) (message : str) : value :=
  notification NOTIFICATION_ERROR_METHOD
    (json [(lit "topic", VString (topic_as_str topic)); (lit "error", VString message)]).
Definition oversized_input_response (max_line_bytes : nat) : value :=
  error_response VNull (invalid_request (lit "input line exceeds " ++ show_N (N.of_nat max_line_bytes) ++ lit " bytes")).

(** ** The tasks *)

(** A forwarder waits for an event, or for room to send a message, after which
    it goes on unless the message was its last. *)
Inductive forwarding : Type :=
| Receiving
| Holding (message : value) (last_one : bool)
| Gone.
Record Forwarder : Type := mkForwarder {
  fw_topic : Topic;
  fw_inbox : list Event;
  fw_dropped : bool;
  fw_task : forwarding;
}.
Definition with_task (t : forwarding) (f : Forwarder) : Forwarder :=
  mkForwarder (fw_topic f) (fw_inbox f) (fw_dropped f) t.

(** Where the main task stands: reading, sending an answer ([starts] if
    notifications are to be started after it), subscribing to the topics left,
    sending the report of a failed subscription, waiting for the writer after the
    input ended, or returned. *)
Inductive main_task : Type :=
| Reading
| Answering (response : value) (starts : bool)
| Subscribing (topics : list Topic)
| Reporting (message : value) (topics : list Topic)
| Draining
| Finished (r : result BridgeError unit).

Inductive writer_task : Type := Printing | Broken (e : BridgeError) | Done.

(** [io_log] records the frames read with their answers. *)
Record Stdio (S : Type) : Type := mkStdio {
  io_input : list (result str (list N));
  io_daemon : S;
  io_main : main_task;
  io_handles : list Forwarder;
  io_queue : list value;
  io_writer : writer_task;
  io_printed : list value;
  io_log : list (StdioFrame * option value);
}.
Arguments mkStdio {S} _ _ _ _ _ _ _ _.
Arguments io_input {S} _.
Arguments io_daemon {S} _.
Arguments io_main {S} _.
Arguments io_handles {S} _.
Arguments io_queue {S} _.
Arguments io_writer {S} _.
Arguments io_printed {S} _.
Arguments io_log {S} _.

Section serve.
Context {S : Type} `{DaemonBridge S} `{JsonCodec} `{TextParsers}.
(** Error texts: of a JSON parser, of a decoder, of invalid UTF-8, of a
    subscription; the package version; the rounds of an approval wait; the limit. *)
Context (json_error : str -> str) (decode_error invalid_data : str) (error_text : BridgeError -> str).
Context (version : str) (budget max_line_bytes : nat).

Abbreviation read_line := (read_bounded_line invalid_data from_utf8 max_line_bytes).

(** After a line: start the notifications if it asked for them and none are
    running, else read on. *)
Definition after_line (starts : bool) (handles : list Forwarder) : main_task :=
  if starts && (List.length handles =? 0) then Subscribing notification_topics else Reading.

Definition starts_notifications (frame : StdioFrame) : bool :=
  match frame with Line line => is_initialized_notification json_error line | Oversized => false end.
Definition answer_to (frame : StdioFrame) (d : S) : option value * S :=
  match frame with
  | Oversized => (Some (oversized_input_response max_line_bytes), d)
  | Line line =>
      match handle_line decode_error json_error version budget line d with (_, response, d') => (response, d') end
  end.
Definition on_line (frame : StdioFrame) (response : option value) (handles : list Forwarder) : main_task :=
  match response with
  | Some v => Answering v (starts_notifications frame)
  | None => after_line (starts_notifications frame) handles
  end.

(** Sending into the output channel, once there is room; [false] if the writer
    is gone. *)
Inductive sends (writer : writer_task) (queue : list value) (v : value) : bool -> list value -> Prop :=
| sends_room : writer = Printing -> List.length queue < OUTPUT_MAILBOX -> sends writer queue v true (queue ++ [v])
| sends_closed : writer <> Printing -> sends writer queue v false queue.

(** What a forwarder does with its stream. *)
Inductive receives : Forwarder -> Forwarder -> Prop :=
| receive_event topic ev inbox dropped :
    receives (mkForwarder topic (ev :: inbox) dropped Receiving)
             (mkForwarder topic inbox dropped (Holding (event_notification ev) false))
| receive_end topic :
    receives (mkForwarder topic [] true Receiving)
             (mkForwarder topic [] true (Holding (topic_error topic (lit "subscription dropped")) true))
| stream_event topic ev inbox task :
    List.length inbox < SUBSCRIPTION_MAILBOX ->
    receives (mkForwarder topic inbox false task) (mkForwarder topic (inbox ++ [ev]) false task)
| stream_drop topic inbox task :
    receives (mkForwarder topic inbox false task) (mkForwarder topic inbox true task).

Inductive stdio_step : Stdio S -> Stdio S -> Prop :=
| step_frame i d hs q w out log frame i' response d' :
    read_line i = (Ok (Some frame), i') -> answer_to frame d = (response, d') ->
    stdio_step (mkStdio i d Reading hs q w out log)
         (mkStdio i' d' (on_line frame response hs) hs q w out (log ++ [(frame, response)]))
| step_eof i d hs q w out log i' :
    read_line i = (Ok None, i') -> stdio_step (mkStdio i d Reading hs q w out log) (mkStdio i' d Draining hs q w out log)
| step_input_error i d hs q w out log i' e :
    read_line i = (Err e, i') ->
    stdio_step (mkStdio i d Reading hs q w out log) (mkStdio i' d (Finished (Err (BIo e))) hs q w out log)
| step_answer i d hs q w out log v starts sent q' :
    sends w q v sent q' ->
    stdio_step (mkStdio i d (Answering v starts) hs q w out log)
         (mkStdio i d (if sent : bool then after_line starts hs else Draining) hs q' w out log)
| step_subscribed i d hs q w out log topic topics d' :
    d_subscribe topic d = (Ok tt, d') ->
    stdio_step (mkStdio i d (Subscribing (topic :: topics)) hs q w out log)
         (mkStdio i d' (Subscribing topics) (hs ++ [mkForwarder topic [] false Receiving]) q w out log)
| step_refused i d hs q w out log topic topics d' e :
    d_subscribe topic d = (Err e, d') ->
    stdio_step (mkStdio i d (Subscribing (topic :: topics)) hs q w out log)
         (mkStdio i d' (Reporting (topic_error topic (error_text e)) topics) hs q w out log)
| step_report i d hs q w out log v topics sent q' :
    sends w q v sent q' ->
    stdio_step (mkStdio i d (Reporting v topics) hs q w out log) (mkStdio i d (Subscribing topics) hs q' w out log)
| step_started i d hs q w out log :
    stdio_step (mkStdio i d (Subscribing []) hs q w out log) (mkStdio i d Reading hs q w out log)
| step_receive i d m before f f' after q w out log :
    receives f f' ->
    stdio_step (mkStdio i d m (before ++ f :: after) q w out log) (mkStdio i d m (before ++ f' :: after) q w out log)
| step_forward i d m before f v last_one after q w out log sent q' :
    fw_task f = Holding v last_one -> sends w q v sent q' ->
    stdio_step (mkStdio i d m (before ++ f :: after) q w out log)
         (mkStdio i d m (before ++ with_task (if (sent : bool) && negb last_one then Receiving else Gone) f :: after) q' w out log)
| step_abort i d before f after q w out log :
    stdio_step (mkStdio i d Draining (before ++ f :: after) q w out log)
         (mkStdio i d Draining (before ++ with_task Gone f :: after) q w out log)
| step_print i d m hs v q out log :
    stdio_step (mkStdio i d m hs (v :: q) Printing out log) (mkStdio i d m hs q Printing (out ++ [v]) log)
| step_output_error i d m hs v q out log e :
    stdio_step (mkStdio i d m hs (v :: q) Printing out log) (mkStdio i d m hs [] (Broken e) out log)
| step_writer_done i d hs out log :
    Forall (fun f => fw_task f = Gone) hs ->
    stdio_step (mkStdio i d Draining hs [] Printing out log) (mkStdio i d Draining hs [] Done out log)
| step_return i d hs q w out log r :
    match w with Done => r = Ok tt | Broken e => r = Err e | Printing => False end ->
    stdio_step (mkStdio i d Draining hs q w out log) (mkStdio i d (Finished r) hs q w out log).

(** The session before its first line. *)
Definition started (input : list (result str (list N))) (d : S) : Stdio S := mkStdio input d Reading [] [] Printing [] [].

(** ** The conversation *)

(** What the lines of a byte stream are, and what is left after them. *)
Inductive lines : list N -> list StdioFrame -> list N -> Prop :=
| lines_none b : lines b [] b
| lines_more b frame fs rest :
    next_frame invalid_data from_utf8 max_line_bytes b = Ok (Some frame) -> lines (cut_line b).2 fs rest ->
    lines b (frame :: fs) rest.

(** What a frame is to be answered with: a request its answer, a notification or
    a response nothing, anything else an error. *)
Definition answered_by (frame : StdioFrame) (answer : option value) : Prop :=
  match frame with
  | Oversized => answer = Some (oversized_input_response max_line_bytes)
  | Line line =>
      match parse_line json_error line with
      | Ok (IRequest id _ _) => exists v, answer = Some v /\ answers id v
      | Ok _ => answer = None
      | Err e => answer = Some e
      end
  end.

Definition is_notice (v : value) : bool := negb (is_none (vget v (lit "method"))).
Definition responses (l : list value) : list value := List.filter (fun v => negb (is_notice v)) l.
Definition notices (l : list value) : list value := List.filter is_notice l.
(** What may be shown of an event: of an approval request only its identifier,
    tool, state and summary. *)
Definition shown_of (ev : Event) (data : value) : Prop :=
  if str_eqb (ev_topic ev) (topic_as_str McpApprovalRequested)
  then forall k x, vget data k = Some x -> vget (ev_data ev) k = Some x /\ In k visible_keys
  else data = ev_data ev.
(** Notifications: an event, redacted, or the loss of one of the topics. *)
Definition proper_notice (v : value) : Prop :=
  (exists ev data, v = notification (lit "notifications/postblox/event")
     (json [(lit "topic", VString (ev_topic ev)); (lit "data", data)]) /\ shown_of ev data) \/
  (exists topic e, topic ∈ notification_topics /\ v = topic_error topic e).

Lemma event_notification_proper ev : proper_notice (event_notification ev).
Proof.
  left. exists ev, (forward_event_data ev). split; [done|]. unfold shown_of.
  destruct (str_eqb _ _) eqn:E; [|unfold forward_event_data; by rewrite E].
  intros k x Hk. apply forwarded_approval_request_is_redacted in Hk as [Hk Hv]. split; [done|]. by apply Hv, str_eqb_eq.
Qed.

Lemma notification_is_notice method params : is_notice (notification method params) = true.
Proof. unfold is_notice, notification. by json_eval. Qed.
Lemma proper_is_notice v : proper_notice v -> is_notice v = true.
Proof. intros [(ev & data & -> & _)|(topic & e & _ & ->)]; apply notification_is_notice. Qed.
Lemma success_is_response id v : is_notice (success_response id v) = false.
Proof. unfold is_notice, success_response. by json_eval. Qed.
Lemma error_is_response id e : is_notice (error_response id e) = false.
Proof. unfold is_notice, error_response. by json_eval. Qed.

Lemma parse_line_refusal line v : parse_line json_error line = Err v -> is_notice v = false.
Proof.
  unfold parse_line. destruct (from_str line); [|intros [= <-]; apply error_is_response].
  destruct (parse_value _) as [|[id e]]; [done|]. intros [= <-]. apply error_is_response.
Qed.
Lemma answer_is_response frame d v d' : answer_to frame d = (Some v, d') -> is_notice v = false.
Proof.
  destruct frame as [line|]; cbn [answer_to]; [|intros [= <- _]; apply error_is_response].
  unfold handle_line. destruct (parse_line json_error line) as [incoming|e] eqn:E; [|intros [= <- _]; by eapply parse_line_refusal].
  destruct incoming as [id method params|? ?|]; cbn [handle_incoming]; [|done|done].
  destruct (handle_request _ _ _ _ _ _ _) as [[t r] d1] eqn:Er. intros [= <- _]. revert Er. unfold handle_request.
  repeat match goal with |- context [if ?b then _ else _] => destruct b end;
    try (destruct (handle_tool_call _ _ _ _) as [[? []] ?]); try (destruct (handle_initialize _ _));
    intros [= _ <- _]; first [apply success_is_response|apply error_is_response].
Qed.
Lemma answer_fits frame d response d' : answer_to frame d = (response, d') -> answered_by frame response.
Proof.
  destruct frame as [line|]; cbn [answer_to answered_by]; [|by intros [= <- _]].
  unfold handle_line. destruct (parse_line json_error line) as [incoming|e]; [|by intros [= <- _]].
  pose proof (every_request_answered decode_error version budget incoming d) as Ha.
  destruct (handle_incoming _ _ _ _ _) as [[t out] d1]. intros [= <- _]. destruct incoming; [done|apply Ha|apply Ha].
Qed.


(** *** Notifications *)

Definition held_ok (f : Forwarder) : Prop :=
  fw_topic f ∈ notification_topics /\ forall v l, fw_task f = Holding v l -> proper_notice v.
Definition notices_ok (st : Stdio S) : Prop :=
  Forall (fun v => is_notice v = true -> proper_notice v) (io_printed st ++ io_queue st) /\
  Forall held_ok (io_handles st) /\
  match io_main st with
  | Answering v _ => is_notice v = false
  | Subscribing topics => topics ⊆ notification_topics
  | Reporting v topics => proper_notice v /\ topics ⊆ notification_topics
  | _ => True
  end.

Lemma after_line_ok starts hs :
  match after_line starts hs with
  | Answering v _ => is_notice v = false
  | Subscribing topics => topics ⊆ notification_topics
  | Reporting v topics => proper_notice v /\ topics ⊆ notification_topics
  | _ => True
  end.
Proof. unfold after_line. by destruct (starts && _). Qed.

Lemma sends_Forall (P : value -> Prop) w q v sent q' out :
  sends w q v sent q' -> P v -> Forall P (out ++ q) -> Forall P (out ++ q').
Proof. intros [] Hv Hq; [|done]. rewrite app_assoc. apply Forall_app. split; [done|by constructor]. Qed.
Lemma receives_held f f' : receives f f' -> held_ok f -> held_ok f'.
Proof.
  intros [] [Ht Hh]; cbn in *; split; cbn; try done.
  - intros v l [= <- _]. apply event_notification_proper.
  - intros v l [= <- _]. right. by eexists _, _.
Qed.
Lemma Forall_middle {A} (P : A -> Prop) before x x' after :
  (P x -> P x') -> Forall P (before ++ x :: after) -> Forall P (before ++ x' :: after).
Proof. rewrite !Forall_app, !Forall_cons. naive_solver. Qed.

Lemma step_notices_ok st st' : stdio_step st st' -> notices_ok st -> notices_ok st'.
Proof.
  intros Hs (Hn & Hh & Hm). destruct Hs as [i d hs q w out log frame i' response d' Hr Ha| | |i d hs q w out log v starts sent q' Hq| | |
    i d hs q w out log v topics sent q' Hq| |i d m before f f' after q w out log Hf|
    i d m before f v l after q w out log sent q' Ht Hq|i d before f after q w out log| | | |];
    unfold notices_ok in *; cbn [io_printed io_queue io_handles io_main] in *; try done.
  - split; [done|]. split; [done|]. destruct response as [v|]; cbn [on_line]; [by eapply answer_is_response|apply after_line_ok].
  - split; [|split; [done|destruct sent; [apply after_line_ok|done]]]. eapply sends_Forall; [exact Hq| |done]. congruence.
  - split; [done|]. split; [|set_solver]. apply Forall_app. split; [done|]. apply Forall_singleton. split; cbn; [set_solver|done].
  - split; [done|]. split; [done|]. split; [|set_solver]. right. eexists _, _. split; [|done]. set_solver.
  - destruct Hm as [Hv ?]. split; [|by split]. by eapply sends_Forall.
  - split; [done|]. split; [|done]. eapply Forall_middle; [|exact Hh]. by apply receives_held.
  - assert (Hf : held_ok f) by (by rewrite Forall_app, Forall_cons in Hh; destruct Hh as (_ & ? & _)).
    split; [eapply sends_Forall; [exact Hq| |done]; intros _; by eapply Hf|]. split; [|done]. eapply Forall_middle; [|exact Hh].
    intros [? _]. split; [done|]. cbn. destruct (sent && _); discriminate.
  - split; [done|]. split; [|done]. eapply Forall_middle; [|exact Hh]. intros [? _]. by split.
  - by rewrite <- app_assoc.
  - split; [|done]. rewrite app_nil_r. by apply Forall_app in Hn as [? _].
Qed.

Lemma filter_none_single {A} (f : A -> bool) x : f x = false -> List.filter f [x] = [].
Proof. cbn. by intros ->. Qed.

(** Nothing but answers is sent before the client said it is initialised. *)
Definition quiet_before (st : Stdio S) : Prop :=
  Forall (fun e => starts_notifications e.1 = false) (io_log st) ->
  io_handles st = [] /\ notices (io_printed st ++ io_queue st) = [] /\
  match io_main st with Subscribing _ | Reporting _ _ => False | Answering _ starts => starts = false | _ => True end.

Lemma step_quiet_before st st' : stdio_step st st' -> notices_ok st -> quiet_before st -> quiet_before st'.
Proof.
  intros Hs (_ & _ & Hm) Hq. destruct Hs as [i d hs q w out log frame i' response d' Hr Ha| | |i d hs q w out log v starts sent q' Hv| | |
    i d hs q w out log v topics sent q' Hv| |i d m before f f' after q w out log Hf|
    i d m before f v l after q w out log sent q' Ht Hv|i d before f after q w out log|i d m hs v q out log|i d m hs v q out log e| |];
    unfold quiet_before in *; cbn [io_printed io_queue io_handles io_main io_log] in *; intros Hlog; try (by apply Hq);
    try (by destruct (Hq Hlog) as (? & ? & []));
    try (destruct (Hq Hlog) as (Hh & _); by destruct before).
  - apply Forall_app in Hlog as [Hlog Hf]. rewrite Forall_singleton in Hf. cbn [fst] in Hf. destruct (Hq Hlog) as (-> & Hn & _).
    split; [done|]. split; [done|]. unfold on_line, after_line. rewrite Hf. by destruct response.
  - destruct (Hq Hlog) as (-> & Hn & ->). split; [done|]. split; [|by destruct sent].
    destruct Hv; [|done]. unfold notices in *. by rewrite app_assoc, List.filter_app, Hn, (filter_none_single _ _ Hm).
  - rewrite <- app_assoc. by apply Hq.
  - destruct (Hq Hlog) as (Hh & Hn & Hx). split; [done|]. split; [|done]. unfold notices in *.
    rewrite List.filter_app in Hn. rewrite app_nil_r. by apply app_nil in Hn as [? _].
Qed.

(** *** Answers *)

Definition unsent (m : main_task) : list value := match m with Answering v _ => [v] | _ => [] end.
Definition over (m : main_task) : Prop := match m with Draining | Finished _ => True | _ => False end.
Definition in_order (st : Stdio S) : Prop :=
  match io_writer st with
  | Broken _ => responses (io_printed st) `prefix_of` omap snd (io_log st)
  | Printing => responses (io_printed st ++ io_queue st) ++ unsent (io_main st) = omap snd (io_log st)
  | Done => responses (io_printed st) = omap snd (io_log st) /\ over (io_main st)
  end /\
  (io_main st = Finished (Ok tt) -> io_writer st = Done).

Lemma responses_app a b : responses (a ++ b) = responses a ++ responses b.
Proof. apply List.filter_app. Qed.
Lemma responses_notice v : is_notice v = true -> responses [v] = [].
Proof. unfold responses. cbn. by intros ->. Qed.
Lemma responses_response v : is_notice v = false -> responses [v] = [v].
Proof. unfold responses. cbn. by intros ->. Qed.
Lemma unsent_after starts hs : unsent (after_line starts hs) = [].
Proof. unfold after_line. by destruct (starts && _). Qed.
Lemma unsent_frame frame response hs : unsent (on_line frame response hs) = option_list response.
Proof. destruct response; cbn; [done|apply unsent_after]. Qed.
Lemma log_snoc (log : list (StdioFrame * option value)) frame response :
  omap snd (log ++ [(frame, response)]) = omap snd log ++ option_list response.
Proof. rewrite omap_app. by destruct response. Qed.
Lemma after_not_over starts hs : after_line starts hs <> Finished (Ok tt).
Proof. unfold after_line. by destruct (starts && _). Qed.
Lemma frame_not_over frame response hs : on_line frame response hs <> Finished (Ok tt).
Proof. destruct response; [done|apply after_not_over]. Qed.

(** A notification in the channel does not disturb the answers. *)
Lemma sends_notice w q v sent q' out : sends w q v sent q' -> is_notice v = true -> responses (out ++ q') = responses (out ++ q).
Proof. intros [] Hv; [|done]. by rewrite app_assoc, responses_app, (responses_notice v), app_nil_r. Qed.
Lemma same_answers st st' :
  io_writer st' = io_writer st -> io_printed st' = io_printed st -> io_log st' = io_log st ->
  responses (io_printed st' ++ io_queue st') = responses (io_printed st ++ io_queue st) ->
  unsent (io_main st') = unsent (io_main st) -> (over (io_main st) -> over (io_main st')) ->
  (io_main st' = Finished (Ok tt) -> io_main st = Finished (Ok tt)) ->
  in_order st -> in_order st'.
Proof. intros Hw Hp Hl Hq Hu Ho Hf [Ha Hb]. unfold in_order. rewrite Hw, Hq, Hu, Hl, Hp. destruct (io_writer st); naive_solver. Qed.

Lemma step_in_order st st' : stdio_step st st' -> notices_ok st -> in_order st -> in_order st'.
Proof.
  intros Hs (_ & Hh & Hm) Ho. destruct Hs as [i d hs q w out log frame i' response d' Hr Ha| | |i d hs q w out log v starts sent q' Hv| | |
    i d hs q w out log v topics sent q' Hv| |i d m before f f' after q w out log Hf|
    i d m before f v l after q w out log sent q' Ht Hv|i d before f after q w out log|i d m hs v q out log|i d m hs v q out log e|
    i d hs out log Hg|i d hs q w out log r Hr];
    try (by eapply same_answers; [..|exact Ho]; cbn; naive_solver).
  - destruct Ho as [Ho _]. split; [|intros Hx; by apply frame_not_over in Hx]. cbn in *. rewrite unsent_frame, log_snoc.
    destruct w as [|e|]; [by rewrite <- Ho, app_nil_r|by apply prefix_app_r|by destruct Ho].
  - destruct Ho as [Ho _]. split; [|destruct sent; [intros Hx; by apply after_not_over in Hx|done]]. cbn in *.
    destruct Hv as [-> Hl|Hw]; [|by destruct w as [|e|]; [|exact Ho|destruct Ho]]. rewrite unsent_after, app_nil_r, app_assoc, responses_app.
    by rewrite (responses_response v).
  - destruct Hm as [Hn _]. eapply same_answers; [..|exact Ho]; cbn; try done. by eapply sends_notice, proper_is_notice.
  - cbn [io_handles] in Hh. rewrite Forall_app, Forall_cons in Hh. destruct Hh as (_ & [_ Hf] & _).
    eapply same_answers; [..|exact Ho]; cbn; try done. by eapply sends_notice, proper_is_notice, Hf.
  - destruct Ho as [Ho Hx]. split; cbn in *; [by rewrite <- app_assoc|done].
  - destruct Ho as [Ho Hx]. split; cbn in *; [|by intros ?%Hx]. rewrite <- Ho, responses_app, <- app_assoc. by apply prefix_app_r.
  - destruct Ho as [Ho Hx]. split; cbn in *; [|done]. by rewrite !app_nil_r in Ho.
  - destruct Ho as [Ho Hx]. split; cbn in *; [by destruct w|]. intros [= ->]. by destruct w.
Qed.

(** *** Lines *)

Definition lines_read (input : list (result str (list N))) (st : Stdio S) : Prop :=
  forall b, delivers input b -> exists rest, lines b (map fst (io_log st)) rest /\
    match io_main st with
    | Finished (Err _) => True
    | Draining | Finished (Ok _) => match io_writer st with Broken _ => True | _ => rest = [] end
    | _ => delivers (io_input st) rest
    end.

Lemma lines_snoc b fs rest frame :
  lines b fs rest -> next_frame invalid_data from_utf8 max_line_bytes rest = Ok (Some frame) ->
  lines b (fs ++ [frame]) (cut_line rest).2.
Proof. induction 1; intros Hn; cbn; econstructor; eauto using lines_none. Qed.
Lemma next_frame_None b : next_frame invalid_data from_utf8 max_line_bytes b = Ok None -> b = [].
Proof.
  destruct b as [|x b]; [done|]. unfold next_frame. destruct (_ <? _); [done|]. by destruct (decode_stdio_line _ _ _).
Qed.
Lemma read_line_delivers input b :
  delivers input b -> exists rest, read_line input = (next_frame invalid_data from_utf8 max_line_bytes b, rest) /\
    delivers rest (cut_line b).2.
Proof. intros Hd. apply (read_line_go_spec invalid_data from_utf8 max_line_bytes [] input b); [cbn; lia|done|done]. Qed.
Lemma step_lines_read input st st' : stdio_step st st' -> in_order st -> lines_read input st -> lines_read input st'.
Proof.
  intros Hs [Ho _] Hl b Hb. destruct (Hl b Hb) as (rest & Hr & Hx). destruct Hs as
    [i d hs q w out log frame i' response d' Hread Ha|i d hs q w out log i' Hread| |i d hs q w out log v starts sent q' Hv| | |
    i d hs q w out log v topics sent q' Hv| |i d m before f f' after q w out log Hf|
    i d m before f v l after q w out log sent q' Ht Hv|i d before f after q w out log|i d m hs v q out log|i d m hs v q out log e|
    i d hs out log Hg|i d hs q w out log r Hret]; cbn in *; try (by exists rest).
  - destruct (read_line_delivers _ _ Hx) as (j & Hj & Hd). rewrite Hread in Hj. injection Hj as Hn ->.
    exists (cut_line rest).2. rewrite map_app. split; [by apply lines_snoc|].
    unfold on_line, after_line. by destruct response; [|destruct (_ && _)].
  - exists rest. split; [done|]. destruct (read_line_delivers _ _ Hx) as (j & Hj & _). rewrite Hread in Hj. injection Hj as Hn _.
    apply eq_sym, next_frame_None in Hn. by destruct w.
  - exists rest. split; [done|]. destruct Hv as [-> _|Hw]; [unfold after_line; by destruct (_ && _)|]. by destruct w; [|..|destruct Ho].
  - exists rest. split; [done|]. by destruct m as [| | | | |[]].
  - exists rest. split; [done|]. by destruct r.
Qed.

Lemma step_answered st st' :
  stdio_step st st' -> Forall (fun e => answered_by e.1 e.2) (io_log st) -> Forall (fun e => answered_by e.1 e.2) (io_log st').
Proof.
  intros [] Hl; try exact Hl. cbn in *. apply Forall_app. split; [done|]. apply Forall_singleton. by eapply answer_fits.
Qed.
Lemma in_order_prefix st : in_order st -> responses (io_printed st) `prefix_of` omap snd (io_log st).
Proof.
  intros [Ho _]. destruct (io_writer st); [|done|destruct Ho as [-> _]; done].
  rewrite <- Ho, responses_app, <- app_assoc. by apply prefix_app_r.
Qed.

(** C33. The conversation over stdin and stdout, under every interleaving of its
    tasks and every failure: the answers printed are those to the lines read, in
    the order of the lines, one for each request, invalid line or over-long line
    and none for anything else; the notifications between them are redacted
    events and reports of lost topics, and none comes before the client said it
    is initialised.  When the bridge returns without an error, every line of its
    input has been read and every answer printed. *)
Theorem conversation_in_order input (d : S) st :
  rtc stdio_step (started input d) st ->
  (forall b, delivers input b -> exists rest, lines b (map fst (io_log st)) rest /\
     (io_main st = Finished (Ok tt) -> rest = [])) /\
  Forall (fun e => answered_by e.1 e.2) (io_log st) /\
  responses (io_printed st) `prefix_of` omap snd (io_log st) /\
  (io_main st = Finished (Ok tt) -> responses (io_printed st) = omap snd (io_log st)) /\
  Forall proper_notice (notices (io_printed st)) /\
  (Forall (fun e => starts_notifications e.1 = false) (io_log st) -> notices (io_printed st) = []).
Proof.
  intros Hr.
  assert (Hinv : notices_ok st /\ quiet_before st /\ in_order st /\ lines_read input st /\
    Forall (fun e => answered_by e.1 e.2) (io_log st)).
  { revert Hr. apply (rtc_ind_r (fun st => notices_ok st /\ quiet_before st /\ in_order st /\ lines_read input st /\
      Forall (fun e => answered_by e.1 e.2) (io_log st)) (started input d)).
    - split_and!; cbn; try done. intros b Hb. exists b. by split; [constructor|].
    - intros u v _ Hs (H1' & H2' & H3' & H4' & H5'). split_and!;
        [by eapply step_notices_ok|by eapply step_quiet_before|by eapply step_in_order|by eapply step_lines_read|by eapply step_answered]. }
  clear Hr. destruct Hinv as ((Hn & _) & Hq & Ho & Hl & Ha). split_and!; [|done|by apply in_order_prefix| | |].
  - intros b (rest & Hb & Hx)%Hl. exists rest. split; [done|]. intros Hf. rewrite Hf in Hx.
    destruct Ho as [_ Ho]. by rewrite (Ho Hf) in Hx.
  - intros Hf. destruct Ho as [Ho Hd]. rewrite (Hd Hf) in Ho. apply Ho.
  - apply Forall_app in Hn as [Hn _]. unfold notices. rewrite Forall_forall in Hn |- *.
    intros v (Hv & Hp)%list_elem_of_In%filter_In. apply Hn; [by apply list_elem_of_In|done].
  - intros Hx. destruct (Hq Hx) as (_ & Hp & _). unfold notices in *. rewrite List.filter_app in Hp. by apply app_nil in Hp as [? _].
Qed.
End serve.

(** ** Two sessions *)

Section sessions.
#[local] Existing Instances scripted_daemon no_codec plain_parsers.
Abbreviation run := (rtc (stdio_step (S := list (result BridgeError value)) (fun _ => lit "syntax") (lit "decode")
  (lit "not UTF-8") (fun _ => lit "refused") (lit "1") 0 9)).
Definition refusal_of_x : value := error_response VNull (parse_error (lit "syntax")).
Definition one_line : list (result str (list N)) := [Ok [120%N; 10%N]].

Lemma one_line_session :
  run (started one_line [])
      (mkStdio [] [] (Finished (Ok tt)) [] [] Done [refusal_of_x] [(Line [120%N], Some refusal_of_x)]).
Proof.
  eapply rtc_l; [apply (step_frame _ _ _ _ _ _ _ one_line [] [] [] Printing [] [] (Line [120%N]) []); reflexivity|].
  eapply rtc_l; [apply (step_answer _ _ _ _ _ _ _ _ _ _ _ _ _ _ _ _ true), sends_room; [done|cbn; unfold OUTPUT_MAILBOX; lia]|].
  eapply rtc_l; [apply step_print|]. eapply rtc_l; [by eapply step_eof|]. eapply rtc_l; [by apply step_writer_done|].
  by apply rtc_once, step_return.
Qed.

(** A line that is not JSON is answered, and the bridge ends with its input. *)
Lemma conversation_in_order_witness :
  lines (lit "not UTF-8") 9 [120%N; 10%N] [Line [120%N]] [] /\ responses [refusal_of_x] = [refusal_of_x].
Proof.
  destruct (conversation_in_order (S := list (result BridgeError value)) (fun _ => lit "syntax") (lit "decode")
    (lit "not UTF-8") (fun _ => lit "refused") (lit "1") 0 9 one_line [] _ one_line_session) as (Hl & _ & _ & Hf & _).
  split; [|exact (Hf eq_refl)]. destruct (Hl [120%N; 10%N]) as (rest & Hr & Hx).
  - exists [[120%N; 10%N]]. repeat split. repeat constructor. discriminate.
  - rewrite (Hx eq_refl) in Hr. exact Hr.
Defined.

(** A line that is not UTF-8 ends the bridge, although one that is too long or is
    not JSON is only answered with an error. *)
Lemma invalid_utf8_ends_bridge rest d handles queue printed log st' :
  stdio_step (S := list (result BridgeError value)) (fun _ => lit "syntax") (lit "decode") (lit "not UTF-8")
    (fun _ => lit "refused") (lit "1") 0 9
    (mkStdio (Ok [255%N; 10%N] :: rest) d Reading handles queue Printing printed log) st' ->
  io_main st' = Reading \/ io_main st' = Finished (Err (BIo (lit "not UTF-8"))).
Proof. intros Hs. inversion Hs; subst; auto; try discriminate; cbn in *; simplify_eq; auto. Qed.
End sessions.
