(* ===== verification/MailThreading.v ===== *)
(** * Threading (crates/postblox-mail/src/threading.rs)

    [assign_thread] decides whether a parsed message joins one of the threads
    the caller knows.  Timestamps are instants in nanoseconds; the clock read
    ([Utc::now()]) is the argument [now]. *)

From S2P Require Import Prelude RustStr MailParser.
#[local] Open Scope bool_scope.

(** Instants ([DateTime<Utc>]) and identifiers ([Uuid]). *)
Abbreviation instant := Z (only parsing).
Abbreviation Uuid := N (only parsing).

Definition NANOS_PER_DAY : Z := 86400 * 1000000000.

Record ThreadRef : Type := mkThreadRef {
  thread_id : Uuid;
  message_ids : list str;
  tr_subject : str;
  last_message_at : instant;
}.

Inductive ThreadMatch : Type :=
| Existing (id : Uuid)
| New.

(** ** Subject normalisation *)

(** [b.len() >= n && b[..n].eq_ignore_ascii_case(p)] with [n = p.len()]: the
    bytes of [p] are ASCII, so the comparison is one of characters. *)
Definition has_prefix_ic (s p : str) : bool :=
  (List.length p <=? List.length s)%nat &&
  str_eqb (to_ascii_lowercase (take (List.length p) s)) p.

(** The number of characters one round of the loop skips; [None] is [break]. *)
Definition prefix_skip (s : str) : option nat :=
  if has_prefix_ic s (lit "re:") then Some 3%nat
  else if has_prefix_ic s (lit "fwd:") then Some 4%nat
  else if has_prefix_ic s (lit "fw:") then Some 3%nat
  else None.

(** The loop; every round but the last shortens [s], so its length is enough
    fuel. *)
Fixpoint strip_prefixes (fuel : nat) (s : str) : str :=
  match fuel with
  | O => s
  | S k => match prefix_skip s with
           | Some skip => strip_prefixes k (trim_start (drop skip s))
           | None => s
           end
  end.

Section Normalize.
Context `{UnicodeCase}.

(** [std::ptr::eq(s, subject)]: [s] is a sub-slice of [subject], so it is the
    same slice exactly when nothing was cut off, that is when it is equal. *)
Definition normalize_subject (subject : str) : str :=
  let s := strip_prefixes (List.length subject) (trim subject) in
  if str_eqb s subject && negb (existsb is_uppercase s) then s
  else to_lowercase s.

(** ** Assignment *)

Definition holds_id (id : str) (t : ThreadRef) : bool :=
  existsb (fun i => str_eqb i id) (message_ids t).

Definition find_by_id (id : str) (threads : list ThreadRef) : option ThreadRef :=
  List.find (holds_id id) threads.

Fixpoint find_by_refs (refs : list str) (threads : list ThreadRef) : option ThreadRef :=
  match refs with
  | [] => None
  | r :: rest => match find_by_id r threads with
                 | Some t => Some t
                 | None => find_by_refs rest threads
                 end
  end.

(** [Iterator::max_by_key] on [last_message_at]: the last of the maxima. *)
Definition later_of (best : option ThreadRef) (t : ThreadRef) : option ThreadRef :=
  match best with
  | Some b => if (last_message_at b <=? last_message_at t)%Z then Some t else Some b
  | None => Some t
  end.
Definition max_by_last (l : list ThreadRef) : option ThreadRef := foldl later_of None l.

Definition subject_candidate (now : instant) (normalized : str) (t : ThreadRef) : bool :=
  let cutoff := (now - 7 * NANOS_PER_DAY)%Z in
  (cutoff <? last_message_at t)%Z && str_eqb (normalize_subject (tr_subject t)) normalized.

Definition assign_by_subject (now : instant) (subject : option str)
    (threads : list ThreadRef) : option ThreadRef :=
  match subject with
  | Some subject =>
      let normalized := normalize_subject subject in
      if negb (is_empty normalized)
      then max_by_last (List.filter (subject_candidate now normalized) threads)
      else None
  | None => None
  end.

Definition assign_thread (now : instant) (message : ParsedEmail)
    (existing_threads : list ThreadRef) : ThreadMatch :=
  match (match pe_in_reply_to message with
         | Some reply_to => find_by_id reply_to existing_threads
         | None => None
         end) with
  | Some t => Existing (thread_id t)
  | None =>
      match find_by_refs (rev (pe_references message)) existing_threads with
      | Some t => Existing (thread_id t)
      | None =>
          match assign_by_subject now (pe_subject message) existing_threads with
          | Some t => Existing (thread_id t)
          | None => New
          end
      end
  end.

(** ** The specification of assignment *)

(** [t] is the first thread that knows message id [id]. *)
Definition first_holder (id : str) (threads : list ThreadRef) (t : ThreadRef) : Prop :=
  exists l1 l2, threads = l1 ++ t :: l2 /\ id ∈ message_ids t /\
    Forall (fun t' => id ∉ message_ids t') l1.
Definition unknown_id (threads : list ThreadRef) (id : str) : Prop :=
  Forall (fun t => id ∉ message_ids t) threads.

(** A thread fresh enough for the subject fallback and with the same
    normalised subject. *)
Definition same_subject (now : instant) (subject : str) (t : ThreadRef) : Prop :=
  (now - last_message_at t < 7 * NANOS_PER_DAY)%Z /\
  normalize_subject (tr_subject t) = normalize_subject subject.

Inductive assigned (now : instant) (m : ParsedEmail) (threads : list ThreadRef)
    : ThreadMatch -> Prop :=
| assigned_reply r t :
    pe_in_reply_to m = Some r ->
    first_holder r threads t ->
    assigned now m threads (Existing (thread_id t))
| assigned_reference before r after t :
    (forall i, pe_in_reply_to m = Some i -> unknown_id threads i) ->
    pe_references m = before ++ r :: after ->
    Forall (unknown_id threads) after ->
    first_holder r threads t ->
    assigned now m threads (Existing (thread_id t))
| assigned_subject s l1 t l2 :
    (forall i, pe_in_reply_to m = Some i -> unknown_id threads i) ->
    Forall (unknown_id threads) (pe_references m) ->
    pe_subject m = Some s -> normalize_subject s <> [] ->
    threads = l1 ++ t :: l2 -> same_subject now s t ->
    Forall (fun t' => same_subject now s t' -> (last_message_at t' <= last_message_at t)%Z) l1 ->
    Forall (fun t' => same_subject now s t' -> (last_message_at t' < last_message_at t)%Z) l2 ->
    assigned now m threads (Existing (thread_id t))
| assigned_new :
    (forall i, pe_in_reply_to m = Some i -> unknown_id threads i) ->
    Forall (unknown_id threads) (pe_references m) ->
    (forall s, pe_subject m = Some s -> normalize_subject s <> [] ->
       Forall (fun t => ~ same_subject now s t) threads) ->
    assigned now m threads New.

Lemma holds_id_iff id t : holds_id id t = true <-> id ∈ message_ids t.
Proof.
  unfold holds_id. rewrite existsb_exists. setoid_rewrite str_eqb_eq.
  rewrite list_elem_of_In. naive_solver.
Qed.

Lemma holds_id_false id t : holds_id id t = false <-> id ∉ message_ids t.
Proof. rewrite <- holds_id_iff. destruct (holds_id id t); intuition congruence. Qed.

Lemma find_by_id_some id threads t :
  find_by_id id threads = Some t -> first_holder id threads t.
Proof.
  intros (l1 & l2 & -> & Hx & HF)%find_some_first. exists l1, l2.
  rewrite <- holds_id_iff. repeat split; auto.
  eapply Forall_impl; [exact HF|]. intros t' ?. by apply holds_id_false.
Qed.

Lemma find_by_id_none id threads : find_by_id id threads = None <-> unknown_id threads id.
Proof.
  unfold find_by_id, unknown_id. rewrite find_none_all.
  apply Forall_iff. intros t. apply holds_id_false.
Qed.

Lemma find_by_refs_some refs threads t :
  find_by_refs refs threads = Some t ->
  exists after r before, refs = after ++ r :: before /\
    Forall (unknown_id threads) after /\ first_holder r threads t.
Proof.
  induction refs as [|r refs IH]; cbn; [done|].
  destruct (find_by_id r threads) eqn:E; intros Hx.
  - simplify_eq. exists [], r, refs. split; [done|]. split; [constructor|].
    by apply find_by_id_some.
  - destruct (IH Hx) as (a & r' & b & -> & ? & ?). apply find_by_id_none in E.
    exists (r :: a), r', b. repeat split; auto.
Qed.

Lemma find_by_refs_none refs threads :
  find_by_refs refs threads = None <-> Forall (unknown_id threads) refs.
Proof.
  induction refs as [|r refs IH]; cbn; [naive_solver|].
  rewrite Forall_cons, <- IH, <- find_by_id_none.
  destruct (find_by_id r threads); naive_solver.
Qed.

Lemma max_by_last_go l b0 t :
  foldl later_of b0 l = Some t ->
  (b0 = Some t /\ Forall (fun x => (last_message_at x < last_message_at t)%Z) l) \/
  (exists l1 l2, l = l1 ++ t :: l2 /\
     (forall b, b0 = Some b -> (last_message_at b <= last_message_at t)%Z) /\
     Forall (fun x => (last_message_at x <= last_message_at t)%Z) l1 /\
     Forall (fun x => (last_message_at x < last_message_at t)%Z) l2).
Proof.
  revert b0. induction l as [|x l IH]; intros b0; cbn; [left; naive_solver|].
  intros Hf. destruct (IH _ Hf) as [(Hb & HF)|(l1 & l2 & -> & Hb & H1 & H2)].
  - destruct b0 as [b|]; cbn in Hb; [destruct (Z.leb _ _) eqn:E|]; simplify_eq; brefl.
    + right. exists [], l. repeat split; auto. naive_solver.
    + left. auto.
    + right. exists [], l. repeat split; auto. naive_solver.
  - right. exists (x :: l1), l2. split; [done|]. split; [|split; [|done]].
    + intros b ->. specialize (Hb (if (last_message_at b <=? last_message_at x)%Z then x else b)).
      cbn in Hb. destruct (Z.leb _ _) eqn:E; brefl; specialize (Hb eq_refl); lia.
    + constructor; [|done]. destruct b0 as [b|]; cbn in Hb; [|auto].
      destruct (Z.leb _ _) eqn:E; brefl; specialize (Hb _ eq_refl); lia.
Qed.

Lemma max_by_last_some l t :
  max_by_last l = Some t ->
  exists l1 l2, l = l1 ++ t :: l2 /\
     Forall (fun x => (last_message_at x <= last_message_at t)%Z) l1 /\
     Forall (fun x => (last_message_at x < last_message_at t)%Z) l2.
Proof.
  intros [[? ?]|(l1 & l2 & ? & _ & ? & ?)]%max_by_last_go; [done|]. eauto.
Qed.

Lemma later_of_some b l : exists t, foldl later_of (Some b) l = Some t.
Proof.
  revert b. induction l as [|x l IH]; intros b; cbn; [eauto|].
  destruct (Z.leb _ _); apply IH.
Qed.

Lemma max_by_last_none l : max_by_last l = None -> l = [].
Proof.
  destruct l as [|x l]; [done|]. unfold max_by_last. cbn.
  destruct (later_of_some x l) as [t ->]. done.
Qed.

Lemma subject_candidate_iff now s t :
  subject_candidate now (normalize_subject s) t = true <-> same_subject now s t.
Proof.
  unfold subject_candidate, same_subject.
  rewrite andb_true_iff, Z.ltb_lt, str_eqb_eq. naive_solver lia.
Qed.

(** The elements around one kept by [filter]. *)
Lemma filter_split {A} (f : A -> bool) l a1 x a2 :
  List.filter f l = a1 ++ x :: a2 ->
  exists l1 l2, l = l1 ++ x :: l2 /\ f x = true /\
    List.filter f l1 = a1 /\ List.filter f l2 = a2.
Proof.
  revert a1. induction l as [|y l IH]; intros a1; cbn; [by destruct a1|].
  destruct (f y) eqn:E.
  - destruct a1 as [|z a1]; cbn; intros [= -> Hf].
    + exists [], l. auto.
    + destruct (IH _ Hf) as (l1 & l2 & -> & ? & ? & ?).
      exists (z :: l1), l2. cbn. rewrite E. repeat split; auto. by f_equal.
  - intros Hf. destruct (IH _ Hf) as (l1 & l2 & -> & ? & ? & ?).
    exists (y :: l1), l2. cbn. rewrite E. auto.
Qed.

Lemma Forall_filter_impl {A} (f : A -> bool) (P Q : A -> Prop) l :
  (forall x, f x = true <-> Q x) -> Forall P (List.filter f l) ->
  Forall (fun x => Q x -> P x) l.
Proof.
  intros Hf HF. rewrite List.Forall_forall in *. intros x Hx HQ. apply HF.
  apply filter_In. split; [done|]. by apply Hf.
Qed.

Lemma find_app_first {A} (f : A -> bool) l1 x l2 :
  Forall (fun y => f y = false) l1 -> f x = true ->
  List.find f (l1 ++ x :: l2) = Some x.
Proof. induction 1 as [|y l1 Hy _ IH]; cbn; [by intros ->|]. rewrite Hy. auto. Qed.

Lemma first_holder_find id threads t :
  first_holder id threads t -> find_by_id id threads = Some t.
Proof.
  intros (l1 & l2 & -> & Hin & HF). apply find_app_first; [|by apply holds_id_iff].
  eapply Forall_impl; [exact HF|]. intros ? ?. by apply holds_id_false.
Qed.

Lemma find_by_refs_first after r before threads t :
  Forall (unknown_id threads) after -> first_holder r threads t ->
  find_by_refs (after ++ r :: before) threads = Some t.
Proof.
  induction 1 as [|a after Ha _ IH]; intros Hr; cbn.
  - by rewrite (first_holder_find _ _ _ Hr).
  - apply find_by_id_none in Ha. rewrite Ha. auto.
Qed.

Lemma later_of_keep t l :
  Forall (fun x => (last_message_at x < last_message_at t)%Z) l ->
  foldl later_of (Some t) l = Some t.
Proof.
  induction 1 as [|x l Hx _ IH]; cbn; [done|].
  destruct (Z.leb_spec (last_message_at t) (last_message_at x)); [lia|done].
Qed.

Lemma later_of_bound z l b0 :
  Forall (fun x => (last_message_at x <= z)%Z) l ->
  (forall b, b0 = Some b -> (last_message_at b <= z)%Z) ->
  forall b, foldl later_of b0 l = Some b -> (last_message_at b <= z)%Z.
Proof.
  intros HF. revert b0. induction HF as [|x l Hx _ IH]; intros b0 Hb0; cbn; [done|].
  apply IH. intros b. destruct b0 as [b'|]; cbn; [destruct (Z.leb _ _)|];
    intros [= <-]; auto.
Qed.

Lemma max_by_last_intro l1 t l2 :
  Forall (fun x => (last_message_at x <= last_message_at t)%Z) l1 ->
  Forall (fun x => (last_message_at x < last_message_at t)%Z) l2 ->
  max_by_last (l1 ++ t :: l2) = Some t.
Proof.
  intros H1 H2. unfold max_by_last. rewrite foldl_app. cbn.
  pose proof (later_of_bound (last_message_at t) l1 None H1) as Hb.
  destruct (foldl later_of None l1) as [b|]; cbn; [|by apply later_of_keep].
  specialize (Hb ltac:(done) b eq_refl).
  destruct (Z.leb_spec (last_message_at b) (last_message_at t)); [|lia].
  by apply later_of_keep.
Qed.

Lemma filter_Forall_impl {A} (f : A -> bool) (P Q : A -> Prop) l :
  (forall x, f x = true <-> Q x) -> Forall (fun x => Q x -> P x) l ->
  Forall P (List.filter f l).
Proof.
  intros Hf HF. rewrite List.Forall_forall in *. intros x [Hx Hfx]%filter_In.
  apply HF; [done|]. by apply Hf.
Qed.

Lemma assign_by_subject_some now subject threads t :
  assign_by_subject now subject threads = Some t ->
  exists s l1 l2, subject = Some s /\ normalize_subject s <> [] /\
    threads = l1 ++ t :: l2 /\ same_subject now s t /\
    Forall (fun t' => same_subject now s t' -> (last_message_at t' <= last_message_at t)%Z) l1 /\
    Forall (fun t' => same_subject now s t' -> (last_message_at t' < last_message_at t)%Z) l2.
Proof.
  unfold assign_by_subject. destruct subject as [s|]; [|done].
  destruct (is_empty _) eqn:E; cbn [negb]; [done|]. apply is_empty_false in E.
  intros (a1 & a2 & Hf & H1 & H2)%max_by_last_some.
  apply filter_split in Hf as (l1 & l2 & -> & Ht & <- & <-).
  apply subject_candidate_iff in Ht.
  exists s, l1, l2. repeat split; auto; try apply Ht;
    eapply Forall_filter_impl; try eassumption; intros; apply subject_candidate_iff.
Qed.

Lemma assign_by_subject_intro now s l1 t l2 :
  normalize_subject s <> [] -> same_subject now s t ->
  Forall (fun t' => same_subject now s t' -> (last_message_at t' <= last_message_at t)%Z) l1 ->
  Forall (fun t' => same_subject now s t' -> (last_message_at t' < last_message_at t)%Z) l2 ->
  assign_by_subject now (Some s) (l1 ++ t :: l2) = Some t.
Proof.
  intros Hne%is_empty_false Ht H1 H2. unfold assign_by_subject. rewrite Hne. cbn [negb].
  rewrite List.filter_app. cbn [List.filter].
  rewrite (proj2 (subject_candidate_iff now s t)) by done.
  apply max_by_last_intro; eapply filter_Forall_impl; eauto using subject_candidate_iff.
Qed.

Lemma assign_by_subject_none now subject threads :
  assign_by_subject now subject threads = None <->
  (forall s, subject = Some s -> normalize_subject s <> [] ->
     Forall (fun t => ~ same_subject now s t) threads).
Proof.
  unfold assign_by_subject. destruct subject as [s|]; [|naive_solver].
  destruct (is_empty _) eqn:E; cbn [negb].
  { apply is_empty_true in E. naive_solver. }
  apply is_empty_false in E. split.
  - intros Hm%max_by_last_none s' [= <-] _. rewrite List.Forall_forall. intros t Hin Ht.
    apply subject_candidate_iff in Ht.
    assert (t ∈ List.filter (subject_candidate now (normalize_subject s)) threads) as Hx
      by (apply list_elem_of_In, filter_In; auto).
    rewrite Hm in Hx. by apply elem_of_nil in Hx.
  - intros HF. specialize (HF s eq_refl E).
    replace (List.filter _ threads) with (@nil ThreadRef); [done|].
    induction HF as [|t threads Ht _ IH]; cbn; [done|].
    rewrite <- subject_candidate_iff in Ht.
    destruct (subject_candidate _ _ t); [by destruct Ht|done].
Qed.

(** C31. Thread assignment follows its documented priorities, completely: the
    result of [assign_thread] is the one the relation [assigned] gives and no
    other.  The first thread that knows the In-Reply-To id wins; failing that,
    the first that knows the last known reference; failing that, among the
    threads of the last seven days with the same non-empty normalised subject,
    the one with the latest message (the last of them on a tie); otherwise the
    message starts a thread. *)
Theorem assign_thread_iff_assigned now m threads r :
  assign_thread now m threads = r <-> assigned now m threads r.
Proof.
  unfold assign_thread. split.
  - intros <-.
    destruct (match pe_in_reply_to m with Some x => find_by_id x threads | None => None end)
      as [t|] eqn:Ei.
    { destruct (pe_in_reply_to m) eqn:E; [|done].
      econstructor 1; eauto using find_by_id_some. }
    assert (Hi : forall i, pe_in_reply_to m = Some i -> unknown_id threads i).
    { intros i Hi. rewrite Hi in Ei. by apply find_by_id_none. }
    destruct (find_by_refs _ _) as [t|] eqn:Er.
    { apply find_by_refs_some in Er as (a & x & b & Hr & Ha & Hh).
      apply (f_equal (@rev _)) in Hr. rewrite rev_involutive, rev_app_distr in Hr.
      cbn in Hr. rewrite <- app_assoc in Hr.
      econstructor 2; eauto. by apply Forall_rev. }
    apply find_by_refs_none in Er. apply Forall_rev in Er. rewrite rev_involutive in Er.
    destruct (assign_by_subject _ _ _) as [t|] eqn:Es.
    + apply assign_by_subject_some in Es as (s & l1 & l2 & ? & ? & ? & ? & ? & ?).
      econstructor 3; eauto.
    + constructor 4; auto. by apply assign_by_subject_none.
  - assert (Hnone : (forall i, pe_in_reply_to m = Some i -> unknown_id threads i) ->
      match pe_in_reply_to m with Some x => find_by_id x threads | None => None end = None).
    { intros Hi. destruct (pe_in_reply_to m) as [i|]; [|done]. by apply find_by_id_none, Hi. }
    assert (Hrefs : Forall (unknown_id threads) (pe_references m) ->
      find_by_refs (rev (pe_references m)) threads = None).
    { intros HF. by apply find_by_refs_none, Forall_rev. }
    destruct 1 as [x t Hx Ht|b x a t Hi Hr Ha Ht|s l1 t l2 Hi Hr Hs Hne Hl Ht H1 H2|Hi Hr Hs].
    + rewrite Hx. by rewrite (first_holder_find _ _ _ Ht).
    + rewrite Hnone by done. rewrite Hr, rev_app_distr. cbn. rewrite <- app_assoc. cbn [app].
      rewrite (find_by_refs_first _ _ _ _ t); auto. by apply Forall_rev.
    + rewrite Hnone, Hrefs, Hs by done. rewrite Hl.
      by rewrite assign_by_subject_intro.
    + rewrite Hnone, Hrefs by done.
      by rewrite (proj2 (assign_by_subject_none now _ threads) Hs).
Qed.

(** ** Normalisation *)

Lemma prefix_skip_length s k :
  prefix_skip s = Some k -> (3 <= k <= List.length s)%nat.
Proof.
  unfold prefix_skip, has_prefix_ic.
  change (List.length (lit "re:")) with 3%nat.
  change (List.length (lit "fwd:")) with 4%nat.
  change (List.length (lit "fw:")) with 3%nat.
  repeat (match goal with |- context [if ?b then _ else _] => destruct b eqn:? end);
    intros [= <-]; brefl; lia.
Qed.

(** The loop stops at a string with no prefix left: the fuel is enough. *)
Lemma strip_prefixes_done fuel s :
  (List.length s <= fuel)%nat -> prefix_skip (strip_prefixes fuel s) = None.
Proof.
  revert s. induction fuel as [|k IH]; intros s Hs; cbn.
  - destruct s; [reflexivity|cbn in Hs; lia].
  - destruct (prefix_skip s) as [n|] eqn:E; [|done]. apply IH.
    pose proof (prefix_skip_length _ _ E).
    unfold trim_start, trim_start_by. etransitivity; [apply drop_while_length|].
    rewrite length_drop. lia.
Qed.

Lemma strip_prefixes_fuel f1 f2 s :
  (List.length s <= f1)%nat -> (List.length s <= f2)%nat ->
  strip_prefixes f1 s = strip_prefixes f2 s.
Proof.
  revert f2 s. induction f1 as [|k IH]; intros [|f2] s H1 H2; cbn; auto.
  - destruct s; [done|cbn in *; lia].
  - destruct s; [done|cbn in *; lia].
  - destruct (prefix_skip s) as [n|] eqn:E; [|done].
    pose proof (prefix_skip_length _ _ E).
    apply IH; (etransitivity; [apply drop_while_length|]; rewrite length_drop; lia).
Qed.

Definition strip_all (s : str) : str := strip_prefixes (List.length s) s.

Lemma normalize_strip_all s :
  strip_prefixes (List.length s) (trim s) = strip_all (trim s).
Proof.
  apply strip_prefixes_fuel; [|done].
  unfold trim, trim_end, trim_start, trim_end_by, trim_start_by.
  rewrite length_rev. etransitivity; [apply drop_while_length|].
  rewrite length_rev. apply drop_while_length.
Qed.

Lemma strip_all_step s n :
  prefix_skip s = Some n -> strip_all s = strip_all (trim_start (drop n s)).
Proof.
  intros E. unfold strip_all. pose proof (prefix_skip_length _ _ E).
  destruct (List.length s) as [|k] eqn:Hl; [lia|]. cbn. rewrite E.
  apply strip_prefixes_fuel; [|done].
  unfold trim_start, trim_start_by. etransitivity; [apply drop_while_length|].
  rewrite length_drop. lia.
Qed.

Lemma strip_all_Forall (P : N -> Prop) s : Forall P s -> Forall P (strip_all s).
Proof.
  unfold strip_all. generalize (List.length s). intros f.
  revert s. induction f as [|k IH]; intros s HF; cbn; [done|].
  destruct (prefix_skip s); [|done]. apply IH. apply drop_while_Forall. by apply Forall_drop.
Qed.

Lemma to_ascii_lowercase_ascii s : is_ascii s -> is_ascii (to_ascii_lowercase s).
Proof.
  unfold is_ascii, to_ascii_lowercase. rewrite Forall_map. intros Hall.
  eapply Forall_impl; [exact Hall|]. cbn. intros c Hc. unfold ascii_lower, is_ascii_upper. destruct (_ && _) eqn:E; brefl; lia.
Qed.

(** On ASCII subjects the borrowed path gives what the owned one would. *)
Lemma normalize_ascii s :
  is_ascii s -> normalize_subject s = to_ascii_lowercase (strip_all (trim s)).
Proof.
  intros Ha. unfold normalize_subject. rewrite normalize_strip_all.
  assert (Hs : is_ascii (strip_all (trim s))).
  { apply strip_all_Forall. unfold trim, trim_end, trim_start.
    by apply trim_end_by_Forall, drop_while_Forall. }
  destruct (_ && _) eqn:E; [|by apply to_lowercase_ascii].
  brefl. match goal with Hx : existsb _ _ = false |- _ => revert Hx; revert Hs end.
  clear. induction 1 as [|c r Hc _ IH]; cbn; [done|]. intros [E1 E2]%orb_false_iff.
  rewrite is_uppercase_ascii in E1 by done. unfold ascii_lower at 1. rewrite E1. f_equal. auto.
Qed.

Ltac not_ws :=
  unfold is_whitespace; repeat (apply orb_false_iff; split);
  rewrite ?andb_false_iff, ?N.eqb_neq, ?N.leb_gt; lia.

Lemma ascii_lower_idem c : ascii_lower (ascii_lower c) = ascii_lower c.
Proof.
  unfold ascii_lower at 2. destruct (is_ascii_upper c) eqn:E.
  - unfold ascii_lower. rewrite E. unfold is_ascii_upper in *. brefl.
    destruct (_ && _) eqn:E2; brefl; lia.
  - unfold ascii_lower. by rewrite E.
Qed.

Lemma to_ascii_lowercase_idem s :
  to_ascii_lowercase (to_ascii_lowercase s) = to_ascii_lowercase s.
Proof.
  unfold to_ascii_lowercase. rewrite map_map. apply map_ext, ascii_lower_idem.
Qed.

Lemma has_prefix_ic_lower s p :
  has_prefix_ic (to_ascii_lowercase s) p = has_prefix_ic s p.
Proof.
  unfold has_prefix_ic. unfold to_ascii_lowercase at 1. rewrite length_map. f_equal.
  unfold to_ascii_lowercase. rewrite firstn_map.
  change (map ascii_lower (map ascii_lower ?l))
    with (to_ascii_lowercase (to_ascii_lowercase l)).
  by rewrite to_ascii_lowercase_idem.
Qed.

Lemma prefix_skip_lower s : prefix_skip (to_ascii_lowercase s) = prefix_skip s.
Proof. unfold prefix_skip. by rewrite !has_prefix_ic_lower. Qed.

(** The prefixes of one round, in any letter case. *)
Definition reply_prefix (p : str) : Prop :=
  to_ascii_lowercase p = lit "re:" \/ to_ascii_lowercase p = lit "fwd:" \/
  to_ascii_lowercase p = lit "fw:".

Lemma reply_prefix_head p : reply_prefix p ->
  exists c r, p = c :: r /\ is_whitespace c = false.
Proof.
  assert (Hc : forall c x, ascii_lower c = x -> is_ascii_lower x = true -> is_whitespace c = false).
  { intros c x <-. unfold ascii_lower, is_ascii_lower.
    destruct (is_ascii_upper c) eqn:E; unfold is_ascii_upper in E; intros; brefl; not_ws. }
  intros Hp. destruct p as [|c r]; [by destruct Hp as [?|[?|?]]|].
  exists c, r. split; [done|].
  destruct Hp as [Hp|[Hp|Hp]]; injection Hp as Hx _; eapply Hc; eauto.
Qed.

Lemma prefix_skip_prefix p s : reply_prefix p -> prefix_skip (p ++ s) = Some (List.length p).
Proof.
  intros Hp.
  assert (Hl : List.length p = List.length (to_ascii_lowercase p))
    by (symmetry; apply length_map).
  assert (Hic : forall q, to_ascii_lowercase p = q -> has_prefix_ic (p ++ s) q = true).
  { intros q <-. unfold has_prefix_ic. rewrite <- Hl, take_app_length, str_eqb_refl.
    rewrite length_app. apply andb_true_iff. split; [|done]. apply Nat.leb_le. lia. }
  assert (Hno : forall q, firstn 2 (to_ascii_lowercase p) <> firstn 2 q ->
                (2 <= List.length p)%nat -> (2 <= List.length q)%nat ->
                has_prefix_ic (p ++ s) q = false).
  { intros q Hq H2 H2q. unfold has_prefix_ic. apply andb_false_iff. right.
    apply str_eqb_neq. intros E. apply Hq. rewrite <- E.
    unfold to_ascii_lowercase. rewrite !firstn_map. f_equal.
    rewrite take_take, Nat.min_l by done. by rewrite take_app_le. }
  unfold prefix_skip. destruct Hp as [Hp|[Hp|Hp]]; rewrite Hl, Hp.
  - by rewrite (Hic _ Hp).
  - rewrite (Hno (lit "re:")), (Hic _ Hp); [done|rewrite Hp; done|rewrite Hl, Hp; cbv; lia|cbv; lia].
  - rewrite (Hno (lit "re:")); [|rewrite Hp; done|rewrite Hl, Hp; cbv; lia|cbv; lia].
    destruct (has_prefix_ic (p ++ s) (lit "fwd:")) eqn:E; [exfalso|by rewrite (Hic _ Hp)].
    unfold has_prefix_ic in E. brefl.
    match goal with Hx : str_eqb _ _ = true |- _ => apply str_eqb_eq in Hx; rename Hx into E end.
    apply (f_equal (firstn 3)) in E. revert E. unfold to_ascii_lowercase in *.
    rewrite firstn_map, take_take, Nat.min_l by (cbv; lia).
    rewrite take_app_le by (rewrite Hl, Hp; cbv; lia).
    rewrite <- firstn_map, Hp. cbv. done.
Qed.

Lemma trim_prefix c s : is_whitespace c = false -> trim (c :: s) = c :: trim_end s.
Proof.
  intros Hc. unfold trim, trim_start, trim_start_by. cbn. rewrite Hc.
  by apply trim_end_by_cons_ne.
Qed.

Lemma trim_end_prefix p s : Forall (fun c => is_whitespace c = false) p ->
  trim_end (p ++ s) = p ++ trim_end s.
Proof.
  induction 1 as [|c p Hc _ IH]; cbn [app]; [done|]. unfold trim_end in *.
  by rewrite trim_end_by_cons_ne, IH.
Qed.

Lemma trim_start_trim_end s : trim_start (trim_end s) = trim s.
Proof.
  unfold trim. destruct (decide (trim_start s = [])) as [E|E].
  - assert (Hw : Forall (fun c => is_whitespace c = true) s).
    { destruct (drop_while_split is_whitespace s) as (w & Hw & HF).
      unfold trim_start, trim_start_by in E. rewrite E, app_nil_r in Hw. by subst w. }
    rewrite E. unfold trim_end, trim_start, trim_start_by.
    apply drop_while_all. by apply trim_end_by_Forall.
  - destruct (drop_while_split is_whitespace s) as (w & Hw & HF).
    fold (trim_start_by is_whitespace s) in Hw. fold (trim_start s) in Hw.
    rewrite Hw at 1. destruct (trim_start s) as [|c r] eqn:Es; [done|].
    assert (Hc : is_whitespace c = false) by (eapply drop_while_head; exact Es).
    clear Hw E Es. induction HF as [|x w Hx HF IH]; cbn [app].
    + unfold trim_end. rewrite trim_end_by_cons_ne by done.
      unfold trim_start, trim_start_by. cbn. by rewrite Hc.
    + unfold trim_end, trim_end_by in *. cbn [rev].
      rewrite drop_while_app_nonempty.
      * rewrite rev_app_distr. cbn. unfold trim_start, trim_start_by in *. cbn. by rewrite Hx.
      * intros E. destruct (drop_while_split is_whitespace (rev (w ++ c :: r))) as (v & Hv & HFv).
        rewrite E, app_nil_r in Hv. rewrite <- Hv in HFv.
        apply Forall_rev in HFv. rewrite rev_involutive in HFv.
        apply Forall_app in HFv as [_ HFv]. inversion HFv. congruence.
Qed.

Lemma reply_prefix_no_ws p : reply_prefix p -> Forall (fun c => is_whitespace c = false) p.
Proof.
  intros Hp. assert (Hl : Forall (fun c => is_whitespace c = false) (to_ascii_lowercase p)).
  { destruct Hp as [->|[->| ->]]; vm_compute; repeat constructor. }
  revert Hl. unfold to_ascii_lowercase. rewrite Forall_map. intros Hall.
  eapply Forall_impl; [exact Hall|]. cbn. intros c. unfold ascii_lower, is_ascii_upper. destruct (_ && _) eqn:E; [|done].
  intros _. brefl. not_ws.
Qed.

Lemma strip_all_reply_prefix p s :
  reply_prefix p -> strip_all (trim (p ++ s)) = strip_all (trim s).
Proof.
  intros Hp. destruct (reply_prefix_head p Hp) as (c & r & -> & Hc).
  cbn [app]. rewrite trim_prefix by done.
  pose proof (reply_prefix_no_ws _ Hp) as Hws. inversion Hws; subst.
  rewrite trim_end_prefix by done.
  rewrite (strip_all_step _ (List.length (c :: r))).
  - change (c :: r ++ trim_end s) with ((c :: r) ++ trim_end s).
    rewrite drop_app_length. by rewrite trim_start_trim_end.
  - by apply (prefix_skip_prefix (c :: r)).
Qed.

Lemma reply_prefix_ascii p : reply_prefix p -> is_ascii p.
Proof.
  intros Hp. assert (Hl : is_ascii (to_ascii_lowercase p)).
  { destruct Hp as [->|[->| ->]]; vm_compute; repeat constructor. }
  revert Hl. unfold is_ascii, to_ascii_lowercase. rewrite Forall_map. intros Hall.
  eapply Forall_impl; [exact Hall|]. cbn. intros c. unfold ascii_lower, is_ascii_upper. destruct (_ && _) eqn:E; brefl; lia.
Qed.

(** Leading white space and one reply or forward prefix do not count. *)
Lemma normalize_one_prefix ws p s :
  Forall (fun c => is_whitespace c = true /\ (c < 128)%N) ws -> reply_prefix p -> is_ascii s ->
  normalize_subject (ws ++ p ++ s) = normalize_subject s.
Proof.
  intros Hws Hp Hs.
  assert (is_ascii (p ++ s)) 
    by (apply Forall_app; split; [by apply reply_prefix_ascii|done]).
  rewrite !normalize_ascii; [|done|].
  - rewrite trim_app_l by (eapply Forall_impl; [exact Hws|]; naive_solver).
    by rewrite strip_all_reply_prefix.
  - apply Forall_app. split; [|done]. eapply Forall_impl; [exact Hws|]; naive_solver.
Qed.

Lemma normalize_subject_prefixes l s :
  Forall (fun q => Forall (fun c => is_whitespace c = true /\ (c < 128)%N) q.1 /\
                   reply_prefix q.2) l ->
  is_ascii s ->
  is_ascii (foldr (fun q acc => q.1 ++ q.2 ++ acc) s l) /\
  normalize_subject (foldr (fun q acc => q.1 ++ q.2 ++ acc) s l) = normalize_subject s.
Proof.
  induction 1 as [|[ws p] l [Hw Hp] _ IH]; intros Hs; cbn; [done|]. cbn in *.
  destruct (IH Hs) as [Ha Hn]. split.
  - apply Forall_app. split; [eapply Forall_impl; [exact Hw|]; naive_solver|].
    apply Forall_app. split; [by apply reply_prefix_ascii|done].
  - by rewrite normalize_one_prefix.
Qed.

(** Replies and forwards keep their normalised subject: any run of reply
    and forward prefixes in any letter case, with any ASCII white space before
    each, in front of an ASCII subject leaves [normalize_subject] unchanged, and
    what it returns has no prefix left and is lower case. *)
Theorem normalize_subject_ignores_prefixes l s :
  Forall (fun q => Forall (fun c => is_whitespace c = true /\ (c < 128)%N) q.1 /\
                   reply_prefix q.2) l ->
  is_ascii s ->
  normalize_subject (foldr (fun q acc => q.1 ++ q.2 ++ acc) s l) = normalize_subject s /\
  prefix_skip (normalize_subject s) = None /\
  to_ascii_lowercase (normalize_subject s) = normalize_subject s.
Proof.
  intros Hl Hs. split; [by apply normalize_subject_prefixes|].
  rewrite normalize_ascii by done.
  pose proof (strip_prefixes_done (List.length (trim s)) (trim s) (le_n _)) as Hd.
  fold (strip_all (trim s)) in Hd. split.
  - by rewrite prefix_skip_lower.
  - apply to_ascii_lowercase_idem.
Qed.
End Normalize.

Lemma normalize_subject_ignores_prefixes_witness :
  let l := [(lit " ", lit "RE:"); (lit " ", lit "fWd:"); ([], lit "Fw:")] in
  foldr (fun q acc => q.1 ++ q.2 ++ acc) (lit " Quarterly Update ") l
    = lit " RE: fWd:Fw: Quarterly Update " /\
  @normalize_subject ascii_case (lit " RE: fWd:Fw: Quarterly Update ") = lit "quarterly update".
Proof.
  intros l. split; [vm_compute; reflexivity|].
  refine (eq_trans (proj1 (@normalize_subject_ignores_prefixes ascii_case l
                             (lit " Quarterly Update ") _ _)) _).
  - repeat constructor; cbn; try lia; right; (left + right); vm_compute; reflexivity.
  - repeat constructor.
  - vm_compute. reflexivity.
Defined.

(** The borrowed path skips the lowercasing when no character is upper case; a
    title-case letter is not, so a subject that starts with one and the reply to
    it have different normal forms.  [dz_case] maps U+01C5 as Unicode does. *)
Definition dz_case : UnicodeCase.
Proof.
  refine {| to_lowercase s := map (fun c => if (c =? 453)%N then 454%N else ascii_lower c) s;
            char_to_lowercase c := [if (c =? 453)%N then 454%N else ascii_lower c];
            char_to_uppercase c := [if (c =? 453)%N then 452%N else ascii_upper c];
            is_uppercase := is_ascii_upper |}.
  - intros s Hs. apply map_ext_in. intros c Hc. unfold is_ascii in Hs. rewrite List.Forall_forall in Hs.
    specialize (Hs c Hc). destruct (N.eqb_spec c 453); [lia|done].
  - intros c Hc. destruct (N.eqb_spec c 453); [lia|done].
  - intros c Hc. destruct (N.eqb_spec c 453); [lia|done].
  - done.
Defined.

Lemma titlecase_subject_diverges :
  @normalize_subject dz_case [453%N] = [453%N] /\
  @normalize_subject dz_case (lit "Re: " ++ [453%N]) = [454%N].
Proof. vm_compute. done. Qed.
