(* ===== verification/MailReply.v ===== *)
(** * Reply and forward drafts (crates/postblox-mail/src/reply.rs)

    Pure functions from a stored message to the composer's pre-filled fields.
    The date formatting of the [chrono] crate is the parameter
    [format_rfc2822] of the two body builders. *)

From S2P Require Import Prelude RustStr MailParser MailThreading.
#[local] Open Scope bool_scope.

Definition REFERENCES_MESSAGE_ID_CAP : nat := 100.

Record MessageView : Type := mkMessageView {
  mv_id : Uuid;
  from_addr : str;
  reply_to : option str;
  mv_subject : option str;
  message_id_header : option str;
  references_header : option str;
  to_addrs : list str;
  cc_addrs : list str;
  text_body : option str;
  html_body : option str;
  internal_date : instant;
}.

Record ReplyDraft : Type := mkReplyDraft {
  rd_to : list str;
  rd_cc : list str;
  rd_subject : str;
  rd_in_reply_to : str;
  rd_references : str;
  rd_quoted_body : str;
}.

Record ForwardAttachmentRef : Type := mkForwardAttachmentRef {
  fa_message_id : Uuid;
  fa_attachment_id : Uuid;
  fa_filename : str;
  fa_content_type : str;
  fa_size_bytes : Z;
}.

Record ForwardDraft : Type := mkForwardDraft {
  fd_to : list str;
  fd_subject : str;
  fd_forwarded_body : str;
  fd_forwarded_attachments : list ForwardAttachmentRef;
}.

(** ** Subjects *)

Definition has_re_prefix (subject : str) : bool :=
  match trim_start subject with
  | c1 :: c2 :: c3 :: _ =>
      ((c1 =? 82)%N || (c1 =? 114)%N) && ((c2 =? 69)%N || (c2 =? 101)%N) && (c3 =? 58)%N
  | _ => false
  end.

Definition re_prefix (subject : str) : str :=
  if has_re_prefix subject then subject else lit "Re: " ++ subject.

Definition has_fwd_prefix `{UnicodeCase} (subject : str) : bool :=
  let lower := flat_map char_to_lowercase (take 4 (trim_start subject)) in
  starts_with lower (lit "fwd:") || starts_with lower (lit "fw:").

Definition fwd_prefix `{UnicodeCase} (subject : str) : str :=
  if has_fwd_prefix subject then subject else lit "Fwd: " ++ subject.

(** ** Headers *)

Definition primary_reply_target (message : MessageView) : str :=
  match opt_filter (fun s => negb (is_empty s)) (trim <$> reply_to message) with
  | Some s => s
  | None => trim (from_addr message)
  end.

Definition angle_wrap (value : str) : str :=
  let s := trim value in
  if starts_with s [LT] && ends_with s [GT] then s else LT :: s ++ [GT].

(** The identifiers before truncation. *)
Definition reference_ids (existing message_id : option str) : list str :=
  unwrap_or [] ((fun s => List.filter (fun w => negb (is_empty w)) (split_whitespace s))
                  <$> existing) ++
  match opt_filter (fun s => negb (is_empty s)) (trim <$> message_id) with
  | Some mid => [angle_wrap mid]
  | None => []
  end.

Definition cap_references (ids : list str) : list str :=
  if (REFERENCES_MESSAGE_ID_CAP <? List.length ids)%nat then
    let tail_start := (List.length ids - (REFERENCES_MESSAGE_ID_CAP - 1))%nat in
    match ids with
    | root :: _ => root :: drop tail_start ids
    | [] => []
    end
  else ids.

Definition build_references (existing message_id : option str) : str :=
  join (lit " ") (cap_references (reference_ids existing message_id)).

(** ** Recipients *)

Definition push_lower (seen : list str) (addr : str) : list str :=
  let lower := to_ascii_lowercase (trim addr) in
  if negb (is_empty lower) && negb (existsb (fun s => str_eqb s lower) seen)
  then seen ++ [lower] else seen.

Definition contains_lower (seen : list str) (addr : str) : bool :=
  let lower := to_ascii_lowercase (trim addr) in
  existsb (fun s => str_eqb s lower) seen.

(** One iteration of the loop over the original recipients. *)
Definition carry_recipient (st : list str * list str) (addr : str) : list str * list str :=
  let '(seen, cc) := st in
  if negb (is_empty (trim addr)) && negb (contains_lower seen addr)
  then (seen ++ [to_ascii_lowercase addr], cc ++ [addr])
  else (seen, cc).

Definition initial_seen (to : list str) (account_email : str) : list str :=
  foldl push_lower [] (to ++ [account_email]).

Definition carried_cc (to : list str) (account_email : str) (addrs : list str) : list str :=
  (foldl carry_recipient (initial_seen to account_email, []) addrs).2.

Definition reply_recipients (message : MessageView) (account_email : str) (reply_all : bool)
    : list str * list str :=
  let reply_target := primary_reply_target message in
  let to := if is_empty reply_target then [] else [reply_target] in
  if reply_all then
    let cc := carried_cc to account_email (to_addrs message ++ cc_addrs message) in
    match to, cc with
    | [], first :: rest => ([first], rest)
    | _, _ => (to, cc)
    end
  else (to, []).

(** ** Bodies *)

Definition body_for_quote (message : MessageView) : str :=
  match opt_filter (fun s => negb (is_empty s)) (text_body message) with
  | Some text => replace text CRLF [LF]
  | None =>
      if unwrap_or false ((fun s => negb (is_empty s)) <$> html_body message)
      then lit "[HTML body " ++ [8212%N] ++ lit " quoted text unavailable]"
      else []
  end.

Definition prefix_each_line (text prefix : str) : str :=
  if is_empty text then prefix
  else join CRLF (map (fun line => prefix ++ line) (split_char LF text)).

Section Bodies.
Context (format_rfc2822 : instant -> str).

Definition quote_body (message : MessageView) : str :=
  lit "On " ++ format_rfc2822 (internal_date message) ++ lit ", " ++ from_addr message
    ++ lit " wrote:" ++ CRLF ++ prefix_each_line (body_for_quote message) (lit "> ").

Definition forward_body (message : MessageView) : str :=
  lit "---------- Forwarded message ----------" ++ CRLF
    ++ lit "From: " ++ from_addr message ++ CRLF
    ++ lit "Date: " ++ format_rfc2822 (internal_date message) ++ CRLF
    ++ lit "Subject: " ++ unwrap_or [] (mv_subject message) ++ CRLF
    ++ lit "To: " ++ join (lit ", ") (to_addrs message) ++ CRLF
    ++ CRLF ++ body_for_quote message.

(** ** Drafts *)

Definition reply_draft (message : MessageView) (account_email : str) (reply_all : bool)
    : ReplyDraft :=
  let '(to, cc) := reply_recipients message account_email reply_all in
  {| rd_to := to;
     rd_cc := cc;
     rd_subject := re_prefix (unwrap_or [] (mv_subject message));
     rd_in_reply_to := unwrap_or [] (angle_wrap <$> message_id_header message);
     rd_references := build_references (references_header message) (message_id_header message);
     rd_quoted_body := quote_body message |}.

Definition forward_draft `{UnicodeCase} (message : MessageView)
    (attachments : list (Uuid * str * str * Z)) : ForwardDraft :=
  {| fd_to := [];
     fd_subject := fwd_prefix (unwrap_or [] (mv_subject message));
     fd_forwarded_body := forward_body message;
     fd_forwarded_attachments :=
       map (fun a => let '(attachment_id, filename, content_type, size_bytes) := a in
                     mkForwardAttachmentRef (mv_id message) attachment_id filename
                       content_type size_bytes) attachments |}.
End Bodies.

(** ** Facts: recipients *)

(** The key addresses are compared by. *)
Definition addr_key (a : str) : str := to_ascii_lowercase (trim a).

Lemma contains_lower_iff seen a : contains_lower seen a = true <-> addr_key a ∈ seen.
Proof.
  unfold contains_lower, addr_key. rewrite existsb_exists. setoid_rewrite str_eqb_eq.
  rewrite list_elem_of_In. naive_solver.
Qed.

Lemma contains_lower_false seen a : contains_lower seen a = false <-> addr_key a ∉ seen.
Proof. rewrite <- contains_lower_iff. destruct (contains_lower seen a); intuition congruence. Qed.

Lemma push_lower_elem seen a x :
  x ∈ push_lower seen a <-> x ∈ seen \/ (x = addr_key a /\ x <> []).
Proof.
  unfold push_lower. fold (addr_key a).
  destruct (is_empty (addr_key a)) eqn:E; cbn [negb andb].
  { apply is_empty_true in E. naive_solver. }
  apply is_empty_false in E. destruct (existsb _ seen) eqn:Ex; cbn [negb].
  - apply existsb_exists in Ex as (y & Hy & ->%str_eqb_eq). apply list_elem_of_In in Hy.
    naive_solver.
  - rewrite elem_of_app, list_elem_of_singleton. naive_solver.
Qed.

Lemma initial_seen_elem to account x :
  x ∈ initial_seen to account <-> x <> [] /\ exists a, a ∈ to ++ [account] /\ x = addr_key a.
Proof.
  unfold initial_seen. generalize (to ++ [account]). intros l.
  assert (H : forall seen, x ∈ foldl push_lower seen l <->
    x ∈ seen \/ (x <> [] /\ exists a, a ∈ l /\ x = addr_key a)).
  { induction l as [|b l IH]; intros seen; cbn.
    - split; [auto|]. intros [?|(_ & a & Ha & _)]; [done|]. by apply elem_of_nil in Ha.
    - rewrite IH, push_lower_elem. setoid_rewrite elem_of_cons. naive_solver. }
  rewrite H. rewrite elem_of_nil. naive_solver.
Qed.

Lemma addr_key_of_lower a b : to_ascii_lowercase b = addr_key a -> addr_key b = addr_key a.
Proof.
  intros H. unfold addr_key in *. rewrite <- trim_to_ascii_lowercase, H.
  by rewrite trim_to_ascii_lowercase, trim_idem.
Qed.

Lemma map_lower_key a cc : addr_key a ∈ map to_ascii_lowercase cc -> addr_key a ∈ map addr_key cc.
Proof.
  rewrite !list_elem_of_In, !in_map_iff. intros (b & Hb & Hin). exists b.
  split; [by apply addr_key_of_lower|done].
Qed.

(** What the loop over the recipients keeps: [seen] grows by the lower-cased
    copies of what it carries. *)
Lemma carry_fold seen0 addrs cc seen' cc' :
  foldl carry_recipient (seen0 ++ map to_ascii_lowercase cc, cc) addrs = (seen', cc') ->
  exists added, cc' = cc ++ added /\
    added `sublist_of` addrs /\
    Forall (fun a => trim a <> [] /\ addr_key a ∉ seen0) added /\
    Forall (fun a => trim a = [] \/ addr_key a ∈ seen0 ++ map addr_key cc') addrs.
Proof.
  revert cc. induction addrs as [|a addrs IH]; intros cc; cbn [foldl].
  { intros [= <- <-]. exists []. rewrite app_nil_r. auto using sublist_nil_l. }
  unfold carry_recipient at 2.
  destruct (is_empty (trim a)) eqn:E; cbn [negb andb].
  { intros Hf. destruct (IH _ Hf) as (added & ? & ? & ? & ?).
    apply is_empty_true in E. exists added. split_and!; auto. by apply sublist_cons. }
  apply is_empty_false in E.
  destruct (contains_lower _ a) eqn:Ec; cbn [negb]; intros Hf.
  - destruct (IH _ Hf) as (added & -> & ? & ? & ?). apply contains_lower_iff in Ec.
    exists added. split_and!; auto; [by apply sublist_cons|].
    constructor; [|done]. right. rewrite map_app, app_assoc. apply elem_of_app. left.
    apply elem_of_app in Ec as [Ec|Ec]; apply elem_of_app; auto using map_lower_key.
  - apply contains_lower_false in Ec. rewrite <- app_assoc in Hf.
    change [to_ascii_lowercase a] with (map to_ascii_lowercase [a]) in Hf.
    rewrite <- map_app in Hf. destruct (IH _ Hf) as (added & -> & Hsub & Had & Hal).
    exists (a :: added). rewrite <- !app_assoc in *. cbn [app] in *. split_and!; auto.
    + by apply sublist_skip.
    + constructor; [|done]. split; [done|]. intros Hin. apply Ec, elem_of_app. by left.
    + constructor; [|done]. right. apply elem_of_app. right.
      rewrite map_app. apply elem_of_app. right. by left.
Qed.

Lemma trimmed_key a : trimmed a -> addr_key a = to_ascii_lowercase a.
Proof. unfold addr_key. by intros ->. Qed.

(** With trimmed addresses the carried ones are also distinct. *)
Lemma carry_fold_NoDup seen0 addrs cc seen' cc' :
  foldl carry_recipient (seen0 ++ map to_ascii_lowercase cc, cc) addrs = (seen', cc') ->
  Forall trimmed addrs -> NoDup (map to_ascii_lowercase cc) ->
  NoDup (map to_ascii_lowercase cc').
Proof.
  intros Hf Ht. revert cc Hf. induction Ht as [|a addrs Ha _ IH]; intros cc; cbn [foldl].
  { intros [= _ <-]. done. }
  unfold carry_recipient at 2. destruct (negb (is_empty (trim a)) && _) eqn:E; [|apply IH].
  brefl. intros Hf Hnd.
  match goal with Hx : contains_lower _ _ = false |- _ => apply contains_lower_false in Hx;
    rewrite trimmed_key in Hx by done end.
  rewrite <- app_assoc in Hf. change [to_ascii_lowercase a] with (map to_ascii_lowercase [a]) in Hf.
  rewrite <- map_app in Hf. apply (IH _ Hf). rewrite map_app. apply NoDup_snoc; [done|].
  intros Hin. match goal with Hx : _ ∉ _ |- _ => apply Hx end. apply elem_of_app. by right.
Qed.

Lemma carried_cc_spec to account addrs :
  let cc := carried_cc to account addrs in
  cc `sublist_of` addrs /\
  Forall (fun a => trim a <> [] /\ addr_key a <> addr_key account /\
                   Forall (fun t => addr_key a <> addr_key t) to) cc /\
  Forall (fun a => trim a = [] \/ addr_key a ∈ map addr_key (to ++ account :: cc)) addrs.
Proof.
  cbn. unfold carried_cc.
  destruct (foldl carry_recipient _ addrs) as [seen' cc'] eqn:E. cbn.
  destruct (carry_fold (initial_seen to account) addrs [] seen' cc') as (added & -> & Hsub & Had & Hal).
  { cbn. by rewrite app_nil_r. }
  cbn [app] in *. split_and!; [done| |].
  - eapply Forall_impl; [exact Had|]. cbn. intros a [Hne Hk].
    assert (Hke : addr_key a <> []).
    { unfold addr_key, to_ascii_lowercase. destruct (trim a); done. }
    rewrite initial_seen_elem in Hk. split_and!; [done| |].
    + intros Heq. apply Hk. split; [done|]. exists account. split; [|done].
      apply elem_of_app. right. by left.
    + rewrite Forall_forall. intros t Ht Heq. apply Hk. split; [done|]. exists t.
      split; [|done]. apply elem_of_app. by left.
  - eapply Forall_impl; [exact Hal|]. cbn. intros a [Hb|Hk]; [by left|right].
    rewrite map_app. cbn [map]. apply elem_of_app in Hk as [Hk|Hk].
    + apply initial_seen_elem in Hk as (_ & b & Hb & ->).
      apply elem_of_app in Hb as [Hb| ->%list_elem_of_singleton]; apply elem_of_app.
      * left. by apply list_elem_of_fmap_2.
      * right. by left.
    + apply elem_of_app. right. by right.
Qed.

Lemma carried_cc_NoDup to account addrs :
  Forall trimmed addrs -> NoDup (map to_ascii_lowercase (carried_cc to account addrs)).
Proof.
  intros Ht. unfold carried_cc.
  destruct (foldl carry_recipient _ addrs) as [seen' cc'] eqn:E. cbn.
  eapply (carry_fold_NoDup (initial_seen to account) addrs []); eauto.
  - cbn. by rewrite app_nil_r.
  - constructor.
Qed.

Lemma map_key_trimmed l : Forall trimmed l -> map addr_key l = map to_ascii_lowercase l.
Proof. induction 1 as [|a l Ha _ IH]; cbn; [done|]. by rewrite trimmed_key, IH. Qed.

Lemma primary_target_trimmed m : trimmed (primary_reply_target m).
Proof.
  unfold primary_reply_target. destruct (reply_to m) as [r|]; cbn; [|apply trim_trimmed].
  destruct (negb _); apply trim_trimmed.
Qed.

(** Reply-all addresses the right people: for any message and account,
    no carried recipient is the responding account, or the reply target, in any
    letter case or padding; every carried one is an original recipient; every
    original recipient that is not blank is still addressed unless it is the
    account itself; and when the stored addresses carry no padding, nobody is
    addressed twice. *)
Theorem reply_all_recipients fmt m account :
  let d := reply_draft fmt m account true in
  let orig := to_addrs m ++ cc_addrs m in
  Forall (fun a => a ∈ orig /\ addr_key a <> addr_key account /\
                   (primary_reply_target m <> [] ->
                    addr_key a <> addr_key (primary_reply_target m))) (rd_cc d) /\
  Forall (fun a => trim a = [] \/ addr_key a ∈ map addr_key (account :: rd_to d ++ rd_cc d)) orig /\
  (Forall trimmed orig -> NoDup (map addr_key (rd_to d ++ rd_cc d))).
Proof.
  cbn zeta. unfold reply_draft, reply_recipients.
  set (to := if is_empty (primary_reply_target m) then [] else [primary_reply_target m]).
  set (orig := to_addrs m ++ cc_addrs m).
  destruct (carried_cc_spec to account orig) as (Hsub & Hcc & Hall).
  pose proof (carried_cc_NoDup to account orig) as Hnd.
  set (cc := carried_cc to account orig) in *.
  assert (Hto : to = [] /\ primary_reply_target m = [] \/
                to = [primary_reply_target m] /\ primary_reply_target m <> []).
  { unfold to. destruct (is_empty _) eqn:E; [left|right]; split; auto;
      [by apply is_empty_true|by apply is_empty_false]. }
  assert (Hsel : Forall (fun a => a ∈ orig /\ addr_key a <> addr_key account /\
                   (primary_reply_target m <> [] ->
                    addr_key a <> addr_key (primary_reply_target m))) cc).
  { rewrite Forall_forall in Hcc |- *. intros a Ha. destruct (Hcc a Ha) as (_ & Hacc & Hkt).
    split_and!; [by apply (elem_of_sublist cc)|done|]. intros Hne.
    destruct Hto as [[_ ?]|[Ht _]]; [done|]. rewrite Ht in Hkt. by inversion Hkt. }
  assert (Hcov : Forall (fun a => trim a = [] \/
                   addr_key a ∈ map addr_key (account :: to ++ cc)) orig).
  { eapply Forall_impl; [exact Hall|]. cbn beta. intros a [?|Hk]; [by left|right].
    revert Hk. rewrite !list_elem_of_In, !in_map_iff. setoid_rewrite in_app_iff. cbn.
    setoid_rewrite in_app_iff. naive_solver. }
  assert (Hdup : Forall trimmed orig -> NoDup (map addr_key (to ++ cc))).
  { intros Ht. assert (Htc : Forall trimmed cc).
    { rewrite Forall_forall in Ht |- *. intros a Ha. apply Ht.
      by apply (elem_of_sublist cc). }
    destruct Hto as [[-> _]|[-> Hne]]; cbn [app map].
    - rewrite map_key_trimmed; auto.
    - constructor; [|rewrite map_key_trimmed; auto].
      rewrite list_elem_of_In, in_map_iff. intros (a & Hk & Hin%list_elem_of_In).
      rewrite Forall_forall in Hsel. by destruct (Hsel a Hin) as (_ & _ & ?%not_eq_sym). }
  destruct Hto as [[Ht Hp]|[Ht Hp]]; rewrite Ht in *; [|done].
  destruct cc as [|first rest]; cbn [rd_to rd_cc app]; [done|].
  split_and!; try done. by inversion Hsel.
Qed.

(** ** Facts: references *)

(** The References header stays bounded and keeps both ends: it joins at
    most 100 identifiers, taken from the parent's references followed by the
    parent itself; all of them when they fit, otherwise the root and the 99 most
    recent, so the root stays first and the parent stays last. *)
Theorem references_capped existing message_id :
  let ids := reference_ids existing message_id in
  exists kept,
    build_references existing message_id = join (lit " ") kept /\
    (List.length kept <= REFERENCES_MESSAGE_ID_CAP)%nat /\
    kept `sublist_of` ids /\
    head kept = head ids /\ last kept = last ids /\
    ((List.length ids <= REFERENCES_MESSAGE_ID_CAP)%nat -> kept = ids) /\
    (forall mid, message_id = Some mid -> trim mid <> [] -> last kept = Some (angle_wrap (trim mid))).
Proof.
  cbn zeta. exists (cap_references (reference_ids existing message_id)). split; [done|].
  assert (Hlast : forall mid, message_id = Some mid -> trim mid <> [] ->
            last (reference_ids existing message_id) = Some (angle_wrap (trim mid))).
  { intros mid -> Hne. unfold reference_ids. cbn.
    destruct (trim mid) as [|c r] eqn:E; [done|]. cbn [is_empty negb]. by rewrite last_snoc. }
  set (ids := reference_ids existing message_id) in *. unfold cap_references.
  destruct (_ <? _)%nat eqn:E; brefl; [|split_and!; auto; lia].
  destruct ids as [|root rest] eqn:Hids; [cbn in E; lia|]. cbn [List.length] in *.
  unfold REFERENCES_MESSAGE_ID_CAP in *.
  replace (drop (S (List.length rest) - (100 - 1)) (root :: rest))
    with (drop (List.length rest - 99) rest)
    by (replace (S (List.length rest) - (100 - 1))%nat with (S (List.length rest - 99)) by lia; done).
  assert (Hl : last (root :: drop (List.length rest - 99) rest) = last (root :: rest)).
  { rewrite !last_cons. generalize (take_drop (List.length rest - 99) rest).
    intros Htd. apply (f_equal last) in Htd. rewrite <- Htd, last_app. destruct (last (drop _ rest)) eqn:El; [done|].
    apply last_None, (f_equal (@List.length _)) in El. rewrite length_drop in El. cbn in El. lia. }
  split_and!; auto.
  - cbn [List.length]. rewrite length_drop. lia.
  - apply sublist_skip, sublist_drop.
  - lia.
  - intros mid Hm Hne. rewrite Hl. eauto.
Qed.

(** ** Replies thread onto their parent *)

Lemma clean_id_not_wrapped s : clean_id s -> starts_with s [LT] = false.
Proof.
  intros (_ & Hl & _ & Hne). destruct s as [|c r]; [done|]. cbn [starts_with].
  destruct (N.eqb_spec LT c) as [<-|]; [|done]. exfalso.
  unfold trim_start_by in Hl. cbn in Hl.
  pose proof (drop_while_length (N.eqb LT) r). rewrite Hl in *. cbn in *. lia.
Qed.

Lemma angle_wrap_clean s : clean_id s -> angle_wrap s = LT :: s ++ [GT].
Proof.
  intros Hc. unfold angle_wrap. destruct Hc as (Ht & Hr). rewrite Ht.
  by rewrite (clean_id_not_wrapped s).
Qed.

Lemma has_re_prefix_spec s :
  has_re_prefix s = true ->
  exists ws p r, s = ws ++ p ++ r /\ Forall (fun c => is_whitespace c = true) ws /\
    reply_prefix p.
Proof.
  unfold has_re_prefix. destruct (drop_while_split is_whitespace s) as (ws & Hs & Hws).
  change (drop_while is_whitespace s) with (trim_start s) in Hs.
  destruct (trim_start s) as [|c1 [|c2 [|c3 r]]] eqn:E; [done..|].
  intros Hb. exists ws, [c1; c2; c3], r. split; [done|]. split; [done|]. left.
  brefl. repeat match goal with Hx : _ \/ _ |- _ => destruct Hx end; brefl; subst; reflexivity.
Qed.

(** The subject of a reply normalises as the original's does. *)
Lemma normalize_re_prefix `{UnicodeCase} s :
  is_ascii s -> normalize_subject (re_prefix s) = normalize_subject s.
Proof.
  intros Ha. unfold re_prefix. destruct (has_re_prefix s) eqn:E; [done|].
  change (lit "Re: " ++ s) with ([] ++ lit "Re:" ++ ([32%N] ++ s)).
  assert (is_ascii ([32%N] ++ s)) by (constructor; [lia|done]).
  rewrite normalize_one_prefix; [|constructor|by left|done].
  rewrite !normalize_ascii by done. rewrite trim_app_l by (repeat constructor). done.
Qed.

Lemma re_prefix_idem s : re_prefix (re_prefix s) = re_prefix s.
Proof.
  unfold re_prefix at 2 3. destruct (has_re_prefix s) eqn:E; unfold re_prefix; [by rewrite E|done].
Qed.

(** A reply built from a stored message joins that message's thread when it
    comes back: whatever the clock, if the parent's identifier is known to a
    thread, then a received message whose In-Reply-To is the one the draft
    carries (the parser strips the brackets the draft adds) is assigned to the
    first thread that knows the parent; and its subject, for an ASCII parent
    subject, normalises as the parent's does, however often it is prefixed. *)
Theorem reply_joins_parent_thread `{UnicodeCase} fmt now m mid account all threads t received :
  message_id_header m = Some mid -> clean_id mid ->
  first_holder mid threads t ->
  pe_in_reply_to received =
    Some (strip_angles (rd_in_reply_to (reply_draft fmt m account all))) ->
  assign_thread now received threads = Existing (thread_id t) /\
  (is_ascii (unwrap_or [] (mv_subject m)) ->
   normalize_subject (re_prefix (rd_subject (reply_draft fmt m account all))) =
   normalize_subject (unwrap_or [] (mv_subject m))).
Proof.
  intros Hm Hc Ht Hr. revert Hr. unfold reply_draft.
  destruct (reply_recipients m account all) as [to cc]. cbn [rd_in_reply_to rd_subject].
  rewrite Hm. cbn [fmap option_fmap option_map unwrap_or].
  rewrite angle_wrap_clean, strip_angles_wrapped by done. intros Hr. split.
  - unfold assign_thread. rewrite Hr. by rewrite (first_holder_find _ _ _ Ht).
  - intros Ha. rewrite re_prefix_idem. by apply normalize_re_prefix.
Qed.

Definition example_view : MessageView :=
  {| mv_id := 1%N; from_addr := lit "alice@ex.com"; reply_to := None;
     mv_subject := Some (lit "Lunch"); message_id_header := Some (lit "m1@ex.com");
     references_header := None; to_addrs := [lit "me@ex.com"; lit "bob@ex.com"];
     cc_addrs := [lit " bob@ex.com "; lit " bob@ex.com"]; text_body := Some (lit "noon?");
     html_body := None; internal_date := 0%Z |}.

Lemma reply_joins_parent_thread_witness :
  let t := mkThreadRef 7%N [lit "m1@ex.com"] (lit "Lunch") 0%Z in
  let received := mkParsedEmail None (Some (lit "m1@ex.com")) [] [] [] [] None None None
                    Json.VNull [] in
  @assign_thread ascii_case 100%Z received [t] = Existing 7%N.
Proof.
  intros t received.
  refine (proj1 (@reply_joins_parent_thread ascii_case (fun _ => []) 100%Z example_view
           (lit "m1@ex.com") (lit "me@ex.com") true [t] t received _ _ _ _)).
  - reflexivity.
  - repeat split; vm_compute; congruence.
  - exists [], []. split; [reflexivity|]. split; [by left|constructor].
  - vm_compute. reflexivity.
Defined.

(** Padding defeats the deduplication: the loop remembers an address as written
    but looks it up trimmed, so a padded address is carried once per occurrence. *)
Lemma padded_recipient_is_duplicated :
  rd_cc (reply_draft (fun _ => []) example_view (lit "me@ex.com") true) =
    [lit "bob@ex.com"] /\
  rd_cc (reply_draft (fun _ => [])
           {| mv_id := 1%N; from_addr := lit "alice@ex.com"; reply_to := None;
              mv_subject := None; message_id_header := None; references_header := None;
              to_addrs := [lit " bob@ex.com"]; cc_addrs := [lit "bob@ex.com"];
              text_body := None; html_body := None; internal_date := 0%Z |}
           (lit "me@ex.com") true) = [lit " bob@ex.com"; lit "bob@ex.com"].
Proof. split; vm_compute; reflexivity. Qed.
