(* ===== verification/ReplyExtract.v ===== *)
(** * Quoted-history stripping (crates/postblox-mail/src/reply_extract.rs)

    [extract_reply] keeps the lines a correspondent wrote.  The main theorem is
    the round trip with the quote block [MailReply.quote_body] puts under a
    reply. *)

From S2P Require Import Prelude RustStr MailParser MailThreading MailReply.
#[local] Open Scope bool_scope.

Definition is_signature_separator (trimmed : str) : bool :=
  str_eqb trimmed (lit "--") || str_eqb trimmed [8212%N].

Definition is_wrote_marker (trimmed : str) : bool :=
  starts_with trimmed (lit "On ") && ends_with trimmed (lit "wrote:").

(** [lines] is the slice from line [i] on: the code looks at [lines[i..]] only. *)
Definition is_multiline_wrote_marker (lines : list str) : bool :=
  match lines with
  | [] => false
  | line :: _ =>
      if negb (starts_with (trim line) (lit "On ")) then false
      else
        let block := take 4 lines in
        let ends_with_wrote := existsb (fun l => ends_with (trim l) (lit "wrote:")) block in
        let has_address := existsb (fun l => contains_char l 64%N) block in
        ends_with_wrote && has_address
  end.

Definition is_outlook_header_block (lines : list str) : bool :=
  match lines with
  | l0 :: l1 :: l2 :: l3 :: _ =>
      starts_with (trim l0) (lit "From:") && starts_with (trim l1) (lit "Sent:")
      && starts_with (trim l2) (lit "To:") && starts_with (trim l3) (lit "Subject:")
  | _ => false
  end.

Definition is_quote_line (line : str) : bool := starts_with (trim_start line) [GT].

(** The test one iteration makes at the head of [lines[i..]]. *)
Definition cuts_here (lines : list str) : bool :=
  match lines with
  | [] => false
  | line :: _ =>
      let trimmed := trim line in
      is_signature_separator trimmed
      || (is_wrote_marker trimmed || is_multiline_wrote_marker lines)
      || is_outlook_header_block lines
  end.

Fixpoint find_cutoff (lines : list str) : nat :=
  match lines with
  | [] => 0
  | _ :: rest => if cuts_here lines then 0 else S (find_cutoff rest)
  end.

Definition extract_reply (text : str) : str :=
  let text := replace text CRLF [LF] in
  let lines := split_char LF text in
  let cutoff := find_cutoff lines in
  let kept := List.filter (fun line => negb (is_quote_line line)) (take cutoff lines) in
  trim (join [LF] kept).

(** ** Facts about line handling *)

(** A line: no line break characters inside. *)
Definition one_line (l : str) : Prop := CR ∉ l /\ LF ∉ l.

Lemma replace_crlf_plain a b : CR ∉ a -> replace (a ++ b) CRLF [LF] = a ++ replace b CRLF [LF].
Proof.
  unfold replace. induction a as [|c a IH]; intros Ha; cbn [app]; [done|].
  cbn [replace_go]. rewrite not_elem_of_cons in Ha. destruct Ha as [Hc Ha].
  assert (starts_with (c :: a ++ b) CRLF = false) as ->.
  { unfold CRLF. cbn [starts_with]. destruct (N.eqb_spec CR c) as [Heq|]; [by destruct Hc|done]. }
  by rewrite IH.
Qed.

Lemma replace_crlf_crlf b : replace (CRLF ++ b) CRLF [LF] = LF :: replace b CRLF [LF].
Proof.
  change (CRLF ++ b) with (CR :: (LF :: b)). unfold replace. cbn [replace_go].
  replace (starts_with _ CRLF) with true; [done|].
  symmetry. apply starts_with_spec. by exists b.
Qed.

Lemma replace_crlf_sep sep b :
  sep = CRLF \/ sep = [LF] -> replace (sep ++ b) CRLF [LF] = LF :: replace b CRLF [LF].
Proof.
  intros [->| ->]; [apply replace_crlf_crlf|].
  apply (replace_crlf_plain [LF]). by apply contains_char_false.
Qed.

Lemma split_line a b : LF ∉ a -> split_char LF (a ++ LF :: b) = a :: split_char LF b.
Proof.
  unfold split_char. induction a as [|c a IH]; intros Ha; cbn [app split_by].
  - by rewrite N.eqb_refl.
  - rewrite not_elem_of_cons in Ha. destruct Ha as [Hc Ha].
    destruct (N.eqb_spec LF c); [done|]. by rewrite IH.
Qed.


(** Written lines, then anything: [replace] and [split] give the lines back. *)
Lemma split_written sep ls b :
  sep = CRLF \/ sep = [LF] -> Forall one_line ls -> ls <> [] ->
  split_char LF (replace (join sep ls ++ CRLF ++ b) CRLF [LF]) =
  ls ++ split_char LF (replace b CRLF [LF]).
Proof.
  intros Hsep Hls Hne. induction Hls as [|l ls [Hcr Hlf] Hls IH]; [done|].
  destruct ls as [|l' ls].
  - cbn [join app]. rewrite replace_crlf_plain by done.
    change (CR :: LF :: b) with (CRLF ++ b). rewrite replace_crlf_crlf. by apply split_line.
  - change (join sep (l :: l' :: ls)) with (l ++ sep ++ join sep (l' :: ls)).
    rewrite <- !app_assoc, replace_crlf_plain, replace_crlf_sep, split_line by done.
    cbn [app]. f_equal. by apply IH.
Qed.

(** What the tests of the code make of a line: none takes it for history. *)
Definition plain_line (l : str) : Prop :=
  one_line l /\ is_quote_line l = false /\ is_signature_separator (trim l) = false /\
  starts_with (trim l) (lit "On ") = false /\ starts_with (trim l) (lit "From:") = false.

Lemma plain_line_no_cut l rest : plain_line l -> cuts_here (l :: rest) = false.
Proof.
  intros (_ & _ & Hs & Ho & Hf). unfold cuts_here, is_wrote_marker, is_multiline_wrote_marker.
  rewrite Hs, Ho. cbn [andb orb negb].
  unfold is_outlook_header_block. destruct rest as [|? [|? [|? ?]]]; try done. by rewrite Hf.
Qed.

Lemma find_cutoff_plain ls rest :
  Forall plain_line ls -> cuts_here rest = true ->
  find_cutoff (ls ++ rest) = List.length ls.
Proof.
  intros Hls Hc. induction Hls as [|l ls Hl _ IH]; cbn [app List.length].
  - destruct rest as [|r rest]; [done|]. cbn [find_cutoff]. by rewrite Hc.
  - cbn [find_cutoff]. rewrite plain_line_no_cut by done. by rewrite IH.
Qed.

Lemma filter_plain ls :
  Forall plain_line ls -> List.filter (fun l => negb (is_quote_line l)) ls = ls.
Proof.
  induction 1 as [|l ls Hl _ IH]; cbn; [done|]. destruct Hl as (_ & Hq & _).
  rewrite Hq. cbn. by rewrite IH.
Qed.

(** The attribution line is recognised. *)
Lemma attribution_cuts body rest :
  cuts_here ((lit "On " ++ body ++ lit " wrote:") :: rest) = true.
Proof.
  unfold cuts_here. replace (is_wrote_marker _) with true; [by rewrite orb_true_r|].
  symmetry. unfold is_wrote_marker.
  assert (Ht : trim (lit "On " ++ body ++ lit " wrote:") = lit "On " ++ body ++ lit " wrote:").
  { change (lit "On " ++ body ++ lit " wrote:") with
      (79%N :: (lit "n " ++ body ++ lit " wrote:")).
    rewrite trim_prefix by done. f_equal.
    replace (lit "n " ++ body ++ lit " wrote:") with ((lit "n " ++ body ++ lit " wrote") ++ [58%N])
      by (rewrite <- !app_assoc; done).
    by apply trim_end_by_last. }
  rewrite Ht, starts_with_app. cbn [andb].
  replace (lit "On " ++ body ++ lit " wrote:") with ((lit "On " ++ body ++ lit " ") ++ lit "wrote:")
    by (rewrite <- !app_assoc; done).
  apply ends_with_app.
Qed.

(** The line begins with [p], after blanks. *)
Definition indented (p l : str) : Prop :=
  exists blanks rest, Forall (fun c => is_whitespace c = true) blanks /\ l = blanks ++ p ++ rest.
(** The line is [p] between blanks. *)
Definition stands_alone (p l : str) : Prop :=
  exists blanks blanks', Forall (fun c => is_whitespace c = true) blanks /\
    Forall (fun c => is_whitespace c = true) blanks' /\ l = blanks ++ p ++ blanks'.

(** A line of the author's own: it does not begin like a quotation, an attribution
    or a header block, and it is no signature separator. *)
Definition author_line (l : str) : Prop :=
  one_line l /\ ~ indented [GT] l /\ ~ indented (lit "On ") l /\ ~ indented (lit "From:") l /\
  ~ stands_alone (lit "--") l /\ ~ stands_alone [8212%N] l.

Lemma trim_start_split l : exists blanks, Forall (fun c => is_whitespace c = true) blanks /\ l = blanks ++ trim_start l.
Proof. destruct (drop_while_split is_whitespace l) as (w & Hl & Hw). by exists w. Qed.
Lemma trim_split l : exists blanks blanks', Forall (fun c => is_whitespace c = true) blanks /\
  Forall (fun c => is_whitespace c = true) blanks' /\ l = blanks ++ trim l ++ blanks'.
Proof.
  destruct (trim_start_split l) as (blanks & Hb & Hl). destruct (trim_end_by_split is_whitespace (trim_start l)) as (w & Hw & Hs).
  exists blanks, w. split_and!; [done|done|]. by rewrite Hl at 1; f_equal.
Qed.
Lemma trim_starts_indented p l : starts_with (trim l) p = true -> indented p l.
Proof.
  intros (rest & Hr)%starts_with_spec. destruct (trim_split l) as (b & b' & Hb & _ & Hl). rewrite Hr in Hl.
  exists b, (rest ++ b'). split; [done|]. by rewrite Hl, <- !app_assoc.
Qed.

(** An author's line passes every test. *)
Lemma author_plain l : author_line l -> plain_line l.
Proof.
  intros (H1 & Hq & Ho & Hf & Hs & Hs'). split; [done|].
  assert (Hno : forall p, ~ indented p l -> starts_with (trim l) p = false).
  { intros p Hp. apply not_true_iff_false. intros E. by apply Hp, trim_starts_indented. }
  split_and!; auto.
  - apply not_true_iff_false. unfold is_quote_line. intros (rest & Hr)%starts_with_spec. apply Hq.
    destruct (trim_start_split l) as (b & Hb & Hl). rewrite Hr in Hl. by exists b, rest.
  - apply not_true_iff_false. unfold is_signature_separator. rewrite orb_true_iff, !str_eqb_eq.
    destruct (trim_split l) as (b & b' & Hb & Hb' & Hl).
    intros [E|E]; rewrite E in Hl; [apply Hs|apply Hs']; by exists b, b'.
Qed.

(** Deciding that a line does not begin so. *)
Lemma not_indented c p l : is_whitespace c = false -> starts_with (trim_start l) (c :: p) = false -> ~ indented (c :: p) l.
Proof.
  intros Hc Hs (b & rest & Hb & ->). unfold trim_start, trim_start_by in Hs. rewrite drop_while_app in Hs by done.
  cbn [app drop_while] in Hs. rewrite Hc in Hs. change (c :: p ++ rest) with ((c :: p) ++ rest) in Hs. by rewrite starts_with_app in Hs.
Qed.
Lemma stands_indented p l : stands_alone p l -> indented p l.
Proof. intros (b & b' & Hb & _ & ->). by exists b, b'. Qed.
Lemma author_line_check l :
  contains_char l CR = false -> contains_char l LF = false ->
  forallb (fun p => negb (starts_with (trim_start l) p)) [[GT]; lit "On "; lit "From:"; lit "--"; [8212%N]] = true ->
  author_line l.
Proof.
  intros Hr Hn H. cbn [forallb] in H. rewrite !andb_true_iff, !negb_true_iff in H. destruct H as (H1 & H2 & H3 & H4 & H5 & _).
  split; [by split; apply contains_char_false|].
  split_and!; [by apply not_indented..| |]; intros Hs%stands_indented; revert Hs; by apply not_indented.
Qed.

(** C40. Extraction undoes quoting: let the author's lines begin neither with [>]
    nor with [On ] nor with [From:], blanks aside, and contain no signature
    separator ([--] or a dash alone on a line).  Joined with either line break and
    followed by the quote block the reply builder puts under them, [extract_reply]
    returns the author's text without the blanks around it, and nothing of the
    quoted message, provided the attribution fits on one line. *)
Theorem extract_reply_undoes_quote fmt m sep ls :
  sep = CRLF \/ sep = [LF] ->
  Forall author_line ls -> ls <> [] ->
  one_line (fmt (internal_date m)) -> one_line (from_addr m) ->
  extract_reply (join sep ls ++ CRLF ++ quote_body fmt m) = trim (join [LF] ls).
Proof.
  intros Hsep Hauthor Hne Hd Hf. assert (Hls : Forall plain_line ls) by (eapply Forall_impl; [exact Hauthor|apply author_plain]).
  unfold extract_reply.
  rewrite split_written; [|done| |done].
  2: { eapply Forall_impl; [exact Hls|]. by intros l [? _]. }
  unfold quote_body.
  set (attr := fmt (internal_date m) ++ lit ", " ++ from_addr m).
  replace (lit "On " ++ _) with ((lit "On " ++ attr ++ lit " wrote:") ++ CRLF ++
    prefix_each_line (body_for_quote m) (lit "> "))
    by (unfold attr; rewrite <- !app_assoc; done).
  assert (Hone : forall c, c = CR \/ c = LF -> c ∉ lit "On " ++ attr ++ lit " wrote:").
  { assert (Hlit : forall c, c = CR \/ c = LF ->
      c ∉ lit "On " /\ c ∉ lit ", " /\ c ∉ lit " wrote:").
    { intros c [->| ->]; rewrite <- !contains_char_false; done. }
    intros c Hc. destruct (Hlit c Hc) as (? & ? & ?), Hd, Hf.
    unfold attr. rewrite !not_elem_of_app. destruct Hc as [->| ->]; done. }
  rewrite replace_crlf_plain, replace_crlf_crlf, split_line by (apply Hone; auto).
  rewrite find_cutoff_plain, take_app_length, filter_plain; auto using attribution_cuts.
Qed.

Lemma extract_reply_undoes_quote_witness :
  extract_reply (lit "Noon works." ++ CRLF ++ CRLF ++ quote_body (fun _ => lit "Mon") example_view)
  = lit "Noon works.".
Proof.
  change (lit "Noon works." ++ CRLF ++ CRLF ++ ?q) with
    (join CRLF [lit "Noon works."; []] ++ CRLF ++ q).
  rewrite (extract_reply_undoes_quote (fun _ => lit "Mon") example_view CRLF
             [lit "Noon works."; []]).
  - vm_compute. reflexivity.
  - by left.
  - repeat constructor; by apply author_line_check.
  - done.
  - split; by apply contains_char_false.
  - split; by apply contains_char_false.
Defined.
