(* ===== verification/MailBuilder.v ===== *)
(** * MIME assembly (crates/postblox-mail/src/builder.rs)

    [build_mime_full] renders a message.  What it takes from outside is in the
    record [MimeEnv]: the formatted date, the two random boundary identifiers
    and the [base64] crate's encoder.  The text is modelled before its
    conversion to bytes. *)

From S2P Require Import Prelude RustStr.
#[local] Open Scope bool_scope.

Record MimeEnv : Type := mkMimeEnv {
  env_date : str;
  env_mixed_uuid : str;
  env_alt_uuid : str;
  base64_encode : list N -> str;
}.

Record MimeAttachment : Type := mkMimeAttachment {
  ma_filename : str;
  ma_content_type : str;
  ma_data : list N;
  ma_content_id : option str;
}.

Record ReplyHeaders : Type := mkReplyHeaders {
  rh_in_reply_to : option str;
  rh_references : option str;
}.
Definition no_reply_headers : ReplyHeaders := mkReplyHeaders None None.

Record MimeBuildOptions : Type := mkMimeBuildOptions {
  mb_from : str;
  mb_to : list str;
  mb_cc : list str;
  mb_subject : str;
  mb_text_body : option str;
  mb_html_body : option str;
  mb_message_id : str;
  mb_attachments : list MimeAttachment;
  mb_reply : ReplyHeaders;
}.

Definition sanitize_header (value : str) : str :=
  List.filter (fun c => negb (N.eqb c CR || N.eqb c LF)) value.

Definition quoted (s : str) : str := [DQUOTE] ++ s ++ [DQUOTE].

Section Build.
Context (env : MimeEnv).

Definition build_body_only (msg : str) (text_body html_body : option str) : str :=
  match text_body, html_body with
  | Some text, Some html =>
      let boundary := lit "postblox-" ++ env_alt_uuid env in
      msg ++ lit "Content-Type: multipart/alternative; boundary=" ++ quoted boundary ++ CRLF
        ++ CRLF
        ++ lit "--" ++ boundary ++ CRLF
        ++ lit "Content-Type: text/plain; charset=utf-8" ++ CRLF ++ CRLF
        ++ text
        ++ CRLF ++ lit "--" ++ boundary ++ CRLF
        ++ lit "Content-Type: text/html; charset=utf-8" ++ CRLF ++ CRLF
        ++ html
        ++ CRLF ++ lit "--" ++ boundary ++ lit "--" ++ CRLF
  | Some text, None => msg ++ lit "Content-Type: text/plain; charset=utf-8" ++ CRLF ++ CRLF ++ text
  | None, Some html => msg ++ lit "Content-Type: text/html; charset=utf-8" ++ CRLF ++ CRLF ++ html
  | None, None => msg ++ lit "Content-Type: text/plain; charset=utf-8" ++ CRLF ++ CRLF
  end.

(** The wrapping loop; base64 output is ASCII, so byte and character positions
    agree.  Every round takes at least one character: the length is enough
    fuel. *)
Fixpoint wrap_go (fuel : nat) (rest : str) : str :=
  match fuel with
  | O => []
  | S k =>
      if is_empty rest then []
      else
        let split := Nat.min (List.length rest) 76 in
        take split rest ++ CRLF ++ wrap_go k (drop split rest)
  end.
Definition wrap76 (encoded : str) : str := wrap_go (List.length encoded) encoded.

(** One iteration of the attachment loop. *)
Definition push_attachment (mixed_boundary msg : str) (att : MimeAttachment) : str :=
  msg ++ CRLF ++ lit "--" ++ mixed_boundary ++ CRLF
    ++ lit "Content-Type: " ++ sanitize_header (ma_content_type att)
    ++ lit "; name=" ++ quoted (sanitize_header (ma_filename att)) ++ CRLF
    ++ lit "Content-Transfer-Encoding: base64" ++ CRLF
    ++ (match ma_content_id att with
        | Some cid =>
            lit "Content-ID: <" ++ sanitize_header cid ++ lit ">" ++ CRLF
              ++ lit "Content-Disposition: inline; filename="
              ++ quoted (sanitize_header (ma_filename att)) ++ CRLF
        | None =>
            lit "Content-Disposition: attachment; filename="
              ++ quoted (sanitize_header (ma_filename att)) ++ CRLF
        end)
    ++ CRLF
    ++ wrap76 (base64_encode env (ma_data att)).

Definition optional_header (name : str) (value : option str) : str :=
  match opt_filter (fun s => negb (is_empty s)) value with
  | Some value => name ++ sanitize_header value ++ CRLF
  | None => []
  end.

Definition top_headers (o : MimeBuildOptions) : str :=
  lit "From: " ++ sanitize_header (mb_from o) ++ CRLF
    ++ lit "To: " ++ sanitize_header (join (lit ", ") (mb_to o)) ++ CRLF
    ++ (match mb_cc o with
        | [] => []
        | cc => lit "Cc: " ++ sanitize_header (join (lit ", ") cc) ++ CRLF
        end)
    ++ lit "Subject: " ++ sanitize_header (mb_subject o) ++ CRLF
    ++ lit "Message-ID: " ++ sanitize_header (mb_message_id o) ++ CRLF
    ++ optional_header (lit "In-Reply-To: ") (rh_in_reply_to (mb_reply o))
    ++ optional_header (lit "References: ") (rh_references (mb_reply o))
    ++ lit "Date: " ++ env_date env ++ CRLF
    ++ lit "MIME-Version: 1.0" ++ CRLF.

Definition build_mime_full (o : MimeBuildOptions) : str :=
  let msg := top_headers o in
  match mb_attachments o with
  | [] => build_body_only msg (mb_text_body o) (mb_html_body o)
  | attachments =>
      let mixed_boundary := lit "postblox-mixed-" ++ env_mixed_uuid env in
      let msg := msg ++ lit "Content-Type: multipart/mixed; boundary=" ++ quoted mixed_boundary ++ CRLF
                   ++ CRLF ++ lit "--" ++ mixed_boundary ++ CRLF in
      let msg := build_body_only msg (mb_text_body o) (mb_html_body o) in
      foldl (push_attachment mixed_boundary) msg attachments
        ++ lit "--" ++ mixed_boundary ++ lit "--" ++ CRLF
  end.

Definition build_mime (from : str) (to cc : list str) (subject : str)
    (text_body html_body : option str) (message_id : str) : str :=
  build_mime_full (mkMimeBuildOptions from to cc subject text_body html_body message_id []
                     no_reply_headers).
End Build.

(** ** A reader for header blocks (RFC 5322 section 2.1) *)

(** The first line and what follows its CRLF. *)
Fixpoint break_crlf (s : str) : str * option str :=
  match s with
  | [] => ([], None)
  | c :: r =>
      match r with
      | d :: r' => if N.eqb c CR && N.eqb d LF then ([], Some r')
                   else let '(l, k) := break_crlf r in (c :: l, k)
      | [] => ([c], None)
      end
  end.

(** The header lines up to the first empty line, and the body. *)
Fixpoint read_headers (fuel : nat) (s : str) : list str * str :=
  match fuel with
  | O => ([], s)
  | S k => match break_crlf s with
           | ([], Some rest) => ([], rest)
           | (l, Some rest) => let '(hs, b) := read_headers k rest in (l :: hs, b)
           | (l, None) => ([l], [])
           end
  end.

(** Lines to text. *)
Definition header_text (hs : list str) : str := flat_map (fun h => h ++ CRLF) hs.

Definition header_line (h : str) : Prop := h <> [] /\ CR ∉ h /\ LF ∉ h.

Lemma break_crlf_line h r : CR ∉ h -> break_crlf (h ++ CRLF ++ r) = (h, Some r).
Proof.
  induction h as [|c h IH]; intros Hh; cbn [app].
  - unfold CRLF. cbn [app break_crlf]. by rewrite !N.eqb_refl.
  - rewrite not_elem_of_cons in Hh. destruct Hh as [Hc Hh]. specialize (IH Hh).
    cbn [break_crlf]. rewrite IH. destruct (N.eqb_spec c CR) as [->|]; [done|]. cbn [andb].
    destruct (h ++ CRLF ++ r) eqn:E; [by destruct h|done].
Qed.

Lemma read_headers_block hs body fuel :
  Forall header_line hs -> (List.length hs < fuel)%nat ->
  read_headers fuel (header_text hs ++ CRLF ++ body) = (hs, body).
Proof.
  intros Hhs. revert fuel. induction Hhs as [|h hs (Hne & Hcr & _) _ IH]; intros fuel Hf;
    (destruct fuel as [|k]; [cbn in Hf; lia|]); cbn [header_text flat_map read_headers].
  - change ([] ++ CRLF ++ body) with ([] ++ CRLF ++ body). rewrite break_crlf_line by (by intros ?%elem_of_nil).
    done.
  - rewrite <- !app_assoc, break_crlf_line by done. destruct h as [|c h]; [done|].
    fold (header_text hs). rewrite IH by (cbn in Hf; lia). done.
Qed.

Lemma sanitize_header_clean v : CR ∉ sanitize_header v /\ LF ∉ sanitize_header v.
Proof.
  unfold sanitize_header. rewrite !list_elem_of_In, !filter_In.
  split; intros [_ H]; cbn in H; discriminate H.
Qed.

Lemma sanitize_header_id v : CR ∉ v -> LF ∉ v -> sanitize_header v = v.
Proof.
  unfold sanitize_header. induction v as [|c v IH]; cbn; [done|].
  rewrite !not_elem_of_cons. intros [Hc Hv] [Hd Hw].
  destruct (N.eqb_spec c CR); [congruence|]. destruct (N.eqb_spec c LF); [congruence|].
  cbn. by rewrite IH.
Qed.

(** ** What the message should say *)

Section Spec.
Context (env : MimeEnv).

(** What the environment guarantees: [chrono] formats a date and [uuid] an
    identifier without line breaks, and base64 text is in its alphabet. *)
Definition env_ok : Prop :=
  (CR ∉ env_date env /\ LF ∉ env_date env) /\
  (CR ∉ env_mixed_uuid env /\ LF ∉ env_mixed_uuid env) /\
  (CR ∉ env_alt_uuid env /\ LF ∉ env_alt_uuid env).

Definition body_content_type (text_body html_body : option str) : str :=
  match text_body, html_body with
  | Some _, Some _ => lit "Content-Type: multipart/alternative; boundary="
                        ++ quoted (lit "postblox-" ++ env_alt_uuid env)
  | None, Some _ => lit "Content-Type: text/html; charset=utf-8"
  | _, None => lit "Content-Type: text/plain; charset=utf-8"
  end.

Definition body_payload (text_body html_body : option str) : str :=
  match text_body, html_body with
  | Some text, Some html =>
      let boundary := lit "postblox-" ++ env_alt_uuid env in
      lit "--" ++ boundary ++ CRLF
        ++ lit "Content-Type: text/plain; charset=utf-8" ++ CRLF ++ CRLF ++ text
        ++ CRLF ++ lit "--" ++ boundary ++ CRLF
        ++ lit "Content-Type: text/html; charset=utf-8" ++ CRLF ++ CRLF ++ html
        ++ CRLF ++ lit "--" ++ boundary ++ lit "--" ++ CRLF
  | Some text, None => text
  | None, Some html => html
  | None, None => []
  end.

Definition optional_line (name : str) (value : option str) : list str :=
  match opt_filter (fun s => negb (is_empty s)) value with
  | Some value => [name ++ sanitize_header value]
  | None => []
  end.

(** The header lines a recipient should see, one per field that is set. *)
Definition intended_headers (o : MimeBuildOptions) : list str :=
  [lit "From: " ++ sanitize_header (mb_from o);
   lit "To: " ++ sanitize_header (join (lit ", ") (mb_to o))]
  ++ (match mb_cc o with
      | [] => []
      | cc => [lit "Cc: " ++ sanitize_header (join (lit ", ") cc)]
      end)
  ++ [lit "Subject: " ++ sanitize_header (mb_subject o);
      lit "Message-ID: " ++ sanitize_header (mb_message_id o)]
  ++ optional_line (lit "In-Reply-To: ") (rh_in_reply_to (mb_reply o))
  ++ optional_line (lit "References: ") (rh_references (mb_reply o))
  ++ [lit "Date: " ++ env_date env; lit "MIME-Version: 1.0"].

Definition mixed_boundary : str := lit "postblox-mixed-" ++ env_mixed_uuid env.

Definition top_content_type (o : MimeBuildOptions) : str :=
  match mb_attachments o with
  | [] => body_content_type (mb_text_body o) (mb_html_body o)
  | _ => lit "Content-Type: multipart/mixed; boundary=" ++ quoted mixed_boundary
  end.

Definition attachment_headers (att : MimeAttachment) : list str :=
  [lit "Content-Type: " ++ sanitize_header (ma_content_type att)
     ++ lit "; name=" ++ quoted (sanitize_header (ma_filename att));
   lit "Content-Transfer-Encoding: base64"]
  ++ match ma_content_id att with
     | Some cid => [lit "Content-ID: <" ++ sanitize_header cid ++ lit ">";
                    lit "Content-Disposition: inline; filename="
                      ++ quoted (sanitize_header (ma_filename att))]
     | None => [lit "Content-Disposition: attachment; filename="
                  ++ quoted (sanitize_header (ma_filename att))]
     end.

Definition no_break (s : str) : Prop := CR ∉ s /\ LF ∉ s.

Lemma no_break_app a b : no_break a -> no_break b -> no_break (a ++ b).
Proof. unfold no_break. rewrite !not_elem_of_app. naive_solver. Qed.

Lemma no_break_sanitize v : no_break (sanitize_header v).
Proof. apply sanitize_header_clean. Qed.

Lemma no_break_bool s : contains_char s CR || contains_char s LF = false -> no_break s.
Proof. intros [? ?]%orb_false_iff. split; by apply contains_char_false. Qed.

Lemma no_break_quoted s : no_break s -> no_break (quoted s).
Proof. intros Hs. unfold quoted. repeat apply no_break_app; auto; by apply no_break_bool. Qed.

Lemma header_line_app a b : a <> [] -> no_break a -> no_break b -> header_line (a ++ b).
Proof.
  intros Hne Ha Hb. destruct (no_break_app a b Ha Hb). split; [by destruct a|done].
Qed.

Lemma header_line_lit s :
  is_empty s || contains_char s CR || contains_char s LF = false -> header_line s.
Proof.
  intros [[He Hc]%orb_false_iff Hl]%orb_false_iff. split; [by apply is_empty_false|].
  split; by apply contains_char_false.
Qed.

Lemma optional_line_ok name v :
  name <> [] -> no_break name -> Forall header_line (optional_line name v).
Proof.
  intros. unfold optional_line. destruct (opt_filter _ v); [|constructor].
  constructor; [|constructor]. apply header_line_app; auto using no_break_sanitize.
Qed.

Lemma header_text_app a b : header_text (a ++ b) = header_text a ++ header_text b.
Proof. apply flat_map_app. Qed.

Lemma optional_header_text name v :
  optional_header name v = header_text (optional_line name v).
Proof.
  unfold optional_header, optional_line. destruct (opt_filter _ v); [|done].
  cbn. by rewrite app_nil_r, app_assoc.
Qed.

Lemma top_headers_text o : top_headers env o = header_text (intended_headers o).
Proof.
  unfold top_headers, intended_headers. rewrite !header_text_app, !optional_header_text.
  destruct (mb_cc o); cbn [header_text flat_map app]; by rewrite ?app_nil_r, <- ?app_assoc.
Qed.

Lemma build_body_only_text msg t h :
  build_body_only env msg t h =
  msg ++ body_content_type t h ++ CRLF ++ CRLF ++ body_payload t h.
Proof.
  unfold build_body_only, body_content_type, body_payload.
  destruct t, h; rewrite <- ?app_assoc; rewrite ?app_nil_r; done.
Qed.

Lemma intended_headers_ok o : env_ok -> Forall header_line (intended_headers o).
Proof.
  intros (Hd & _). unfold intended_headers. rewrite !Forall_app.
  assert (Hlit : forall s v, is_empty s || contains_char s CR || contains_char s LF = false ->
    no_break v -> header_line (s ++ v)).
  { intros s v (? & ? & ?)%header_line_lit Hv. by apply header_line_app. }
  split_and!; repeat constructor; try (apply Hlit; auto using no_break_sanitize);
    try (apply optional_line_ok; [done|by apply no_break_bool]); try (by apply header_line_lit).
  destruct (mb_cc o); constructor; [|constructor]. apply Hlit; auto using no_break_sanitize.
Qed.

Lemma body_content_type_ok t h : env_ok -> header_line (body_content_type t h).
Proof.
  intros (_ & _ & Hu). unfold body_content_type.
  destruct t, h; try (by apply header_line_lit).
  apply header_line_app; [done|by apply no_break_bool|].
  apply no_break_quoted, no_break_app; [by apply no_break_bool|done].
Qed.

Lemma attachment_headers_ok att : Forall header_line (attachment_headers att).
Proof.
  assert (Hlit : forall s v, is_empty s || contains_char s CR || contains_char s LF = false ->
    no_break v -> header_line (s ++ v)).
  { intros s v (? & ? & ?)%header_line_lit Hv. by apply header_line_app. }
  unfold attachment_headers. rewrite Forall_app. split.
  - apply Forall_cons. split; [|apply Forall_singleton; by apply header_line_lit].
    apply Hlit; [done|].
    apply no_break_app; [apply no_break_sanitize|].
    apply no_break_app; [by apply no_break_bool|auto using no_break_quoted, no_break_sanitize].
  - destruct (ma_content_id att); rewrite ?Forall_cons, ?Forall_nil; split_and!; try done;
      apply Hlit; auto using no_break_quoted, no_break_sanitize.
    apply no_break_app; [apply no_break_sanitize|by apply no_break_bool].
Qed.

(** ** Base64 lines *)

Lemma wrap_go_spec fuel s :
  (List.length s <= fuel)%nat ->
  exists lines, wrap_go fuel s = header_text lines /\ concat lines = s /\
    Forall (fun l => l <> [] /\ (List.length l <= 76)%nat) lines.
Proof.
  revert s. induction fuel as [|k IH]; intros s Hs.
  - destruct s; [|cbn in Hs; lia]. exists []. repeat split; constructor.
  - cbn [wrap_go]. destruct (is_empty s) eqn:E.
    { apply is_empty_true in E. subst. exists []. repeat split; constructor. }
    apply is_empty_false in E.
    assert (Hpos : (0 < List.length s)%nat) by (destruct s; [done|cbn; lia]).
    destruct (IH (drop (Nat.min (List.length s) 76) s)) as (lines & Hl & Hc & HF).
    { rewrite length_drop. lia. }
    exists (take (Nat.min (List.length s) 76) s :: lines). split_and!.
    + cbn [header_text flat_map]. rewrite Hl, <- app_assoc. done.
    + cbn. rewrite Hc. apply take_drop.
    + constructor; [|done]. rewrite length_take. split; [|lia].
      intros Ht. apply (f_equal (@List.length _)) in Ht. rewrite length_take in Ht. cbn in Ht. lia.
Qed.

(** The text of one attachment part, after its delimiter line. *)
Definition attachment_part_text (att : MimeAttachment) : str :=
  header_text (attachment_headers att) ++ CRLF ++ wrap76 (base64_encode env (ma_data att)).

Lemma push_attachment_text b msg att :
  push_attachment env b msg att =
  msg ++ CRLF ++ lit "--" ++ b ++ CRLF ++ attachment_part_text att.
Proof.
  unfold push_attachment, attachment_part_text, attachment_headers.
  rewrite header_text_app. unfold header_text.
  destruct (ma_content_id att); cbn [flat_map]; rewrite ?app_nil_r, <- ?app_assoc; done.
Qed.

Lemma push_attachments_text b atts msg :
  foldl (push_attachment env b) msg atts =
  msg ++ flat_map (fun att => CRLF ++ lit "--" ++ b ++ CRLF ++ attachment_part_text att) atts.
Proof.
  revert msg. induction atts as [|a atts IH]; intros msg; cbn [foldl flat_map].
  - by rewrite app_nil_r.
  - rewrite IH, push_attachment_text. rewrite <- !app_assoc. done.
Qed.

Definition intended_body (o : MimeBuildOptions) : str :=
  match mb_attachments o with
  | [] => body_payload (mb_text_body o) (mb_html_body o)
  | atts =>
      lit "--" ++ mixed_boundary ++ CRLF
        ++ body_content_type (mb_text_body o) (mb_html_body o) ++ CRLF ++ CRLF
        ++ body_payload (mb_text_body o) (mb_html_body o)
        ++ flat_map (fun att => CRLF ++ lit "--" ++ mixed_boundary ++ CRLF
                                  ++ attachment_part_text att) atts
        ++ lit "--" ++ mixed_boundary ++ lit "--" ++ CRLF
  end.

Lemma build_mime_full_text o :
  build_mime_full env o =
  header_text (intended_headers o ++ [top_content_type o]) ++ CRLF ++ intended_body o.
Proof.
  unfold build_mime_full, top_content_type, intended_body.
  rewrite header_text_app, top_headers_text.
  assert (Hs : forall l, header_text [l] = l ++ CRLF) by (intros; apply app_nil_r).
  rewrite Hs. destruct (mb_attachments o) as [|a atts].
  - rewrite build_body_only_text. rewrite <- !app_assoc. done.
  - rewrite push_attachments_text, build_body_only_text. fold mixed_boundary.
    rewrite <- !app_assoc. done.
Qed.

Lemma top_content_type_ok o : env_ok -> header_line (top_content_type o).
Proof.
  intros He. unfold top_content_type. destruct (mb_attachments o).
  - by apply body_content_type_ok.
  - destruct He as (_ & Hm & _). apply header_line_app; [done|by apply no_break_bool|].
    apply no_break_quoted, no_break_app; [by apply no_break_bool|done].
Qed.

Lemma intended_headers_length o : (List.length (intended_headers o) <= 9)%nat.
Proof.
  unfold intended_headers, optional_line.
  destruct (mb_cc o), (opt_filter _ (rh_in_reply_to _)), (opt_filter _ (rh_references _));
    cbn; lia.
Qed.

(** C22. No header injection: whatever line breaks the addresses, the subject,
    the identifiers or the attachment metadata contain, a reader that splits the
    built message at CRLF sees exactly the intended header lines, one per field
    that is set and the Content-Type, and then exactly the intended body, which
    for a message with only a text part is that text. *)
Theorem built_headers_are_the_intended_ones o :
  env_ok ->
  read_headers 12 (build_mime_full env o) =
    (intended_headers o ++ [top_content_type o], intended_body o) /\
  (mb_attachments o = [] -> mb_html_body o = None ->
   intended_body o = unwrap_or [] (mb_text_body o)).
Proof.
  intros He. split.
  - rewrite build_mime_full_text. apply read_headers_block.
    + apply Forall_app. split; [by apply intended_headers_ok|].
      apply Forall_singleton. by apply top_content_type_ok.
    + rewrite length_app. pose proof (intended_headers_length o). cbn [List.length]. lia.
  - intros Ha Hh. unfold intended_body, body_payload. rewrite Ha, Hh. by destruct (mb_text_body o).
Qed.

(** Attachment parts: the part an attachment contributes to a message has
    exactly its three or four sanitised header lines, and then the base64 text of
    its data broken into non-empty lines of at most 76 characters that give the
    encoding back when they are put together. *)
Theorem attachment_part_well_formed att b msg :
  push_attachment env b msg att = msg ++ CRLF ++ lit "--" ++ b ++ CRLF ++ attachment_part_text att /\
  exists lines,
    read_headers 5 (attachment_part_text att) = (attachment_headers att, header_text lines) /\
    concat lines = base64_encode env (ma_data att) /\
    Forall (fun l => l <> [] /\ (List.length l <= 76)%nat) lines.
Proof.
  split; [apply push_attachment_text|].
  destruct (wrap_go_spec (List.length (base64_encode env (ma_data att)))
              (base64_encode env (ma_data att)) (le_n _)) as (lines & Hw & Hc & HF).
  exists lines. split; [|done]. unfold attachment_part_text, wrap76. rewrite Hw.
  apply read_headers_block; [apply attachment_headers_ok|].
  unfold attachment_headers. destruct (ma_content_id att); cbn; lia.
Qed.
End Spec.

Definition example_env : MimeEnv :=
  {| env_date := lit "Thu, 01 Jan 1970 00:00:00 +0000"; env_mixed_uuid := lit "aa";
     env_alt_uuid := lit "bb"; base64_encode := fun d => map (fun b => (65 + b mod 26)%N) d |}.

Lemma built_headers_are_the_intended_ones_witness :
  let o := mkMimeBuildOptions (lit "me@ex.com") [lit "you@ex.com"] []
             (lit "Hi" ++ CRLF ++ lit "Bcc: evil@ex.com") (Some (lit "body")) None
             (lit "<m@ex.com>") [] no_reply_headers in
  read_headers 12 (build_mime_full example_env o) =
    ([lit "From: me@ex.com"; lit "To: you@ex.com"; lit "Subject: HiBcc: evil@ex.com";
      lit "Message-ID: <m@ex.com>"; lit "Date: Thu, 01 Jan 1970 00:00:00 +0000";
      lit "MIME-Version: 1.0"; lit "Content-Type: text/plain; charset=utf-8"], lit "body").
Proof.
  intros o. refine (eq_trans (proj1 (built_headers_are_the_intended_ones example_env o _)) _).
  - repeat split; by apply contains_char_false.
  - vm_compute. reflexivity.
Defined.
