(* ===== verification/Wire.v ===== *)
(** * The frame codec (src/ipc/wire.rs)

    Frames are a big-endian 32-bit length followed by a JSON payload.  The
    transport is a byte stream that ends in end of file or in an I/O error; the
    JSON encoder and decoder of [serde_json] at the message type are the class
    [FrameCodec]. *)

From S2P Require Import Prelude RustStr.
#[local] Open Scope N_scope.
#[local] Open Scope bool_scope.

Definition MAX_FRAME_BYTES : N := 4 * 1024 * 1024.
Definition U32_MAX : N := 2 ^ 32.

Inductive IoError : Type := UnexpectedEof | OtherIo (code : N).

Inductive WireError (J : Type) : Type :=
| WIo (e : IoError)
| FrameTooLarge (len : N)
| WJson (e : J)
| EmptyPayload
| Closed.
Arguments WIo {J} e.
Arguments FrameTooLarge {J} len.
Arguments WJson {J} e.
Arguments EmptyPayload {J}.
Arguments Closed {J}.

(** [serde_json::to_vec] and [serde_json::from_slice] at one type. *)
Class FrameCodec (T J : Type) := {
  to_vec : T -> result J (list N);
  from_slice : list N -> result J T;
}.

(** ** Transports *)

(** What a reader will deliver, and the error that follows if it is not a
    plain end of file. *)
Record Reader : Type := mkReader { incoming : list N; fault : option IoError }.

(** [AsyncReadExt::read_exact]: on a short stream the bytes there are are
    consumed and the call fails. *)
Definition read_exact (n : N) (r : Reader) : result IoError (list N) * Reader :=
  if n <=? N.of_nat (List.length (incoming r)) then
    (Ok (take (N.to_nat n) (incoming r)), mkReader (drop (N.to_nat n) (incoming r)) (fault r))
  else
    (Err (match fault r with Some e => e | None => UnexpectedEof end), mkReader [] (fault r)).

(** A writer that accepts [room] more bytes and then fails. *)
Record Writer : Type := mkWriter { written : list N; room : N }.

Definition write_all (b : list N) (w : Writer) : result IoError unit * Writer :=
  if N.of_nat (List.length b) <=? room w then
    (Ok tt, mkWriter (written w ++ b) (room w - N.of_nat (List.length b)))
  else (Err (OtherIo 32), mkWriter (written w ++ take (N.to_nat (room w)) b) 0).

(** ** Lengths *)

(** [u32::to_be_bytes] and [u32::from_be_bytes]. *)
Definition to_be_bytes (n : N) : list N :=
  [n / 16777216 mod 256; n / 65536 mod 256; n / 256 mod 256; n mod 256].
Definition from_be_bytes (b : list N) : N := foldl (fun acc x => acc * 256 + x) 0 b.

(** The cast [len as u32]. *)
Definition as_u32 (n : N) : N := n mod U32_MAX.

(** ** The codec *)

Section Codec.
Context {T J : Type} `{FrameCodec T J}.

Definition read_frame_with_buf : M Reader (WireError J) T := fun r =>
  match read_exact 4 r with
  | (Err UnexpectedEof, r1) => (Err Closed, r1)
  | (Err e, r1) => (Err (WIo e), r1)
  | (Ok len_buf, r1) =>
      let len := from_be_bytes len_buf in
      if len =? 0 then (Err EmptyPayload, r1)
      else if MAX_FRAME_BYTES <? len then (Err (FrameTooLarge len), r1)
      else
        match read_exact len r1 with
        | (Err e, r2) => (Err (WIo e), r2)
        | (Ok buf, r2) => (map_err WJson (from_slice buf), r2)
        end
  end.

Definition read_frame : M Reader (WireError J) T := read_frame_with_buf.

Definition write_frame (v : T) : M Writer (WireError J) unit :=
  let! payload := mlift (map_err WJson (to_vec v)) in
  if MAX_FRAME_BYTES <? N.of_nat (List.length payload)
  then mthrow (FrameTooLarge (N.of_nat (List.length payload)))
  else
    mmap_err WIo (write_all (to_be_bytes (as_u32 (N.of_nat (List.length payload)))));!
    mmap_err WIo (write_all payload).

(** A sequence of frames, written and read back. *)
Fixpoint write_frames (vs : list T) : M Writer (WireError J) unit :=
  match vs with
  | [] => mret_M tt
  | v :: rest => write_frame v;! write_frames rest
  end.

Fixpoint read_frames (n : nat) : M Reader (WireError J) (list T) :=
  match n with
  | O => mret_M []
  | S k => let! v := read_frame in let! rest := read_frames k in mret_M (v :: rest)
  end.

(** ** Facts *)

Lemma to_be_bytes_length n : List.length (to_be_bytes n) = 4%nat.
Proof. done. Qed.

Lemma be_bytes_round_trip n : n < U32_MAX -> from_be_bytes (to_be_bytes n) = n.
Proof.
  intros Hn. unfold from_be_bytes, to_be_bytes. cbn [foldl].
  unfold U32_MAX in Hn. change (2 ^ 32) with (256 * 16777216) in Hn.
  rewrite (N.mod_small (n / 16777216)).
  2: { apply N.Div0.div_lt_upper_bound. lia. }
  pose proof (N.div_mod n 256 ltac:(lia)). pose proof (N.div_mod (n / 256) 256 ltac:(lia)).
  pose proof (N.div_mod (n / 65536) 256 ltac:(lia)).
  assert (n / 256 / 256 = n / 65536) by (rewrite N.Div0.div_div; done).
  assert (n / 65536 / 256 = n / 16777216) by (rewrite N.Div0.div_div; done).
  lia.
Qed.

Lemma from_be_bytes_bound b :
  List.length b = 4%nat -> Forall (fun x => x < 256) b -> from_be_bytes b < U32_MAX.
Proof.
  intros Hl HF. do 5 (destruct b as [|? b]; try done).
  repeat match goal with Hx : Forall _ (_ :: _) |- _ => inversion Hx; clear Hx; subst end.
  unfold from_be_bytes, U32_MAX. cbn [foldl]. lia.
Qed.

Lemma read_exact_app b rest f :
  read_exact (N.of_nat (List.length b)) (mkReader (b ++ rest) f) = (Ok b, mkReader rest f).
Proof.
  unfold read_exact. cbn [incoming fault]. rewrite length_app.
  destruct (N.leb_spec (N.of_nat (List.length b)) (N.of_nat (List.length b + List.length rest)));
    [|lia].
  rewrite Nat2N.id, take_app_length, drop_app_length. done.
Qed.

(** A value a frame can carry. *)
Definition framed (v : T) (payload : list N) : Prop :=
  to_vec v = Ok payload /\ payload <> [] /\ N.of_nat (List.length payload) <= MAX_FRAME_BYTES.

Definition frame_bytes (payload : list N) : list N :=
  to_be_bytes (as_u32 (N.of_nat (List.length payload))) ++ payload.

Lemma as_u32_small n : n <= MAX_FRAME_BYTES -> as_u32 n = n.
Proof. intros. apply N.mod_small. unfold MAX_FRAME_BYTES, U32_MAX in *. lia. Qed.

Lemma write_frame_ok v payload w :
  framed v payload -> N.of_nat (4 + List.length payload) <= room w ->
  write_frame v w =
    (Ok tt, mkWriter (written w ++ frame_bytes payload)
                     (room w - N.of_nat (4 + List.length payload))).
Proof.
  intros (Hv & _ & Hmax) Hroom. unfold write_frame, mbind_M, mlift, mmap_err.
  rewrite Hv. cbn [map_err].
  destruct (N.ltb_spec MAX_FRAME_BYTES (N.of_nat (List.length payload))); [lia|].
  unfold write_all. rewrite to_be_bytes_length.
  destruct (N.leb_spec (N.of_nat 4) (room w)); [|lia]. cbn [map_err written room].
  destruct (N.leb_spec (N.of_nat (List.length payload)) (room w - N.of_nat 4)); [|lia].
  cbn [map_err]. unfold frame_bytes. rewrite app_assoc. do 2 f_equal. lia.
Qed.

Lemma read_frame_ok v payload rest f :
  framed v payload -> from_slice payload = Ok v ->
  read_frame (mkReader (frame_bytes payload ++ rest) f) = (Ok v, mkReader rest f).
Proof.
  intros (Hv & Hne & Hmax) Hd. unfold read_frame, read_frame_with_buf, frame_bytes.
  rewrite as_u32_small, <- app_assoc by done.
  change 4 with (N.of_nat (List.length (to_be_bytes (N.of_nat (List.length payload))))).
  rewrite read_exact_app, be_bytes_round_trip.
  2: { unfold MAX_FRAME_BYTES, U32_MAX in *. lia. }
  destruct (N.eqb_spec (N.of_nat (List.length payload)) 0); [destruct payload; done|].
  destruct (N.ltb_spec MAX_FRAME_BYTES (N.of_nat (List.length payload))); [lia|].
  rewrite read_exact_app, Hd. done.
Qed.

Lemma read_frames_ok vs payloads f :
  Forall2 framed vs payloads ->
  Forall2 (fun v p => from_slice p = Ok v) vs payloads ->
  read_frames (List.length vs) (mkReader (flat_map frame_bytes payloads) f) =
    (Ok vs, mkReader [] f).
Proof.
  intros Hf. induction Hf as [|v p vs ps Hv _ IH]; intros Hd; [done|].
  inversion Hd; subst. cbn [List.length read_frames flat_map].
  unfold mbind_M at 1. rewrite (read_frame_ok v) by done.
  unfold mbind_M. rewrite IH by done. done.
Qed.

Lemma write_frames_ok vs payloads w :
  Forall2 framed vs payloads ->
  N.of_nat (List.length (flat_map frame_bytes payloads)) <= room w ->
  exists w', write_frames vs w = (Ok tt, w') /\
    written w' = written w ++ flat_map frame_bytes payloads.
Proof.
  intros Hf. revert w. induction Hf as [|v p vs ps Hv _ IH]; intros w Hroom.
  - exists w. cbn. by rewrite app_nil_r.
  - cbn [flat_map] in Hroom. rewrite length_app in Hroom.
    unfold frame_bytes at 1 in Hroom. rewrite length_app, to_be_bytes_length in Hroom.
    cbn [write_frames]. unfold mbind_M. rewrite (write_frame_ok v p w) by (done || lia).
    destruct (IH (mkWriter (written w ++ frame_bytes p)
                    (room w - N.of_nat (4 + List.length p)))) as (w' & Hw & Hwr).
    { cbn [room]. lia. }
    exists w'. split; [done|]. rewrite Hwr. cbn [written flat_map]. by rewrite <- app_assoc.
Qed.

(** C30. Frames survive the wire: values that encode to between one byte and
    4 MiB and decode back, written one after the other to a writer with room for
    them, are read back as the same values in the same order, and the next read
    reports a closed connection. *)
Theorem frames_round_trip vs payloads w :
  Forall2 framed vs payloads ->
  Forall2 (fun v p => from_slice p = Ok v) vs payloads ->
  N.of_nat (List.length (flat_map frame_bytes payloads)) <= room w ->
  written w = [] ->
  exists w', write_frames vs w = (Ok tt, w') /\
    (let! got := read_frames (List.length vs) in
     fun r => match read_frame r with
              | (Err Closed, r') => (Ok (got, true), r')
              | (_, r') => (Ok (got, false), r')
              end) (mkReader (written w') None) = (Ok (vs, true), mkReader [] None).
Proof.
  intros Hf Hd Hroom Hw. destruct (write_frames_ok vs payloads w Hf Hroom) as (w' & Hok & Hwr).
  exists w'. split; [done|]. rewrite Hwr, Hw. cbn [app].
  unfold mbind_M. rewrite (read_frames_ok vs payloads) by done. done.
Qed.

(** What [read_frame] does on every stream. *)
Inductive read_outcome (r : Reader) : result (WireError J) T * Reader -> Prop :=
| outcome_no_prefix :
    (List.length (incoming r) < 4)%nat ->
    read_outcome r (Err (match fault r with
                         | Some (OtherIo e) => WIo (OtherIo e)
                         | _ => Closed
                         end), mkReader [] (fault r))
| outcome_empty p rest :
    incoming r = p ++ rest -> List.length p = 4%nat -> from_be_bytes p = 0 ->
    read_outcome r (Err EmptyPayload, mkReader rest (fault r))
| outcome_too_large p rest :
    incoming r = p ++ rest -> List.length p = 4%nat -> MAX_FRAME_BYTES < from_be_bytes p ->
    read_outcome r (Err (FrameTooLarge (from_be_bytes p)), mkReader rest (fault r))
| outcome_truncated p rest :
    incoming r = p ++ rest -> List.length p = 4%nat -> 0 < from_be_bytes p <= MAX_FRAME_BYTES ->
    N.of_nat (List.length rest) < from_be_bytes p ->
    read_outcome r (Err (WIo (match fault r with Some e => e | None => UnexpectedEof end)),
                    mkReader [] (fault r))
| outcome_payload p payload rest :
    incoming r = p ++ payload ++ rest -> List.length p = 4%nat ->
    0 < from_be_bytes p <= MAX_FRAME_BYTES ->
    N.of_nat (List.length payload) = from_be_bytes p ->
    read_outcome r (map_err WJson (from_slice payload), mkReader rest (fault r)).

(** [read_frame] on every stream: the five outcomes of the relation above
    and no other.  In particular at most 4 MiB of payload are ever taken, an
    oversize or empty announcement consumes the prefix only, and a payload is
    decoded only when it is there in full. *)
Theorem read_frame_outcome r : read_outcome r (read_frame r).
Proof.
  unfold read_frame, read_frame_with_buf, read_exact at 1.
  destruct (N.leb_spec 4 (N.of_nat (List.length (incoming r)))).
  2: { pose proof (outcome_no_prefix r ltac:(lia)) as Ho.
       destruct (fault r) as [[|e]|]; exact Ho. }
  set (p := take (N.to_nat 4) (incoming r)). set (rest := drop (N.to_nat 4) (incoming r)).
  assert (Hsplit : incoming r = p ++ rest) by (symmetry; apply take_drop).
  assert (Hp : List.length p = 4%nat) by (unfold p; rewrite length_take; lia).
  clearbody p rest. cbn zeta.
  destruct (N.eqb_spec (from_be_bytes p) 0); [by econstructor 2|].
  destruct (N.ltb_spec MAX_FRAME_BYTES (from_be_bytes p)); [by econstructor 3|].
  unfold read_exact. cbn [incoming fault].
  destruct (N.leb_spec (from_be_bytes p) (N.of_nat (List.length rest))).
  - eapply (outcome_payload r p (take (N.to_nat (from_be_bytes p)) rest)
             (drop (N.to_nat (from_be_bytes p)) rest)); auto.
    + by rewrite take_drop.
    + lia.
    + rewrite length_take. lia.
  - eapply (outcome_truncated r p rest); auto. lia.
Qed.

(** ** The daemon's own writer *)

(** The writer task of a connection (src/ipc/server.rs) encodes and frames like
    [write_frame] but without the size check. *)
Definition writer_task_frame (payload : list N) : list N :=
  to_be_bytes (as_u32 (N.of_nat (List.length payload))) ++ payload.

(** An oversize response goes out and every client rejects it, with the
    connection left in the middle of a frame. *)
Lemma oversize_response_breaks_client payload rest f :
  MAX_FRAME_BYTES < N.of_nat (List.length payload) < U32_MAX ->
  read_frame (mkReader (writer_task_frame payload ++ rest) f) =
    (Err (FrameTooLarge (N.of_nat (List.length payload))), mkReader (payload ++ rest) f).
Proof.
  intros [Hmax Hu]. unfold read_frame, read_frame_with_buf, writer_task_frame.
  unfold as_u32. rewrite N.mod_small, <- app_assoc by done.
  change 4 with (N.of_nat (List.length (to_be_bytes (N.of_nat (List.length payload))))).
  rewrite read_exact_app, be_bytes_round_trip by done.
  destruct (N.eqb_spec (N.of_nat (List.length payload)) 0); [lia|].
  destruct (N.ltb_spec MAX_FRAME_BYTES (N.of_nat (List.length payload))); [done|lia].
Qed.

(** A prefix cut off after one to three bytes is reported like a clean close. *)
Lemma truncated_prefix_reported_closed b :
  (0 < List.length b < 4)%nat -> (read_frame (mkReader b None)).1 = Err Closed.
Proof.
  intros Hb. unfold read_frame, read_frame_with_buf, read_exact. cbn [incoming fault].
  destruct (N.leb_spec 4 (N.of_nat (List.length b))); [lia|done].
Qed.
End Codec.

(** A concrete codec: one byte, encoded as itself. *)
#[local] Instance byte_codec : FrameCodec N unit :=
  {| to_vec b := Ok [b]; from_slice l := match l with [b] => Ok b | _ => Err tt end |}.

Lemma frames_round_trip_witness :
  exists w', write_frames [7; 9] (mkWriter [] 100) = (Ok tt, w') /\
    (let! got := read_frames 2 in
     fun r => match read_frame r with
              | (Err Closed, r') => (Ok (got, true), r')
              | (_, r') => (Ok (got, false), r')
              end) (mkReader (written w') None) = (Ok ([7; 9], true), mkReader [] None).
Proof.
  apply (frames_round_trip [7; 9] [[7]; [9]] (mkWriter [] 100)).
  - repeat constructor; try done; vm_compute; congruence.
  - repeat constructor.
  - vm_compute. congruence.
  - reflexivity.
Defined.
