(* ===== verification/IpcServer.v ===== *)
(** * The connection handler (src/ipc/server.rs, Hub of src/ipc/hub.rs)

    One connection of the daemon's socket: requests are read, each is handled by
    its own task, and tasks interleave at their await points.  The model is a
    step relation on the connection's state.  [handle_subscribe] suspends
    between taking a subscription id and locking the map, so it is two
    operations, [subscribe_begin] and [subscribe_commit]; the other handlers
    touch the shared state once and are one step each.  The operations are
    executable; the relation adds their interleaving.  Module [Lifecycle] is the
    socket file of a server from [listen] to [shutdown]. *)

From stdpp Require Import gmap.
From S2P Require Import Prelude RustStr Json Op IpcProtocol.
#[local] Open Scope bool_scope.

Definition MAX_CONNECTIONS : nat := 64.
Definition MAX_SUBS_PER_CONN : nat := 32.
Definition MAX_INFLIGHT_REQUESTS : nat := 128.

(** ** The hub: the topics that have a broadcast channel *)

Definition Hub : Type := list Topic.
Definition hub_subscribe (h : Hub) (t : Topic) : Hub :=
  if bool_decide (t ∈ h) then h else h ++ [t].

(** ** Connection state *)

Inductive OutFrame : Type :=
| OutResponse (r : Response)
| OutEvent (sub : Z) (topic : str) (data : value).

Record Conn : Type := mkConn {
  hub : Hub;
  subs : gmap Z Topic;
  next_sub_id : Z;
  (** handlers not started on their request, subscribes waiting for the map
      lock (request id, topic name, reserved id, topic), and handlers that have
      finished but were not joined *)
  running : list Request;
  locking : list (Z * str * Z * Topic);
  finished : nat;
  (** frames handed to the writer, and the ids of the requests read *)
  out : list OutFrame;
  received : list Z;
}.

Definition conn_init (h : Hub) : Conn := mkConn h ∅ 1 [] [] 0 [] [].

Definition with_running (rs : list Request) (c : Conn) : Conn :=
  mkConn (hub c) (subs c) (next_sub_id c) rs (locking c) (finished c) (out c) (received c).
Definition with_locking (l : list (Z * str * Z * Topic)) (c : Conn) : Conn :=
  mkConn (hub c) (subs c) (next_sub_id c) (running c) l (finished c) (out c) (received c).
Definition with_subs (m : gmap Z Topic) (c : Conn) : Conn :=
  mkConn (hub c) m (next_sub_id c) (running c) (locking c) (finished c) (out c) (received c).

(** [send_response], after which the handler task is done. *)
Definition send_response (r : Response) (c : Conn) : Conn :=
  mkConn (hub c) (subs c) (next_sub_id c) (running c) (locking c) (S (finished c))
    (out c ++ [OutResponse r]) (received c).

(** ** Handlers *)

Definition rpc_new (code message : str) : RpcError := mkRpcError code message.

(** [handle_subscribe] up to the lock: the arguments, the hub subscription and
    [next_sub_id.fetch_add(1)], which wraps at 64 bits. *)
Definition subscribe_begin (req : Request) (c : Conn) : Conn :=
  match vget (req_args req) (lit "topic") ≫= as_str with
  | None => send_response (response_err (req_id req) (rpc_bad_args (lit "missing 'topic'"))) c
  | Some topic_str =>
      match topic_from_str topic_str with
      | None => send_response (response_err (req_id req)
                  (rpc_bad_args (lit "unknown topic '" ++ topic_str ++ lit "'"))) c
      | Some topic =>
          mkConn (hub_subscribe (hub c) topic) (subs c) ((next_sub_id c + 1) mod 2 ^ 64)
            (running c) (locking c ++ [(req_id req, topic_str, next_sub_id c, topic)])
            (finished c) (out c) (received c)
      end
  end.

(** [handle_subscribe] under the lock: the cap, then the insertion. *)
Definition subscribe_commit (entry : Z * str * Z * Topic) (c : Conn) : Conn :=
  let '(id, topic_str, sub_id, topic) := entry in
  if (MAX_SUBS_PER_CONN <=? size (subs c))%nat then
    send_response (response_err id (rpc_new (lit "too_many_subs")
      (lit "subscription limit (" ++ show_N (N.of_nat MAX_SUBS_PER_CONN) ++ lit ") reached"))) c
  else
    send_response (response_ok id (json [(lit "sub_id", VNumber (NInt sub_id));
                                         (lit "topic", VString topic_str)]))
      (with_subs (<[sub_id := topic]> (subs c)) c).

Definition handle_unsubscribe (req : Request) (c : Conn) : Conn :=
  match vget (req_args req) (lit "sub_id") ≫= as_u64 with
  | None => send_response (response_err (req_id req) (rpc_bad_args (lit "missing 'sub_id'"))) c
  | Some sub_id =>
      match subs c !! sub_id with
      | Some _ =>
          send_response (response_ok (req_id req) (json [(lit "unsubscribed", VBool true)]))
            (with_subs (delete sub_id (subs c)) c)
      | None =>
          send_response (response_err (req_id req) (rpc_new (lit "unknown_sub")
            (lit "no subscription with id " ++ show_Z sub_id))) c
      end
  end.

(** One spawned handler; [answer] is what the dispatcher returns if it is
    asked. *)
Definition handle_request (answer : Op -> value -> result RpcError value)
    (req : Request) (c : Conn) : Conn :=
  if str_eqb (req_op req) (lit "subscribe") then subscribe_begin req c
  else if str_eqb (req_op req) (lit "unsubscribe") then handle_unsubscribe req c
  else if str_eqb (req_op req) (lit "ping")
  then send_response (response_ok (req_id req) (json [(lit "pong", VBool true)])) c
  else
    send_response
      (match op_from_str (req_op req) with
       | Some op => match answer op (req_args req) with
                    | Ok data => response_ok (req_id req) data
                    | Err err => response_err (req_id req) err
                    end
       | None => response_err (req_id req) (rpc_unknown_op (req_op req))
       end) c.

Definition handlers (c : Conn) : nat :=
  List.length (running c) + List.length (locking c) + finished c.

(** ** Interleaving *)

Inductive step (c : Conn) : Conn -> Prop :=
(** The reader takes a frame when a handler slot is free. *)
| step_read req :
    (handlers c < MAX_INFLIGHT_REQUESTS)%nat ->
    step c (mkConn (hub c) (subs c) (next_sub_id c) (running c ++ [req]) (locking c)
              (finished c) (out c) (received c ++ [req_id req]))
(** The reader joins a finished handler. *)
| step_reap k :
    finished c = S k ->
    step c (mkConn (hub c) (subs c) (next_sub_id c) (running c) (locking c) k
              (out c) (received c))
| step_handle answer r1 req r2 :
    running c = r1 ++ req :: r2 ->
    step c (handle_request answer req (with_running (r1 ++ r2) c))
| step_lock l1 e l2 :
    locking c = l1 ++ e :: l2 ->
    step c (subscribe_commit e (with_locking (l1 ++ l2) c))
(** A forwarder relays what its receiver yields: a payload or a lag notice. *)
| step_forward sub topic data :
    subs c !! sub = Some topic ->
    step c (mkConn (hub c) (subs c) (next_sub_id c) (running c) (locking c) (finished c)
              (out c ++ [OutEvent sub (topic_as_str topic) data]) (received c)).

Inductive reachable (h : Hub) : Conn -> Prop :=
| reach_init : reachable h (conn_init h)
| reach_step c c' : reachable h c -> step c c' -> reachable h c'.

(** ** Invariant *)

Definition response_id (f : OutFrame) : option Z :=
  match f with OutResponse r => Some (resp_id r) | OutEvent _ _ _ => None end.
Definition answered (c : Conn) : list Z := omap response_id (out c).
Definition lock_id (e : Z * str * Z * Topic) : Z := let '(id, _, _, _) := e in id.
Definition lock_sub (e : Z * str * Z * Topic) : Z := let '(_, _, s, _) := e in s.

(** Each request read is being handled or has been answered, once. *)
Definition answered_once (c : Conn) : Prop :=
  received c ≡ₚ map req_id (running c) ++ map lock_id (locking c) ++ answered c.

(** Subscription ids are distinct as long as the 64-bit counter has not gone
    round. *)
Definition ids_fresh (c : Conn) : Prop :=
  (Z.of_nat (List.length (received c)) < 2 ^ 64 - 1)%Z ->
  (1 <= next_sub_id c)%Z /\
  (next_sub_id c + Z.of_nat (List.length (running c)) <= 1 + Z.of_nat (List.length (received c)))%Z /\
  NoDup (map lock_sub (locking c)) /\
  Forall (fun e => (1 <= lock_sub e < next_sub_id c)%Z /\ subs c !! lock_sub e = None) (locking c) /\
  (forall s t, subs c !! s = Some t -> (1 <= s < next_sub_id c)%Z).

Definition conn_inv (c : Conn) : Prop :=
  (size (subs c) <= MAX_SUBS_PER_CONN)%nat /\
  (handlers c <= MAX_INFLIGHT_REQUESTS)%nat /\
  answered_once c /\ ids_fresh c.

(** The invariant while the handlers of the requests [cur] are in the middle of
    their step: neither queued nor answered. *)
Definition conn_inv_cur (cur : list Z) (c : Conn) : Prop :=
  (size (subs c) <= MAX_SUBS_PER_CONN)%nat /\
  (List.length cur + handlers c <= MAX_INFLIGHT_REQUESTS)%nat /\
  received c ≡ₚ cur ++ map req_id (running c) ++ map lock_id (locking c) ++ answered c /\
  ((Z.of_nat (List.length (received c)) < 2 ^ 64 - 1)%Z ->
   (1 <= next_sub_id c)%Z /\
   (next_sub_id c + Z.of_nat (List.length (running c)) <=
      1 + Z.of_nat (List.length (received c)))%Z /\
   NoDup (map lock_sub (locking c)) /\
   Forall (fun e => (1 <= lock_sub e < next_sub_id c)%Z /\ subs c !! lock_sub e = None)
     (locking c) /\
   (forall s t, subs c !! s = Some t -> (1 <= s < next_sub_id c)%Z)).

Lemma conn_inv_cur_nil c : conn_inv_cur [] c <-> conn_inv c.
Proof. done. Qed.

Lemma answered_snoc o r : omap response_id (o ++ [OutResponse r]) = omap response_id o ++ [resp_id r].
Proof. by rewrite omap_app. Qed.

Lemma send_response_inv r c : conn_inv_cur [resp_id r] c -> conn_inv (send_response r c).
Proof.
  intros (Hs & Hh & Hp & Hf). split_and!; [done| | |done].
  - revert Hh. unfold handlers. cbn. lia.
  - unfold answered_once, answered in *. cbn [received running locking out send_response].
    rewrite answered_snoc, Hp. cbn [app]. rewrite !app_assoc. apply Permutation_cons_append.
Qed.

Lemma take_running_inv c r1 req r2 :
  conn_inv c -> running c = r1 ++ req :: r2 ->
  conn_inv_cur [req_id req] (with_running (r1 ++ r2) c) /\
  ((Z.of_nat (List.length (received c)) < 2 ^ 64 - 1)%Z ->
   (next_sub_id c + Z.of_nat (List.length (r1 ++ r2)) <= Z.of_nat (List.length (received c)))%Z).
Proof.
  intros (Hs & Hh & Hp & Hf) Hr. unfold conn_inv_cur.
  unfold handlers, answered_once, answered, ids_fresh in *. cbn [with_running subs running
    locking finished out received next_sub_id hub]. rewrite Hr in *.
  rewrite !length_app in *. cbn [List.length] in *. split_and!; [done|cbn;lia| | |].
  - rewrite Hp, !map_app. cbn [map app]. by rewrite <- !app_assoc, Permutation_middle.
  - intros Hb. destruct (Hf Hb) as (? & ? & ?). split; [done|]. split; [lia|done].
  - intros Hb. destruct (Hf Hb) as (? & ? & ?). lia.
Qed.

Lemma subscribe_begin_inv req c :
  conn_inv_cur [req_id req] c ->
  ((Z.of_nat (List.length (received c)) < 2 ^ 64 - 1)%Z ->
   (next_sub_id c + Z.of_nat (List.length (running c)) <= Z.of_nat (List.length (received c)))%Z) ->
  conn_inv (subscribe_begin req c).
Proof.
  intros Hinv Hstrict. unfold subscribe_begin.
  destruct (vget (req_args req) (lit "topic") ≫= as_str) as [ts|]; [|by apply send_response_inv].
  destruct (topic_from_str ts) as [topic|]; [|by apply send_response_inv].
  destruct Hinv as (Hs & Hh & Hp & Hf).
  unfold conn_inv, handlers, answered_once, answered, ids_fresh in *.
  cbn [subs running locking finished out received next_sub_id hub] in *.
  rewrite !length_app, !map_app in *. cbn [List.length map lock_id lock_sub] in *.
  split_and!; [done|lia| |].
  - rewrite Hp. cbn [app]. solve_Permutation.
  - intros Hb. destruct (Hf Hb) as (Hn1 & Hn2 & Hnd & HF & Hd). specialize (Hstrict Hb).
    rewrite Z.mod_small by lia. split_and!; [lia|lia| | |].
    + apply NoDup_snoc; [done|]. rewrite list_elem_of_In, in_map_iff.
      intros (e & He & Hin%list_elem_of_In). rewrite Forall_forall in HF.
      destruct (HF e Hin). lia.
    + apply Forall_app. split.
      * eapply Forall_impl; [exact HF|]. cbn. intros e [? ?]. split; [lia|done].
      * apply Forall_singleton. cbn. split; [lia|].
        destruct (subs c !! next_sub_id c) eqn:E; [|done]. apply Hd in E. lia.
    + intros s t Hst. apply Hd in Hst. lia.
Qed.

Lemma handle_unsubscribe_inv req c :
  conn_inv_cur [req_id req] c -> conn_inv (handle_unsubscribe req c).
Proof.
  intros Hinv. unfold handle_unsubscribe.
  destruct (vget (req_args req) (lit "sub_id") ≫= as_u64) as [sid|]; [|by apply send_response_inv].
  destruct (subs c !! sid) as [t0|] eqn:E; [|by apply send_response_inv].
  apply send_response_inv. cbn [response_ok resp_id].
  destruct Hinv as (Hs & Hh & Hp & Hf). split_and!.
  - cbn. rewrite map_size_delete, E. cbn. lia.
  - exact Hh.
  - exact Hp.
  - cbn [with_subs subs running locking received next_sub_id]. intros Hb.
    destruct (Hf Hb) as (? & ? & ? & HF & Hd). split_and!; auto.
    + eapply Forall_impl; [exact HF|]. cbn. intros e [? Hn]. split; [done|].
      apply lookup_delete_None. by right.
    + intros s t Hst. apply lookup_delete_Some in Hst as [_ Hst]. eauto.
Qed.

Lemma handle_request_inv answer req c :
  conn_inv_cur [req_id req] c ->
  ((Z.of_nat (List.length (received c)) < 2 ^ 64 - 1)%Z ->
   (next_sub_id c + Z.of_nat (List.length (running c)) <= Z.of_nat (List.length (received c)))%Z) ->
  conn_inv (handle_request answer req c).
Proof.
  intros Hinv Hstrict. unfold handle_request.
  repeat case_match; auto using subscribe_begin_inv, handle_unsubscribe_inv;
    by apply send_response_inv.
Qed.

Lemma subscribe_commit_inv c l1 e l2 :
  conn_inv c -> locking c = l1 ++ e :: l2 ->
  conn_inv (subscribe_commit e (with_locking (l1 ++ l2) c)).
Proof.
  intros (Hs & Hh & Hp & Hf) Hl. destruct e as [[[id ts] sid] topic]. unfold subscribe_commit.
  assert (Hids : (Z.of_nat (List.length (received c)) < 2 ^ 64 - 1)%Z ->
    sid ∉ map lock_sub (l1 ++ l2) /\ NoDup (map lock_sub (l1 ++ l2)) /\
    subs c !! sid = None /\ (1 <= sid < next_sub_id c)%Z).
  { intros Hb. destruct (Hf Hb) as (_ & _ & Hnd & HF & _). rewrite Hl in Hnd, HF.
    rewrite map_app in Hnd. cbn in Hnd. rewrite <- Permutation_middle in Hnd.
    inversion Hnd; subst. rewrite map_app. split; [done|]. split; [done|].
    apply Forall_app in HF as [_ HF]. inversion HF; subst. cbn in *. naive_solver. }
  assert (Hcur : conn_inv_cur [id] (with_locking (l1 ++ l2) c)).
  { unfold conn_inv_cur, handlers, answered_once, answered, ids_fresh in *.
    cbn [with_locking subs running locking finished out received next_sub_id].
    rewrite Hl in *. rewrite !length_app in *. cbn [List.length] in *. split_and!; [done|lia| |].
    - rewrite Hp, !map_app. cbn [map lock_id app]. solve_Permutation.
    - intros Hb. destruct (Hf Hb) as (? & ? & Hnd & HF & ?), (Hids Hb) as (? & ? & ?).
      split_and!; auto.
      apply Forall_app in HF as [? HF]. inversion HF. by apply Forall_app. }
  cbn [with_locking subs]. destruct (_ <=? _)%nat eqn:Ecap; [by apply send_response_inv|].
  apply Nat.leb_gt in Ecap. apply send_response_inv. cbn [response_ok resp_id].
  destruct Hcur as (_ & Hh' & Hp' & Hf'). split_and!; [|exact Hh'|exact Hp'|].
  - cbn [with_subs subs with_locking]. rewrite map_size_insert.
    destruct (subs c !! sid); cbn; lia.
  - cbn [with_subs with_locking subs running locking received next_sub_id] in *. intros Hb.
    destruct (Hf' Hb) as (? & ? & ? & HF & Hd), (Hids Hb) as (Hnin & _ & _ & Hr).
    split_and!; auto.
    + rewrite Forall_forall in HF |- *. intros e He. destruct (HF e He) as [? Hn].
      split; [done|]. apply lookup_insert_None. split; [done|].
      intros ->. apply Hnin. by apply list_elem_of_fmap_2.
    + intros s t [[<- _]|[_ Hst]]%lookup_insert_Some; eauto.
Qed.

Lemma step_inv c c' : conn_inv c -> step c c' -> conn_inv c'.
Proof.
  intros Hinv Hstep. destruct Hstep as [req Hslot|k Hk|answer r1 req r2 Hr|l1 e l2 Hl|s t d Hst].
  - destruct Hinv as (Hs & Hh & Hp & Hf).
    unfold conn_inv, handlers, answered_once, answered, ids_fresh in *.
    cbn [subs running locking finished out received next_sub_id].
    rewrite !length_app, map_app in *. cbn [List.length map]. split_and!; [done|lia| |].
    + rewrite Hp. solve_Permutation.
    + intros Hb. destruct (Hf ltac:(lia)) as (? & ? & ?). split; [lia|]. split; [lia|done].
  - destruct Hinv as (Hs & Hh & Hp & Hf). split_and!; auto. unfold handlers in *. cbn. lia.
  - destruct (take_running_inv _ _ _ _ Hinv Hr). by apply handle_request_inv.
  - by apply subscribe_commit_inv.
  - destruct Hinv as (Hs & Hh & Hp & Hf). split_and!; auto.
    unfold answered_once, answered in *. cbn. rewrite omap_app. cbn. by rewrite app_nil_r.
Qed.

Lemma conn_init_inv h : conn_inv (conn_init h).
Proof.
  unfold conn_inv. split; [|split; [|split]].
  - cbn. rewrite map_size_empty. unfold MAX_SUBS_PER_CONN. lia.
  - unfold handlers, MAX_INFLIGHT_REQUESTS. cbn. lia.
  - unfold answered_once. cbn. constructor.
  - intros _. cbn. split_and!; [lia|lia|constructor|constructor|]. intros s t Hst.
    by rewrite lookup_empty in Hst.
Qed.

(** C18. A connection stays within its limits under every interleaving of its
    handlers: at most 32 subscriptions and 128 handler tasks, every request read
    is in progress or has been answered exactly once with its own id, and no two
    subscriptions, open or being opened, ever share an id (until the 64-bit
    counter wraps). *)
Theorem connection_limits h c : reachable h c -> conn_inv c.
Proof. induction 1 as [|c c' _ IH Hs]; [apply conn_init_inv|by eapply step_inv]. Qed.

Definition example_ping : Request := mkRequest 5 (lit "ping") VNull.

(** A run: one ping read and answered. *)
Lemma connection_limits_witness :
  exists c, reachable [] c /\ conn_inv c /\
    out c = [OutResponse (response_ok 5 (json [(lit "pong", VBool true)]))].
Proof.
  set (c1 := mkConn [] ∅ 1 [example_ping] [] 0 [] [5%Z]).
  set (c2 := handle_request (fun _ _ => Ok VNull) example_ping (with_running ([] ++ []) c1)).
  assert (H2 : reachable [] c2).
  { refine (reach_step [] c1 c2 (reach_step [] (conn_init []) c1 (reach_init []) _) _).
    - apply (step_read (conn_init []) example_ping). unfold handlers, MAX_INFLIGHT_REQUESTS.
      cbn. lia.
    - by apply (step_handle c1 (fun _ _ => Ok VNull) [] example_ping []). }
  exists c2. split; [exact H2|]. split; [exact (connection_limits [] c2 H2)|].
  vm_compute. reflexivity.
Defined.

(** ** The accept loop *)

(** The counter is read, then incremented by the loop alone; connection tasks
    only decrement it. *)
Inductive accept_phase : Type := Accepting | Admitting.
Record Acceptor : Type := mkAcceptor { conn_count : nat; live : nat; phase : accept_phase }.

Inductive accept_step : Acceptor -> Acceptor -> Prop :=
| accept_full n l : (MAX_CONNECTIONS <= n)%nat ->
    accept_step (mkAcceptor n l Accepting) (mkAcceptor n l Accepting)
| accept_load n l : (n < MAX_CONNECTIONS)%nat ->
    accept_step (mkAcceptor n l Accepting) (mkAcceptor n l Admitting)
| accept_add n l : accept_step (mkAcceptor n l Admitting) (mkAcceptor (S n) (S l) Accepting)
| accept_end n l p : accept_step (mkAcceptor (S n) (S l) p) (mkAcceptor n l p).

Inductive accept_reachable : Acceptor -> Prop :=
| accept_init : accept_reachable (mkAcceptor 0 0 Accepting)
| accept_next a a' : accept_reachable a -> accept_step a a' -> accept_reachable a'.

(** At most 64 connections live at a time, although the load and the increment
    are separate. *)
Lemma accept_bounded a :
  accept_reachable a ->
  conn_count a = live a /\
  match phase a with
  | Accepting => (live a <= MAX_CONNECTIONS)%nat
  | Admitting => (live a < MAX_CONNECTIONS)%nat
  end.
Proof.
  induction 1 as [|a a' _ IH Hs]; cbn; [unfold MAX_CONNECTIONS; split; [done|lia]|].
  destruct Hs; cbn in *; try (destruct p); lia.
Qed.

(** ** The socket file

    [listen], [ServerHandle::shutdown] and the handle's [Drop] on the file system:
    a path holds the socket of some listener, a directory, or something else, and
    a client that connects reaches a listener that still accepts.  Removing and
    creating may fail; [fails] says so, call by call. *)

Module Lifecycle.
Inductive Node : Type := NSocket (listener : N) | NDirectory | NOther.
Record Machine : Type := mkMachine { nodes : gmap (list N) Node; accepting : gset N; next_listener : N }.
Record ServerHandle : Type := mkHandle { sh_path : str; sh_listener : N }.
Inductive ServerError : Type := ServerIo (error : str).

(** [remove_file]: of anything but a directory. *)
Definition remove_file (fails : bool) (path : str) (m : Machine) : Machine :=
  match nodes m !! path with
  | Some (NSocket _) | Some NOther =>
      if fails then m else mkMachine (delete path (nodes m)) (accepting m) (next_listener m)
  | _ => m
  end.
(** [UnixListener::bind] fails when there is something at the path. *)
Definition bind (path : str) (m : Machine) : result ServerError N * Machine :=
  match nodes m !! path with
  | Some _ => (Err (ServerIo (lit "address in use")), m)
  | None =>
      let n := next_listener m in
      (Ok n, mkMachine (<[path := NSocket n]> (nodes m)) ({[n]} ∪ accepting m) (n + 1)%N)
  end.
Definition listen (remove_fails : bool) (create_dir_fails : option str) (path : str) (m : Machine)
    : result ServerError ServerHandle * Machine :=
  let m := if bool_decide (nodes m !! path <> None) then remove_file remove_fails path m else m in
  match create_dir_fails with
  | Some e => (Err (ServerIo e), m)
  | None =>
      match bind path m with
      | (Ok n, m) => (Ok (mkHandle path n), m)
      | (Err e, m) => (Err e, m)
      end
  end.

(** Cancelling the accept loop closes its listener. *)
Definition cancel (h : ServerHandle) (m : Machine) : Machine :=
  mkMachine (nodes m) (accepting m ∖ {[sh_listener h]}) (next_listener m).
Definition drop_handle (fails : bool) (h : ServerHandle) (m : Machine) : Machine :=
  remove_file fails (sh_path h) (cancel h m).
(** The handle is dropped at the end of [shutdown]. *)
Definition shutdown (fails drop_fails : bool) (h : ServerHandle) (m : Machine) : Machine :=
  drop_handle drop_fails h (remove_file fails (sh_path h) (cancel h m)).

(** The listener a client that connects reaches. *)
Definition connect (path : str) (m : Machine) : option N :=
  match nodes m !! path with
  | Some (NSocket n) => if bool_decide (n ∈ accepting m) then Some n else None
  | _ => None
  end.

Lemma remove_file_elsewhere fails path other m : other <> path -> nodes (remove_file fails path m) !! other = nodes m !! other.
Proof. intros H. unfold remove_file. repeat case_match; cbn; by rewrite ?lookup_delete_ne. Qed.
Lemma remove_file_gone path n m : nodes m !! path = Some (NSocket n) -> nodes (remove_file false path m) !! path = None.
Proof. intros H. unfold remove_file. rewrite H. cbn. apply lookup_delete_eq. Qed.
Lemma remove_file_keeps_none fails path m : nodes m !! path = None -> remove_file fails path m = m.
Proof. intros H. unfold remove_file. by rewrite H. Qed.

Lemma remove_file_next fails path m : next_listener (remove_file fails path m) = next_listener m.
Proof. unfold remove_file. by repeat case_match. Qed.
Lemma listen_numbers remove_fails create_dir_fails path m h m' :
  listen remove_fails create_dir_fails path m = (Ok h, m') -> sh_listener h = next_listener m /\ next_listener m' = (next_listener m + 1)%N.
Proof. unfold listen, bind. repeat case_match; intros; simplify_eq/=; by rewrite ?remove_file_next. Qed.

Lemma listen_result remove_fails create_dir_fails path m h m' :
  listen remove_fails create_dir_fails path m = (Ok h, m') ->
  sh_path h = path /\ nodes m' !! path = Some (NSocket (sh_listener h)) /\ sh_listener h ∈ accepting m' /\
  (forall other, other <> path -> nodes m' !! other = nodes m !! other).
Proof.
  unfold listen, bind. destruct create_dir_fails; [done|]. destruct (bool_decide_reflect (nodes m !! path <> None)) as [Hs|Hs].
  - destruct (nodes (remove_file remove_fails path m) !! path) eqn:E; [done|]. intros [= <- <-]. cbn.
    split_and!; [done|apply lookup_insert_eq|set_solver|]. intros other Ho. rewrite lookup_insert_ne by done. by apply remove_file_elsewhere.
  - destruct (nodes m !! path) eqn:E; [by destruct Hs|]. intros [= <- <-]. cbn.
    split_and!; [done|apply lookup_insert_eq|set_solver|]. intros other Ho. by rewrite lookup_insert_ne.
Qed.

Lemma shutdown_unlinks path n h m drop_fails :
  sh_path h = path -> nodes m !! path = Some (NSocket n) -> nodes (shutdown false drop_fails h m) !! path = None.
Proof.
  intros Hp Hn. unfold shutdown, drop_handle. rewrite Hp, remove_file_keeps_none; cbn; by apply (remove_file_gone path n).
Qed.

(** A server that listens is the one its clients reach; when it has been shut
    down, with the file removed, nothing is left at the path and every other file
    is as it was before it started. *)
Theorem server_lifecycle remove_fails create_dir_fails path m h m' drop_fails :
  listen remove_fails create_dir_fails path m = (Ok h, m') ->
  connect path m' = Some (sh_listener h) /\
  nodes (shutdown false drop_fails h m') !! path = None /\ connect path (shutdown false drop_fails h m') = None /\
  (forall other, other <> path -> nodes (shutdown false drop_fails h m') !! other = nodes m !! other).
Proof.
  intros H. apply listen_result in H as (Hp & Hn & Ha & Ho). split_and!.
  - unfold connect. rewrite Hn. by rewrite bool_decide_eq_true_2.
  - by apply (shutdown_unlinks path (sh_listener h)).
  - unfold connect. by rewrite (shutdown_unlinks path (sh_listener h)).
  - intros other Hne. unfold shutdown, drop_handle. rewrite Hp, remove_file_elsewhere by done. cbn.
    rewrite remove_file_elsewhere by done. by apply Ho.
Qed.

(** A second server on the same path takes the path over; when the first one
    stops it removes the file of the second, which goes on accepting but can no
    longer be reached. *)
Lemma stopping_the_first_server_unlinks_the_second path m h1 m1 h2 m2 drop_fails :
  listen false None path m = (Ok h1, m1) -> listen false None path m1 = (Ok h2, m2) ->
  connect path m2 = Some (sh_listener h2) /\ sh_listener h2 ∈ accepting (shutdown false drop_fails h1 m2) /\
  connect path (shutdown false drop_fails h1 m2) = None.
Proof.
  intros H1 H2. assert (Hne : sh_listener h1 <> sh_listener h2).
  { apply listen_numbers in H1 as [-> H1], H2 as [-> _]. rewrite H1. lia. }
  apply listen_result in H1 as (Hp1 & _). apply listen_result in H2 as (Hp2 & Hn & Ha & _). split_and!.
  - unfold connect. rewrite Hn. by rewrite bool_decide_eq_true_2.
  - unfold shutdown, drop_handle, remove_file. repeat case_match; cbn; set_solver.
  - unfold connect. by rewrite (shutdown_unlinks path (sh_listener h2)).
Qed.
End Lifecycle.
