(* ===== verification/IpcClient.v ===== *)
(** * The IPC client (src/ipc/client.rs)

    A client shares its map of pending requests with one reader task, so their
    steps interleave.  Each step is an [action]; [act] says whether it can happen
    and what it does.  Calls take [&mut self]: one request at a time is written or
    awaited, though its future may be dropped; what came back is logged in
    [returned].  The reader hands events and unclaimed responses to bounded queues;
    when one is full it holds the frame and reads nothing until there is room.  It
    ends on any read error. *)

From stdpp Require Import relations.
From S2P Require Import Prelude RustStr Json Op IpcProtocol Wire.
#[local] Open Scope bool_scope.
#[local] Open Scope Z_scope.

Inductive ClientError : Type :=
| CIo (message : str)
| CTooLarge (len : N)
| CJson (message : str)
| Closed
| EmptyResponse (message : str)
| Server (code message : str).

(** What [read_frame] yields on the client's side. *)
Inductive Frame : Type :=
| FRequest (r : Request)
| FResponse (r : Response)
| FEvent (e : Event).

Definition QUEUE : nat := 256.
Definition U64 : Z := 2 ^ 64.

(** The request in progress: its id, whether its frame is out, and what its
    oneshot holds. *)
Inductive call_state : Type :=
| NoCall
| Call (id : Z) (written : bool) (inbox : option Response).

(** The reader task: reading, suspended in [send] on a queue, past its loop, or
    done (the map is cleared and the queues' senders are dropped). *)
Inductive reader_state : Type :=
| Running
| HoldsResponse (r : Response)
| HoldsEvent (e : Event)
| Exiting
| Gone.

Record Client : Type := mkClient {
  next_id : Z;
  pending : list Z;
  call : call_state;
  responses : list Response;
  cl_events : list Event;
  reader : reader_state;
  returned : list (Z * result ClientError Response);
}.

(** [Client::connect] on a socket that accepts. *)
Definition connected : Client := mkClient 1 [] NoCall [] [] Running [].

Definition map_remove_id (id : Z) (l : list Z) : list Z := List.filter (fun x => negb (x =? id)) l.
Definition map_insert_id (id : Z) (l : list Z) : list Z := id :: map_remove_id id l.
Definition has_id (id : Z) (l : list Z) : bool := existsb (Z.eqb id) l.

Arguments map_remove_id : simpl never.
Arguments map_insert_id : simpl never.
Arguments has_id : simpl never.

(** [write_frame], for a payload of [len] bytes or its encoding error, over a
    socket that answers [io]. *)
Definition write_frame (payload : result str N) (io : result str unit) : result ClientError unit :=
  match payload with
  | Err e => Err (CJson e)
  | Ok len => if (MAX_FRAME_BYTES <? len)%N then Err (CTooLarge len)
              else map_err CIo io
  end.

Inductive action : Type :=
(** [request]: draw an id and register its oneshot *)
| ABegin
(** its frame is written, or fails *)
| AWrite (payload : result str N) (io : result str unit)
(** [rx.await] yields *)
| AComplete
(** the request's future is dropped *)
| AGiveUp
(** [send_request], whole *)
| ASend (payload : result str N) (io : result str unit)
(** [next_response] and [next_event] take what is there *)
| ANextResponse
| ANextEvent
(** the reader handles a frame, goes on when there is room for the one it holds,
    ends its loop, clears the map *)
| AFrame (f : Frame)
| ARoom
| AReadError
| AClear.

Definition with_call (c : call_state) (x : Client) : Client :=
  mkClient (next_id x) (pending x) c (responses x) (cl_events x) (reader x) (returned x).
Definition with_pending (p : list Z) (x : Client) : Client :=
  mkClient (next_id x) p (call x) (responses x) (cl_events x) (reader x) (returned x).
Definition with_reader (r : reader_state) (x : Client) : Client :=
  mkClient (next_id x) (pending x) (call x) (responses x) (cl_events x) r (returned x).
(** The request returns to its caller. *)
Definition return_call (id : Z) (r : result ClientError Response) (x : Client) : Client :=
  mkClient (next_id x) (pending x) NoCall (responses x) (cl_events x) (reader x) (returned x ++ [(id, r)]).
Definition draw_id (x : Client) : Client :=
  mkClient ((next_id x + 1) mod U64) (pending x) (call x) (responses x) (cl_events x) (reader x) (returned x).

(** [responses_tx.send(r).await] and [events_tx.send(e).await]: suspended while the
    queue is full. *)
Definition queue_response (r : Response) (x : Client) : Client :=
  if (List.length (responses x) <? QUEUE)%nat
  then mkClient (next_id x) (pending x) (call x) (responses x ++ [r]) (cl_events x) Running (returned x)
  else with_reader (HoldsResponse r) x.
Definition queue_event (e : Event) (x : Client) : Client :=
  if (List.length (cl_events x) <? QUEUE)%nat
  then mkClient (next_id x) (pending x) (call x) (responses x) (cl_events x ++ [e]) Running (returned x)
  else with_reader (HoldsEvent e) x.

(** A response: to its waiter if the map has one, else to the queue. *)
Definition on_response (r : Response) (x : Client) : Client :=
  if has_id (resp_id r) (pending x) then
    let x' := with_pending (map_remove_id (resp_id r) (pending x)) x in
    match call x with
    | Call id w None => if id =? resp_id r then with_call (Call id w (Some r)) x' else x'
    | _ => x'
    end
  else queue_response r x.

Definition on_frame (f : Frame) (x : Client) : Client :=
  match f with
  | FResponse r => on_response r x
  | FEvent e => queue_event e x
  | FRequest _ => x
  end.

(** The reader waits for room in a queue that has none. *)
Definition blocked (x : Client) : bool :=
  match reader x with
  | HoldsResponse _ => (QUEUE <=? List.length (responses x))%nat
  | HoldsEvent _ => (QUEUE <=? List.length (cl_events x))%nat
  | _ => false
  end.

Definition act (a : action) (x : Client) : option Client :=
  match a with
  | ABegin =>
      match call x with
      | NoCall => let id := next_id x in
          Some (with_call (Call id false None) (with_pending (map_insert_id id (pending x)) (draw_id x)))
      | _ => None
      end
  | AWrite payload io =>
      match call x with
      | Call id false inbox =>
          match write_frame payload io with
          | Ok _ => Some (with_call (Call id true inbox) x)
          | Err e => Some (return_call id (Err e) (with_pending (map_remove_id id (pending x)) x))
          end
      | _ => None
      end
  | AComplete =>
      match call x with
      | Call id true (Some r) => Some (return_call id (Ok r) x)
      | Call id true None =>
          if has_id id (pending x) then None else Some (return_call id (Err Closed) x)
      | _ => None
      end
  | AGiveUp => match call x with Call _ _ _ => Some (with_call NoCall x) | NoCall => None end
  | ASend payload io => match call x with NoCall => Some (draw_id x) | _ => None end
  | ANextResponse =>
      match call x, responses x with
      | NoCall, _ :: rest =>
          Some (mkClient (next_id x) (pending x) NoCall rest (cl_events x) (reader x) (returned x))
      | _, _ => None
      end
  | ANextEvent =>
      match call x, cl_events x with
      | NoCall, _ :: rest =>
          Some (mkClient (next_id x) (pending x) NoCall (responses x) rest (reader x) (returned x))
      | _, _ => None
      end
  | AFrame f => match reader x with Running => Some (on_frame f x) | _ => None end
  | ARoom =>
      if blocked x then None
      else match reader x with
           | HoldsResponse r => Some (queue_response r x)
           | HoldsEvent e => Some (queue_event e x)
           | _ => None
           end
  | AReadError => match reader x with Running => Some (with_reader Exiting x) | _ => None end
  | AClear => match reader x with Exiting => Some (with_reader Gone (with_pending [] x)) | _ => None end
  end.

Definition client_step (x y : Client) : Prop := exists a, act a x = Some y.

(** [Client::subscribe] on the answer to its request. *)
Definition subscribe_result (r : Response) : result ClientError Z :=
  if negb (resp_ok r) then
    match resp_error r with
    | Some e => Err (Server (err_code e) (err_message e))
    | None => Err (Server (lit "unknown") (lit "subscribe failed"))
    end
  else ok_or (vget (resp_data r) (lit "sub_id") ≫= as_u64) (EmptyResponse (lit "subscribe missing sub_id")).

(** [next_response] and [next_event]: [None] while they wait. *)
Definition take_next {A} (queue : list A) (x : Client) : option (result ClientError A) :=
  match queue with
  | a :: _ => Some (Ok a)
  | [] => match reader x with Gone => Some (Err Closed) | _ => None end
  end.
Definition next_response (x : Client) : option (result ClientError Response) := take_next (responses x) x.
Definition next_event (x : Client) : option (result ClientError Event) := take_next (cl_events x) x.

(** ** Properties *)

Lemma has_id_remove id l : has_id id (map_remove_id id l) = false.
Proof.
  unfold has_id, map_remove_id. apply existsb_false. rewrite Forall_forall. intros x.
  rewrite list_elem_of_In, filter_In. intros [_ Hx]. apply negb_true_iff in Hx. by rewrite Z.eqb_sym.
Qed.
Lemma has_id_remove_ne id id' l : id <> id' -> has_id id (map_remove_id id' l) = has_id id l.
Proof.
  intros Hne. unfold has_id, map_remove_id. induction l as [|x l IH]; cbn; [done|].
  destruct (Z.eqb_spec x id') as [->|]; cbn; [|by rewrite IH].
  destruct (Z.eqb_spec id id'); [done|]. cbn. done.
Qed.
Lemma has_id_insert id l : has_id id (map_insert_id id l) = true.
Proof. unfold has_id, map_insert_id. cbn. by rewrite Z.eqb_refl. Qed.

(** What holds of the request in progress: its oneshot holds its own response,
    and while it holds none and the reader has not cleared the map, the map can
    still wake it. *)
Definition call_ok (x : Client) : Prop :=
  match call x with
  | NoCall => True
  | Call id _ (Some r) => resp_id r = id
  | Call id _ None => reader x <> Gone -> has_id id (pending x) = true
  end.
Definition client_inv (x : Client) : Prop :=
  call_ok x /\ Forall (fun p => forall r, p.2 = Ok r -> resp_id r = p.1) (returned x).

(** Sending to a queue touches neither the map nor the call. *)
Definition sends (x y : Client) : Prop :=
  call y = call x /\ pending y = pending x /\ returned y = returned x /\ reader y <> Gone /\ reader y <> Exiting.
Lemma queue_response_sends r x : sends x (queue_response r x).
Proof. unfold queue_response. by case_match. Qed.
Lemma queue_event_sends e x : sends x (queue_event e x).
Proof. unfold queue_event. by case_match. Qed.
Lemma sends_inv x y : reader x <> Gone -> sends x y -> client_inv x -> client_inv y.
Proof.
  intros Hg (H1 & H2 & H3 & H4 & _) [Hc Hr]. split; [|by rewrite H3]. unfold call_ok in *. rewrite H1, H2.
  destruct (call x) as [|id w [r|]]; auto.
Qed.

Lemma on_frame_inv f x : reader x = Running -> client_inv x -> client_inv (on_frame f x).
Proof.
  intros Hrun Hx. assert (Hg : reader x <> Gone) by congruence. destruct f as [r|r|e]; cbn; [done| |].
  - unfold on_response. destruct (has_id (resp_id r) (pending x)) eqn:Eh;
      [|by apply (sends_inv x); [|apply queue_response_sends|]].
    destruct Hx as [Hc Hr]. unfold call_ok in Hc. destruct (call x) as [|id w [r'|]] eqn:Ec.
    + split; [by unfold call_ok; cbn; rewrite Ec|done].
    + split; [by unfold call_ok; cbn; rewrite Ec|done].
    + destruct (Z.eqb_spec id (resp_id r)) as [->|Hne]; [by split|].
      split; [|done]. unfold call_ok. cbn. rewrite Ec. intros _. rewrite has_id_remove_ne by done. auto.
  - by apply (sends_inv x); [|apply queue_event_sends|].
Qed.

Lemma return_call_inv id res x :
  Forall (fun p => forall r, p.2 = Ok r -> resp_id r = p.1) (returned x) ->
  (forall r, res = Ok r -> resp_id r = id) -> client_inv (return_call id res x).
Proof.
  intros Hr Hres. split; [done|]. cbn. apply Forall_app. split; [done|]. by apply Forall_singleton.
Qed.

Lemma act_inv a x y : client_inv x -> act a x = Some y -> client_inv y.
Proof.
  intros Hx. pose proof Hx as [Hc Hr]. unfold call_ok in Hc. destruct a as [|payload io| | |payload io| | |f| | |]; cbn [act].
  - destruct (call x); [|done]. intros [= <-]. split; [|done]. cbn. intros _. apply has_id_insert.
  - destruct (call x) as [|id [] inbox]; try done. destruct (write_frame payload io) as [[]|e]; intros [= <-].
    + split; [|done]. unfold call_ok. by destruct inbox.
    + by apply (return_call_inv _ _ (with_pending _ x)).
  - destruct (call x) as [|id [] [r|]]; try done.
    + intros [= <-]. apply return_call_inv; [done|]. by intros r' [= <-].
    + destruct (has_id id (pending x)); [done|]. intros [= <-]. by apply return_call_inv.
  - destruct (call x); [done|]. by intros [= <-].
  - destruct (call x) eqn:Ec; [|done]. intros [= <-]. split; [by unfold call_ok; cbn; rewrite Ec|done].
  - destruct (call x), (responses x); try done. by intros [= <-].
  - destruct (call x), (cl_events x); try done. by intros [= <-].
  - destruct (reader x) eqn:Er; try done. intros [= <-]. by apply on_frame_inv.
  - destruct (blocked x); [done|]. destruct (reader x) eqn:Er; try done; intros [= <-];
      (apply (sends_inv x); [congruence| |done]); [apply queue_response_sends|apply queue_event_sends].
  - destruct (reader x) eqn:Er; try done. intros [= <-]. split; [|done]. unfold call_ok. cbn.
    destruct (call x) as [|id w [r|]]; try done. intros _. apply Hc. congruence.
  - destruct (reader x) eqn:Er; try done. intros [= <-]. split; [|done]. unfold call_ok. cbn.
    by destruct (call x) as [|id w [r|]].
Qed.

Lemma reachable_inv x : rtc client_step connected x -> client_inv x.
Proof.
  cut (forall y, rtc client_step y x -> client_inv y -> client_inv x).
  { intros H Hr. apply (H connected Hr). by split. }
  intros y Hr. induction Hr as [|y z x [a Ha] _ IH]; [done|]. intros Hy. by eapply IH, act_inv.
Qed.

(** The call in progress is [id], still without a response. *)
Definition waits_for (id : Z) (x : Client) : Prop := exists w, call x = Call id w None.

(** A step of a waiting call: it keeps waiting with its entry kept or cleared, or
    it is over. *)
Lemma waiting_step id a x y :
  waits_for id x -> act a x = Some y -> waits_for id y ->
  (reader y = Gone <-> reader x = Gone \/ a = AClear) /\
  (reader x = Gone -> pending y = pending x) /\ (a = AClear -> pending y = []).
Proof.
  intros [w Hw]. destruct a as [|payload io| | |payload io| | |f| | |]; cbn [act]; rewrite ?Hw; try done.
  - destruct w; [done|]. destruct (write_frame payload io); intros [= <-]; intros [w' Hw']; [|done].
    cbn. split; [|done]. split; [auto|]. by intros [?|[=]].
  - destruct w; [|done]. destruct (has_id id (pending x)); [done|]. intros [= <-] [w' Hw']. done.
  - intros [= <-] [w' Hw']. done.
  - destruct (reader x) eqn:Hrun; try done. intros [= <-] _.
    assert (reader (on_frame f x) <> Gone) as Hy.
    { destruct f as [r|r|e]; cbn; [congruence| |apply queue_event_sends].
      unfold on_response. destruct (has_id _ _); [|apply queue_response_sends].
      rewrite Hw. destruct (_ =? _); cbn; congruence. }
    split; [|done]. split; [done|]. by intros [?|?].
  - destruct (blocked x); [done|].
    destruct (reader x) eqn:Er; try done; intros [= <-] _; (split; [|done]); split; try (by intros [?|?]); intros Hg;
      [destruct (queue_response_sends r x) as (_ & _ & _ & ? & _)|destruct (queue_event_sends e x) as (_ & _ & _ & ? & _)]; done.
  - destruct (reader x) eqn:Hrun; try done. intros [= <-] _. cbn.
    split; [|done]. split; [done|]. by intros [?|?].
  - destruct (reader x) eqn:Hex; try done. intros [= <-] _. cbn. split; [|done].
    split; auto.
Qed.

(** Once the map was cleared under a waiting call, it stays empty. *)
Lemma waiting_run id x y :
  waits_for id x -> (reader x = Gone -> pending x = []) ->
  rtc (fun a b => client_step a b /\ waits_for id b) x y -> waits_for id y /\ (reader y = Gone -> pending y = []).
Proof.
  intros Hw Hp Hr. induction Hr as [|x z y [[a Ha] Hz] _ IH]; [done|]. apply IH; [done|].
  destruct (waiting_step id a x z Hw Ha Hz) as (Hg & Hk & Hc). intros Hgz.
  apply Hg in Hgz as [Hgx| ->]; [rewrite (Hk Hgx); auto|auto].
Qed.


Lemma takes_response id r x :
  reader x = Running -> call x = Call id true None -> has_id id (pending x) = true -> resp_id r = id ->
  exists z, act (AFrame (FResponse r)) x = Some z /\ act AComplete z = Some (return_call id (Ok r) z).
Proof.
  intros Hr Hc Hp Hid. cbn [act]. rewrite Hr. eexists. split; [reflexivity|].
  cbn. unfold on_response. rewrite Hid, Hp, Hc, Z.eqb_refl. done.
Qed.
Lemma room_for_response r x : (QUEUE <=? List.length (responses x))%nat = false -> reader (queue_response r x) = Running.
Proof. unfold queue_response. rewrite Nat.leb_antisym. by destruct (_ <? _)%nat. Qed.
Lemma room_for_event e x : (QUEUE <=? List.length (cl_events x))%nat = false -> reader (queue_event e x) = Running.
Proof. unfold queue_event. rewrite Nat.leb_antisym. by destruct (_ <? _)%nat. Qed.

(** C20. A request that was registered while the reader lived is not stuck, unless
    the reader is blocked on a full queue: at every later moment at which it still
    waits and the reader is not, its response, if it comes, is returned to it; and
    once the connection is lost it returns [Closed].  A reader that holds a frame
    and has room for it first puts it in its queue. *)
Theorem request_never_stuck id x y :
  rtc client_step connected x -> waits_for id x -> reader x <> Gone ->
  rtc (fun a b => client_step a b /\ waits_for id b) x y -> call y = Call id true None -> blocked y = false ->
  match reader y with
  | Running => forall r, resp_id r = id ->
      exists z, act (AFrame (FResponse r)) y = Some z /\ act AComplete z = Some (return_call id (Ok r) z)
  | HoldsResponse _ | HoldsEvent _ => forall r, resp_id r = id ->
      exists z1 z2, act ARoom y = Some z1 /\ act (AFrame (FResponse r)) z1 = Some z2 /\
        act AComplete z2 = Some (return_call id (Ok r) z2)
  | Exiting => exists z, act AClear y = Some z /\ act AComplete z = Some (return_call id (Err Closed) z)
  | Gone => act AComplete y = Some (return_call id (Err Closed) y)
  end.
Proof.
  intros Hreach Hw Hg Hr Hy Hb.
  assert (Hr' : rtc client_step connected y).
  { etransitivity; [exact Hreach|]. clear -Hr. induction Hr as [|? ? ? [? _]]; [reflexivity|]. by eapply rtc_l. }
  destruct (waiting_run id x y Hw (fun H => False_ind _ (Hg H)) Hr) as [_ Hp].
  destruct (reachable_inv y Hr') as [Hc _]. unfold call_ok in Hc. rewrite Hy in Hc.
  destruct (reader y) as [|held|held| |] eqn:Er.
  - intros r Hid. apply takes_response; auto.
  - intros r Hid. destruct (takes_response id r (queue_response held y)) as (z & Hz1 & Hz2);
      [apply room_for_response; unfold blocked in Hb; by rewrite Er in Hb|..];
      [destruct (queue_response_sends held y) as (E1 & E2 & _); rewrite ?E1, ?E2; auto..|done|].
    exists (queue_response held y), z. split_and!; [|done..]. cbn [act]. by rewrite Hb, Er.
  - intros r Hid. destruct (takes_response id r (queue_event held y)) as (z & Hz1 & Hz2);
      [apply room_for_event; unfold blocked in Hb; by rewrite Er in Hb|..];
      [destruct (queue_event_sends held y) as (E1 & E2 & _); rewrite ?E1, ?E2; auto..|done|].
    exists (queue_event held y), z. split_and!; [|done..]. cbn [act]. by rewrite Hb, Er.
  - cbn [act]. rewrite Er. eexists. split; [reflexivity|]. cbn. by rewrite Hy.
  - cbn. by rewrite Hy, (Hp eq_refl).
Qed.

(** ** A request during which the reader blocks *)

(** The queues are only drained by calls, and a request excludes them: when the
    reader is blocked during a request, only giving it up ends it. *)
Definition deadlocked (id : Z) (x : Client) : Prop :=
  call x = Call id true None /\ has_id id (pending x) = true /\ blocked x = true.
Lemma deadlocked_forever id x y :
  deadlocked id x -> rtc (fun a b => exists ac, ac <> AGiveUp /\ act ac a = Some b) x y -> x = y.
Proof.
  intros (Hc & Hp & Hb) Hr. destruct Hr as [|x z y (a & Hne & Ha) _]; [done|]. exfalso.
  assert (Hrd : reader x <> Running /\ reader x <> Exiting) by (unfold blocked in Hb; by destruct (reader x)).
  destruct a; cbn [act] in Ha; rewrite ?Hc, ?Hp, ?Hb in Ha; try done; by destruct (reader x), Hrd.
Qed.

(** ** A request begun after the reader is gone *)

Definition stuck (id : Z) (x : Client) : Prop :=
  call x = Call id true None /\ reader x = Gone /\ has_id id (pending x) = true.

(** Nothing but giving it up ends it, though the documentation of [request]
    promises [Closed]. *)
Lemma stuck_forever id x y :
  stuck id x -> rtc (fun a b => exists ac, ac <> AGiveUp /\ act ac a = Some b) x y -> stuck id y.
Proof.
  intros Hx Hr. revert Hx. induction Hr as [|x z y (a & Hne & Ha) _ IH]; [done|].
  intros (Hc & Hg & Hp). apply IH. destruct a; cbn [act] in Ha; unfold blocked in Ha; rewrite ?Hc, ?Hg, ?Hp in Ha; done.
Qed.

(** Runs of given actions. *)
Definition run_actions (l : list action) : option Client := foldl (fun x a => x ≫= act a) (Some connected) l.
Lemma run_actions_reachable l x : run_actions l = Some x -> rtc client_step connected x.
Proof.
  unfold run_actions. revert x. induction l as [|a l IH] using rev_ind; intros x; cbn; [by intros [= <-]|].
  rewrite foldl_app. cbn. destruct (foldl _ _ l) as [y|]; [|done]. intros Ha.
  eapply rtc_r; [by apply IH|]. by exists a.
Qed.

Lemma request_after_loss_is_stuck :
  exists x, rtc client_step connected x /\ stuck 1 x.
Proof.
  destruct (run_actions [AReadError; AClear; ABegin; AWrite (Ok 40%N) (Ok tt)]) as [x|] eqn:E;
    [|vm_compute in E; discriminate E].
  exists x. split; [by eapply run_actions_reachable|]. vm_compute in E. by injection E as <-.
Qed.

(** 257 events during one request are enough to block it for good. *)
Definition tick : Event := mkEvent 1 (lit "mail.new") VNull.
Lemma events_deadlock_a_request :
  exists x, run_actions ([ABegin; AWrite (Ok 40%N) (Ok tt)] ++ replicate 257 (AFrame (FEvent tick))) = Some x /\
    deadlocked 1 x /\ act (AFrame (FResponse (mkResponse 1 true VNull None))) x = None.
Proof.
  destruct (run_actions _) as [x|] eqn:E; [|vm_compute in E; discriminate E]. exists x. split; [done|].
  vm_compute in E. injection E as <-. split; [vm_compute; auto|done].
Qed.

(** ** Examples *)

Definition pong : Response := mkResponse 1 true VNull None.
Definition asked : list action := [ABegin; AWrite (Ok 40%N) (Ok tt)].


Lemma request_never_stuck_witness :
  match run_actions asked, run_actions (asked ++ [AReadError; AClear]) with
  | Some x, Some y => act AComplete y = Some (return_call 1 (Err Closed) y)
  | _, _ => False
  end.
Proof.
  destruct (run_actions asked) as [x|] eqn:E; [|vm_compute in E; discriminate E].
  destruct (run_actions (asked ++ _)) as [y|] eqn:Ey; [|vm_compute in Ey; discriminate Ey].
  assert (Hx := run_actions_reachable _ _ E). pose proof (request_never_stuck 1 x y Hx) as H.
  assert (Hg : reader y = Gone) by (vm_compute in Ey; by injection Ey as <-). rewrite Hg in H.
  vm_compute in E, Ey. injection E as <-. injection Ey as <-. apply H.
  - by exists true.
  - discriminate.
  - eapply rtc_l; [split; [by exists AReadError|by exists true]|].
    eapply rtc_l; [split; [by exists AClear|by exists true]|]. reflexivity.
  - reflexivity.
  - reflexivity.
Defined.
