(* ===== verification/ImapWindow.v ===== *)
(** * Bounded IMAP fetching (src/imap/client.rs, src/imap/mod.rs, src/imap/error.rs)

    [fetch_uid_range] selects a folder and pulls one bounded window of UIDs.
    The [async-imap] session is the class [ImapSession]: what SELECT reports and
    what UID FETCH streams back.  UIDs are 32-bit: additions saturate at
    [U32_MAX] as in the source.  [timed] turns a phase that exceeds its deadline
    into a [Timeout] error; the session's results below are after it. *)

From S2P Require Import Prelude RustStr.
#[local] Open Scope N_scope.
#[local] Open Scope bool_scope.

Definition U32_MAX : N := 2 ^ 32 - 1.
Definition saturating_add (a b : N) : N := N.min (a + b) U32_MAX.
(** [saturating_sub] on unsigned integers is truncated subtraction. *)
Definition saturating_sub (a b : N) : N := a - b.

Inductive ImapError : Type :=
| ImapIo (message : str)
| Tls (message : str)
| Protocol (message : str)
| Auth (message : str)
| Unsupported (message : str)
| InvalidName (name : str)
| InvalidPort (raw : Z)
| Timeout (phase : str).

Definition port_u16 (raw : Z) : result ImapError N :=
  if ((0 <=? raw) && (raw <=? 65535))%Z then Ok (Z.to_N raw) else Err (InvalidPort raw).

(** [str::contains] of a pattern. *)
Fixpoint contains_str (s p : str) : bool :=
  starts_with s p || match s with [] => false | _ :: r => contains_str r p end.

(** [From<async_imap::error::Error>], from the error's rendering. *)
Definition imap_error_of `{UnicodeCase} (msg : str) : ImapError :=
  if contains_str (to_lowercase msg) (lit "authenticat") then Auth msg else Protocol msg.

Inductive Flag : Type :=
| Seen | Answered | Flagged | Deleted | Draft | Recent | MayCreate | Custom (c : str).

Definition BACKSLASH : N := 92.
Definition flag_name (f : Flag) : str :=
  match f with
  | Seen => BACKSLASH :: lit "Seen"
  | Answered => BACKSLASH :: lit "Answered"
  | Flagged => BACKSLASH :: lit "Flagged"
  | Deleted => BACKSLASH :: lit "Deleted"
  | Draft => BACKSLASH :: lit "Draft"
  | Recent => BACKSLASH :: lit "Recent"
  | MayCreate => BACKSLASH :: lit "*"
  | Custom c => c
  end.

Record FetchedMessage : Type := mkFetched {
  fm_uid : N;
  fm_flags : list str;
  fm_internal_date : option Z;
  fm_raw : list N;
}.

Record FolderSync : Type := mkFolderSync {
  fs_uid_validity : option N;
  fs_uid_next : option N;
  fs_exists : N;
  fs_messages : list FetchedMessage;
  fs_window_hi : N;
  fs_has_more : bool;
}.

(** ** The session *)

Record Mailbox : Type := mkMailbox {
  mbx_uid_validity : option N;
  mbx_uid_next : option N;
  mbx_exists : N;
}.

(** One FETCH response: every attribute is optional. *)
Record Fetch : Type := mkFetch {
  f_uid : option N;
  f_flags : list Flag;
  f_internal_date : option Z;
  f_body : option (list N);
}.

Class ImapSession := {
  session_select : str -> result ImapError Mailbox;
  (** The responses to UID FETCH of a range, bad ones as [Err]. *)
  session_uid_fetch : str -> N -> N -> result ImapError (list (result str Fetch));
}.

Definition FETCH_WINDOW : N := 500.

Definition fetched_of (f : Fetch) : option FetchedMessage :=
  uid ← f_uid f;
  raw ← f_body f;
  Some (mkFetched uid (map flag_name (f_flags f)) (f_internal_date f) raw).

Definition ok {E A} (r : result E A) : option A := match r with Ok a => Some a | Err _ => None end.

Definition fetch_uid_range `{ImapSession} (folder : str) (from_uid : N)
    : result ImapError FolderSync :=
  mailbox ← session_select folder;
  let uid_validity := mbx_uid_validity mailbox in
  let uid_next := mbx_uid_next mailbox in
  let exists_ := mbx_exists mailbox in
  let from := N.max from_uid 1 in
  let server_hi := (fun n => saturating_sub n 1) <$> uid_next in
  if (exists_ =? 0) || unwrap_or false ((fun hi => hi <? from) <$> server_hi) then
    Ok (mkFolderSync uid_validity uid_next exists_ []
          (unwrap_or (saturating_sub from 1) server_hi) false)
  else
    let window_top := saturating_add from (FETCH_WINDOW - 1) in
    let '(range_hi, window_hi, has_more) :=
      match server_hi with
      | Some hi => if window_top <? hi then (window_top, window_top, true) else (hi, hi, false)
      | None => (window_top, window_top, false)
      end in
    fetches ← session_uid_fetch folder from range_hi;
    let fetches := omap ok fetches in
    Ok (mkFolderSync uid_validity uid_next exists_ (omap fetched_of fetches) window_hi has_more).

(** ** The contract of one window *)

(** What the reconciler relies on to make progress. *)
Definition window_contract (from_uid : N) (fs : FolderSync) : Prop :=
  fs_has_more fs = true -> from_uid <= fs_window_hi fs < U32_MAX.

Lemma fetch_window_contract `{ImapSession} folder from_uid fs :
  (forall m n, session_select folder = Ok m -> mbx_uid_next m = Some n -> n <= U32_MAX) ->
  fetch_uid_range folder from_uid = Ok fs -> window_contract from_uid fs.
Proof.
  intros Hu. unfold fetch_uid_range, window_contract.
  destruct (session_select folder) as [m|e] eqn:Em; cbn; [|done].
  destruct (_ || _); cbn; [intros [= <-]; done|].
  destruct (mbx_uid_next m) as [n|] eqn:En; cbn.
  - specialize (Hu m n eq_refl En).
    destruct (N.ltb_spec (saturating_add (N.max from_uid 1) (FETCH_WINDOW - 1))
                (saturating_sub n 1)) as [Hlt|Hge];
      destruct (session_uid_fetch _ _ _) as [l|e]; cbn; intros [= <-]; cbn; try done.
    intros _. revert Hlt. unfold saturating_add, saturating_sub, FETCH_WINDOW, U32_MAX in *. lia.
  - destruct (session_uid_fetch _ _ _) as [l|e]; cbn; [|done]. intros [= <-]. done.
Qed.

(** ** Draining a folder *)

(** The reconciler's fetch loop: window after window until the server has no
    more; [None] when a fetch fails or the fuel runs out. *)
Fixpoint drain `{ImapSession} (fuel : nat) (folder : str) (from_uid : N)
    : option (list FolderSync) :=
  match fuel with
  | O => None
  | S k =>
      match fetch_uid_range folder from_uid with
      | Err _ => None
      | Ok fs =>
          if negb (fs_has_more fs) then Some [fs]
          else cons fs <$> drain k folder (saturating_add (fs_window_hi fs) 1)
      end
  end.

(** A server that answers from a fixed store of complete messages. *)
Definition in_range (lo hi : N) (f : Fetch) : bool :=
  match f_uid f with Some u => (lo <=? u) && (u <=? hi) | None => false end.

Definition store_session (store : list Fetch) (uid_validity uid_next : N) : ImapSession :=
  {| session_select _ := Ok (mkMailbox (Some uid_validity) (Some uid_next)
                              (N.of_nat (List.length store)));
     session_uid_fetch _ lo hi := Ok (map Ok (List.filter (in_range lo hi) store)) |}.

(** Messages are complete and their UIDs are below UIDNEXT. *)
Definition store_ok (store : list Fetch) (uid_next : N) : Prop :=
  uid_next <= U32_MAX /\
  Forall (fun f => exists u b, f_uid f = Some u /\ f_body f = Some b /\ 1 <= u < uid_next) store.

Lemma omap_ok_map {A} (l : list A) : omap (@ok str A) (map Ok l) = l.
Proof. induction l as [|a l IH]; cbn; [done|]. by rewrite IH. Qed.

Lemma range_split lo mid hi store :
  lo <= mid + 1 -> mid <= hi ->
  List.filter (in_range lo hi) store ≡ₚ
  List.filter (in_range lo mid) store ++ List.filter (in_range (mid + 1) hi) store.
Proof.
  intros H1 H2. induction store as [|f store IH]; cbn [List.filter]; [done|].
  assert (E : forall a b, in_range a b f =
    match f_uid f with Some u => (a <=? u) && (u <=? b) | None => false end) by done.
  rewrite !E. destruct (f_uid f) as [u|]; [|exact IH].
  destruct (N.leb_spec lo u), (N.leb_spec u hi), (N.leb_spec u mid), (N.leb_spec (mid + 1) u);
    cbn [andb]; try lia; rewrite IH; solve_Permutation.
Qed.

Lemma fetch_store store v n folder from :
  store_ok store n -> store <> [] ->
  @fetch_uid_range (store_session store v n) folder from =
    Ok (let from' := N.max from 1 in
        let hi := n - 1 in
        let top := N.min (from' + 499) U32_MAX in
        let result l h more := mkFolderSync (Some v) (Some n) (N.of_nat (List.length store))
                                 (omap fetched_of l) h more in
        if hi <? from' then result [] hi false
        else if top <? hi then result (List.filter (in_range from' top) store) top true
        else result (List.filter (in_range from' hi) store) hi false).
Proof.
  intros Hok Hne. unfold fetch_uid_range. cbn.
  destruct (N.eqb_spec (N.of_nat (List.length store)) 0); [destruct store; done|].
  cbn [orb]. destruct (_ <? N.max from 1); [done|].
  change (saturating_add (N.max from 1) (FETCH_WINDOW - 1)) with
    (N.min (N.max from 1 + 499) U32_MAX).
  change (saturating_sub n 1) with (n - 1).
  destruct (_ <? n - 1); cbn; by rewrite omap_ok_map.
Qed.

Lemma drain_store store v n folder fuel from :
  store_ok store n -> store <> [] ->
  (N.to_nat (n - from) < fuel)%nat -> 1 <= from ->
  exists windows, @drain (store_session store v n) fuel folder from = Some windows /\
    flat_map fs_messages windows ≡ₚ omap fetched_of (List.filter (in_range from (n - 1)) store) /\
    Forall (fun w => exists lo, Forall (fun m => lo <= fm_uid m < lo + FETCH_WINDOW) (fs_messages w))
      windows /\
    (fs_window_hi <$> last windows) = Some (n - 1).
Proof.
  intros Hok Hne. pose proof Hok as [Hn HF]. revert from.
  assert (Hwin : forall lo hi, hi < lo + FETCH_WINDOW ->
    Forall (fun m => lo <= fm_uid m < lo + FETCH_WINDOW)
      (omap fetched_of (List.filter (in_range lo hi) store))).
  { intros lo hi Hw. rewrite List.Forall_forall. intros m Hm.
    apply list_elem_of_In, list_elem_of_omap in Hm as (f & Hf & Hm).
    apply list_elem_of_In, filter_In in Hf as [_ Hf]. unfold in_range in Hf. unfold fetched_of in Hm.
    destruct (f_uid f) as [u|]; [|done]. cbn in Hm. destruct (f_body f); [|done].
    cbn in Hm. simplify_eq. cbn. brefl. lia. }
  induction fuel as [|k IH]; intros from Hfuel Hfrom; [lia|]. cbn [drain].
  rewrite fetch_store by done. rewrite (N.max_l from 1) by lia. cbn zeta.
  destruct (N.ltb_spec (n - 1) from) as [Hpast|Hin].
  { cbn. eexists. split; [reflexivity|]. split; [|split].
    - replace (List.filter (in_range from (n - 1)) store) with (@nil Fetch); [done|].
      symmetry. clear -Hpast. induction store as [|f s IH]; cbn; [done|].
      unfold in_range at 1. destruct (f_uid f) as [u|]; [|done].
      destruct (N.leb_spec from u), (N.leb_spec u (n - 1)); cbn; auto; lia.
    - apply Forall_singleton. exists 0. constructor.
    - done. }
  set (top := N.min (from + 499) U32_MAX).
  destruct (N.ltb_spec top (n - 1)) as [Hmore|Hlast].
  - cbn [fs_has_more negb fs_window_hi].
    assert (Hsat : saturating_add top 1 = top + 1).
    { unfold saturating_add, top in *. unfold U32_MAX in *. lia. }
    rewrite Hsat. destruct (IH (top + 1)) as (ws & -> & Hp & HFw & Hhi).
    { unfold top in *. unfold U32_MAX in *. lia. }
    { lia. }
    cbn. eexists. split; [reflexivity|]. split; [|split].
    + cbn. rewrite Hp, <- omap_app.
      apply omap_Permutation. symmetry. apply range_split; unfold top, U32_MAX in *; lia.
    + constructor; [|done]. exists from. apply Hwin. unfold top, FETCH_WINDOW. lia.
    + by destruct ws as [|w ws].
  - cbn. eexists. split; [reflexivity|]. split; [|split].
    + cbn. by rewrite app_nil_r.
    + apply Forall_singleton. exists from. apply Hwin. unfold top, FETCH_WINDOW, U32_MAX in *. lia.
    + done.
Qed.

(** C25. Fetching in windows loses and repeats nothing: against a mailbox that
    holds complete messages with UIDs below UIDNEXT, the window loop started at
    any UID stops, the windows together contain exactly the messages at or above
    it, none spans more than 500 UIDs, and the last one reports the highest
    assigned UID. *)
Theorem windows_tile_the_mailbox store uid_validity uid_next folder from :
  store_ok store uid_next -> store <> [] -> 1 <= from ->
  exists windows,
    @drain (store_session store uid_validity uid_next)
      (S (N.to_nat (uid_next - from))) folder from = Some windows /\
    flat_map fs_messages windows ≡ₚ
      omap fetched_of (List.filter (in_range from (uid_next - 1)) store) /\
    Forall (fun w => exists lo, Forall (fun m => lo <= fm_uid m < lo + FETCH_WINDOW) (fs_messages w))
      windows /\
    (fs_window_hi <$> last windows) = Some (uid_next - 1).
Proof. intros Hok Hne Hf. apply drain_store; auto. Qed.

Lemma windows_tile_the_mailbox_witness :
  let store := [mkFetch (Some 3) [Seen] None (Some [65]); mkFetch (Some 900) [] None (Some [66])] in
  exists windows,
    @drain (store_session store 7 1000) (S (N.to_nat (1000 - 2))) (lit "INBOX") 2 = Some windows /\
    flat_map fs_messages windows ≡ₚ
      [mkFetched 3 [flag_name Seen] None [65]; mkFetched 900 [] None [66]].
Proof.
  intros store.
  destruct (windows_tile_the_mailbox store 7 1000 (lit "INBOX") 2) as (ws & Hw & Hp & _).
  - split; [vm_compute; congruence|]. repeat constructor; eexists _, _; cbn; repeat split; lia.
  - discriminate.
  - lia.
  - exists ws. split; [exact Hw|exact Hp].
Defined.

(** Responses the session could not decode, or that were cut off, are dropped
    without a trace while the window still counts as covered. *)
Lemma failed_fetch_is_skipped :
  @fetch_uid_range
    {| session_select _ := Ok (mkMailbox (Some 1) (Some 10) 9);
       session_uid_fetch _ _ _ := Ok [Err (lit "connection reset")] |} (lit "INBOX") 1 =
  Ok (mkFolderSync (Some 1) (Some 10) 9 [] 9 false).
Proof. reflexivity. Qed.

(** Without UIDNEXT the window's top is reported as covered although UIDs below
    it may be assigned later. *)
Lemma window_without_uidnext_overshoots :
  @fetch_uid_range
    {| session_select _ := Ok (mkMailbox (Some 1) None 1);
       session_uid_fetch _ _ _ := Ok [Ok (mkFetch (Some 1) [] None (Some [65]))] |}
    (lit "INBOX") 1 =
  Ok (mkFolderSync (Some 1) None 1 [mkFetched 1 [] None [65]] 500 false).
Proof. reflexivity. Qed.
