(* ===== verification/DbCore.v ===== *)
(** * The store: rows, tables and statements (src/models.rs, src/db/mod.rs, migrations/)

    The SQLite database as its tables, each a list of rows in rowid order, with
    the constraints the schema of migrations/ declares.  The world around it
    holds what the daemon's code reads or changes outside the database: the
    clock, the supply of fresh UUIDs, the attachment files, the events published
    on the hub and the IMAP answers served so far.

    Every SQL statement may also fail for reasons of its own (a locked or full
    database); [faults] says which do, so that theorems quantify over every
    failure pattern. *)

From S2P Require Import Prelude RustStr Json Op IpcProtocol McpGates McpTools McpModels MailParser ImapWindow.
#[local] Open Scope bool_scope.

(** ** Row types *)

Inductive AuthKind : Type := AuthPassword | OAuth2Google.
Inductive SyncStatus : Type := SyncIdle | SyncSyncing | SyncErrorStatus.
Inductive FolderRole : Type :=
| RoleInbox | RoleSent | RoleDrafts | RoleArchive | RoleTrash | RoleSpam | RoleAll
| RoleStarred | RoleCustom.
#[global] Instance FolderRole_eq_dec : EqDecision FolderRole.
Proof. solve_decision. Defined.

Abbreviation Id := N (only parsing).
Abbreviation time := Z (only parsing).

Record Account : Type := mkAccount {
  acc_id : Id;
  acc_email : str;
  acc_display_name : option str;
  acc_auth_kind : AuthKind;
  acc_imap_host : str;
  acc_imap_port : Z;
  acc_imap_use_tls : bool;
  acc_smtp_host : str;
  acc_smtp_port : Z;
  acc_smtp_use_tls : bool;
  acc_smtp_starttls : bool;
  acc_secret_ref : option str;
  acc_last_synced_at : option time;
  acc_sync_status : SyncStatus;
  acc_sync_error : option str;
  acc_created_at : time;
  acc_updated_at : time;
}.

Record Folder : Type := mkFolder {
  fld_id : Id;
  fld_account_id : Id;
  fld_name : str;
  fld_delimiter : str;
  fld_role : FolderRole;
  fld_uid_validity : option Z;
  fld_uid_next : option Z;
  fld_last_seen_uid : option Z;
  fld_selectable : bool;
  fld_created_at : time;
}.

Record Thread : Type := mkThread {
  thr_id : Id;
  thr_account_id : Id;
  thr_external_id : option str;
  thr_subject : option str;
  thr_last_message_at : option time;
  thr_message_count : Z;
  thr_created_at : time;
}.

Record NewMessage : Type := mkNewMessage {
  nm_account_id : Id;
  nm_folder_id : Id;
  nm_thread_id : option Id;
  nm_uid : Z;
  nm_message_id_header : option str;
  nm_in_reply_to : option str;
  nm_references_header : option str;
  nm_from_addr : str;
  nm_to_addrs : list str;
  nm_cc_addrs : list str;
  nm_bcc_addrs : list str;
  nm_reply_to : option str;
  nm_subject : option str;
  nm_snippet : option str;
  nm_text_body : option str;
  nm_html_body : option str;
  nm_raw_size : Z;
  nm_flags : list str;
  nm_internal_date : time;
  nm_sent_at : option time;
}.

(** A row of [messages]: the inserted columns, the id and the timestamp. *)
Record Message : Type := mkMessage {
  msg_id : Id;
  msg_cols : NewMessage;
  msg_created_at : time;
}.
Definition msg_folder_id (m : Message) : Id := nm_folder_id (msg_cols m).
Definition msg_uid (m : Message) : Z := nm_uid (msg_cols m).
Definition msg_thread_id (m : Message) : option Id := nm_thread_id (msg_cols m).
Definition msg_internal_date (m : Message) : time := nm_internal_date (msg_cols m).

Record NewAttachment : Type := mkNewAttachment {
  na_message_id : Id;
  na_filename : str;
  na_content_type : str;
  na_content_id : option str;
  na_size_bytes : Z;
  na_disposition : Disposition;
  na_storage_path : str;
}.

Record AttachmentRow : Type := mkAttachmentRow {
  att_id : Id;
  att_cols : NewAttachment;
  att_created_at : time;
}.

Record AuditEntry : Type := mkAuditEntry {
  aud_id : Id;
  aud_actor : str;
  aud_action : str;
  aud_target : option str;
  aud_details : value;
  aud_created_at : time;
}.

(** A draft: the columns of [drafts::NewDraft] and what the table adds. *)
Record NewDraft : Type := mkNewDraft {
  nd_account_id : Id;
  nd_in_reply_to_msg : option Id;
  nd_to_addrs : list str;
  nd_cc_addrs : list str;
  nd_bcc_addrs : list str;
  nd_subject : option str;
  nd_text_body : option str;
  nd_html_body : option str;
  nd_in_reply_to : option str;
  nd_references_header : option str;
}.

Record Draft : Type := mkDraft {
  dr_id : Id;
  dr_cols : NewDraft;
  dr_remote_folder_id : option Id;
  dr_remote_uid : option Z;
  dr_created_at : time;
  dr_updated_at : time;
}.

(** The metadata row the queries return; the table also has the bytes. *)
Record DraftAttachment : Type := mkDraftAttachment {
  da_id : Id;
  da_draft_id : Id;
  da_filename : str;
  da_content_type : str;
  da_size_bytes : Z;
  da_created_at : time;
}.

(** ** Tables *)

Record Db : Type := mkDb {
  accounts : list Account;
  folders : list Folder;
  threads : list Thread;
  messages : list Message;
  attachments : list AttachmentRow;
  mcp_gates : list McpGate;
  mcp_approvals : list McpApproval;
  audit_log : list AuditEntry;
  drafts : list Draft;
  draft_attachments : list (DraftAttachment * list N);
}.

Definition set_accounts (t : list Account) (d : Db) : Db :=
  mkDb t (folders d) (threads d) (messages d) (attachments d)
    (mcp_gates d) (mcp_approvals d) (audit_log d) (drafts d) (draft_attachments d).
Definition set_folders (t : list Folder) (d : Db) : Db :=
  mkDb (accounts d) t (threads d) (messages d) (attachments d)
    (mcp_gates d) (mcp_approvals d) (audit_log d) (drafts d) (draft_attachments d).
Definition set_threads (t : list Thread) (d : Db) : Db :=
  mkDb (accounts d) (folders d) t (messages d) (attachments d)
    (mcp_gates d) (mcp_approvals d) (audit_log d) (drafts d) (draft_attachments d).
Definition set_messages (t : list Message) (d : Db) : Db :=
  mkDb (accounts d) (folders d) (threads d) t (attachments d)
    (mcp_gates d) (mcp_approvals d) (audit_log d) (drafts d) (draft_attachments d).
Definition set_attachments (t : list AttachmentRow) (d : Db) : Db :=
  mkDb (accounts d) (folders d) (threads d) (messages d) t
    (mcp_gates d) (mcp_approvals d) (audit_log d) (drafts d) (draft_attachments d).
Definition set_gates (t : list McpGate) (d : Db) : Db :=
  mkDb (accounts d) (folders d) (threads d) (messages d) (attachments d)
    t (mcp_approvals d) (audit_log d) (drafts d) (draft_attachments d).
Definition set_approvals (t : list McpApproval) (d : Db) : Db :=
  mkDb (accounts d) (folders d) (threads d) (messages d) (attachments d)
    (mcp_gates d) t (audit_log d) (drafts d) (draft_attachments d).
Definition set_audit (t : list AuditEntry) (d : Db) : Db :=
  mkDb (accounts d) (folders d) (threads d) (messages d) (attachments d)
    (mcp_gates d) (mcp_approvals d) t (drafts d) (draft_attachments d).
Definition set_drafts (t : list Draft) (d : Db) : Db :=
  mkDb (accounts d) (folders d) (threads d) (messages d) (attachments d)
    (mcp_gates d) (mcp_approvals d) (audit_log d) t (draft_attachments d).
Definition set_draft_attachments (t : list (DraftAttachment * list N)) (d : Db) : Db :=
  mkDb (accounts d) (folders d) (threads d) (messages d) (attachments d)
    (mcp_gates d) (mcp_approvals d) (audit_log d) (drafts d) t.

Inductive DbError : Type :=
| UniqueViolation (constraint : str)
| ForeignKeyViolation (table : str)
| RowNotFound
| SqlxOther (message : str).

(** ** The world *)

Record World : Type := mkWorld {
  db : Db;
  next_uuid : N;
  faults : list (option str);
  clock : nat -> time;
  ticks : nat;
  files : list (str * list N);
  events : list (Topic * value);
  served : list FolderSync;
}.

Definition with_db (d : Db) (w : World) : World :=
  mkWorld d (next_uuid w) (faults w) (clock w) (ticks w) (files w) (events w) (served w).
Definition with_faults (f : list (option str)) (w : World) : World :=
  mkWorld (db w) (next_uuid w) f (clock w) (ticks w) (files w) (events w) (served w).
Definition with_files (f : list (str * list N)) (w : World) : World :=
  mkWorld (db w) (next_uuid w) (faults w) (clock w) (ticks w) f (events w) (served w).
Definition with_served (l : list FolderSync) (w : World) : World :=
  mkWorld (db w) (next_uuid w) (faults w) (clock w) (ticks w) (files w) (events w) l.

(** [Uuid::new_v4()]: random identifiers never repeat. *)
Definition new_uuid {E} : M World E Id := fun w =>
  (Ok (next_uuid w),
   mkWorld (db w) (next_uuid w + 1) (faults w) (clock w) (ticks w) (files w) (events w) (served w)).

(** [Utc::now()]. *)
Definition utc_now {E} : M World E time := fun w =>
  (Ok (clock w (ticks w)),
   mkWorld (db w) (next_uuid w) (faults w) (clock w) (S (ticks w)) (files w) (events w) (served w)).

(** [strftime('%Y-%m-%dT%H:%M:%fZ','now')]: the clock to the millisecond. *)
Definition sql_now {E} : M World E time :=
  let! t := utc_now in mret_M (t / 1000000 * 1000000)%Z.

(** [Hub::publish]. *)
Definition publish {E} (t : Topic) (data : value) : M World E unit := fun w =>
  (Ok tt,
   mkWorld (db w) (next_uuid w) (faults w) (clock w) (ticks w) (files w) (events w ++ [(t, data)])
     (served w)).

(** One SQL statement: it fails before any effect when its fault says so, and
    otherwise reads or changes the tables atomically. *)
Definition statement {A} (run : Db -> result DbError (A * Db)) : M World DbError A := fun w =>
  match faults w with
  | Some e :: rest => (Err (SqlxOther e), with_faults rest w)
  | _ =>
      let w := with_faults (tail (faults w)) w in
      match run (db w) with
      | Ok (a, d) => (Ok a, with_db d w)
      | Err e => (Err e, w)
      end
  end.
Definition query {A} (f : Db -> A) : M World DbError A := statement (fun d => Ok (f d, d)).

(** [i64::clamp]; [LIMIT ? OFFSET ?]. *)
Definition clampz (lo hi z : Z) : Z := Z.max lo (Z.min hi z).
Definition limit_offset {A} (limit offset : Z) (l : list A) : list A :=
  take (Z.to_nat limit) (drop (Z.to_nat offset) l).

(** [ORDER BY]: a stable sort. *)
Fixpoint insert_by {A} (le : A -> A -> bool) (x : A) (l : list A) : list A :=
  match l with
  | [] => [x]
  | y :: r => if le x y then x :: l else y :: insert_by le x r
  end.
Definition order_by {A} (le : A -> A -> bool) (l : list A) : list A :=
  foldr (insert_by le) [] l.

Lemma insert_by_perm {A} (le : A -> A -> bool) x l : insert_by le x l ≡ₚ x :: l.
Proof.
  induction l as [|y l IH]; cbn; [done|]. destruct (le x y); [done|].
  rewrite IH. apply Permutation_swap.
Qed.
Lemma order_by_perm {A} (le : A -> A -> bool) l : order_by le l ≡ₚ l.
Proof. induction l as [|x l IH]; cbn; [done|]. by rewrite insert_by_perm, IH. Qed.

(** ** Reasoning about statements *)

(** A property of the tables that a statement keeps. *)
Lemma statement_preserves {A} (P : World -> Prop) (run : Db -> result DbError (A * Db)) :
  (forall w f, P w -> P (with_faults f w)) ->
  (forall w a d, P w -> run (db w) = Ok (a, d) -> P (with_db d w)) ->
  preserves P (statement run).
Proof.
  intros Hf Hr w r w' HP. unfold statement.
  assert (HP' : P (with_faults (tail (faults w)) w)) by auto.
  destruct (faults w) as [|[e|] rest] eqn:E; cbn [tail] in *.
  - destruct (run _) as [[a d]|e] eqn:Er; intros [= <- <-]; [|done]. by eapply Hr.
  - intros [= <- <-]. auto.
  - destruct (run _) as [[a d]|e] eqn:Er; intros [= <- <-]; [|done]. by eapply Hr.
Qed.

(** What a statement that succeeded did. *)
Lemma statement_Ok {A} (run : Db -> result DbError (A * Db)) w a w' :
  statement run w = (Ok a, w') ->
  exists d, run (db w) = Ok (a, d) /\ w' = with_db d (with_faults (tail (faults w)) w).
Proof.
  unfold statement. destruct (faults w) as [|[e|] rest] eqn:E; cbn [tail]; [|done|];
    (destruct (run _) as [[a' d]|e] eqn:Er; intros [= <- <-]; exists d; by split).
Qed.

Lemma query_Ok {A} (f : Db -> A) w a w' :
  query f w = (Ok a, w') -> a = f (db w) /\ w' = with_faults (tail (faults w)) w.
Proof.
  intros (d & [= <- <-] & ->)%statement_Ok. split; [done|]. by destruct w.
Qed.
