(* ===== verification/DbMail.v ===== *)
(** * Mail tables (src/db/accounts.rs, folders.rs, threads.rs, messages.rs, attachments.rs)

    One definition per function of these modules, each statement translated from
    its SQL; the constraints are those of migrations/0001_init.sql, with the
    references of drafts, which deletions null. *)

From S2P Require Import Prelude RustStr Json Op IpcProtocol McpGates McpTools McpModels MailParser ImapWindow DbCore.
#[local] Open Scope bool_scope.

(** ** accounts *)

Record NewAccount : Type := mkNewAccount {
  nacc_email : str;
  nacc_display_name : option str;
  nacc_auth_kind : AuthKind;
  nacc_imap_host : str;
  nacc_imap_port : Z;
  nacc_imap_use_tls : bool;
  nacc_smtp_host : str;
  nacc_smtp_port : Z;
  nacc_smtp_use_tls : bool;
  nacc_smtp_starttls : bool;
}.

Definition has_account (d : Db) (id : Id) : bool := existsb (fun a => acc_id a =? id)%N (accounts d).
Definition has_folder (d : Db) (id : Id) : bool := existsb (fun f => fld_id f =? id)%N (folders d).
Definition has_thread (d : Db) (id : Id) : bool := existsb (fun t => thr_id t =? id)%N (threads d).
Definition has_message (d : Db) (id : Id) : bool := existsb (fun m => msg_id m =? id)%N (messages d).

Definition accounts_create (new : NewAccount) : M World DbError Account :=
  let! id := new_uuid in
  let! now := sql_now in
  statement (fun d =>
    if existsb (fun a => str_eqb (acc_email a) (nacc_email new)) (accounts d)
    then Err (UniqueViolation (lit "accounts.email"))
    else
      let row := mkAccount id (nacc_email new) (nacc_display_name new) (nacc_auth_kind new)
                   (nacc_imap_host new) (nacc_imap_port new) (nacc_imap_use_tls new)
                   (nacc_smtp_host new) (nacc_smtp_port new) (nacc_smtp_use_tls new)
                   (nacc_smtp_starttls new) None None SyncIdle None now now in
      Ok (row, set_accounts (accounts d ++ [row]) d)).

Definition accounts_list : M World DbError (list Account) :=
  query (fun d => order_by (fun a b => acc_created_at a <=? acc_created_at b)%Z (accounts d)).

Definition accounts_get (id : Id) : M World DbError (option Account) :=
  query (fun d => List.find (fun a => acc_id a =? id)%N (accounts d)).

Definition set_nm_thread (thread_id : option Id) (c : NewMessage) : NewMessage :=
  mkNewMessage (nm_account_id c) (nm_folder_id c) thread_id (nm_uid c)
    (nm_message_id_header c) (nm_in_reply_to c) (nm_references_header c) (nm_from_addr c)
    (nm_to_addrs c) (nm_cc_addrs c) (nm_bcc_addrs c) (nm_reply_to c) (nm_subject c)
    (nm_snippet c) (nm_text_body c) (nm_html_body c) (nm_raw_size c) (nm_flags c)
    (nm_internal_date c) (nm_sent_at c).

(** [ON DELETE CASCADE] of every table below an account, and [ON DELETE SET NULL]
    of a message's thread. *)
Definition loses_thread (id : Id) (d : Db) (m : Message) : bool :=
  match msg_thread_id m with
  | Some t => existsb (fun x => (thr_account_id x =? id)%N && (thr_id x =? t)%N) (threads d)
  | None => false
  end.
Definition drop_ref (gone : Id -> bool) (o : option Id) : option Id :=
  opt_filter (fun i => negb (gone i)) o.
Definition set_nd_reply (m : option Id) (c : NewDraft) : NewDraft :=
  mkNewDraft (nd_account_id c) m (nd_to_addrs c) (nd_cc_addrs c) (nd_bcc_addrs c) (nd_subject c)
    (nd_text_body c) (nd_html_body c) (nd_in_reply_to c) (nd_references_header c).
(** [ON DELETE SET NULL] of a draft's message and remote folder. *)
Definition null_draft_refs (gone_msg gone_fld : Id -> bool) (dr : Draft) : Draft :=
  mkDraft (dr_id dr) (set_nd_reply (drop_ref gone_msg (nd_in_reply_to_msg (dr_cols dr))) (dr_cols dr))
    (drop_ref gone_fld (dr_remote_folder_id dr)) (dr_remote_uid dr) (dr_created_at dr)
    (dr_updated_at dr).
(** [ON DELETE CASCADE] from drafts to their attachments. *)
Definition delete_drafts (gone : Draft -> bool) (d : Db) : Db :=
  set_draft_attachments
    (List.filter (fun a => negb (existsb (fun x => gone x && (dr_id x =? da_draft_id a.1)%N) (drafts d)))
       (draft_attachments d))
    (set_drafts (List.filter (fun x => negb (gone x)) (drafts d)) d).

Definition cascade_mail (id : Id) (d : Db) : Db :=
  let keep_msgs := List.filter (fun m => negb (nm_account_id (msg_cols m) =? id)%N
      && negb (existsb (fun f => (fld_account_id f =? id)%N && (fld_id f =? msg_folder_id m)%N)
                 (folders d))) (messages d) in
  let keep_atts := List.filter (fun a => existsb (fun m => msg_id m =? na_message_id (att_cols a))%N
                                           keep_msgs) (attachments d) in
  set_attachments keep_atts
    (set_messages
      (map (fun m => if loses_thread id d m
                     then mkMessage (msg_id m) (set_nm_thread None (msg_cols m)) (msg_created_at m)
                     else m) keep_msgs)
      (set_threads (List.filter (fun t => negb (thr_account_id t =? id)%N) (threads d))
        (set_folders (List.filter (fun f => negb (fld_account_id f =? id)%N) (folders d))
          (set_accounts (List.filter (fun a => negb (acc_id a =? id)%N) (accounts d)) d)))).

(** All of it: the mail tables, then the drafts. *)
Definition cascade_account (id : Id) (d : Db) : Db :=
  let d' := cascade_mail id d in
  let d'' := delete_drafts (fun x => nd_account_id (dr_cols x) =? id)%N d' in
  set_drafts (map (null_draft_refs (fun m => negb (has_message d' m)) (fun f => negb (has_folder d' f)))
                (drafts d'')) d''.

Definition accounts_delete (id : Id) : M World DbError bool :=
  statement (fun d =>
    if has_account d id then Ok (true, cascade_account id d) else Ok (false, d)).

Definition update_account (id : Id) (f : Account -> Account) (d : Db) : Db :=
  set_accounts (map (fun a => if (acc_id a =? id)%N then f a else a) (accounts d)) d.

Definition accounts_set_secret_ref (id : Id) (secret_ref : option str) : M World DbError unit :=
  let! now := sql_now in
  statement (fun d => Ok (tt, update_account id (fun a =>
    mkAccount (acc_id a) (acc_email a) (acc_display_name a) (acc_auth_kind a) (acc_imap_host a)
      (acc_imap_port a) (acc_imap_use_tls a) (acc_smtp_host a) (acc_smtp_port a)
      (acc_smtp_use_tls a) (acc_smtp_starttls a) secret_ref (acc_last_synced_at a)
      (acc_sync_status a) (acc_sync_error a) (acc_created_at a) now) d)).

(** [COALESCE(?, column)]. *)
Definition coalesce {A} (a b : option A) : option A := match a with Some _ => a | None => b end.

Definition accounts_update_sync (id : Id) (status : SyncStatus) (error : option str)
    (last_synced_at : option time) : M World DbError unit :=
  let! now := sql_now in
  statement (fun d => Ok (tt, update_account id (fun a =>
    mkAccount (acc_id a) (acc_email a) (acc_display_name a) (acc_auth_kind a) (acc_imap_host a)
      (acc_imap_port a) (acc_imap_use_tls a) (acc_smtp_host a) (acc_smtp_port a)
      (acc_smtp_use_tls a) (acc_smtp_starttls a) (acc_secret_ref a)
      (coalesce last_synced_at (acc_last_synced_at a)) status error (acc_created_at a) now) d)).

(** ** folders *)

Record NewFolder : Type := mkNewFolder {
  nf_account_id : Id;
  nf_name : str;
  nf_delimiter : str;
  nf_role : FolderRole;
  nf_selectable : bool;
}.

Definition folders_create (new : NewFolder) : M World DbError Folder :=
  let! id := new_uuid in
  let! now := sql_now in
  statement (fun d =>
    if existsb (fun f => (fld_account_id f =? nf_account_id new)%N
                           && str_eqb (fld_name f) (nf_name new)) (folders d)
    then Err (UniqueViolation (lit "folders.account_id, folders.name"))
    else if negb (has_account d (nf_account_id new)) then Err (ForeignKeyViolation (lit "folders"))
    else
      let row := mkFolder id (nf_account_id new) (nf_name new) (nf_delimiter new) (nf_role new)
                   None None None (nf_selectable new) now in
      Ok (row, set_folders (folders d ++ [row]) d)).

Definition folders_get (id : Id) : M World DbError (option Folder) :=
  query (fun d => List.find (fun f => fld_id f =? id)%N (folders d)).

Definition folders_get_by_name (account_id : Id) (name : str) : M World DbError (option Folder) :=
  query (fun d => List.find (fun f => (fld_account_id f =? account_id)%N && str_eqb (fld_name f) name)
                    (folders d)).

Definition folders_list_by_account (account_id : Id) : M World DbError (list Folder) :=
  query (fun d => order_by (fun a b => match str_compare (fld_name a) (fld_name b) with
                                       | Gt => false | _ => true end)
                    (List.filter (fun f => fld_account_id f =? account_id)%N (folders d))).

Definition update_folder (id : Id) (f : Folder -> Folder) (d : Db) : Db :=
  set_folders (map (fun x => if (fld_id x =? id)%N then f x else x) (folders d)) d.

(** A row updated a moment ago that is gone is a panic in the source. *)
Definition folders_upsert (new : NewFolder) : M World DbError Folder :=
  let! existing := folders_get_by_name (nf_account_id new) (nf_name new) in
  match existing with
  | Some e =>
      statement (fun d => Ok (tt, update_folder (fld_id e) (fun f =>
        mkFolder (fld_id f) (fld_account_id f) (fld_name f) (nf_delimiter new) (nf_role new)
          (fld_uid_validity f) (fld_uid_next f) (fld_last_seen_uid f) (nf_selectable new)
          (fld_created_at f)) d));!
      let! row := folders_get (fld_id e) in
      match row with
      | Some r => mret_M r
      | None => mthrow (SqlxOther (lit "BUG: folder upserted moments ago must exist"))
      end
  | None => folders_create new
  end.

Definition folders_update_uid_state (id : Id) (uid_validity uid_next last_seen_uid : option Z)
    : M World DbError unit :=
  statement (fun d => Ok (tt, update_folder id (fun f =>
    mkFolder (fld_id f) (fld_account_id f) (fld_name f) (fld_delimiter f) (fld_role f)
      (coalesce uid_validity (fld_uid_validity f)) (coalesce uid_next (fld_uid_next f))
      (coalesce last_seen_uid (fld_last_seen_uid f)) (fld_selectable f) (fld_created_at f)) d)).

(** ** threads *)

Definition threads_create (account_id : Id) (external_id subject : option str)
    : M World DbError Thread :=
  let! id := new_uuid in
  let! now := sql_now in
  statement (fun d =>
    if match external_id with
       | Some e => existsb (fun t => (thr_account_id t =? account_id)%N
                              && bool_decide (thr_external_id t = Some e)) (threads d)
       | None => false
       end
    then Err (UniqueViolation (lit "threads.account_id, threads.external_id"))
    else if negb (has_account d account_id) then Err (ForeignKeyViolation (lit "threads"))
    else
      let row := mkThread id account_id external_id subject None 0 now in
      Ok (row, set_threads (threads d ++ [row]) d)).

Definition threads_get_by_external_id (account_id : Id) (external_id : str)
    : M World DbError (option Thread) :=
  query (fun d => List.find (fun t => (thr_account_id t =? account_id)%N
                               && bool_decide (thr_external_id t = Some external_id)) (threads d)).

(** [ORDER BY last_message_at DESC NULLS LAST, created_at DESC]. *)
Definition thread_order (a b : Thread) : bool :=
  match thr_last_message_at a, thr_last_message_at b with
  | Some x, Some y => (y <? x)%Z || ((y =? x)%Z && (thr_created_at b <=? thr_created_at a)%Z)
  | Some _, None => true
  | None, Some _ => false
  | None, None => (thr_created_at b <=? thr_created_at a)%Z
  end.

Definition threads_list_recent (account_id : Id) (limit offset : Z) : M World DbError (list Thread) :=
  query (fun d => limit_offset (clampz 1 500 limit) (Z.max offset 0)
    (order_by thread_order (List.filter (fun t => thr_account_id t =? account_id)%N (threads d)))).

Definition update_thread (id : Id) (f : Thread -> Thread) (d : Db) : Db :=
  set_threads (map (fun t => if (thr_id t =? id)%N then f t else t) (threads d)) d.

Definition in_thread (id : Id) (m : Message) : bool := bool_decide (msg_thread_id m = Some id).

(** [max(internal_date)], NULL over no rows. *)
Definition max_date (ms : list Message) : option time :=
  foldr (fun m acc => Some (match acc with Some z => Z.max z (msg_internal_date m)
                                         | None => msg_internal_date m end)) None ms.

Definition threads_refresh_aggregates (id : Id) : M World DbError unit :=
  statement (fun d =>
    let ms := List.filter (in_thread id) (messages d) in
    Ok (tt, update_thread id (fun t =>
      mkThread (thr_id t) (thr_account_id t) (thr_external_id t) (thr_subject t) (max_date ms)
        (Z.of_nat (List.length ms)) (thr_created_at t)) d)).

Definition threads_touch_last_message_at (id : Id) (when : time) : M World DbError unit :=
  statement (fun d => Ok (tt, update_thread id (fun t =>
    if match thr_last_message_at t with None => true | Some z => (z <? when)%Z end
    then mkThread (thr_id t) (thr_account_id t) (thr_external_id t) (thr_subject t) (Some when)
           (thr_message_count t) (thr_created_at t)
    else t) d)).

(** ** messages *)

Definition at_uid (folder_id : Id) (uid : Z) (m : Message) : bool :=
  (msg_folder_id m =? folder_id)%N && (msg_uid m =? uid)%Z.

Definition messages_create (new : NewMessage) : M World DbError Message :=
  let! id := new_uuid in
  let! now := sql_now in
  statement (fun d =>
    if existsb (at_uid (nm_folder_id new) (nm_uid new)) (messages d)
    then Err (UniqueViolation (lit "messages.folder_id, messages.uid"))
    else if negb (has_account d (nm_account_id new) && has_folder d (nm_folder_id new)
                  && match nm_thread_id new with Some t => has_thread d t | None => true end)
    then Err (ForeignKeyViolation (lit "messages"))
    else
      let row := mkMessage id new now in
      Ok (row, set_messages (messages d ++ [row]) d)).

Definition messages_get (id : Id) : M World DbError (option Message) :=
  query (fun d => List.find (fun m => msg_id m =? id)%N (messages d)).

Definition messages_get_by_folder_uid (folder_id : Id) (uid : Z) : M World DbError (option Message) :=
  query (fun d => List.find (at_uid folder_id uid) (messages d)).

(** [MessageSummary] leaves out the two bodies. *)
Definition summary (m : Message) : Message :=
  let c := msg_cols m in
  mkMessage (msg_id m)
    (mkNewMessage (nm_account_id c) (nm_folder_id c) (nm_thread_id c) (nm_uid c)
       (nm_message_id_header c) (nm_in_reply_to c) (nm_references_header c) (nm_from_addr c)
       (nm_to_addrs c) (nm_cc_addrs c) (nm_bcc_addrs c) (nm_reply_to c) (nm_subject c)
       (nm_snippet c) None None (nm_raw_size c) (nm_flags c) (nm_internal_date c) (nm_sent_at c))
    (msg_created_at m).

Definition messages_list_by_folder (folder_id : Id) (limit offset : Z)
    : M World DbError (list Message) :=
  query (fun d => map summary (limit_offset (clampz 1 500 limit) (Z.max offset 0)
    (order_by (fun a b => msg_internal_date b <=? msg_internal_date a)%Z
       (List.filter (fun m => msg_folder_id m =? folder_id)%N (messages d))))).

Definition messages_list_by_thread (thread_id : Id) : M World DbError (list Message) :=
  query (fun d => map summary
    (order_by (fun a b => msg_internal_date a <=? msg_internal_date b)%Z
       (List.filter (in_thread thread_id) (messages d)))).

(** [ORDER BY thread_id, internal_date]. *)
Definition thread_date_order (a b : Id * str * time) : bool :=
  let '(ta, _, da) := a in let '(tb, _, db) := b in
  (ta <? tb)%N || ((ta =? tb)%N && (da <=? db)%Z).

Definition messages_message_ids_by_threads (thread_ids : list Id)
    : M World DbError (list (Id * str)) :=
  match thread_ids with
  | [] => mret_M []
  | _ =>
      query (fun d =>
        map (fun r => (r.1.1, r.1.2))
          (order_by thread_date_order
             (omap (fun m => match msg_thread_id m, nm_message_id_header (msg_cols m) with
                             | Some t, Some h =>
                                 if existsb (N.eqb t) thread_ids
                                 then Some (t, h, msg_internal_date m) else None
                             | _, _ => None
                             end) (messages d))))
  end.

Definition messages_existing_uids (folder_id : Id) (uids : list Z) : M World DbError (list Z) :=
  match uids with
  | [] => mret_M []
  | _ => query (fun d => map msg_uid
           (List.filter (fun m => (msg_folder_id m =? folder_id)%N && existsb (Z.eqb (msg_uid m)) uids)
              (messages d)))
  end.

Definition with_cols (f : NewMessage -> NewMessage) (m : Message) : Message :=
  mkMessage (msg_id m) (f (msg_cols m)) (msg_created_at m).

Definition set_nm_flags (flags : list str) (c : NewMessage) : NewMessage :=
  mkNewMessage (nm_account_id c) (nm_folder_id c) (nm_thread_id c) (nm_uid c)
    (nm_message_id_header c) (nm_in_reply_to c) (nm_references_header c) (nm_from_addr c)
    (nm_to_addrs c) (nm_cc_addrs c) (nm_bcc_addrs c) (nm_reply_to c) (nm_subject c)
    (nm_snippet c) (nm_text_body c) (nm_html_body c) (nm_raw_size c) flags (nm_internal_date c)
    (nm_sent_at c).
Definition set_nm_folder (folder_id : Id) (c : NewMessage) : NewMessage :=
  mkNewMessage (nm_account_id c) folder_id (nm_thread_id c) (nm_uid c)
    (nm_message_id_header c) (nm_in_reply_to c) (nm_references_header c) (nm_from_addr c)
    (nm_to_addrs c) (nm_cc_addrs c) (nm_bcc_addrs c) (nm_reply_to c) (nm_subject c)
    (nm_snippet c) (nm_text_body c) (nm_html_body c) (nm_raw_size c) (nm_flags c)
    (nm_internal_date c) (nm_sent_at c).

Record SetFlagsOutcome : Type := mkSetFlagsOutcome { sf_found : bool; sf_changed : bool }.

Definition messages_set_flags (id : Id) (flags : list str) : M World DbError SetFlagsOutcome :=
  let! rows_affected := statement (fun d =>
    let hit m := (msg_id m =? id)%N && negb (bool_decide (nm_flags (msg_cols m) = flags)) in
    Ok (List.length (List.filter hit (messages d)),
        set_messages (map (fun m => if hit m then with_cols (set_nm_flags flags) m else m)
                        (messages d)) d)) in
  if (0 <? rows_affected)%nat then mret_M (mkSetFlagsOutcome true true)
  else
    let! found := query (fun d => has_message d id) in
    mret_M (mkSetFlagsOutcome found false).

Definition messages_set_folder (id folder_id : Id) : M World DbError bool :=
  statement (fun d =>
    match List.find (fun m => msg_id m =? id)%N (messages d) with
    | None => Ok (false, d)
    | Some m =>
        if existsb (fun m' => at_uid folder_id (msg_uid m) m' && negb (msg_id m' =? id)%N) (messages d)
        then Err (UniqueViolation (lit "messages.folder_id, messages.uid"))
        else if negb (has_folder d folder_id) then Err (ForeignKeyViolation (lit "messages"))
        else Ok (true, set_messages (map (fun m' => if (msg_id m' =? id)%N
                                                    then with_cols (set_nm_folder folder_id) m'
                                                    else m') (messages d)) d)
    end).

(** Deleting messages takes their attachment rows along and nulls the drafts
    that answer them. *)
Definition delete_messages (gone : Message -> bool) (d : Db) : Db :=
  let keep := List.filter (fun m => negb (gone m)) (messages d) in
  set_drafts
    (map (null_draft_refs (fun i => existsb (fun m => gone m && (msg_id m =? i)%N) (messages d))
            (fun _ => false)) (drafts d))
  (set_attachments
    (List.filter (fun a => negb (existsb (fun m => gone m && (msg_id m =? na_message_id (att_cols a))%N)
                                   (messages d))) (attachments d))
    (set_messages keep d)).

Definition messages_delete (id : Id) : M World DbError bool :=
  statement (fun d =>
    let gone m := (msg_id m =? id)%N in
    Ok (existsb gone (messages d), delete_messages gone d)).

Definition messages_delete_all_in_folder (folder_id : Id) : M World DbError Z :=
  statement (fun d =>
    let gone m := (msg_folder_id m =? folder_id)%N in
    Ok (Z.of_nat (List.length (List.filter gone (messages d))), delete_messages gone d)).

(** ** attachments *)

Definition attachments_create (new : NewAttachment) : M World DbError AttachmentRow :=
  let! id := new_uuid in
  let! now := sql_now in
  statement (fun d =>
    if negb (has_message d (na_message_id new)) then Err (ForeignKeyViolation (lit "attachments"))
    else Ok (tt, set_attachments (attachments d ++ [mkAttachmentRow id new now]) d));!
  let! row := query (fun d => List.find (fun a => att_id a =? id)%N (attachments d)) in
  match row with
  | Some r => mret_M r
  | None => mthrow RowNotFound
  end.

Definition attachments_list_for_message (message_id : Id) : M World DbError (list AttachmentRow) :=
  query (fun d => order_by (fun a b => att_created_at a <=? att_created_at b)%Z
    (List.filter (fun a => na_message_id (att_cols a) =? message_id)%N (attachments d))).

Definition attachments_get (id : Id) : M World DbError (option AttachmentRow) :=
  query (fun d => List.find (fun a => att_id a =? id)%N (attachments d)).
