(* ===== verification/DbInv.v ===== *)
(** * Integrity of the store

    The invariant of the tables the mail code changes: identifiers are unique and
    below the fresh supply, (folder, UID) pairs and thread keys are unique, and
    every reference points at a row.  Each operation of [DbMail] keeps it,
    whatever faults occur. *)

From S2P Require Import Prelude RustStr Json Op IpcProtocol McpGates McpTools McpModels MailParser ImapWindow DbCore DbMail.
#[local] Open Scope bool_scope.

Definition uid_key (m : Message) : Id * Z := (msg_folder_id m, msg_uid m).
Definition thread_key (t : Thread) : option (Id * str) :=
  (fun e => (thr_account_id t, e)) <$> thr_external_id t.

(** Identifiers of a table: distinct, and none the supply will hand out. *)
Definition ids_ok (n : N) (ids : list Id) : Prop := NoDup ids /\ Forall (fun i => i < n)%N ids.

(** A draft's account, and the message it answers and its remote folder if any,
    are among those given. *)
Definition draft_refs (accs msgs flds : list Id) (x : Draft) : Prop :=
  nd_account_id (dr_cols x) ∈ accs /\
  (forall m, nd_in_reply_to_msg (dr_cols x) = Some m -> m ∈ msgs) /\
  (forall f, dr_remote_folder_id x = Some f -> f ∈ flds).

Record db_ok (n : N) (d : Db) : Prop := {
  ok_account_ids : ids_ok n (map acc_id (accounts d));
  ok_folder_ids : ids_ok n (map fld_id (folders d));
  ok_thread_ids : ids_ok n (map thr_id (threads d));
  ok_message_ids : ids_ok n (map msg_id (messages d));
  ok_attachment_ids : ids_ok n (map att_id (attachments d));
  ok_uids : NoDup (map uid_key (messages d));
  ok_threads : NoDup (omap thread_key (threads d));
  ok_folder_refs : Forall (fun f => fld_account_id f ∈ map acc_id (accounts d)) (folders d);
  ok_thread_refs : Forall (fun t => thr_account_id t ∈ map acc_id (accounts d)) (threads d);
  ok_message_refs : Forall (fun m => nm_account_id (msg_cols m) ∈ map acc_id (accounts d) /\
      msg_folder_id m ∈ map fld_id (folders d) /\
      forall t, msg_thread_id m = Some t -> t ∈ map thr_id (threads d)) (messages d);
  ok_attachment_refs : Forall (fun a => na_message_id (att_cols a) ∈ map msg_id (messages d))
      (attachments d);
  ok_draft_ids : ids_ok n (map dr_id (drafts d));
  ok_draft_attachment_ids : ids_ok n (map (fun a => da_id a.1) (draft_attachments d));
  ok_draft_refs : Forall (draft_refs (map acc_id (accounts d)) (map msg_id (messages d))
      (map fld_id (folders d))) (drafts d);
  ok_draft_attachment_refs : Forall (fun a => da_draft_id a.1 ∈ map dr_id (drafts d) /\
      da_size_bytes a.1 = Z.of_nat (List.length a.2)) (draft_attachments d);
}.

(** The invariant of the world. *)
Definition store_inv (w : World) : Prop := db_ok (next_uuid w) (db w).

Create HintDb store.

(** ** Lists *)

Lemma existsb_id {A} (f : A -> Id) (l : list A) i :
  existsb (fun a => f a =? i)%N l = true <-> i ∈ map f l.
Proof.
  rewrite existsb_exists, list_elem_of_In, in_map_iff. setoid_rewrite N.eqb_eq. naive_solver.
Qed.

Lemma map_update_key {A B} (key : A -> B) (c : A -> bool) (f : A -> A) l :
  (forall a, key (f a) = key a) -> map key (map (fun a => if c a then f a else a) l) = map key l.
Proof. intros Hk. rewrite map_map. apply map_ext. intros a. destruct (c a); [apply Hk|done]. Qed.

Lemma omap_update_key {A B} (key : A -> option B) (c : A -> bool) (f : A -> A) l :
  (forall a, key (f a) = key a) ->
  omap key (map (fun a => if c a then f a else a) l) = omap key l.
Proof.
  intros Hk. induction l as [|a l IH]; cbn; [done|]. rewrite IH.
  assert (Ha : key (if c a then f a else a) = key a) by (destruct (c a); [apply Hk|done]).
  by rewrite Ha.
Qed.

Lemma Forall_update {A} (P : A -> Prop) (c : A -> bool) (f : A -> A) l :
  (forall a, P a -> P (f a)) -> Forall P l -> Forall P (map (fun a => if c a then f a else a) l).
Proof.
  intros Hf. rewrite Forall_map. intros HF. eapply Forall_impl; [exact HF|].
  cbn. intros a Ha. destruct (c a); auto.
Qed.

Lemma elem_of_map {A B} (f : A -> B) l x : x ∈ l -> f x ∈ map f l.
Proof. rewrite !list_elem_of_In. apply in_map. Qed.

Lemma NoDup_map_inj_in {A B} (key : A -> B) l x y :
  NoDup (map key l) -> x ∈ l -> y ∈ l -> key x = key y -> x = y.
Proof.
  induction l as [|a l IH]; cbn; [by intros _ ?%elem_of_nil|]. rewrite NoDup_cons, !elem_of_cons.
  intros [Ha Hl] [->|Hx] [->|Hy] E; [done| | |by apply IH].
  - destruct Ha. rewrite E. by apply elem_of_map.
  - destruct Ha. rewrite <- E. by apply elem_of_map.
Qed.

Lemma NoDup_map_filter {A B} (key : A -> B) (f : A -> bool) l :
  NoDup (map key l) -> NoDup (map key (List.filter f l)).
Proof.
  induction l as [|a l IH]; cbn; [done|]. rewrite NoDup_cons. intros [Ha Hl].
  destruct (f a); cbn; [|auto]. apply NoDup_cons. split; [|auto].
  rewrite list_elem_of_In, in_map_iff in Ha |- *. setoid_rewrite filter_In. naive_solver.
Qed.

Lemma NoDup_omap_filter {A B} (key : A -> option B) (f : A -> bool) l :
  NoDup (omap key l) -> NoDup (omap key (List.filter f l)).
Proof.
  induction l as [|a l IH]; cbn; [done|].
  assert (Hsub : forall b, b ∈ omap key (List.filter f l) -> b ∈ omap key l).
  { intros b. rewrite !list_elem_of_omap. setoid_rewrite list_elem_of_In.
    setoid_rewrite filter_In. naive_solver. }
  destruct (key a) as [b|] eqn:E.
  - rewrite NoDup_cons. intros [Hb Hl]. destruct (f a); cbn; [rewrite E|auto].
    apply NoDup_cons. split; [naive_solver|auto].
  - intros Hl. destruct (f a); cbn; [rewrite E|]; auto.
Qed.

Lemma Forall_filter {A} (P : A -> Prop) (f : A -> bool) l : Forall P l -> Forall P (List.filter f l).
Proof.
  rewrite !List.Forall_forall. intros HF a [Ha _]%filter_In. auto.
Qed.

Lemma ids_ok_mono n n' ids : (n <= n')%N -> ids_ok n ids -> ids_ok n' ids.
Proof.
  intros Hn [Hd HF]. split; [done|]. eapply Forall_impl; [exact HF|]. cbn. intros; lia.
Qed.

Lemma ids_ok_snoc n ids i : ids_ok n ids -> (i < n)%N -> i ∉ ids -> ids_ok n (ids ++ [i]).
Proof.
  intros [Hd HF] Hi Hin. split; [by apply NoDup_snoc|]. apply Forall_app. split; [done|].
  by apply Forall_singleton.
Qed.

Lemma ids_ok_filter {A} (key : A -> Id) n f (l : list A) :
  ids_ok n (map key l) -> ids_ok n (map key (List.filter f l)).
Proof.
  intros [Hd HF]. split; [by apply NoDup_map_filter|].
  rewrite Forall_map in *. by apply Forall_filter.
Qed.

Lemma draft_refs_mono accs msgs flds accs' msgs' flds' l :
  (forall i, i ∈ accs -> i ∈ accs') -> (forall i, i ∈ msgs -> i ∈ msgs') ->
  (forall i, i ∈ flds -> i ∈ flds') ->
  Forall (draft_refs accs msgs flds) l -> Forall (draft_refs accs' msgs' flds') l.
Proof.
  intros Ha Hm Hf HF. eapply Forall_impl; [exact HF|]. unfold draft_refs. naive_solver.
Qed.
Ltac draft_refs_grow :=
  eapply draft_refs_mono; [..|eassumption]; intros; rewrite ?elem_of_app; auto.

Lemma db_ok_mono n n' d : (n <= n')%N -> db_ok n d -> db_ok n' d.
Proof. intros Hn []. constructor; eauto using ids_ok_mono. Qed.

(** ** The world's own operations *)

Lemma with_faults_inv f w : store_inv w -> store_inv (with_faults f w).
Proof. done. Qed.

Lemma new_uuid_inv {E} : preserves store_inv (@new_uuid E).
Proof.
  intros w r w' Hw [= <- <-]. unfold store_inv in *. cbn. eapply db_ok_mono; [|exact Hw]. lia.
Qed.

Lemma utc_now_inv {E} : preserves store_inv (@utc_now E).
Proof. by intros w r w' Hw [= <- <-]. Qed.

Lemma sql_now_inv {E} : preserves store_inv (@sql_now E).
Proof. apply preserves_bind; [apply utc_now_inv|]. intros t. apply preserves_ret. Qed.

Lemma publish_inv {E} t v : preserves store_inv (@publish E t v).
Proof. by intros w r w' Hw [= <- <-]. Qed.

Lemma query_inv {A} (f : Db -> A) : preserves store_inv (query f).
Proof.
  apply statement_preserves; [done|]. intros w a d Hw [= <- <-]. done.
Qed.

Lemma statement_inv {A} (run : Db -> result DbError (A * Db)) :
  (forall n d a d', db_ok n d -> run d = Ok (a, d') -> db_ok n d') ->
  preserves store_inv (statement run).
Proof.
  intros Hr. apply statement_preserves; [done|]. intros w a d Hw E. unfold store_inv in *.
  cbn. eauto.
Qed.

#[export] Hint Resolve new_uuid_inv utc_now_inv sql_now_inv publish_inv query_inv : store.

(** An insertion takes the next id of the supply. *)
Lemma insert_inv {A} (run : Id -> time -> Db -> result DbError (A * Db)) :
  (forall n d now a d', db_ok n d -> run n now d = Ok (a, d') -> db_ok (n + 1) d') ->
  preserves store_inv (let! id := new_uuid in let! now := sql_now in statement (run id now)).
Proof.
  intros Hr w r w' Hw. unfold mbind_M at 1, new_uuid. unfold mbind_M, sql_now, mbind_M, utc_now, mret_M.
  unfold statement. cbn [faults with_faults db]. unfold store_inv in *.
  assert (Hmono : db_ok (next_uuid w + 1) (db w)) by (eapply db_ok_mono; [|exact Hw]; lia).
  destruct (faults w) as [|[e|] rest]; cbn [tail]; [|intros [= <- <-]; exact Hmono|];
    (destruct (run _ _ _) as [[a d]|e] eqn:E; intros [= <- <-]; cbn; [|exact Hmono];
     eapply Hr; eauto).
Qed.

(** The same with more work after the insertion. *)
Lemma insert_inv_k {A B} (run : Id -> time -> Db -> result DbError (A * Db))
    (k : Id -> time -> A -> M World DbError B) :
  (forall n d now a d', db_ok n d -> run n now d = Ok (a, d') -> db_ok (n + 1) d') ->
  (forall id now a, preserves store_inv (k id now a)) ->
  preserves store_inv
    (let! id := new_uuid in let! now := sql_now in mbind_M (k id now) (statement (run id now))).
Proof.
  intros Hr Hk w r w' Hw.
  pose proof (insert_inv run Hr w) as Hi. revert Hi.
  unfold mbind_M at 1 3, new_uuid. unfold sql_now, mbind_M, utc_now, mret_M. cbn.
  destruct (statement _ _) as [[a|e] w1]; intros Hi Heq.
  - eapply Hk; [|exact Heq]. by eapply Hi.
  - invs. by eapply Hi.
Qed.

Lemma fresh_not_in n ids : ids_ok n ids -> n ∉ ids.
Proof.
  intros [_ HF] Hin. rewrite Forall_forall in HF. apply HF in Hin. lia.
Qed.

Lemma ids_ok_insert n ids : ids_ok n ids -> ids_ok (n + 1) (ids ++ [n]).
Proof.
  intros Hi. apply ids_ok_snoc; [eapply ids_ok_mono; [|exact Hi]; lia|lia|by apply fresh_not_in].
Qed.

(** ** accounts and folders *)

Lemma update_account_ok n id f d :
  (forall a, acc_id (f a) = acc_id a) -> db_ok n d -> db_ok n (update_account id f d).
Proof.
  intros Hf []. unfold update_account.
  assert (Hids : map acc_id (map (fun a => if (acc_id a =? id)%N then f a else a) (accounts d)) =
                 map acc_id (accounts d)) by (by apply map_update_key).
  constructor; cbn; rewrite ?Hids; done.
Qed.

Lemma accounts_update_sync_inv id st e t : preserves store_inv (accounts_update_sync id st e t).
Proof.
  apply preserves_bind; [apply sql_now_inv|]. intros now. apply statement_inv.
  intros n d a d' Hd [= _ <-]. by apply update_account_ok.
Qed.

Lemma update_folder_ok n id f d :
  (forall x, fld_id (f x) = fld_id x) -> (forall x, fld_account_id (f x) = fld_account_id x) ->
  db_ok n d -> db_ok n (update_folder id f d).
Proof.
  intros Hf Ha []. unfold update_folder.
  assert (Hids : map fld_id (map (fun x => if (fld_id x =? id)%N then f x else x) (folders d)) =
                 map fld_id (folders d)) by (by apply map_update_key).
  constructor; cbn; rewrite ?Hids; try done.
  apply Forall_update; [|done]. intros x. by rewrite Ha.
Qed.

Lemma folders_update_uid_state_inv id v u l :
  preserves store_inv (folders_update_uid_state id v u l).
Proof.
  apply statement_inv. intros n d a d' Hd [= _ <-]. by apply update_folder_ok.
Qed.

Lemma folders_create_inv new : preserves store_inv (folders_create new).
Proof.
  apply (insert_inv (fun id now d => _)). intros n d now a d' Hd. cbn.
  destruct (existsb _ (folders d)); [done|]. destruct (has_account d _) eqn:Ea; [|done]. cbn.
  intros [= _ <-]. apply existsb_id in Ea. destruct Hd. constructor; cbn;
    rewrite ?map_app; cbn; eauto using ids_ok_insert; try (eapply ids_ok_mono; [|eassumption]; lia).
  - apply Forall_app. split; [done|]. by apply Forall_singleton.
  - eapply Forall_impl; [eassumption|]. cbn. intros m (? & ? & ?). split_and!; auto.
    apply elem_of_app. by left.
  - draft_refs_grow.
Qed.

(** ** threads *)

Lemma update_thread_ok n id f d :
  (forall t, thr_id (f t) = thr_id t) -> (forall t, thread_key (f t) = thread_key t) ->
  (forall t, thr_account_id (f t) = thr_account_id t) ->
  db_ok n d -> db_ok n (update_thread id f d).
Proof.
  intros Hi Hk Ha []. unfold update_thread.
  assert (Hids : map thr_id (map (fun x => if (thr_id x =? id)%N then f x else x) (threads d)) =
                 map thr_id (threads d)) by (by apply map_update_key).
  constructor; cbn; rewrite ?Hids; try done.
  - by rewrite omap_update_key.
  - apply Forall_update; [|done]. intros x. by rewrite Ha.
Qed.

Lemma threads_touch_inv id when : preserves store_inv (threads_touch_last_message_at id when).
Proof.
  apply statement_inv. intros n d a d' Hd [= _ <-].
  apply update_thread_ok; [| | |done]; intros t; destruct (thr_last_message_at t);
    try destruct (_ <? _)%Z; done.
Qed.

Lemma threads_refresh_inv id : preserves store_inv (threads_refresh_aggregates id).
Proof.
  apply statement_inv. intros n d a d' Hd [= _ <-]. by apply update_thread_ok.
Qed.

Lemma threads_create_inv account ext subj : preserves store_inv (threads_create account ext subj).
Proof.
  apply (insert_inv (fun id now d => _)). intros n d now a d' Hd. cbn.
  destruct (match ext with Some _ => _ | None => _ end) eqn:Ex; [done|].
  destruct (has_account d account) eqn:Ea; [|done]. cbn.
  intros [= _ <-]. apply existsb_id in Ea. destruct Hd. constructor; cbn;
    rewrite ?map_app; cbn; eauto using ids_ok_insert; try (eapply ids_ok_mono; [|eassumption]; lia).
  - rewrite omap_app. destruct ext as [e|]; cbn; [|by rewrite app_nil_r].
    apply NoDup_snoc; [done|]. rewrite list_elem_of_omap. intros (t & Ht & Hk).
    unfold thread_key in Hk. destruct (thr_external_id t) as [e'|] eqn:Ee; [|done].
    cbn in Hk. simplify_eq. apply existsb_false in Ex. rewrite Forall_forall in Ex.
    apply Ex in Ht. rewrite N.eqb_refl, Ee in Ht. cbn in Ht. by rewrite bool_decide_true in Ht.
  - apply Forall_app. split; [done|]. by apply Forall_singleton.
  - eapply Forall_impl; [eassumption|]. cbn. intros m (? & ? & Ht). split_and!; auto.
    intros t Hmt. apply elem_of_app. left. auto.
Qed.

(** ** messages and attachments *)

Lemma messages_create_inv new : preserves store_inv (messages_create new).
Proof.
  apply (insert_inv (fun id now d => _)). intros n d now a d' Hd. cbn.
  destruct (existsb (at_uid _ _) (messages d)) eqn:Eu; [done|].
  destruct (negb _) eqn:Er; [done|]. brefl. intros [= _ <-].
  match goal with Hx : has_account _ _ = true |- _ => apply existsb_id in Hx end.
  match goal with Hx : has_folder _ _ = true |- _ => apply existsb_id in Hx end.
  destruct Hd. constructor; cbn;
    rewrite ?map_app; cbn; eauto using ids_ok_insert; try (eapply ids_ok_mono; [|eassumption]; lia).
  - apply NoDup_snoc; [done|]. rewrite list_elem_of_In, in_map_iff. intros (m & Hm & Hin).
    apply existsb_false in Eu. rewrite List.Forall_forall in Eu. apply Eu in Hin.
    unfold uid_key in Hm. injection Hm as Hf Hu. unfold at_uid in Hin.
    change (msg_folder_id (mkMessage n new now)) with (nm_folder_id new) in Hf.
    change (msg_uid (mkMessage n new now)) with (nm_uid new) in Hu.
    by rewrite Hf, Hu, N.eqb_refl, Z.eqb_refl in Hin.
  - apply Forall_app. split; [done|]. apply Forall_singleton. cbn. split_and!; auto.
    intros t Ht. unfold msg_thread_id in Ht. cbn in Ht. rewrite Ht in *. by apply existsb_id.
  - eapply Forall_impl; [eassumption|]. cbn. intros x ?. apply elem_of_app. by left.
  - draft_refs_grow.
Qed.

(** Drafts whose dropped references are nulled refer to what is left. *)
Lemma null_refs_ok accs msgs flds accs' msgs' flds' gm gf l :
  (forall x, x ∈ l -> nd_account_id (dr_cols x) ∈ accs -> nd_account_id (dr_cols x) ∈ accs') ->
  (forall i, i ∈ msgs -> gm i = false -> i ∈ msgs') ->
  (forall i, i ∈ flds -> gf i = false -> i ∈ flds') ->
  Forall (draft_refs accs msgs flds) l ->
  Forall (draft_refs accs' msgs' flds') (map (null_draft_refs gm gf) l).
Proof.
  intros Ha Hm Hf. rewrite Forall_map, !Forall_forall. intros HF x Hx.
  destruct (HF x Hx) as (H1 & H2 & H3). unfold draft_refs. cbn. split_and!; [by apply Ha| |].
  - unfold drop_ref, opt_filter. intros m. destruct (nd_in_reply_to_msg _) as [i|]; [|done].
    destruct (gm i) eqn:E; cbn; [done|]. intros [= <-]. auto.
  - unfold drop_ref, opt_filter. intros m. destruct (dr_remote_folder_id _) as [i|]; [|done].
    destruct (gf i) eqn:E; cbn; [done|]. intros [= <-]. auto.
Qed.

Lemma null_draft_ids gm gf l : map dr_id (map (null_draft_refs gm gf) l) = map dr_id l.
Proof. rewrite map_map. by apply map_ext. Qed.

Lemma survivors_ids gone (ms : list Message) i :
  i ∈ map msg_id ms -> existsb (fun m => gone m && (msg_id m =? i)%N) ms = false ->
  i ∈ map msg_id (List.filter (fun m => negb (gone m)) ms).
Proof.
  rewrite !list_elem_of_In, !in_map_iff. intros (m & <- & Hin) Hk.
  exists m. split; [done|]. apply filter_In. split; [done|].
  rewrite existsb_false, List.Forall_forall in Hk. specialize (Hk m Hin).
  rewrite N.eqb_refl, andb_true_r in Hk. by rewrite Hk.
Qed.

Lemma delete_messages_ok n gone d : db_ok n d -> db_ok n (delete_messages gone d).
Proof.
  intros []. unfold delete_messages. constructor; cbn; rewrite ?null_draft_ids;
    auto using ids_ok_filter.
  - by apply NoDup_map_filter.
  - by apply Forall_filter.
  - rewrite List.Forall_forall in ok_attachment_refs0 |- *. intros a [Ha Hk]%filter_In.
    apply negb_true_iff in Hk. by apply survivors_ids; [apply ok_attachment_refs0|].
  - eapply null_refs_ok; [| | |eassumption]; auto using survivors_ids.
Qed.

Lemma messages_delete_inv id : preserves store_inv (messages_delete id).
Proof. apply statement_inv. intros n d a d' Hd [= _ <-]. by apply delete_messages_ok. Qed.

Lemma messages_delete_all_inv id : preserves store_inv (messages_delete_all_in_folder id).
Proof. apply statement_inv. intros n d a d' Hd [= _ <-]. by apply delete_messages_ok. Qed.

Lemma messages_existing_uids_inv f l : preserves store_inv (messages_existing_uids f l).
Proof. destruct l; [apply preserves_ret|apply query_inv]. Qed.

Lemma messages_ids_inv l : preserves store_inv (messages_message_ids_by_threads l).
Proof. destruct l; [apply preserves_ret|apply query_inv]. Qed.

Lemma messages_set_flags_inv id flags : preserves store_inv (messages_set_flags id flags).
Proof.
  apply preserves_bind.
  - apply statement_inv. intros n d a d' [] [= _ <-].
    constructor; cbn; rewrite ?map_update_key by done; auto. by apply Forall_update.
  - intros k. destruct (0 <? k)%nat; [apply preserves_ret|].
    apply preserves_bind; [apply query_inv|]. intros; apply preserves_ret.
Qed.

Lemma attachments_create_inv new : preserves store_inv (attachments_create new).
Proof.
  apply (insert_inv_k (fun id now d =>
    if negb (has_message d (na_message_id new)) then Err (ForeignKeyViolation (lit "attachments"))
    else Ok (tt, set_attachments (attachments d ++ [mkAttachmentRow id new now]) d))).
  - intros n d now a d' Hd. destruct (has_message d _) eqn:Em; [|done]. cbn. intros [= _ <-].
    apply existsb_id in Em. destruct Hd. constructor; cbn; rewrite ?map_app; cbn;
      eauto using ids_ok_insert; try (eapply ids_ok_mono; [|eassumption]; lia).
    apply Forall_app. split; [done|]. by apply Forall_singleton.
  - intros id now a. apply preserves_bind; [apply query_inv|]. intros [r|];
      [apply preserves_ret|apply preserves_throw].
Qed.

(** ** What requests change *)

Lemma accounts_create_inv new : preserves store_inv (accounts_create new).
Proof.
  apply (insert_inv (fun id now d =>
    if existsb (fun a => str_eqb (acc_email a) (nacc_email new)) (accounts d)
    then Err (UniqueViolation (lit "accounts.email"))
    else
      let row := mkAccount id (nacc_email new) (nacc_display_name new) (nacc_auth_kind new)
                   (nacc_imap_host new) (nacc_imap_port new) (nacc_imap_use_tls new)
                   (nacc_smtp_host new) (nacc_smtp_port new) (nacc_smtp_use_tls new)
                   (nacc_smtp_starttls new) None None SyncIdle None now now in
      Ok (row, set_accounts (accounts d ++ [row]) d))).
  intros n d now a d' Hd. destruct (existsb _ _); [done|]. cbn. intros [= _ <-].
  assert (Hin : forall i, i ∈ map acc_id (accounts d) -> i ∈ map acc_id (accounts d) ++ [n])
    by (intros; apply elem_of_app; by left).
  apply (db_ok_mono n (n + 1)) in Hd as Hd'; [|lia]. destruct Hd, Hd'.
  constructor; cbn; rewrite ?map_app; cbn; auto using ids_ok_insert; try draft_refs_grow;
    (eapply Forall_impl; [eassumption|]); cbn; naive_solver.
Qed.

Lemma kept_id {A} (key owner : A -> Id) id l i :
  i ∈ map key l -> existsb (fun x => (owner x =? id)%N && (key x =? i)%N) l = false ->
  i ∈ map key (List.filter (fun x => negb (owner x =? id)%N) l).
Proof.
  rewrite !list_elem_of_In, !in_map_iff. intros (x & <- & Hx) Hno.
  exists x. split; [done|]. apply filter_In. split; [done|].
  rewrite existsb_false, List.Forall_forall in Hno. specialize (Hno x Hx).
  rewrite N.eqb_refl, andb_true_r in Hno. by rewrite Hno.
Qed.

Lemma kept_account id (l : list Account) i :
  i ∈ map acc_id l -> i <> id -> i ∈ map acc_id (List.filter (fun a => negb (acc_id a =? id)%N) l).
Proof.
  intros Hi Hne. apply (kept_id acc_id acc_id); [done|]. apply existsb_false, Forall_forall.
  intros a _. destruct (N.eqb_spec (acc_id a) id) as [->|]; cbn; [|done]. apply N.eqb_neq. congruence.
Qed.

Lemma delete_drafts_attachments_ok gone d :
  Forall (fun a : DraftAttachment * list N => da_draft_id a.1 ∈ map dr_id (drafts d) /\
      da_size_bytes a.1 = Z.of_nat (List.length a.2)) (draft_attachments d) ->
  Forall (fun a : DraftAttachment * list N =>
      da_draft_id a.1 ∈ map dr_id (drafts (delete_drafts gone d)) /\
      da_size_bytes a.1 = Z.of_nat (List.length a.2)) (draft_attachments (delete_drafts gone d)).
Proof.
  unfold delete_drafts. cbn. rewrite !List.Forall_forall. intros HF a [Ha Hk]%filter_In.
  destruct (HF a Ha) as [Hin Hs]. split; [|done]. apply negb_true_iff in Hk.
  rewrite !list_elem_of_In, !in_map_iff in *. destruct Hin as (x & Hid & Hx).
  exists x. split; [done|]. apply filter_In. split; [done|].
  rewrite existsb_false, List.Forall_forall in Hk. specialize (Hk x Hx).
  rewrite Hid, N.eqb_refl, andb_true_r in Hk. by rewrite Hk.
Qed.

Lemma cascade_mail_ok n id d :
  db_ok n d -> drafts d = [] -> draft_attachments d = [] -> db_ok n (cascade_mail id d).
Proof.
  intros [] Ed Ea. unfold cascade_mail. constructor; cbn; rewrite ?Ed, ?Ea; try (constructor; by constructor); try by constructor.
  all: rewrite ?map_update_key by done; auto using ids_ok_filter, NoDup_map_filter, NoDup_omap_filter.
  - apply List.Forall_forall. intros f [Hf Hne]%filter_In. rewrite List.Forall_forall in ok_folder_refs0.
    brefl. apply kept_account; [by apply ok_folder_refs0|done].
  - apply List.Forall_forall. intros t [Ht Hne]%filter_In. rewrite List.Forall_forall in ok_thread_refs0.
    brefl. apply kept_account; [by apply ok_thread_refs0|done].
  - rewrite Forall_map. apply List.Forall_forall. intros m [Hm Hk]%filter_In. brefl.
    rewrite List.Forall_forall in ok_message_refs0. destruct (ok_message_refs0 m Hm) as (Ha & Hf & Ht).
    assert (Hacc := kept_account id _ _ Ha ltac:(done)).
    assert (Hfld := kept_id fld_id fld_account_id id _ _ Hf ltac:(done)).
    destruct (loses_thread id d m) eqn:El; cbn; split_and!; try done.
    intros t Et. apply kept_id; [by apply Ht|]. unfold loses_thread in El. by rewrite Et in El.
  - apply List.Forall_forall. intros a [_ Ha]%filter_In. by apply existsb_id in Ha.
Qed.

Lemma cascade_account_ok n id d : db_ok n d -> db_ok n (cascade_account id d).
Proof.
  intros Hd.
  assert (Hm : db_ok n (cascade_mail id (set_drafts [] (set_draft_attachments [] d)))).
  { apply cascade_mail_ok; [|done..]. destruct Hd. constructor; cbn; try done; try (constructor; by constructor); by constructor. }
  destruct Hm, Hd. unfold cascade_account. constructor; try done.
  all: cbn -[null_draft_refs]; rewrite ?null_draft_ids; try by apply (ids_ok_filter dr_id).
  - by apply (ids_ok_filter (fun a => da_id a.1)).
  - eapply null_refs_ok; [| | |eapply Forall_filter; eassumption].
    + intros x Hx Ha. apply list_elem_of_In, filter_In in Hx as [_ Hx]. brefl. by apply kept_account.
    + intros i _ Hg. by apply negb_false_iff, existsb_id in Hg.
    + intros i _ Hg. by apply negb_false_iff, existsb_id in Hg.
  - by apply (delete_drafts_attachments_ok _ (cascade_mail id d)).
Qed.

Lemma accounts_delete_inv id : preserves store_inv (accounts_delete id).
Proof.
  apply statement_inv. intros n d a d' Hd.
  destruct (has_account d id); intros [= _ <-]; auto using cascade_account_ok.
Qed.

Lemma folders_upsert_inv new : preserves store_inv (folders_upsert new).
Proof.
  apply preserves_bind; [apply query_inv|]. intros [e|]; [|apply folders_create_inv].
  apply preserves_bind.
  - apply statement_inv. intros n d a d' Hd [= _ <-]. by apply update_folder_ok.
  - intros _. apply preserves_bind; [apply query_inv|]. intros [r|];
      [apply preserves_ret|apply preserves_throw].
Qed.

(** Moving one message keeps the (folder, UID) pairs apart when the target has
    no other message of that UID. *)
Lemma move_uid_keys id folder_id u ms :
  NoDup (map uid_key ms) -> NoDup (map msg_id ms) ->
  (forall m, m ∈ ms -> msg_id m = id -> msg_uid m = u) ->
  (forall m, m ∈ ms -> msg_id m <> id -> uid_key m <> (folder_id, u)) ->
  NoDup (map uid_key (map (fun m => if (msg_id m =? id)%N
                                    then with_cols (set_nm_folder folder_id) m else m) ms)).
Proof.
  induction ms as [|m ms IH]; cbn; [constructor|]. rewrite !NoDup_cons.
  intros [Hm Hk] [Hi Hids] Hu Hno.
  assert (IH' := IH Hk Hids (fun x Hx => Hu x (list_elem_of_further _ _ _ Hx))
                       (fun x Hx => Hno x (list_elem_of_further _ _ _ Hx))).
  split; [|done]. rewrite map_map, list_elem_of_In, in_map_iff. intros (x & Hx & Hin).
  apply list_elem_of_In in Hin.
  assert (Hxm : msg_id x <> msg_id m).
  { intros E. apply Hi. rewrite <- E. by apply elem_of_map. }
  destruct (N.eqb_spec (msg_id m) id) as [Em|Em], (N.eqb_spec (msg_id x) id) as [Ex|Ex]; [congruence| | |].
  - apply (Hno x); [by right|done|]. rewrite Hx. rewrite <- (Hu m) by (done || by left). done.
  - apply (Hno m); [by left|done|]. rewrite <- Hx. rewrite <- (Hu x) by (done || by right). done.
  - apply Hm. rewrite <- Hx. by apply elem_of_map.
Qed.

Lemma messages_set_folder_inv id folder_id : preserves store_inv (messages_set_folder id folder_id).
Proof.
  apply statement_inv. intros n d a d' Hd.
  destruct (List.find _ _) as [m|] eqn:Ef; [|by intros [= _ <-]].
  destruct (existsb _ (messages d)) eqn:Ee; [done|].
  destruct (has_folder d folder_id) eqn:Eh; [|done]. cbn. intros [= _ <-].
  apply existsb_id in Eh. apply find_some in Ef as [Hm Hid]. apply N.eqb_eq in Hid.
  rewrite existsb_false, Forall_forall in Ee.
  destruct Hd. constructor; cbn; rewrite ?map_update_key by done; auto.
  - apply (move_uid_keys id folder_id (msg_uid m)); [done|apply ok_message_ids0| |].
    + intros m' Hm' E. f_equal. apply (NoDup_map_inj_in msg_id (messages d));
        [apply ok_message_ids0|done|by apply list_elem_of_In|congruence].
    + intros m' Hm' Hne E. specialize (Ee m' Hm'). apply N.eqb_neq in Hne.
      unfold uid_key in E. injection E as E1 E2.
      unfold at_uid in Ee. rewrite E1, E2, N.eqb_refl, Z.eqb_refl, Hne in Ee. done.
  - apply Forall_update; [|done]. intros x (Ha & _ & Ht). done.
Qed.

#[export] Hint Resolve accounts_create_inv accounts_delete_inv folders_upsert_inv
  messages_set_folder_inv accounts_update_sync_inv folders_update_uid_state_inv folders_create_inv
  threads_touch_inv threads_refresh_inv threads_create_inv messages_create_inv
  messages_delete_inv messages_delete_all_inv messages_existing_uids_inv messages_ids_inv
  messages_set_flags_inv attachments_create_inv : store.
