(* ===== verification/DbDrafts.v ===== *)
(** * Draft tables (src/db/drafts.rs, src/db/draft_attachments.rs)

    One definition per function; the [_tx] variants run the same statement inside
    a transaction, which [in_tx] models: an error between begin and commit, or of
    the commit itself, leaves the tables as they were. *)

From S2P Require Import Prelude RustStr Json Op IpcProtocol McpGates McpTools McpModels MailParser ImapWindow DbCore DbMail DbInv.
#[local] Open Scope bool_scope.

Definition MAX_DRAFT_ATTACHMENT_BYTES : Z := 25 * 1024 * 1024.

(** ** Transactions *)

(** [pool.begin()] and [tx.commit()] are statements that may fail. *)
Definition tx_statement : M World DbError unit := query (fun _ => tt).

(** Rolled back when an error escapes. *)
Definition in_tx {E A} (m : M World E A) : M World E A := fun w =>
  match m w with
  | (Ok a, w') => (Ok a, w')
  | (Err e, w') => (Err e, with_db (db w) w')
  end.

(** ** drafts *)

Definition has_draft (d : Db) (id : Id) : bool := existsb (fun x => dr_id x =? id)%N (drafts d).

Definition drafts_create (new : NewDraft) : M World DbError Draft :=
  let! id := new_uuid in
  let! now := sql_now in
  statement (fun d =>
    if negb (has_account d (nd_account_id new)
             && match nd_in_reply_to_msg new with Some m => has_message d m | None => true end)
    then Err (ForeignKeyViolation (lit "drafts"))
    else
      let row := mkDraft id new None None now now in
      Ok (row, set_drafts (drafts d ++ [row]) d)).

Record DraftPatch : Type := mkDraftPatch {
  dp_to_addrs : list str;
  dp_cc_addrs : list str;
  dp_bcc_addrs : list str;
  dp_subject : option str;
  dp_text_body : option str;
  dp_html_body : option str;
}.

Definition apply_patch (p : DraftPatch) (now : time) (x : Draft) : Draft :=
  let c := dr_cols x in
  mkDraft (dr_id x)
    (mkNewDraft (nd_account_id c) (nd_in_reply_to_msg c) (dp_to_addrs p) (dp_cc_addrs p)
       (dp_bcc_addrs p) (dp_subject p) (dp_text_body p) (dp_html_body p) (nd_in_reply_to c)
       (nd_references_header c))
    (dr_remote_folder_id x) (dr_remote_uid x) (dr_created_at x) now.

Definition drafts_update (id : Id) (patch : DraftPatch) : M World DbError (option Draft) :=
  let! now := sql_now in
  statement (fun d =>
    Ok (apply_patch patch now <$> List.find (fun x => dr_id x =? id)%N (drafts d),
        set_drafts (map (fun x => if (dr_id x =? id)%N then apply_patch patch now x else x)
                      (drafts d)) d)).
Definition drafts_update_tx := drafts_update.

Definition drafts_get (id : Id) : M World DbError (option Draft) :=
  query (fun d => List.find (fun x => dr_id x =? id)%N (drafts d)).

Definition drafts_list_by_account (account_id : Id) : M World DbError (list Draft) :=
  query (fun d => order_by (fun a b => dr_updated_at b <=? dr_updated_at a)%Z
    (List.filter (fun x => nd_account_id (dr_cols x) =? account_id)%N (drafts d))).

Definition drafts_delete (id : Id) : M World DbError bool :=
  statement (fun d => Ok (has_draft d id, delete_drafts (fun x => dr_id x =? id)%N d)).

(** ** draft_attachments *)

Record NewDraftAttachment : Type := mkNewDraftAttachment {
  nda_draft_id : Id;
  nda_filename : str;
  nda_content_type : str;
  nda_content : list N;
}.

Definition draft_attachments_create (new : NewDraftAttachment) : M World DbError DraftAttachment :=
  let! id := new_uuid in
  let! now := sql_now in
  statement (fun d =>
    if negb (has_draft d (nda_draft_id new)) then Err (ForeignKeyViolation (lit "draft_attachments"))
    else Ok (tt, set_draft_attachments (draft_attachments d ++
           [(mkDraftAttachment id (nda_draft_id new) (nda_filename new) (nda_content_type new)
               (Z.of_nat (List.length (nda_content new))) now, nda_content new)]) d));!
  let! row := query (fun d => fst <$> List.find (fun a => da_id a.1 =? id)%N (draft_attachments d)) in
  match row with
  | Some r => mret_M r
  | None => mthrow RowNotFound
  end.
Definition draft_attachments_create_tx := draft_attachments_create.

(** [ORDER BY created_at, id]. *)
Definition draft_attachment_order (a b : DraftAttachment) : bool :=
  (da_created_at a <? da_created_at b)%Z
  || ((da_created_at a =? da_created_at b)%Z && (da_id a <=? da_id b)%N).

Definition of_draft (draft_id : Id) (a : DraftAttachment * list N) : bool :=
  (da_draft_id a.1 =? draft_id)%N.

Definition draft_attachments_list_for_draft (draft_id : Id) : M World DbError (list DraftAttachment) :=
  query (fun d => order_by draft_attachment_order
    (map fst (List.filter (of_draft draft_id) (draft_attachments d)))).

Definition draft_attachments_load_content (id : Id) : M World DbError (option (list N)) :=
  query (fun d => snd <$> List.find (fun a => da_id a.1 =? id)%N (draft_attachments d)).

Definition sum_sizes (l : list (DraftAttachment * list N)) : Z :=
  foldr (fun a acc => da_size_bytes a.1 + acc)%Z 0%Z l.

Definition draft_attachments_aggregate_size_for_draft (draft_id : Id) : M World DbError Z :=
  query (fun d => sum_sizes (List.filter (of_draft draft_id) (draft_attachments d))).

Definition draft_attachments_delete_all_for_draft (draft_id : Id) : M World DbError Z :=
  statement (fun d =>
    Ok (Z.of_nat (List.length (List.filter (of_draft draft_id) (draft_attachments d))),
        set_draft_attachments (List.filter (fun a => negb (of_draft draft_id a)) (draft_attachments d)) d)).
Definition draft_attachments_delete_all_for_draft_tx := draft_attachments_delete_all_for_draft.

(** ** Integrity *)

Lemma in_tx_inv {E A} (m : M World E A) :
  (forall w r w', m w = (r, w') -> (next_uuid w <= next_uuid w')%N) ->
  preserves store_inv m -> preserves store_inv (in_tx m).
Proof.
  intros Hn Hm w r w' Hw. unfold in_tx. destruct (m w) as [[a|e] w1] eqn:Em; intros [= <- <-].
  - by eapply Hm.
  - unfold store_inv in *. cbn. eapply db_ok_mono; [|exact Hw]. by eapply Hn.
Qed.

Lemma drafts_create_inv new : preserves store_inv (drafts_create new).
Proof.
  apply (insert_inv (fun id now d => _)). intros n d now a d' Hd. cbn.
  destruct (negb _) eqn:Er; [done|]. brefl. intros [= _ <-].
  match goal with Hx : has_account _ _ = true |- _ => apply existsb_id in Hx end.
  apply (db_ok_mono n (n + 1)) in Hd as Hd'; [|lia]. destruct Hd, Hd'.
  constructor; cbn; rewrite ?map_app; cbn; auto using ids_ok_insert.
  - apply Forall_app. split; [done|]. apply Forall_singleton. unfold draft_refs. cbn.
    split_and!; [done| |done]. intros m Em. rewrite Em in *. by apply existsb_id.
  - eapply Forall_impl; [eassumption|]. cbn. intros x [? ?]. split; [|done].
    apply elem_of_app. by left.
Qed.

Lemma drafts_update_inv id p : preserves store_inv (drafts_update id p).
Proof.
  apply preserves_bind; [apply sql_now_inv|]. intros now. apply statement_inv.
  intros n d a d' [] [= _ <-]. constructor; cbn; rewrite ?map_update_key by done; auto.
  by apply Forall_update.
Qed.

Lemma drafts_delete_inv id : preserves store_inv (drafts_delete id).
Proof.
  apply statement_inv. intros n d a d' [] [= _ <-].
  constructor; cbn; auto using Forall_filter.
  - by apply (ids_ok_filter dr_id).
  - by apply (ids_ok_filter (fun a => da_id a.1)).
  - by apply (delete_drafts_attachments_ok _ d).
Qed.

Lemma draft_attachments_create_inv new : preserves store_inv (draft_attachments_create new).
Proof.
  apply (insert_inv_k (fun id now d =>
    if negb (has_draft d (nda_draft_id new)) then Err (ForeignKeyViolation (lit "draft_attachments"))
    else Ok (tt, set_draft_attachments (draft_attachments d ++
           [(mkDraftAttachment id (nda_draft_id new) (nda_filename new) (nda_content_type new)
               (Z.of_nat (List.length (nda_content new))) now, nda_content new)]) d))).
  - intros n d now a d' Hd. destruct (has_draft d _) eqn:Em; [|done]. cbn. intros [= _ <-].
    apply existsb_id in Em. apply (db_ok_mono n (n + 1)) in Hd as Hd'; [|lia]. destruct Hd, Hd'.
    constructor; cbn; rewrite ?map_app; cbn; auto using ids_ok_insert.
    apply Forall_app. split; [done|]. by apply Forall_singleton.
  - intros id now a. apply preserves_bind; [apply query_inv|]. intros [r|];
      [apply preserves_ret|apply preserves_throw].
Qed.

Lemma draft_attachments_delete_all_inv id :
  preserves store_inv (draft_attachments_delete_all_for_draft id).
Proof.
  apply statement_inv. intros n d a d' [] [= _ <-].
  constructor; cbn; auto using Forall_filter. by apply (ids_ok_filter (fun a => da_id a.1)).
Qed.

Lemma accounts_set_secret_ref_inv id r : preserves store_inv (accounts_set_secret_ref id r).
Proof.
  apply preserves_bind; [apply sql_now_inv|]. intros now. apply statement_inv.
  intros n d a d' Hd [= _ <-]. by apply update_account_ok.
Qed.

#[export] Hint Resolve drafts_create_inv drafts_update_inv drafts_delete_inv
  draft_attachments_create_inv draft_attachments_delete_all_inv accounts_set_secret_ref_inv : store.
