(* ===== verification/Attachments.v ===== *)
(** * Attachment storage (src/attachments.rs)

    File names from untrusted mail, the on-disk layout and the persistence of a
    message's attachments.  Paths are Unix paths; the storage root, which comes
    from the environment or from the database's location, is an argument.  File
    operations take their failures from the same [faults] as statements. *)

From S2P Require Import Prelude RustStr Json Op IpcProtocol McpGates McpTools McpModels MailParser ImapWindow DbCore DbMail.
#[local] Open Scope bool_scope.

Definition MAX_ATTACHMENT_BYTES : N := 25 * 1024 * 1024.

Inductive AttachmentError : Type :=
| TooLarge (filename : str) (limit : N)
| BadPath (path : str)
| AttDb (e : DbError)
| AttIo (message : str).

(** ** Unix paths ([std::path]) *)

Definition SLASH : N := 47.
Definition DOT : N := 46.

(** The components after normalisation: empty and "." ones do not count. *)
Definition components (p : str) : list str :=
  List.filter (fun c => negb (is_empty c) && negb (str_eqb c (lit "."))) (split_char SLASH p).

(** [Path::file_name]. *)
Definition file_name (p : str) : option str :=
  match last (components p) with
  | Some c => if str_eqb c (lit "..") then None else Some c
  | None => None
  end.

(** [Path::join] with a relative path. *)
Definition path_join (a b : str) : str :=
  if is_empty a || ends_with a [SLASH] then a ++ b else a ++ [SLASH] ++ b.

(** [Path::parent]: [None] for the root and the empty path. *)
Definition has_parent (p : str) : bool := negb (Nat.eqb (List.length (components p)) 0).

(** ** Names *)

Definition safe_char (ch : N) : bool :=
  is_ascii_alphanumeric ch || (ch =? 46)%N || (ch =? 45)%N || (ch =? 95)%N || (ch =? 32)%N.

Definition trim_matches (f : N -> bool) (s : str) : str := trim_end_by f (trim_start_by f s).

Definition sanitize_filename (filename : str) : str :=
  let leaf := unwrap_or filename (file_name filename) in
  let out := map (fun ch => if safe_char ch then ch else 95%N) (take 120 leaf) in
  let out := trim (trim_matches (fun c => (c =? 46)%N || (c =? 32)%N) out) in
  if is_empty out then lit "attachment.bin" else out.

(** [{:03}]. *)
Definition pad3 (n : N) : str :=
  let s := show_N n in repeat 48%N (3 - List.length s) ++ s.

Section Store.
Context `{TextParsers} (root : str).

Definition stored_attachment_path (message_id : Id) (index : nat) (filename : str) : str :=
  path_join (path_join root (uuid_to_string message_id))
    (pad3 (N.of_nat (index + 1)) ++ lit "_" ++ sanitize_filename filename).

(** ** Files *)

(** One fallible file operation. *)
Definition io_op {A} (run : World -> result str A * World) : M World AttachmentError A := fun w =>
  match faults w with
  | Some e :: rest => (Err (AttIo e), with_faults rest w)
  | _ => match run (with_faults (tail (faults w)) w) with
         | (Ok a, w') => (Ok a, w')
         | (Err e, w') => (Err (AttIo e), w')
         end
  end.

Definition lookup_file (p : str) (fs : list (str * list N)) : option (list N) :=
  snd <$> List.find (fun f => str_eqb f.1 p) fs.

(** [OpenOptions::create_new]. *)
Definition create_new (p : str) : M World AttachmentError unit :=
  io_op (fun w => match lookup_file p (files w) with
                  | Some _ => (Err (lit "file exists"), w)
                  | None => (Ok tt, with_files (files w ++ [(p, [])]) w)
                  end).

Definition write_bytes (p : str) (bytes : list N) : M World AttachmentError unit :=
  io_op (fun w => (Ok tt, with_files (map (fun f => if str_eqb f.1 p then (p, bytes) else f)
                                        (files w)) w)).

Definition write_new_file (path : str) (bytes : list N) : M World AttachmentError unit :=
  if negb (has_parent path) then mthrow (BadPath path)
  else
    io_op (fun w => (Ok tt, w));!
    create_new path;!
    write_bytes path bytes.

Fixpoint persist_loop (message_id : Id) (index : nat) (l : list ParsedAttachment)
    : M World AttachmentError (list AttachmentRow) :=
  match l with
  | [] => mret_M []
  | a :: rest =>
      if (MAX_ATTACHMENT_BYTES <? N.of_nat (List.length (pa_data a)))%N
      then mthrow (TooLarge (pa_filename a) MAX_ATTACHMENT_BYTES)
      else
        let path := stored_attachment_path message_id index (pa_filename a) in
        write_new_file path (pa_data a);!
        let! row := mmap_err AttDb (attachments_create
          (mkNewAttachment message_id (sanitize_filename (pa_filename a)) (pa_content_type a)
             (pa_content_id a) (Z.of_nat (List.length (pa_data a))) (pa_disposition a) path)) in
        let! rows := persist_loop message_id (S index) rest in
        mret_M (row :: rows)
  end.

(** [attachment_root] may query the database for its location, a fallible
    statement. *)
Definition persist_parsed_for_message (message_id : Id) (l : list ParsedAttachment)
    : M World AttachmentError (list AttachmentRow) :=
  match l with
  | [] => mret_M []
  | _ =>
      mmap_err AttDb (query (fun _ => tt));!
      persist_loop message_id 0 l
  end.
End Store.

Definition is_text_like (content_type : str) : bool :=
  let media_type := to_ascii_lowercase (trim (unwrap_or content_type (head (split_char 59 content_type)))) in
  starts_with media_type (lit "text/")
  || existsb (str_eqb media_type)
       [lit "application/json"; lit "application/xml"; lit "application/csv";
        lit "application/x-ndjson"; lit "image/svg+xml"]
  || ends_with media_type (lit "+json") || ends_with media_type (lit "+xml").

(** ** Facts: sanitised names *)

Definition edge (c : N) : bool := (c =? 46)%N || (c =? 32)%N.

(** A single, visible path component. *)
Definition safe_name (s : str) : Prop :=
  s <> [] /\ (List.length s <= 120)%nat /\ Forall (fun c => safe_char c = true) s /\
  (forall c r, s = c :: r -> edge c = false) /\ (forall c r, s = r ++ [c] -> edge c = false).

Lemma safe_char_slash c : safe_char c = true -> c <> SLASH /\ c <> 0%N.
Proof. intros Hc. split; intros ->; vm_compute in Hc; discriminate. Qed.

Lemma trim_end_by_length f s : (List.length (trim_end_by f s) <= List.length s)%nat.
Proof.
  unfold trim_end_by. rewrite length_rev. etransitivity; [apply drop_while_length|].
  by rewrite length_rev.
Qed.

Lemma trim_end_by_last_ne f s c r : trim_end_by f s = r ++ [c] -> f c = false.
Proof.
  unfold trim_end_by. intros Hx. apply (f_equal (@rev _)) in Hx.
  rewrite rev_involutive, rev_app_distr in Hx. cbn in Hx. eauto using drop_while_head.
Qed.

Lemma trim_end_by_head f s c r :
  (forall d t, s = d :: t -> f d = false) -> trim_end_by f s = c :: r -> f c = false.
Proof.
  intros Hs Hx. destruct (trim_end_by_split f s) as (w & Hw & _). rewrite Hx in Hw.
  cbn in Hw. eauto.
Qed.

Lemma trim_matches_edges f s :
  (forall c r, trim_matches f s = c :: r -> f c = false) /\
  (forall c r, trim_matches f s = r ++ [c] -> f c = false).
Proof.
  split; intros c r Hx.
  - eapply trim_end_by_head; [|exact Hx]. intros d t Hd. eauto using drop_while_head.
  - eauto using trim_end_by_last_ne.
Qed.

(** A string without blanks at its ends is trimmed. *)
Lemma trimmed_by_edges s :
  (forall c r, s = c :: r -> is_whitespace c = false) ->
  (forall c r, s = r ++ [c] -> is_whitespace c = false) -> trim s = s.
Proof.
  intros Hh Hl. unfold trim, trim_start, trim_start_by, trim_end.
  rewrite drop_while_id by done. destruct s as [|x s] using rev_ind; [done|].
  apply trim_end_by_last. eauto.
Qed.

Lemma safe_char_ws c : safe_char c = true -> edge c = false -> is_whitespace c = false.
Proof.
  unfold safe_char, edge, is_ascii_alphanumeric, is_ascii_upper, is_ascii_lower, is_ascii_digit.
  intros Hs He.
  assert (Hr : (33 <= c <= 122)%N).
  { repeat (brefl; match goal with Hx : _ \/ _ |- _ => destruct Hx end); brefl; lia. }
  clear Hs He. unfold is_whitespace.
  repeat (apply orb_false_iff; split); rewrite ?andb_false_iff, ?N.eqb_neq, ?N.leb_gt; lia.
Qed.

Lemma sanitize_safe filename : safe_name (sanitize_filename filename).
Proof.
  unfold sanitize_filename. set (leaf := unwrap_or filename (file_name filename)).
  set (out := map _ (take 120 leaf)). fold edge.
  assert (Hsafe : Forall (fun c => safe_char c = true) out).
  { unfold out. apply Forall_map, Forall_true. intros c. destruct (safe_char c) eqn:E; done. }
  assert (Hlen : (List.length out <= 120)%nat).
  { unfold out. rewrite length_map, length_take. lia. }
  destruct (trim_matches_edges edge out) as [Hh Hl].
  assert (Hs2 : Forall (fun c => safe_char c = true) (trim_matches edge out)).
  { unfold trim_matches, trim_start_by. by apply trim_end_by_Forall, drop_while_Forall. }
  assert (Htrim : trim (trim_matches edge out) = trim_matches edge out).
  { apply trimmed_by_edges; intros c r Hx.
    - apply safe_char_ws; [|eauto]. rewrite Hx in Hs2. by inversion Hs2.
    - apply safe_char_ws; [|eauto]. rewrite Hx in Hs2. apply Forall_app in Hs2 as [_ Hs2].
      by inversion Hs2. }
  change (fun c => (c =? 46)%N || (c =? 32)%N) with edge. rewrite Htrim.
  destruct (is_empty (trim_matches edge out)) eqn:E.
  - split; [done|]. split; [vm_compute; lia|]. split; [repeat constructor|].
    split; [intros c r [= <- _]; done|].
    intros c r Hx. apply (f_equal (@rev _)) in Hx. rewrite rev_app_distr in Hx.
    vm_compute in Hx. injection Hx as <- _. done.
  - apply is_empty_false in E. split; [done|]. split; [|done].
    etransitivity; [apply trim_end_by_length|]. etransitivity; [apply drop_while_length|]. done.
Qed.

(** ** Facts: paths *)

Lemma split_by_sep (f : N -> bool) a c b :
  f c = true -> split_by f (a ++ c :: b) = split_by f a ++ split_by f b.
Proof.
  intros Hc. induction a as [|x a IH]; cbn; [by rewrite Hc|].
  destruct (f x); [by rewrite IH|]. rewrite IH.
  destruct (split_by f a) as [|w ws] eqn:E; [|done]. exfalso. by destruct a as [|y a]; cbn in E;
    [|destruct (f y); [|destruct (split_by f a)]].
Qed.

Lemma components_sep a b : components (a ++ SLASH :: b) = components a ++ components b.
Proof. unfold components, split_char. by rewrite split_by_sep, List.filter_app. Qed.

Lemma components_join a b : components (path_join a b) = components a ++ components b.
Proof.
  unfold path_join. destruct (is_empty a) eqn:Ea.
  { apply is_empty_true in Ea. by subst. }
  cbn [orb]. destruct (ends_with a [SLASH]) eqn:E; [|apply components_sep].
  apply ends_with_spec in E as [r ->]. rewrite <- app_assoc. cbn [app].
  rewrite !components_sep. by rewrite app_nil_r.
Qed.

(** A string that is one component. *)
Definition plain_component (c : str) : Prop :=
  c <> [] /\ SLASH ∉ c /\ c <> lit "." /\ c <> lit "..".

Lemma split_char_none x s : x ∉ s -> split_char x s = [s].
Proof.
  unfold split_char. induction s as [|c s IH]; intros Hs; cbn; [done|].
  rewrite not_elem_of_cons in Hs. destruct Hs as [Hc Hs].
  destruct (N.eqb_spec x c); [done|]. by rewrite IH.
Qed.

Lemma components_plain c : plain_component c -> components c = [c].
Proof.
  intros (Hne & Hs & Hd & _). unfold components. rewrite split_char_none by done. cbn.
  apply is_empty_false in Hne. rewrite Hne.
  apply str_eqb_neq in Hd. by rewrite Hd.
Qed.

Lemma digits_go_safe fuel n acc :
  Forall (fun c => safe_char c = true) acc -> Forall (fun c => safe_char c = true) (digits_go fuel n acc).
Proof.
  assert (Hd : forall n, safe_char (48 + n mod 10)%N = true).
  { intros m. pose proof (N.mod_lt m 10 ltac:(lia)).
    assert (Hdig : is_ascii_digit (48 + m mod 10)%N = true).
    { unfold is_ascii_digit. apply andb_true_iff. rewrite !N.leb_le. generalize dependent (m mod 10)%N. lia. }
    unfold safe_char, is_ascii_alphanumeric. rewrite Hdig, orb_true_r. done. }
  revert n acc. induction fuel as [|k IH]; intros n acc Ha; cbn; [done|].
  destruct (n <? 10)%N; [by constructor|]. apply IH. by constructor.
Qed.

Lemma pad3_safe n : Forall (fun c => safe_char c = true) (pad3 n).
Proof.
  unfold pad3. apply Forall_app. split; [|by apply digits_go_safe].
  apply Forall_forall. intros c Hc. apply list_elem_of_In, repeat_spec in Hc. by subst.
Qed.

Lemma leaf_component i filename :
  plain_component (pad3 i ++ lit "_" ++ sanitize_filename filename).
Proof.
  assert (Hs : Forall (fun c => safe_char c = true) (pad3 i ++ lit "_" ++ sanitize_filename filename)).
  { apply Forall_app. split; [apply pad3_safe|]. apply Forall_app.
    split; [repeat constructor|]. apply sanitize_safe. }
  assert (Hu : 95%N ∈ pad3 i ++ lit "_" ++ sanitize_filename filename).
  { apply elem_of_app. right. by left. }
  split; [|split; [|split]].
  - intros Hx. rewrite Hx in Hu. by apply elem_of_nil in Hu.
  - intros Hx. rewrite Forall_forall in Hs. by apply Hs in Hx.
  - intros Hx. rewrite Hx in Hu. revert Hu. rewrite <- contains_char_spec. done.
  - intros Hx. rewrite Hx in Hu. revert Hu. rewrite <- contains_char_spec. done.
Qed.

(** C23. Untrusted file names cannot leave the store: for any file name a mail
    carries, the path its bytes are written to lies exactly two components below
    the storage root, in the message's own directory, under a name that is not
    "..", and whose part taken from the mail is a visible name of at most 120
    letters, digits, dots, dashes, underscores and inner spaces. *)
Theorem stored_path_stays_in_store `{TextParsers} root message_id index filename :
  plain_component (uuid_to_string message_id) ->
  let leaf := pad3 (N.of_nat (index + 1)) ++ lit "_" ++ sanitize_filename filename in
  components (stored_attachment_path root message_id index filename) =
    components root ++ [uuid_to_string message_id; leaf] /\
  file_name (stored_attachment_path root message_id index filename) = Some leaf /\
  safe_name (sanitize_filename filename).
Proof.
  intros Hu leaf.
  assert (Hc : components (stored_attachment_path root message_id index filename) =
               components root ++ [uuid_to_string message_id; leaf]).
  { unfold stored_attachment_path. rewrite !components_join, (components_plain (uuid_to_string _)),
      (components_plain (pad3 _ ++ _)) by (done || apply leaf_component). by rewrite <- app_assoc. }
  split; [done|]. split; [|apply sanitize_safe].
  unfold file_name. rewrite Hc.
  replace (components root ++ [uuid_to_string message_id; leaf]) with
    ((components root ++ [uuid_to_string message_id]) ++ [leaf]) by (by rewrite <- app_assoc).
  rewrite last_snoc. destruct (leaf_component (N.of_nat (index + 1)) filename) as (_ & _ & _ & Hd).
  fold leaf in Hd. apply str_eqb_neq in Hd. by rewrite Hd.
Qed.

Lemma stored_path_stays_in_store_witness :
  components (@stored_attachment_path plain_parsers (lit "/var/mail") 65%N 0
                (lit "../../etc/.passwd")) =
    [lit "var"; lit "mail"; [65%N]; lit "001_passwd"].
Proof.
  refine (eq_trans (proj1 (@stored_path_stays_in_store plain_parsers (lit "/var/mail") 65%N 0
                             (lit "../../etc/.passwd") _)) _).
  - repeat split; try discriminate. by apply contains_char_false.
  - vm_compute. reflexivity.
Defined.

(** ** Facts: persistence *)

(** File operations leave the tables alone. *)
Lemma io_op_db {A} (run : World -> result str A * World) (d : Db) :
  (forall w r w', run w = (r, w') -> db w' = db w) ->
  preserves (fun w => db w = d) (io_op run).
Proof.
  intros Hr w r w' Hd. unfold io_op.
  destruct (faults w) as [|[e|] rest]; cbn [tail]; [|intros [= <- <-]; done|];
    (destruct (run _) as [[a|e] w1] eqn:E; intros [= <- <-];
     apply Hr in E; rewrite E; done).
Qed.

Lemma write_new_file_db p b d : preserves (fun w => db w = d) (write_new_file p b).
Proof.
  unfold write_new_file. destruct (negb (has_parent p)); [apply preserves_throw|].
  apply preserves_bind; [|intros _; apply preserves_bind; [|intros _]]; apply io_op_db.
  - by intros w r w' [= <- <-].
  - intros w r w'. destruct (lookup_file p (files w)); by intros [= <- <-].
  - by intros w r w' [= <- <-].
Qed.
