(* ===== verification/AttachmentFiles.v ===== *)
(** * Attachment preview and export (src/attachments.rs)

    Files of the attachment store are [files] of the world.  An operation that
    fails does so with a fault, whose kind and, for a copy, the number of bytes
    already written are the class [HostIo]; so is how many bytes one [read]
    returns. *)

From S2P Require Import Prelude RustStr Json Op IpcProtocol McpGates McpTools McpModels MailParser Utf8 ImapWindow DbCore DbMail DbInv Attachments.
#[local] Open Scope bool_scope.

(** [std::io::ErrorKind], as far as the sources look. *)
Inductive io_kind : Type :=
| IoNotFound | IoPermissionDenied | IoAlreadyExists | IoInvalidInput | IoOther.
Record IoError : Type := mkIoError { io_error_kind : io_kind; io_error_text : str }.

Class HostIo := {
  io_kind_of : str -> io_kind;
  written_before : str -> nat;
  (** [AsyncReadExt::read] may return fewer bytes than there are. *)
  read_some : str -> nat -> nat;
  not_found_text : str;
  already_exists_text : str;
}.

Definition PREVIEW_LIMIT_BYTES : nat := N.to_nat (16 * 1024).
Lemma preview_limit : N.of_nat PREVIEW_LIMIT_BYTES = 16384%N.
Proof. apply N2Nat.id. Qed.
#[global] Opaque PREVIEW_LIMIT_BYTES.

Section Files.
Context {IO : HostIo}.

(** One file operation: on a fault [fail] is done, else [run]. *)
Definition fs_op {A} (fail : nat -> World -> World) (run : World -> result IoError A * World)
    : M World IoError A := fun w =>
  let rest := with_faults (tail (faults w)) w in
  match faults w with
  | Some e :: _ => (Err (mkIoError (io_kind_of e) e), fail (written_before e) rest)
  | _ => run rest
  end.

(** [tokio::fs::File::open] and reading to the end. *)
Definition fs_read (path : str) : M World IoError (list N) :=
  fs_op (fun _ w => w) (fun w => (ok_or (lookup_file path (files w)) (mkIoError IoNotFound not_found_text), w)).

Definition set_file (path : str) (b : list N) (fs : list (str * list N)) : list (str * list N) :=
  map (fun f => if str_eqb f.1 path then (path, b) else f) fs.

(** [OpenOptions::create_new]. *)
Definition fs_create_new (path : str) : M World IoError unit :=
  fs_op (fun _ w => w)
    (fun w => match lookup_file path (files w) with
              | Some _ => (Err (mkIoError IoAlreadyExists already_exists_text), w)
              | None => (Ok tt, with_files (files w ++ [(path, [])]) w)
              end).

(** Write to an open file; a failure leaves a part. *)
Definition fs_write_open (path : str) (b : list N) : M World IoError unit :=
  fs_op (fun k w => with_files (set_file path (take k b) (files w)) w)
    (fun w => (Ok tt, with_files (set_file path b (files w)) w)).

Definition fs_step : M World IoError unit := fs_op (fun _ w => w) (fun w => (Ok tt, w)).

(** [tokio::fs::write]: create or replace. *)
Definition replace_file (path : str) (b : list N) (fs : list (str * list N)) : list (str * list N) :=
  match lookup_file path fs with
  | Some _ => set_file path b fs
  | None => fs ++ [(path, b)]
  end.
Definition fs_write (path : str) (b : list N) : M World IoError unit :=
  fs_op (fun k w => with_files (replace_file path (take k b) (files w)) w)
    (fun w => (Ok tt, with_files (replace_file path b (files w)) w)).

(** ** Preview *)

Record AttachmentPreview : Type := mkAttachmentPreview {
  pv_attachment : AttachmentRow;
  pv_inline_text : option str;
  pv_message : str;
  pv_truncated : bool;
  pv_preview_bytes : N;
}.

(** The text shown of the bytes read. *)
Definition inline_of (buf : list N) (truncated : bool) : option str :=
  let '(text, rest) := utf8_prefix buf in
  match rest with
  | [] => Some text
  | _ => if truncated && negb (is_empty text) then Some text else None
  end.

Definition render_preview (a : AttachmentRow) (buf : list N) (truncated : bool) : AttachmentPreview :=
  let ct := na_content_type (att_cols a) in
  match inline_of buf truncated with
  | Some text =>
      mkAttachmentPreview a (Some text)
        (if truncated
         then lit "Inline UTF-8 preview (first " ++ show_N (N.of_nat PREVIEW_LIMIT_BYTES) ++ lit " bytes)"
         else lit "Inline UTF-8 preview") truncated (str_len text)
  | None => mkAttachmentPreview a None
              (lit "No inline preview: " ++ ct ++ lit " attachment is not valid UTF-8") false 0
  end.

Definition preview_attachment (a : AttachmentRow) : M World IoError AttachmentPreview :=
  let ct := na_content_type (att_cols a) in
  if negb (is_text_like ct)
  then mret_M (mkAttachmentPreview a None
                 (lit "No inline preview for " ++ ct ++ lit " attachment ("
                  ++ show_Z (na_size_bytes (att_cols a)) ++ lit " bytes)") false 0)
  else
    let path := na_storage_path (att_cols a) in
    let! content := fs_read path in
    fs_step;!
    let avail := take (PREVIEW_LIMIT_BYTES + 1) content in
    let read := take (read_some path (List.length avail)) avail in
    mret_M (render_preview a (take PREVIEW_LIMIT_BYTES read)
              (PREVIEW_LIMIT_BYTES <? List.length read)%nat).

(** ** Export *)

Record AttachmentExport : Type := mkAttachmentExport {
  ex_attachment_id : Id;
  ex_destination_path : str;
  ex_bytes_copied : N;
}.

Definition export_attachment (a : AttachmentRow) (destination : str) : M World IoError AttachmentExport :=
  let! source := fs_read (na_storage_path (att_cols a)) in
  fs_create_new destination;!
  fs_write_open destination source;!
  fs_step;!
  mret_M (mkAttachmentExport (att_id a) destination (N.of_nat (List.length source))).
End Files.

(** ** Cutting text at a byte offset *)

Lemma utf8_next_cut c k :
  is_scalar c = true -> (k < List.length (utf8_char c))%nat -> utf8_next (take k (utf8_char c)) = None.
Proof.
  intros Hs%is_scalar_range. unfold utf8_char.
  destruct (N.ltb_spec c 128); [destruct k; cbn; [done|lia]|].
  destruct (N.ltb_spec c 2048).
  { destruct k as [|[|k]]; cbn [List.length take]; intros Hk; [done| |lia]. cbn [utf8_next].
    rewrite (proj2 (N.ltb_ge _ _)) by dlia. rewrite (proj2 (N.leb_le _ _)) by dlia.
    rewrite (proj2 (N.ltb_lt _ _)) by dlia. done. }
  destruct (N.ltb_spec c 65536).
  { destruct k as [|[|[|k]]]; cbn [List.length take]; intros Hk; try done; [| |lia]; cbn [utf8_next];
    rewrite (proj2 (N.ltb_ge _ 128)), (proj2 (N.ltb_ge _ 224)), andb_false_r by dlia;
    repeat case_match; done. }
  destruct k as [|[|[|[|k]]]]; cbn [List.length take]; intros Hk; try done; [| | |lia]; cbn [utf8_next];
    rewrite (proj2 (N.ltb_ge _ 128)), (proj2 (N.ltb_ge _ 224)), andb_false_r, (proj2 (N.ltb_ge _ 240)),
      andb_false_r by dlia; repeat case_match; done.
Qed.

Lemma utf8_char_le4 c : (List.length (utf8_char c) <= 4)%nat.
Proof. unfold utf8_char. repeat case_match; cbn; lia. Qed.

(** The characters that fit in [n] bytes, and the piece of the next one. *)
Lemma take_as_bytes s : Forall (fun c => is_scalar c = true) s -> forall n,
  exists t rest r, s = t ++ rest /\ take n (as_bytes s) = as_bytes t ++ r /\ utf8_next r = None /\
    (List.length r < 4)%nat /\ (rest = [] -> r = []) /\
    (rest <> [] -> n = List.length (as_bytes t) + List.length r)%nat.
Proof.
  induction 1 as [|c s Hc HF IH]; intros n.
  - exists [], [], []. cbn. rewrite take_nil. split_and!; try done. lia.
  - cbn [as_bytes flat_map]. change (flat_map utf8_char s) with (as_bytes s).
    destruct (decide (List.length (utf8_char c) <= n)%nat) as [Hle|Hgt].
    + destruct (IH (n - List.length (utf8_char c))%nat) as (t & rest & r & -> & Ht & Hn & Hl & Hr & Hx).
      exists (c :: t), rest, r. split_and!; [done| |done..|].
      * rewrite take_app_ge, Ht by done. cbn [as_bytes flat_map]. by rewrite <- app_assoc.
      * intros Hne. specialize (Hx Hne). cbn [as_bytes flat_map]. rewrite length_app.
        change (flat_map utf8_char t) with (as_bytes t). lia.
    + exists [], (c :: s), (take n (utf8_char c)). split_and!; [done| | | |done|].
      * cbn. rewrite take_app_le by lia. done.
      * apply utf8_next_cut; [done|lia].
      * rewrite length_take. pose proof (utf8_char_le4 c). lia.
      * intros _. cbn [as_bytes flat_map List.length]. rewrite length_take. lia.
Qed.

Lemma utf8_prefix_take s n :
  Forall (fun c => is_scalar c = true) s ->
  exists t rest, s = t ++ rest /\ (List.length (as_bytes t) <= n)%nat /\
    (rest = [] -> utf8_prefix (take n (as_bytes s)) = (t, [])) /\
    (rest <> [] -> (n < List.length (as_bytes t) + 4)%nat /\
                   exists r, utf8_prefix (take n (as_bytes s)) = (t, r)).
Proof.
  intros HF. destruct (take_as_bytes s HF n) as (t & rest & r & -> & Ht & Hn & Hl & Hr & Hx).
  apply Forall_app in HF as [HFt _].
  assert (Hp : utf8_prefix (take n (as_bytes (t ++ rest))) = (t, r)) by (rewrite Ht; by apply utf8_prefix_encode).
  exists t, rest. apply (f_equal (@List.length N)) in Ht. rewrite length_take, length_app in Ht.
  split_and!; [done|lia| |].
  - intros E. rewrite Hp, Hr; done.
  - intros E. specialize (Hx E). split; [lia|eauto].
Qed.

(** ** What a preview shows *)

Lemma inline_of_text s n (truncated : bool) :
  Forall (fun c => is_scalar c = true) s -> (4 <= n)%nat ->
  truncated = (n <? List.length (as_bytes s))%nat ->
  exists t rest, s = t ++ rest /\ inline_of (take n (as_bytes s)) truncated = Some t /\
    (List.length (as_bytes t) <= n)%nat /\
    (truncated = false -> rest = []) /\
    (truncated = true -> (n < List.length (as_bytes t) + 4)%nat).
Proof.
  intros HF Hn Htr. destruct (utf8_prefix_take s n HF) as (t & rest & -> & Hl & He & Hne).
  exists t, rest. unfold inline_of. destruct rest as [|c rest].
  - rewrite app_nil_r in *. rewrite He by done. split_and!; [done..|].
    intros ->. symmetry in Htr. apply Nat.ltb_lt in Htr. lia.
  - destruct Hne as [Hlt [r Hr]]; [done|]. rewrite Hr.
    assert (Ht : truncated = true).
    { rewrite Htr. apply Nat.ltb_lt. destruct r as [|x r].
      - apply utf8_prefix_spec in Hr as (E & _). apply (f_equal (@List.length N)) in E.
        rewrite app_nil_r, length_take in E. rewrite as_bytes_app, length_app in *.
        cbn [as_bytes flat_map] in *. rewrite length_app in *.
        pose proof (utf8_char_nonempty c). destruct (utf8_char c); [done|]. cbn [List.length] in *. lia.
      - destruct (decide (List.length (as_bytes (t ++ c :: rest)) <= n)%nat) as [Hle|]; [|lia].
        rewrite take_ge in Hr by done. apply Forall_app in HF as HF'. 
        pose proof (utf8_prefix_encode (t ++ c :: rest) [] HF eq_refl) as E. rewrite app_nil_r, Hr in E.
        injection E as E _. by apply (f_equal (@List.length N)) in E; rewrite length_app in E; cbn in E; lia. }
    rewrite Ht. split_and!; [done| |done..].
    destruct r; [done|]. destruct t; [cbn in Hlt; lia|done].
Qed.

Section FileFacts.
Context {IO : HostIo}.

Lemma fs_op_Ok {A} fail (run : World -> result IoError A * World) w a w' :
  fs_op fail run w = (Ok a, w') -> run (with_faults (tail (faults w)) w) = (Ok a, w').
Proof. unfold fs_op. by destruct (faults w) as [|[e|] l]. Qed.

Lemma fs_read_Ok p w b w' :
  fs_read p w = (Ok b, w') -> lookup_file p (files w) = Some b /\ files w' = files w.
Proof.
  intros H%fs_op_Ok. cbn -[lookup_file] in H. destruct (lookup_file p (files w)) as [c|]; cbn in H; [|done].
  injection H as -> <-. by split.
Qed.

(** The preview of a text attachment whose file is valid UTF-8 is always
    text: a prefix of the file, cut between characters, of at most 16 KiB; it is
    the whole file, not marked truncated, when that fits, and otherwise is marked
    truncated and lacks less than one character of the limit. *)
Theorem preview_shows_text_prefix a s w p w' :
  is_text_like (na_content_type (att_cols a)) = true ->
  lookup_file (na_storage_path (att_cols a)) (files w) = Some (as_bytes s) ->
  Forall (fun c => is_scalar c = true) s ->
  (forall path n, read_some path n = n) ->
  preview_attachment a w = (Ok p, w') ->
  exists t rest, s = t ++ rest /\ pv_inline_text p = Some t /\ pv_preview_bytes p = str_len t /\
    (str_len t <= 16384)%N /\
    if pv_truncated p then (16384 < str_len t + 4 /\ 16384 < str_len s)%N else rest = [].
Proof.
  intros Ht Hf HF Hrd. unfold preview_attachment. rewrite Ht. cbn [negb].
  intros (b & w1 & H1 & (u & w2 & _ & H2)%mbind_M_inv_Ok)%mbind_M_inv_Ok.
  apply fs_read_Ok in H1 as [H1 _]. rewrite Hf in H1. injection H1 as <-. injection H2 as <- _.
  rewrite Hrd, firstn_all. set (tr := (_ <? _)%nat).
  assert (Htr : tr = (PREVIEW_LIMIT_BYTES <? List.length (as_bytes s))%nat).
  { unfold tr. rewrite length_take. apply eq_true_iff_eq. rewrite !Nat.ltb_lt. lia. }
  rewrite take_take, Nat.min_l by lia.
  destruct (inline_of_text s PREVIEW_LIMIT_BYTES tr HF ltac:(pose proof preview_limit; lia) Htr)
    as (t & rest & -> & Hi & Hl & Hr0 & Hr1).
  exists t, rest. unfold render_preview. rewrite Hi. cbn [pv_inline_text pv_preview_bytes pv_truncated].
  rewrite <- !as_bytes_len. pose proof preview_limit. split_and!; [done..|lia|].
  destruct tr; [|by apply Hr0]. specialize (Hr1 eq_refl). symmetry in Htr. apply Nat.ltb_lt in Htr. lia.
Qed.

(** ** What an export writes *)

Lemma lookup_set_file p b fs q :
  lookup_file q (set_file p b fs) =
  if str_eqb q p then (fun _ => b) <$> lookup_file p fs else lookup_file q fs.
Proof.
  unfold lookup_file, set_file. induction fs as [|[r c] fs IH]; cbn; [by destruct (str_eqb q p)|].
  destruct (str_eqb r p) eqn:Erp; cbn.
  - apply str_eqb_eq in Erp. subst r. destruct (str_eqb q p) eqn:Eqp.
    + apply str_eqb_eq in Eqp. subst q. by rewrite str_eqb_refl.
    + assert (Hpq : str_eqb p q = false) by (rewrite str_eqb_neq in *; congruence).
      rewrite Hpq. exact IH.
  - destruct (str_eqb q p) eqn:Eqp.
    + apply str_eqb_eq in Eqp. subst q. rewrite Erp. exact IH.
    + destruct (str_eqb r q); [done|]. exact IH.
Qed.

Lemma lookup_file_app p fs gs :
  lookup_file p (fs ++ gs) = match lookup_file p fs with Some c => Some c | None => lookup_file p gs end.
Proof.
  unfold lookup_file. induction fs as [|[q c] fs IH]; cbn; [by destruct (List.find _ gs)|].
  destruct (str_eqb q p); [done|]. exact IH.
Qed.

(** A computation that changes at most one path. *)
Definition only_touches {E A} (path : str) (m : M World E A) : Prop :=
  forall w r w', m w = (r, w') -> forall q, q <> path -> lookup_file q (files w') = lookup_file q (files w).

Lemma only_touches_bind {E A B} p (m : M World E A) (k : A -> M World E B) :
  only_touches p m -> (forall a, only_touches p (k a)) -> only_touches p (mbind_M k m).
Proof.
  intros Hm Hk w r w'. unfold mbind_M. destruct (m w) as [[a|e] w1] eqn:Em; intros H q Hq.
  - rewrite (Hk a _ _ _ H q Hq). by eapply Hm.
  - injection H as <- <-. by eapply Hm.
Qed.
Lemma only_touches_ret {E A} p (a : A) : only_touches p (mret_M a : M World E A).
Proof. by intros w r w' [= <- <-]. Qed.
Lemma only_touches_op {A} p fail (run : World -> result IoError A * World) :
  (forall k w q, q <> p -> lookup_file q (files (fail k w)) = lookup_file q (files w)) ->
  (forall w r w' q, run w = (r, w') -> q <> p -> lookup_file q (files w') = lookup_file q (files w)) ->
  only_touches p (fs_op fail run).
Proof.
  intros Hf Hr w r w' H q Hq. unfold fs_op in H. destruct (faults w) as [|[e|] l].
  - by rewrite (Hr _ _ _ _ H Hq).
  - injection H as <- <-. by rewrite Hf.
  - by rewrite (Hr _ _ _ _ H Hq).
Qed.

Lemma fs_read_files p w r w' : fs_read p w = (r, w') -> files w' = files w.
Proof. unfold fs_read, fs_op. by destruct (faults w) as [|[e|] l]; intros [= _ <-]. Qed.
Lemma only_touches_read p q : only_touches p (fs_read q).
Proof. apply only_touches_op; [done|]. by intros w r w' x [= _ <-]. Qed.
Lemma only_touches_create p : only_touches p (fs_create_new p).
Proof.
  apply only_touches_op; [done|]. intros w r w' q. destruct (lookup_file p (files w)); intros [= _ <-] Hq; [done|].
  cbn [files with_files]. rewrite lookup_file_app. destruct (lookup_file q (files w)); [done|].
  unfold lookup_file. cbn. by rewrite (proj2 (str_eqb_neq p q)).
Qed.
Lemma only_touches_write p b : only_touches p (fs_write_open p b).
Proof.
  apply only_touches_op.
  - intros k w q Hq. cbn [files with_files]. rewrite lookup_set_file, (proj2 (str_eqb_neq q p)); done.
  - intros w r w' q [= _ <-] Hq. cbn [files with_files]. by rewrite lookup_set_file, (proj2 (str_eqb_neq q p)).
Qed.
Lemma only_touches_step p : only_touches p fs_step.
Proof. apply only_touches_op; [done|]. by intros w r w' q [= _ <-]. Qed.

Lemma export_touches a dest : only_touches dest (export_attachment a dest).
Proof.
  unfold export_attachment.
  repeat first [apply only_touches_bind; [|intros] | apply only_touches_read | apply only_touches_create
               | apply only_touches_write | apply only_touches_step | apply only_touches_ret].
Qed.

Lemma create_new_existing p w c r w' :
  lookup_file p (files w) = Some c -> fs_create_new p w = (r, w') -> is_ok r = false /\ files w' = files w.
Proof.
  intros Hp. unfold fs_create_new, fs_op. cbn [files with_faults]. rewrite Hp.
  destruct (faults w) as [|[e|] l]; by intros [= <- <-].
Qed.

(** C24. An export never overwrites: every file that existed before has the same
    bytes after it, whatever fails and wherever; when it succeeds, the
    destination was free and now holds exactly the stored bytes, whose number it
    reports. *)
Theorem export_never_overwrites a dest w r w' :
  export_attachment a dest w = (r, w') ->
  (forall p c, lookup_file p (files w) = Some c -> lookup_file p (files w') = Some c) /\
  forall e, r = Ok e ->
    lookup_file dest (files w) = None /\
    lookup_file dest (files w') = lookup_file (na_storage_path (att_cols a)) (files w) /\
    exists b, lookup_file dest (files w') = Some b /\ ex_bytes_copied e = N.of_nat (List.length b) /\
      ex_destination_path e = dest.
Proof.
  intros H. pose proof (export_touches a dest _ _ _ H) as Ht. unfold export_attachment in H.
  unfold mbind_M at 1 in H. destruct (fs_read _ w) as [[b|e] w1] eqn:E1.
  2: { injection H as <- <-. split; [|done]. intros p c Hp.
       by rewrite (fs_read_files _ _ _ _ E1). }
  apply fs_read_Ok in E1 as [Hb Hf1]. unfold mbind_M at 1 in H.
  destruct (lookup_file dest (files w)) as [old|] eqn:Ed.
  - destruct (fs_create_new dest w1) as [r2 w2] eqn:E2.
    pose proof (create_new_existing dest w1 old r2 w2 ltac:(by rewrite Hf1) E2) as [Hr2 Hf2].
    destruct r2; [done|]. injection H as <- <-. rewrite Hf2, Hf1. done.
  - split.
    + intros p c Hp. rewrite Ht; [done|]. intros ->. congruence.
    + intros e ->. destruct (fs_create_new dest w1) as [[u|e2] w2] eqn:E2; [|done].
      apply fs_op_Ok in E2. cbn [files with_faults] in E2. rewrite Hf1, Ed in E2. injection E2 as _ <-.
      apply mbind_M_inv_Ok in H as ([] & w3 & H3 & (u4 & w4 & H4 & H5)%mbind_M_inv_Ok).
      apply fs_op_Ok in H3. injection H3 as <-. apply fs_op_Ok in H4. injection H4 as _ <-.
      injection H5 as <- <-. cbn [files with_faults with_files ex_bytes_copied ex_destination_path].
      assert (Hd : lookup_file dest (set_file dest b (files w ++ [(dest, [])])) = Some b).
      { rewrite lookup_set_file, str_eqb_refl, lookup_file_app, Ed.
        unfold lookup_file. cbn. by rewrite str_eqb_refl. }
      rewrite Hd, Hb. eauto 6.
Qed.
End FileFacts.

(** ** Examples *)

Definition plain_io : HostIo :=
  {| io_kind_of _ := IoOther; written_before _ := 1%nat; read_some _ n := n;
     not_found_text := lit "not found"; already_exists_text := lit "file exists" |}.
Definition example_attachment : AttachmentRow :=
  mkAttachmentRow 7 (mkNewAttachment 5 (lit "a.txt") (lit "text/plain; charset=utf-8") None 5
                       Attachment (lit "/att/5/001_a.txt")) 0.
Definition files_world (fs : list (str * list N)) (fl : list (option str)) : World :=
  mkWorld (mkDb [] [] [] [] [example_attachment] [] [] [] [] []) 10 fl (fun _ => 0%Z) 0 fs [] [].
Definition example_text : str := lit "caf" ++ [233%N].

Lemma preview_shows_text_prefix_witness :
  match preview_attachment (IO := plain_io) example_attachment
          (files_world [(lit "/att/5/001_a.txt", as_bytes example_text)] []) with
  | (Ok p, _) =>
      exists t rest, example_text = t ++ rest /\ pv_inline_text p = Some t /\
        pv_preview_bytes p = str_len t /\ (str_len t <= 16384)%N /\
        if pv_truncated p then (16384 < str_len t + 4 /\ 16384 < str_len example_text)%N else rest = []
  | _ => False
  end.
Proof.
  destruct (preview_attachment (IO := plain_io) example_attachment _) as [[p|e] w'] eqn:E;
    [|vm_compute in E; discriminate E].
  apply (preview_shows_text_prefix (IO := plain_io) example_attachment example_text
           (files_world [(lit "/att/5/001_a.txt", as_bytes example_text)] []) p w');
    [reflexivity..| |done|exact E].
  repeat constructor.
Defined.

Lemma export_never_overwrites_witness :
  let fs := [(lit "/att/5/001_a.txt", [104; 105]%N); (lit "/home/u/b", [1%N])] in
  let w' := (export_attachment (IO := plain_io) example_attachment (lit "/home/u/a") (files_world fs [])).2 in
  lookup_file (lit "/home/u/b") (files w') = Some [1%N] /\
  lookup_file (lit "/home/u/a") (files w') = Some [104; 105]%N.
Proof.
  intros fs w'.
  destruct (export_never_overwrites (IO := plain_io) example_attachment (lit "/home/u/a")
              (files_world fs []) _ w' (surjective_pairing _)) as [Hold Hnew].
  split; [apply Hold; reflexivity|].
  destruct (Hnew _ eq_refl) as (_ & -> & _). reflexivity.
Defined.
