(* ===== verification/Auth.v ===== *)
(** * Mail credentials (src/auth.rs)

    The secret is wrapped in the source only to be scrubbed when dropped; here it
    is its text.  The [Debug] rendering keeps the kind and hides the secret. *)

From S2P Require Import Prelude RustStr Json.
#[local] Open Scope bool_scope.

Inductive CredentialKind : Type := KindPassword | KindOAuth2Bearer.

Inductive MailCredential : Type := CredPassword (secret : str) | CredOAuth2Bearer (secret : str).

Definition cred_kind (c : MailCredential) : CredentialKind :=
  match c with CredPassword _ => KindPassword | CredOAuth2Bearer _ => KindOAuth2Bearer end.
Definition cred_secret (c : MailCredential) : str :=
  match c with CredPassword s | CredOAuth2Bearer s => s end.
Definition cred_is_empty (c : MailCredential) : bool := is_empty (cred_secret c).

Definition kind_debug (k : CredentialKind) : str :=
  match k with KindPassword => lit "Password" | KindOAuth2Bearer => lit "OAuth2Bearer" end.

(** [debug_struct("MailCredential").field(..).field(..).finish()]. *)
Definition cred_debug (c : MailCredential) : str :=
  lit "MailCredential { kind: " ++ kind_debug (cred_kind c) ++ lit ", secret: " ++
  [DQUOTE] ++ lit "<redacted>" ++ [DQUOTE] ++ lit " }".

(** What is printed says nothing about the secret. *)
Lemma cred_debug_redacted c c' : cred_kind c = cred_kind c' -> cred_debug c = cred_debug c'.
Proof. unfold cred_debug. by intros ->. Qed.
