(* ===== verification/Smtp.v ===== *)
(** * SMTP submission (src/smtp/mod.rs)

    The guards of [build_envelope] and [build_transport] and the classification of
    failures.  Addresses, TLS parameters and the transport are lettre's: the class
    [Lettre]; [Envelope::new] is documented to refuse an empty recipient list. *)

From S2P Require Import Prelude RustStr Json Op IpcProtocol ImapWindow Auth.
#[local] Open Scope bool_scope.

Record SmtpServer : Type := mkSmtpServer {
  srv_host : str;
  srv_port : N;
  srv_use_tls : bool;
  srv_starttls : bool;
}.

Record SmtpSubmitRequest : Type := mkSmtpSubmitRequest {
  req_server : SmtpServer;
  req_username : str;
  req_credential : MailCredential;
  req_from : str;
  req_recipients : list str;
  req_mime : list N;
}.

Inductive SmtpError : Type :=
| SmtpAuth (message : str)
| SmtpInvalidRequest (message : str)
| SmtpInvalidConfig (message : str)
| SmtpTransient (message : str)
| SmtpInternal (message : str).

Inductive SmtpSecurity : Type := Wrapper | StartTls | NoSecurity.
#[global] Instance SmtpSecurity_eq_dec : EqDecision SmtpSecurity.
Proof. solve_decision. Defined.

Inductive Mechanism : Type := Xoauth2.

(** lettre's [Tls] and the configured transport. *)
Inductive Tls : Type := TlsWrapper (host : str) | TlsRequired (host : str) | TlsNone.
Record Transport : Type := mkTransport {
  tr_host : str;
  tr_port : N;
  tr_timeout_secs : N;
  tr_user : str;
  tr_secret : str;
  tr_tls : Tls;
  tr_mechanisms : option (list Mechanism);
}.
Record Envelope : Type := mkEnvelope { env_from : str; env_to : list str }.

(** An error of lettre's transport: its text, status code and flags. *)
Record LettreError : Type := mkLettreError {
  le_text : str;
  le_status : option N;
  le_transient : bool;
  le_timeout : bool;
}.

Class Lettre := {
  (** [addr.parse::<Address>()]: the error text, or the address. *)
  address_parse : str -> result str str;
  (** [TlsParameters::new]. *)
  tls_parameters_new : str -> result str unit;
  missing_to_text : str;
  (** [AsyncSmtpTransport::send_raw]; the first argument numbers the calls. *)
  send_raw : nat -> Transport -> Envelope -> list N -> result LettreError unit;
}.

Definition security_for (server : SmtpServer) : result SmtpError SmtpSecurity :=
  match srv_use_tls server, srv_starttls server with
  | true, false => Ok Wrapper
  | false, true => Ok StartTls
  | false, false => Ok NoSecurity
  | true, true => Err (SmtpInvalidConfig (lit "smtp_use_tls and smtp_starttls cannot both be true"))
  end.

Definition chosen_mechanism (kind : CredentialKind) : option Mechanism :=
  match kind with KindOAuth2Bearer => Some Xoauth2 | KindPassword => None end.

(** [.collect::<Result<Vec<_>, _>>()]: the first error wins. *)
Fixpoint collect {E A B} (f : A -> result E B) (l : list A) : result E (list B) :=
  match l with
  | [] => Ok []
  | a :: r => b ← f a; bs ← collect f r; Ok (b :: bs)
  end.

Section Submit.
Context {LT : Lettre}.

Definition build_envelope (from : str) (recipients : list str) : result SmtpError Envelope :=
  from ← map_err (fun e => SmtpInvalidRequest (lit "bad from address: " ++ e)) (address_parse from);
  to ← collect (fun addr => map_err (fun e => SmtpInvalidRequest (lit "bad recipient address: " ++ e))
                              (address_parse addr)) recipients;
  match to with
  | [] => Err (SmtpInvalidRequest (lit "bad envelope: " ++ missing_to_text))
  | _ => Ok (mkEnvelope from to)
  end.

Definition tls_parameters (host : str) : result SmtpError unit :=
  map_err SmtpInvalidConfig (tls_parameters_new host).

Definition build_transport (request : SmtpSubmitRequest) : result SmtpError Transport :=
  let server := req_server request in
  if is_empty (trim (srv_host server)) then Err (SmtpInvalidConfig (lit "smtp host is empty"))
  else
    security ← security_for server;
    if bool_decide (security = NoSecurity) && negb (cred_is_empty (req_credential request))
    then Err (SmtpInvalidConfig (lit "refusing to send credentials over an unencrypted connection"))
    else
      tls ← match security with
            | Wrapper => _ ← tls_parameters (srv_host server); Ok (TlsWrapper (srv_host server))
            | StartTls => _ ← tls_parameters (srv_host server); Ok (TlsRequired (srv_host server))
            | NoSecurity => Ok TlsNone
            end;
      Ok (mkTransport (srv_host server) (srv_port server) 30 (req_username request)
            (cred_secret (req_credential request)) tls
            ((fun m => [m]) <$> chosen_mechanism (cred_kind (req_credential request)))).

Definition map_lettre_error (err : LettreError) : SmtpError :=
  let message := le_text err in
  if match le_status err with
     | Some code => existsb (N.eqb code) [530; 534; 535; 538]%N
     | None => false
     end
  then SmtpAuth message
  else if le_transient err || le_timeout err then SmtpTransient message
  else if is_none (le_status err)
          && contains_str (to_ascii_lowercase message) (lit "authenticat") then SmtpAuth message
  else SmtpInternal message.

(** What went to the wire: every call of [send_raw] with its outcome. *)
Record Transmission : Type := mkTransmission {
  tx_transport : Transport;
  tx_envelope : Envelope;
  tx_mime : list N;
  tx_accepted : bool;
}.

(** [LettreSmtpSubmitter::submit]. *)
Definition submit (request : SmtpSubmitRequest) : M (list Transmission) SmtpError unit := fun log =>
  match build_envelope (req_from request) (req_recipients request) with
  | Err e => (Err e, log)
  | Ok envelope =>
      match build_transport request with
      | Err e => (Err e, log)
      | Ok mailer =>
          let answer := send_raw (List.length log) mailer envelope (req_mime request) in
          (map_err map_lettre_error answer,
           log ++ [mkTransmission mailer envelope (req_mime request) (is_ok answer)])
      end
  end.
End Submit.

(** ** Properties *)

Section Facts.
Context {LT : Lettre}.

(** A secret leaves the machine only inside TLS, to the configured host. *)
Definition protected (t : Transport) : Prop :=
  match tr_tls t with
  | TlsNone => tr_secret t = []
  | TlsWrapper h | TlsRequired h => h = tr_host t
  end.

Lemma build_transport_protected request t :
  build_transport request = Ok t ->
  protected t /\ tr_host t = srv_host (req_server request) /\
  tr_port t = srv_port (req_server request) /\ tr_user t = req_username request /\
  tr_secret t = cred_secret (req_credential request).
Proof.
  unfold build_transport, security_for, protected. intros Ht.
  destruct (is_empty _); [done|].
  destruct (srv_use_tls _), (srv_starttls _); cbn in Ht; try done.
  - destruct (tls_parameters _); [|done]. by injection Ht as <-.
  - destruct (tls_parameters _); [|done]. by injection Ht as <-.
  - destruct (cred_is_empty _) eqn:Ec; cbn in Ht; [|done]. injection Ht as <-. cbn.
    by apply is_empty_true in Ec.
Qed.

Lemma collect_Ok {E A B} (f : A -> result E B) l bs :
  collect f l = Ok bs <-> Forall2 (fun a b => f a = Ok b) l bs.
Proof.
  revert bs. induction l as [|a l IH]; intros bs; cbn.
  - split; [intros [= <-]; constructor|by inversion 1].
  - unfold mbind, result_bind. destruct (f a) as [b|e] eqn:Ea; [|split; [done|inversion 1; congruence]].
    destruct (collect f l) as [cs|e] eqn:Ec.
    + split; [intros [= <-]; constructor; [done|]; by apply IH|].
      inversion 1; subst. rewrite <- IH in *. congruence.
    + split; [done|]. inversion 1; subst. rewrite <- IH in *. congruence.
Qed.

Lemma build_envelope_Ok from recipients e :
  build_envelope from recipients = Ok e ->
  address_parse from = Ok (env_from e) /\ env_to e <> [] /\
  Forall2 (fun a b => address_parse a = Ok b) recipients (env_to e).
Proof.
  unfold build_envelope, mbind, result_bind. destruct (address_parse from) as [f|]; cbn; [|done].
  destruct (collect _ recipients) as [to|] eqn:E; [|done].
  destruct to as [|t to]; [done|]. intros [= <-]. cbn. split_and!; [done..|].
  apply collect_Ok in E. eapply Forall2_impl; [exact E|]. cbn. intros a b.
  by destruct (address_parse a); cbn; [intros [= <-]|].
Qed.

(** The two outcomes of a submission. *)
Lemma submit_cases request log r log' :
  submit request log = (r, log') ->
  (log' = log /\ exists e, r = Err e) \/
  (exists t e, build_transport request = Ok t /\
     build_envelope (req_from request) (req_recipients request) = Ok e /\
     log' = log ++ [mkTransmission t e (req_mime request) (is_ok r)]).
Proof.
  unfold submit. destruct (build_envelope _ _) as [e|x]; [|intros [= <- <-]; left; eauto].
  destruct (build_transport request) as [t|x] eqn:Et; [|intros [= <- <-]; left; eauto].
  intros [= <- <-]. right. exists t, e. split_and!; [done..|].
  by destruct (send_raw _ _ _ _).
Qed.
End Facts.
