(* ===== verification/Secrets.v ===== *)
(** * Secret storage (src/secrets/mod.rs, file.rs, keyring.rs)

    The trait [SecretStore] as a class with the laws its clients rely on, and its
    two implementations.  The file store keeps one encrypted file, rewritten
    through a temporary file and a rename; every file operation may fail, a write
    after some of its bytes.  Argon2, AES-GCM and the JSON of the map are the
    class [Crypto] with their documented round trips; the OS keyring is the class
    [Keyring]. *)

From stdpp Require Import gmap.
From S2P Require Import Prelude RustStr Json McpTools.
#[local] Open Scope bool_scope.

Abbreviation Id := N (only parsing).
Abbreviation bytes := (list N) (only parsing).

Inductive KeyringSecretError : Type :=
| KPlatform (message : str)
| KStorageUnavailable (message : str)
| KNotFound
| KBadEncoding
| KTooLong (name : str) (limit : N)
| KInvalid (name reason : str)
| KAmbiguous
| KTask (message : str).

Inductive SecretError : Type :=
| SecIo (message : str)
| SecCrypto (message : str)
| SecDecode (message : str)
| SecBackend (message : str)
| SecKeyring (e : KeyringSecretError).

(** ** The trait *)

Class SecretStore (S : Type) := {
  ss_put : Id -> str -> M S SecretError unit;
  ss_get : Id -> M S SecretError (option str);
  ss_delete : Id -> M S SecretError unit;
  ss_secret_ref : Id -> str;
}.

(** What a client may rely on: the store behaves like the map [ss_view], and an
    operation that fails changes nothing. *)
Class SecretStoreLaws (S : Type) `{SecretStore S} := {
  ss_view : S -> gmap N str;
  ss_put_law id secret s r s' : ss_put id secret s = (r, s') ->
    ss_view s' = if is_ok r then <[id := secret]> (ss_view s) else ss_view s;
  ss_get_law id s r s' : ss_get id s = (r, s') ->
    ss_view s' = ss_view s /\ forall v, r = Ok v -> v = ss_view s !! id;
  ss_delete_law id s r s' : ss_delete id s = (r, s') ->
    ss_view s' = if is_ok r then delete id (ss_view s) else ss_view s;
}.

(** ** The file store *)

Definition VERSION : N := 1.
Definition SALT_LEN : nat := 16.
Definition NONCE_LEN : nat := 12.

Record KdfParams : Type := mkKdfParams { mem_kib : N; iterations : N; parallelism : N }.

Class Crypto := {
  (** [KdfParams::build] and [hash_password_into]: the key, or an error text. *)
  hash_password : KdfParams -> str -> bytes -> result str bytes;
  (** AES-256-GCM under a key and a nonce. *)
  aead_encrypt : bytes -> bytes -> bytes -> result str bytes;
  aead_decrypt : bytes -> bytes -> bytes -> option bytes;
  (** [serde_json] of [BTreeMap<AccountId, String>]. *)
  map_to_vec : gmap N str -> bytes;
  map_from_slice : bytes -> result str (gmap N str);
  aead_round_trip k n p c : aead_encrypt k n p = Ok c -> aead_decrypt k n c = Some p;
  aead_length k n p c : aead_encrypt k n p = Ok c -> List.length c = (List.length p + 16)%nat;
  map_round_trip m : map_from_slice (map_to_vec m) = Ok m;
}.

(** The disk as the store sees it, and the randomness it draws.  A failing
    operation says why and, for a write, how many bytes it wrote. *)
Record Disk : Type := mkDisk {
  dk_main : option bytes;
  dk_tmp : option bytes;
  dk_faults : list (option (str * nat));
  dk_random : nat -> bytes;
  dk_draws : nat;
}.
Definition next_fault (s : Disk) : option (str * nat) * Disk :=
  (mjoin (head (dk_faults s)),
   mkDisk (dk_main s) (dk_tmp s) (tail (dk_faults s)) (dk_random s) (dk_draws s)).
Definition with_main (b : option bytes) (s : Disk) : Disk :=
  mkDisk b (dk_tmp s) (dk_faults s) (dk_random s) (dk_draws s).
Definition with_tmp (b : option bytes) (s : Disk) : Disk :=
  mkDisk (dk_main s) b (dk_faults s) (dk_random s) (dk_draws s).

Section FileStore.
Context {CY : Crypto} {TP : TextParsers} (passphrase : str) (kdf : KdfParams) (has_parent_dir : bool).

Definition derive_key (salt : bytes) : result SecretError bytes :=
  map_err (fun e => SecCrypto (lit "argon2: " ++ e)) (hash_password kdf passphrase salt).

(** [rng.fill_bytes(&mut buf)] of a fixed-size buffer. *)
Definition fill (n : nat) (b : bytes) : bytes := take n (b ++ repeat 0%N n).

Definition encrypt (salt nonce : bytes) (m : gmap N str) : result SecretError bytes :=
  key ← derive_key salt;
  ciphertext ← map_err (fun e => SecCrypto (lit "encrypt: " ++ e)) (aead_encrypt key nonce (map_to_vec m));
  Ok ([VERSION] ++ salt ++ nonce ++ ciphertext).

Definition decrypt (b : bytes) : result SecretError (gmap N str) :=
  if (List.length b <? 1 + SALT_LEN + NONCE_LEN + 16)%nat then Err (SecDecode (lit "file too short"))
  else match b with
  | [] => Err (SecDecode (lit "file too short"))
  | v :: body =>
      if negb (v =? VERSION)%N then Err (SecDecode (lit "unknown version"))
      else
        let salt := take SALT_LEN body in
        let nonce := take NONCE_LEN (drop SALT_LEN body) in
        let ct := drop NONCE_LEN (drop SALT_LEN body) in
        key ← derive_key salt;
        match aead_decrypt key nonce ct with
        | None => Err (SecCrypto (lit "aead authentication failed"))
        | Some p => map_err (fun e => SecDecode (lit "plaintext json: " ++ e)) (map_from_slice p)
        end
  end.

(** What the bytes of the file stand for. *)
Definition contents (main : option bytes) : result SecretError (gmap N str) :=
  match main with
  | None | Some [] => Ok ∅
  | Some b => decrypt b
  end.

Definition read_map : M Disk SecretError (gmap N str) := fun s =>
  match next_fault s with
  | (Some (e, _), s) => (Err (SecIo e), s)
  | (None, s) => (contents (dk_main s), s)
  end.

(** One file operation: [fail k] is the state when it stops after [k] bytes. *)
Definition disk_op (fail : nat -> Disk -> Disk) (done : Disk -> Disk) : M Disk SecretError unit := fun s =>
  match next_fault s with
  | (Some (e, k), s) => (Err (SecIo e), fail k s)
  | (None, s) => (Ok tt, done s)
  end.

Definition random_bytes (n : nat) : M Disk SecretError bytes := fun s =>
  (Ok (fill n (dk_random s (dk_draws s))),
   mkDisk (dk_main s) (dk_tmp s) (dk_faults s) (dk_random s) (S (dk_draws s))).

(** [create_dir_all(parent)] when the path has a non-empty parent. *)
Definition ensure_parent : M Disk SecretError unit :=
  if has_parent_dir then disk_op (fun _ s => s) (fun s => s) else mret_M tt.

Definition write_map (m : gmap N str) : M Disk SecretError unit :=
  ensure_parent;!
  let! salt := random_bytes SALT_LEN in
  let! nonce := random_bytes NONCE_LEN in
  let! payload := mlift (encrypt salt nonce m) in
  disk_op (fun k => with_tmp (Some (take k payload))) (with_tmp (Some payload));!
  disk_op (fun _ s => s) (fun s => with_tmp None (with_main (dk_tmp s) s)).

(** [put] and [delete] hold the write lock, so each is one atomic step. *)
Definition file_put (account_id : Id) (secret : str) : M Disk SecretError unit :=
  let! m := read_map in
  write_map (<[account_id := secret]> m).

Definition file_get (account_id : Id) : M Disk SecretError (option str) :=
  let! m := read_map in
  mret_M (m !! account_id).

Definition file_delete (account_id : Id) : M Disk SecretError unit :=
  let! m := read_map in
  match m !! account_id with
  | Some _ => write_map (delete account_id m)
  | None => mret_M tt
  end.

(** ** Correctness of the format *)

Lemma fill_length n b : List.length (fill n b) = n.
Proof. unfold fill. rewrite length_take, length_app, repeat_length. lia. Qed.

Lemma decrypt_encrypt salt nonce m b :
  List.length salt = SALT_LEN -> List.length nonce = NONCE_LEN ->
  encrypt salt nonce m = Ok b -> b <> [] /\ decrypt b = Ok m.
Proof.
  intros Hs Hn. unfold encrypt, mbind, result_bind. destruct (derive_key salt) as [key|] eqn:Ek; [|done].
  destruct (aead_encrypt key nonce _) as [ct|] eqn:Ec; cbn [map_err]; [|done]. intros [= <-].
  split; [done|]. unfold decrypt. pose proof (aead_length _ _ _ _ Ec) as Hl.
  rewrite (proj2 (Nat.ltb_ge _ _)) by (cbn; rewrite !length_app, Hs, Hn, Hl; unfold SALT_LEN, NONCE_LEN; lia).
  cbn [app]. rewrite N.eqb_refl. cbn [negb].
  rewrite <- Hs, <- Hn. rewrite take_app_length, drop_app_length, take_app_length, drop_app_length.
  unfold mbind, result_bind. rewrite Ek, (aead_round_trip _ _ _ _ Ec), map_round_trip. done.
Qed.

Lemma ensure_parent_main s r s' : ensure_parent s = (r, s') -> dk_main s' = dk_main s.
Proof.
  unfold ensure_parent, disk_op, next_fault. destruct has_parent_dir; [|by intros [= <- <-]].
  destruct (mjoin _) as [[e k]|]; by intros [= <- <-].
Qed.

(** Writing the map either puts it in place of the file or leaves the file
    alone. *)
Lemma write_map_cases m s r s' :
  write_map m s = (r, s') ->
  if is_ok r then contents (dk_main s') = Ok m else dk_main s' = dk_main s.
Proof.
  unfold write_map, mbind_M at 1. intros H. destruct (ensure_parent s) as [r1 s1] eqn:E1.
  apply ensure_parent_main in E1 as Hm1. destruct r1 as [[]|e]; [|by injection H as <- <-].
  rewrite <- Hm1. clear E1 Hm1 s. revert H. unfold mbind_M, random_bytes, mlift. cbn -[fill encrypt disk_op].
  destruct (encrypt _ _ m) as [b|e] eqn:Eb; [|by intros [= <- <-]].
  apply decrypt_encrypt in Eb as [Hne Hd]; [|apply fill_length..].
  unfold disk_op, next_fault. cbn. destruct (mjoin (head (dk_faults s1))) as [[e k]|]; [by intros [= <- <-]|].
  cbn. destruct (mjoin _) as [[e k]|]; [by intros [= <- <-]|].
  intros [= <- <-]. cbn. unfold contents. destruct b; [done|]. exact Hd.
Qed.

Lemma read_map_cases s r s' :
  read_map s = (r, s') -> dk_main s' = dk_main s /\ (forall m, r = Ok m -> contents (dk_main s) = Ok m).
Proof.
  unfold read_map, next_fault. destruct (mjoin _) as [[e k]|]; intros [= <- <-]; cbn; split; done.
Qed.

(** [secret_ref] is the trait's default. *)
Definition file_store : SecretStore Disk :=
  {| ss_put := file_put; ss_get := file_get; ss_delete := file_delete;
    ss_secret_ref := fun id => lit "account:" ++ uuid_to_string id |}.

(** ** The file store is a map *)

Inductive secret_op : Type :=
| SPut (id : Id) (secret : str)
| SGet (id : Id)
| SDelete (id : Id).

(** The answers of the store: [get] yields a value, the others nothing. *)
Definition run_op (op : secret_op) : M Disk SecretError (option str) :=
  match op with
  | SPut id secret => file_put id secret;! mret_M None
  | SGet id => file_get id
  | SDelete id => file_delete id;! mret_M None
  end.

Fixpoint run_ops (ops : list secret_op) (s : Disk) : list (result SecretError (option str)) * Disk :=
  match ops with
  | [] => ([], s)
  | op :: rest =>
      let '(a, s) := run_op op s in
      let '(answers, s) := run_ops rest s in (a :: answers, s)
  end.

(** The abstract store: a map.  An operation may fail, and then has no effect. *)
Inductive spec_step : gmap N str -> secret_op -> result SecretError (option str) -> gmap N str -> Prop :=
| spec_put m id secret : spec_step m (SPut id secret) (Ok None) (<[id := secret]> m)
| spec_get m id : spec_step m (SGet id) (Ok (m !! id)) m
| spec_delete m id : spec_step m (SDelete id) (Ok None) (delete id m)
| spec_fails m op e : spec_step m op (Err e) m.

Inductive spec_run : gmap N str -> list secret_op -> list (result SecretError (option str)) ->
    gmap N str -> Prop :=
| spec_nil m : spec_run m [] [] m
| spec_cons m op a m1 ops answers m2 :
    spec_step m op a m1 -> spec_run m1 ops answers m2 ->
    spec_run m (op :: ops) (a :: answers) m2.

(** One operation simulates one abstract step, and an unreadable file is left
    as it is. *)
Lemma run_op_cases op s a s' :
  run_op op s = (a, s') ->
  match contents (dk_main s) with
  | Ok m => exists m', contents (dk_main s') = Ok m' /\ spec_step m op a m'
  | Err _ => dk_main s' = dk_main s /\ is_ok a = false
  end.
Proof.
  assert (Hw : forall m m1 s1 b s2,
    dk_main s1 = dk_main s -> contents (dk_main s) = Ok m -> write_map m1 s1 = (b, s2) ->
    contents (dk_main s2) = if is_ok b then Ok m1 else Ok m).
  { intros m m1 s1 b s2 E1 Em H%write_map_cases. destruct b; cbn in *; [done|]. by rewrite H, E1. }
  destruct op as [id secret|id|id]; cbn [run_op]; unfold file_put, file_get, file_delete, mbind_M, mret_M;
    destruct (read_map s) as [[m|e] s1] eqn:Er; apply read_map_cases in Er as [E1 Em];
    try (intros [= <- <-]; rewrite E1; destruct (contents (dk_main s));
         [eexists; split; [done|constructor]|done]);
    specialize (Em m eq_refl); rewrite Em; intros H.
  - destruct (write_map _ s1) as [[[]|e] s2] eqn:E2; injection H as <- <-;
      apply (Hw _ _ _ _ _ E1 Em) in E2; cbn in E2; rewrite E2; eexists; (split; [done|constructor]).
  - injection H as <- <-. rewrite E1, Em. eexists. split; [done|constructor].
  - destruct (m !! id) eqn:Ei.
    + destruct (write_map _ s1) as [[[]|e] s2] eqn:E2; injection H as <- <-;
        apply (Hw _ _ _ _ _ E1 Em) in E2; cbn in E2; rewrite E2; eexists; (split; [done|constructor]).
    + injection H as <- <-. rewrite E1, Em. eexists. split; [done|].
      rewrite <- (delete_id m id) at 2 by done. constructor.
Qed.

(** C26. The file store refines a map from accounts to secrets: whatever the
    file operations that fail, wherever they stop, each answer of every sequence
    of puts, gets and deletes is one the map could give, and afterwards the file
    still decrypts to the map reached. *)
Theorem file_store_refines_map ops s m answers s' :
  contents (dk_main s) = Ok m -> run_ops ops s = (answers, s') ->
  exists m', contents (dk_main s') = Ok m' /\ spec_run m ops answers m'.
Proof.
  revert s m answers. induction ops as [|op ops IH]; cbn; intros s m answers Hm H.
  - injection H as <- <-. eexists. split; [done|constructor].
  - destruct (run_op op s) as [a s1] eqn:E1. destruct (run_ops ops s1) as [l s2] eqn:E2.
    injection H as <- <-. apply run_op_cases in E1. rewrite Hm in E1. destruct E1 as (m1 & Hm1 & Hs).
    destruct (IH _ _ _ Hm1 E2) as (m2 & Hm2 & Hr). eexists. split; [done|]. by econstructor.
Qed.

(** A file that does not decrypt (another passphrase, a foreign file) survives
    every operation. *)
Lemma unreadable_file_untouched ops s e answers s' :
  contents (dk_main s) = Err e -> run_ops ops s = (answers, s') ->
  dk_main s' = dk_main s /\ Forall (fun a => is_ok a = false) answers.
Proof.
  revert s answers. induction ops as [|op ops IH]; cbn; intros s answers He H.
  - by injection H as <- <-.
  - destruct (run_op op s) as [a s1] eqn:E1. destruct (run_ops ops s1) as [l s2] eqn:E2.
    injection H as <- <-. apply run_op_cases in E1. rewrite He in E1. destruct E1 as [Hm Ha].
    rewrite <- Hm in He. destruct (IH _ _ He E2) as [Hm2 HF]. split; [congruence|by constructor].
Qed.

(** The file store as the trait's clients see it. *)
Definition file_view (s : Disk) : gmap N str :=
  match contents (dk_main s) with Ok m => m | Err _ => ∅ end.
End FileStore.

Section FileLaws.
Context {CY : Crypto} {TP : TextParsers} (passphrase : str) (kdf : KdfParams) (has_parent_dir : bool).

Lemma file_view_step op s a s' :
  run_op passphrase kdf has_parent_dir op s = (a, s') ->
  exists m, file_view passphrase kdf s' = m /\ spec_step (file_view passphrase kdf s) op a m.
Proof.
  intros H%run_op_cases. unfold file_view. destruct (contents _ _ (dk_main s)) as [m|e] eqn:E.
  - destruct H as (m' & -> & Hs). eauto.
  - destruct H as [Hm Ha]. rewrite Hm, E. destruct a; [done|]. eexists. split; [done|constructor].
Qed.

(** The file store keeps the laws of the trait. *)
#[global] Instance file_store_laws :
  @SecretStoreLaws Disk (file_store passphrase kdf has_parent_dir).
Proof.
  refine {| ss_view := file_view passphrase kdf |}; cbn.
  - intros id secret s r s' H.
    assert (Hr : run_op passphrase kdf has_parent_dir (SPut id secret) s =
                 (match r with Ok _ => Ok None | Err e => Err e end, s')).
    { cbn. unfold mbind_M at 1. rewrite H. by destruct r. }
    apply file_view_step in Hr as (m & <- & Hs). destruct r; inversion Hs; by subst.
  - intros id s r s' H. apply (file_view_step (SGet id)) in H as (m & <- & Hs).
    inversion Hs; subst; (split; [done|]); by intros v [= <-].
  - intros id s r s' H.
    assert (Hr : run_op passphrase kdf has_parent_dir (SDelete id) s =
                 (match r with Ok _ => Ok None | Err e => Err e end, s')).
    { cbn. unfold mbind_M at 1. rewrite H. by destruct r. }
    apply file_view_step in Hr as (m & <- & Hs). destruct r; inversion Hs; by subst.
Qed.
End FileLaws.

(** ** The OS keyring *)

Inductive KeyringApiError : Type :=
| PlatformFailure (text : str)
| NoStorageAccess (text : str)
| NoEntry
| BadEncoding
| TooLong (name : str) (limit : N)
| Invalid (name reason : str)
| Ambiguous
| OtherKeyringError (text : str).

(** The keyring crate: an entry is named by a service and a user.  [spawn] says
    whether a blocking task ran to its end. *)
Class Keyring (K : Type) := {
  entry_new : str -> str -> result KeyringApiError unit;
  set_password : str -> str -> str -> M K KeyringApiError unit;
  get_password : str -> str -> M K KeyringApiError str;
  delete_credential : str -> str -> M K KeyringApiError unit;
  spawn_blocking : M K str unit;
}.

Definition map_keyring_error (err : KeyringApiError) : KeyringSecretError :=
  match err with
  | PlatformFailure e => KPlatform e
  | NoStorageAccess e => KStorageUnavailable e
  | NoEntry => KNotFound
  | BadEncoding => KBadEncoding
  | TooLong name limit => KTooLong name limit
  | Invalid name reason => KInvalid name reason
  | Ambiguous => KAmbiguous
  | OtherKeyringError e => KPlatform e
  end.

Section KeyringStore.
Context {K : Type} {KR : Keyring K} {TP : TextParsers} (service : str).

Definition account_key (account_id : Id) : str := uuid_to_string account_id.
Definition keyring_ref (account_id : Id) : str :=
  lit "keyring:" ++ service ++ lit ":" ++ account_key account_id.

Definition keyring_entry (account_id : Id) : M K KeyringSecretError unit :=
  mlift (map_err map_keyring_error (entry_new service (account_key account_id))).

(** [spawn_blocking(f).await.map_err(Task)??]. *)
Definition blocking {A} (f : M K KeyringSecretError A) : M K SecretError A :=
  mmap_err (fun e => SecKeyring (KTask e)) spawn_blocking;!
  mmap_err SecKeyring f.

Definition keyring_put (account_id : Id) (secret : str) : M K SecretError unit :=
  blocking (keyring_entry account_id;!
            mmap_err map_keyring_error (set_password service (account_key account_id) secret)).

(** A missing entry is an answer, not an error. *)
Definition absent_ok {A} (d : A) (m : M K KeyringApiError A) : M K KeyringSecretError A := fun k =>
  match m k with
  | (Ok a, k') => (Ok a, k')
  | (Err NoEntry, k') => (Ok d, k')
  | (Err e, k') => (Err (map_keyring_error e), k')
  end.

Definition keyring_get (account_id : Id) : M K SecretError (option str) :=
  blocking (keyring_entry account_id;!
            absent_ok None (let! p := get_password service (account_key account_id) in
                            mret_M (Some p))).

Definition keyring_delete (account_id : Id) : M K SecretError unit :=
  blocking (keyring_entry account_id;!
            absent_ok tt (delete_credential service (account_key account_id))).

Definition keyring_store : SecretStore K :=
  {| ss_put := keyring_put; ss_get := keyring_get; ss_delete := keyring_delete;
     ss_secret_ref := keyring_ref |}.

(** Entries of different accounts have different names. *)
Lemma account_key_inj a b : account_key a = account_key b -> a = b.
Proof.
  unfold account_key. intros H. pose proof (uuid_round_trip a) as Ha. rewrite H in Ha.
  rewrite uuid_round_trip in Ha. congruence.
Qed.
End KeyringStore.

(** ** A concrete instance for examples: the identity cipher with a zero tag *)

Definition plain_crypto : Crypto.
Proof.
  refine {| hash_password _ p _ := Ok p;
            aead_encrypt _ _ p := Ok (p ++ repeat 0%N 16);
            aead_decrypt _ _ c := Some (take (List.length c - 16) c);
            map_to_vec m := [Npos (encode m)];
            map_from_slice b := match b with
                                | [Npos p] => ok_or (decode p) (lit "bad map")
                                | _ => Err (lit "bad map")
                                end |}.
  - intros k n p c [= <-]. rewrite length_app. cbn [List.length repeat].
    by rewrite Nat.add_sub, take_app_length.
  - intros k n p c [= <-]. by rewrite length_app.
  - intros m. by rewrite decode_encode.
Defined.

Definition example_disk : Disk := mkDisk None None [None; None; Some (lit "disk full", 3%nat)] (fun _ => []) 0.
Definition example_ops : list secret_op :=
  [SPut 1 (lit "pw"); SPut 2 (lit "other"); SGet 1; SDelete 1; SGet 1].

Lemma file_store_refines_map_witness :
  exists m, contents (CY := plain_crypto) (lit "k") (mkKdfParams 8 1 1)
    (dk_main (run_ops (CY := plain_crypto) (lit "k") (mkKdfParams 8 1 1) false example_ops example_disk).2)
      = Ok m /\
    spec_run ∅ example_ops
      (run_ops (CY := plain_crypto) (lit "k") (mkKdfParams 8 1 1) false example_ops example_disk).1 m.
Proof.
  apply (file_store_refines_map (CY := plain_crypto) (lit "k") (mkKdfParams 8 1 1) false
           example_ops example_disk); [reflexivity|].
  apply surjective_pairing.
Defined.
