(* ===== verification/OAuth.v ===== *)
(** * Google OAuth (src/oauth/google.rs)

    Configuration checks, the authorisation URL, token responses, refresh and the
    token kept in the secret store.  The HTTP exchange with the token endpoint is
    the class [TokenEndpoint], the clock an argument; times are nanoseconds. *)

From stdpp Require Import gmap.
From S2P Require Import Prelude RustStr Json McpTools McpGates McpModels MailParser Utf8 Secrets.
#[local] Open Scope bool_scope.

Abbreviation time := Z (only parsing).

Definition AUTH_ENDPOINT : str := lit "https://accounts.google.com/o/oauth2/v2/auth".
Definition GMAIL_SCOPE : str := lit "https://mail.google.com/".
Definition REFRESH_SKEW_SECONDS : Z := 60.
Definition MAX_EXPIRES_IN_SECONDS : Z := 24 * 60 * 60.
Definition seconds (n : Z) : Z := n * 1000000000.
(** [DateTime::<Utc>::MAX_UTC], to the second. *)
Definition MAX_UTC : Z := seconds 8210266876799.

Record GoogleOAuthConfig : Type := mkGoogleOAuthConfig {
  client_id : str;
  client_secret : str;
  redirect_uri : str;
  scopes : list str;
}.
Definition gmail (id secret uri : str) : GoogleOAuthConfig :=
  mkGoogleOAuthConfig id secret uri [GMAIL_SCOPE].

Record GoogleOAuthToken : Type := mkGoogleOAuthToken {
  access_token : str;
  refresh_token : str;
  expires_at : time;
  token_type : str;
  token_scope : option str;
}.

Record StoredGoogleOAuth : Type := mkStoredGoogleOAuth {
  stored_config : GoogleOAuthConfig;
  stored_token : GoogleOAuthToken;
}.

Inductive GoogleOAuthError : Type :=
| InvalidInput (message : str)
| MissingRefreshToken
| HttpStatus (status : N)
| HttpError (text : str)
| OAuthSecret (e : SecretError)
| OAuthDecode (message : str).

(** ** Validation *)

Definition validate_non_empty (field value : str) : result GoogleOAuthError unit :=
  if is_empty (trim value) then Err (InvalidInput (field ++ lit " must be non-empty")) else Ok tt.

Definition validate_gmail_scope (c : GoogleOAuthConfig) : result GoogleOAuthError unit :=
  if bool_decide (scopes c = [GMAIL_SCOPE]) then Ok tt
  else Err (InvalidInput (lit "only the Gmail OAuth scope is supported")).

Definition validate_for_auth_url (c : GoogleOAuthConfig) (state : str) : result GoogleOAuthError unit :=
  _ ← validate_non_empty (lit "client_id") (client_id c);
  _ ← validate_non_empty (lit "redirect_uri") (redirect_uri c);
  _ ← validate_non_empty (lit "state") state;
  validate_gmail_scope c.

Definition validate_for_token_request (c : GoogleOAuthConfig) : result GoogleOAuthError unit :=
  _ ← validate_non_empty (lit "client_id") (client_id c);
  _ ← validate_non_empty (lit "client_secret") (client_secret c);
  _ ← validate_non_empty (lit "redirect_uri") (redirect_uri c);
  validate_gmail_scope c.

(** ** The authorisation URL *)

Definition unreserved (b : N) : bool :=
  is_ascii_alphanumeric b || (b =? 45)%N || (b =? 46)%N || (b =? 95)%N || (b =? 126)%N.
Definition hex_digit (d : N) : N := if (d <? 10)%N then (48 + d)%N else (55 + d)%N.
Definition encode_byte (b : N) : str :=
  if unreserved b then [b] else [37%N; hex_digit (b / 16); hex_digit (b mod 16)].
Definition percent_encode (input : str) : str := flat_map encode_byte (as_bytes input).

Definition auth_params (c : GoogleOAuthConfig) (state : str) : list (str * str) :=
  [(lit "client_id", client_id c);
   (lit "redirect_uri", redirect_uri c);
   (lit "response_type", lit "code");
   (lit "scope", join (lit " ") (scopes c));
   (lit "state", state);
   (lit "access_type", lit "offline");
   (lit "prompt", lit "consent")].

Definition encode_param (p : str * str) : str := percent_encode p.1 ++ lit "=" ++ percent_encode p.2.

Definition authorization_url (c : GoogleOAuthConfig) (state : str) : result GoogleOAuthError str :=
  _ ← validate_for_auth_url c state;
  Ok (AUTH_ENDPOINT ++ lit "?" ++ join (lit "&") (map encode_param (auth_params c state))).

Definition xoauth2_sasl_string (username token : str) : str :=
  lit "user=" ++ username ++ [1%N] ++ lit "auth=Bearer " ++ token ++ [1%N; 1%N].

(** ** Tokens *)

Definition needs_refresh (t : GoogleOAuthToken) (now : time) : bool :=
  (expires_at t <=? now + seconds REFRESH_SKEW_SECONDS)%Z.

Record TokenEndpointResponse : Type := mkTokenEndpointResponse {
  ter_access_token : str;
  ter_expires_in : Z;
  ter_refresh_token : option str;
  ter_token_type : str;
  ter_scope : option str;
}.

Definition checked_add_signed (t d : Z) : option Z :=
  if (t + d <=? MAX_UTC)%Z then Some (t + d)%Z else None.

(** The response's refresh token, else the one there was. *)
Definition pick_refresh_token (fresh existing : option str) : result GoogleOAuthError str :=
  match opt_filter (fun s => negb (is_empty s)) fresh with
  | Some t => Ok t
  | None => ok_or (opt_filter (fun s => negb (is_empty s)) existing) MissingRefreshToken
  end.

Definition into_token (now : time) (r : TokenEndpointResponse) (existing : option str)
    : result GoogleOAuthError GoogleOAuthToken :=
  _ ← validate_non_empty (lit "access_token") (ter_access_token r);
  if (ter_expires_in r <=? 0)%Z then Err (InvalidInput (lit "expires_in must be positive"))
  else
    let expires_in := Z.min (ter_expires_in r) MAX_EXPIRES_IN_SECONDS in
    expires_at ← ok_or (checked_add_signed now (seconds expires_in))
                   (InvalidInput (lit "expires_in out of range"));
    refresh_token ← pick_refresh_token (ter_refresh_token r) existing;
    Ok (mkGoogleOAuthToken (ter_access_token r) refresh_token expires_at (ter_token_type r)
          (ter_scope r)).

(** The token endpoint, as [post_token_form] sees it: a transport error, a
    status, or the decoded body.  The first argument numbers the requests. *)
Class TokenEndpoint := {
  post_form : nat -> list (str * str) -> result str (N * result str TokenEndpointResponse);
}.

Definition is_success (status : N) : bool := (200 <=? status)%N && (status <? 300)%N.

Section HttpClient.
Context {EP : TokenEndpoint}.

Definition post_token_form (n : nat) (form : list (str * str))
    : result GoogleOAuthError TokenEndpointResponse :=
  match post_form n form with
  | Err e => Err (HttpError e)
  | Ok (status, body) =>
      if negb (is_success status) then Err (HttpStatus status) else map_err HttpError body
  end.

Definition exchange_form (c : GoogleOAuthConfig) (code : str) : list (str * str) :=
  [(lit "client_id", client_id c); (lit "client_secret", client_secret c); (lit "code", code);
   (lit "grant_type", lit "authorization_code"); (lit "redirect_uri", redirect_uri c)].

Definition http_exchange_code (n : nat) (now : time) (c : GoogleOAuthConfig) (code : str)
    : result GoogleOAuthError GoogleOAuthToken :=
  _ ← validate_for_token_request c;
  _ ← validate_non_empty (lit "code") code;
  response ← post_token_form n (exchange_form c code);
  into_token now response None.

Definition refresh_form (c : GoogleOAuthConfig) (t : GoogleOAuthToken) : list (str * str) :=
  [(lit "client_id", client_id c); (lit "client_secret", client_secret c);
   (lit "grant_type", lit "refresh_token"); (lit "refresh_token", refresh_token t)].

Definition http_refresh_token (n : nat) (now : time) (c : GoogleOAuthConfig) (t : GoogleOAuthToken)
    : result GoogleOAuthError GoogleOAuthToken :=
  _ ← validate_for_token_request c;
  _ ← validate_non_empty (lit "refresh_token") (refresh_token t);
  response ← post_token_form n (refresh_form c t);
  into_token now response (Some (refresh_token t)).
End HttpClient.

(** ** The stored token *)

Section Stored.
Context {TP : TextParsers} {JC : JsonCodec} {S : Type} {SS : SecretStore S}.
(** The text of serde's error on a stored secret that does not decode. *)
Context (decode_error_text : str -> str).

Definition token_to_json (t : GoogleOAuthToken) : value :=
  json [(lit "access_token", VString (access_token t)); (lit "refresh_token", VString (refresh_token t));
        (lit "expires_at", VString (to_rfc3339 (expires_at t)));
        (lit "token_type", VString (token_type t)); (lit "scope", opt_str_to_json (token_scope t))].
Definition token_of_json (v : value) : option GoogleOAuthToken :=
  a ← vget v (lit "access_token") ≫= as_str;
  r ← vget v (lit "refresh_token") ≫= as_str;
  e ← vget v (lit "expires_at") ≫= time_of_json;
  ty ← vget v (lit "token_type") ≫= as_str;
  sc ← opt_field as_str v (lit "scope");
  Some (mkGoogleOAuthToken a r e ty sc).

Definition stored_to_json (s : StoredGoogleOAuth) : value :=
  let c := stored_config s in
  json [(lit "client_id", VString (client_id c)); (lit "client_secret", VString (client_secret c));
        (lit "redirect_uri", VString (redirect_uri c));
        (lit "scopes", VArray (map VString (scopes c)));
        (lit "token", token_to_json (stored_token s))].
Definition stored_of_json (v : value) : option StoredGoogleOAuth :=
  ci ← vget v (lit "client_id") ≫= as_str;
  cs ← vget v (lit "client_secret") ≫= as_str;
  ru ← vget v (lit "redirect_uri") ≫= as_str;
  sc ← (vget v (lit "scopes") ≫= as_array) ≫= traverse as_str;
  t ← vget v (lit "token") ≫= token_of_json;
  Some (mkStoredGoogleOAuth (mkGoogleOAuthConfig ci cs ru sc) t).

Definition load_stored_oauth (account_id : N) : M S GoogleOAuthError (option StoredGoogleOAuth) :=
  let! secret := mmap_err OAuthSecret (ss_get account_id) in
  match secret with
  | None => mret_M None
  | Some text =>
      match from_str text ≫= stored_of_json with
      | Some s => mret_M (Some s)
      | None => mthrow (OAuthDecode (lit "stored oauth json: " ++ decode_error_text text))
      end
  end.

Definition store_stored_oauth (account_id : N) (stored : StoredGoogleOAuth)
    : M S GoogleOAuthError unit :=
  mmap_err OAuthSecret (ss_put account_id (to_string (stored_to_json stored))).
End Stored.

(** ** Properties: the URL *)

(** Reading a query string back: split at [&], then at the first [=], and undo
    the percent encoding to bytes. *)
Definition hex_value (c : N) : option N :=
  if is_ascii_digit c then Some (c - 48)%N
  else if (65 <=? c)%N && (c <=? 70)%N then Some (c - 55)%N else None.
Fixpoint percent_decode (s : str) : option (list N) :=
  match s with
  | [] => Some []
  | c :: r =>
      if (c =? 37)%N then
        match r with
        | a :: b :: r' => x ← hex_value a; y ← hex_value b; rest ← percent_decode r';
                          Some (x * 16 + y :: rest)%N
        | _ => None
        end
      else rest ← percent_decode r; Some (c :: rest)
  end.
Fixpoint split_once (c : N) (s : str) : option (str * str) :=
  match s with
  | [] => None
  | d :: r => if (c =? d)%N then Some ([], r)
              else p ← split_once c r; Some (d :: p.1, p.2)
  end.
Definition read_param (s : str) : option (list N * list N) :=
  p ← split_once 61 s; k ← percent_decode p.1; v ← percent_decode p.2; Some (k, v).

Lemma hex_value_digit d : (d < 16)%N -> hex_value (hex_digit d) = Some d.
Proof.
  intros Hd. unfold hex_value, hex_digit, is_ascii_digit.
  destruct (N.ltb_spec d 10).
  - rewrite (proj2 (N.leb_le 48 (48 + d))), (proj2 (N.leb_le (48 + d) 57)) by lia. cbn. f_equal. lia.
  - rewrite (proj2 (N.leb_le 48 (55 + d))), (proj2 (N.leb_gt (55 + d) 57)) by lia. cbn.
    rewrite (proj2 (N.leb_le 65 (55 + d))), (proj2 (N.leb_le (55 + d) 70)) by lia. cbn. f_equal. lia.
Qed.

Lemma hex_digit_range d : (d < 16)%N -> (48 <= hex_digit d <= 57 \/ 65 <= hex_digit d <= 70)%N.
Proof. unfold hex_digit. destruct (N.ltb_spec d 10); lia. Qed.

(** Encoded text has no separator. *)
Definition encoded_char (c : N) : Prop := unreserved c = true \/ c = 37%N.
Lemma encode_byte_chars b : (b < 256)%N -> Forall encoded_char (encode_byte b).
Proof.
  intros Hb. unfold encode_byte. destruct (unreserved b) eqn:E; [apply Forall_singleton; by left|].
  assert (Hd : forall d, (d < 16)%N -> encoded_char (hex_digit d)).
  { intros d Hd. left. unfold unreserved, is_ascii_alphanumeric, is_ascii_upper, is_ascii_digit.
    destruct (hex_digit_range d Hd) as [[? ?]|[? ?]].
    - rewrite (proj2 (N.leb_le 48 (hex_digit d))), (proj2 (N.leb_le (hex_digit d) 57)) by lia.
      by rewrite !orb_true_r.
    - rewrite (proj2 (N.leb_le 65 (hex_digit d))), (proj2 (N.leb_le (hex_digit d) 90)) by lia.
      done. }
  assert (b / 16 < 16)%N by (apply N.Div0.div_lt_upper_bound; lia).
  assert (b mod 16 < 16)%N by (apply N.mod_lt; lia).
  rewrite !Forall_cons. split_and!; auto. by right.
Qed.

Lemma utf8_char_bytes c : is_scalar c = true -> Forall (fun b => b < 256)%N (utf8_char c).
Proof.
  intros Hc%is_scalar_range. unfold utf8_char.
  repeat case_match; brefl; repeat constructor; dlia.
Qed.

Lemma as_bytes_lt s : Forall (fun c => is_scalar c = true) s -> Forall (fun b => b < 256)%N (as_bytes s).
Proof.
  induction 1 as [|c s Hc _ IH]; cbn; [constructor|]. apply Forall_app.
  split; [by apply utf8_char_bytes|done].
Qed.

Lemma percent_encode_chars s :
  Forall (fun c => is_scalar c = true) s -> Forall encoded_char (percent_encode s).
Proof.
  intros HF%as_bytes_lt. unfold percent_encode. induction HF as [|b bs Hb _ IH]; cbn; [constructor|].
  apply Forall_app. split; [by apply encode_byte_chars|done].
Qed.

Lemma percent_decode_byte b r :
  (b < 256)%N -> percent_decode (encode_byte b ++ r) = (fun rest => b :: rest) <$> percent_decode r.
Proof.
  intros Hb. unfold encode_byte. destruct (unreserved b) eqn:E; cbn [app percent_decode].
  - destruct (N.eqb_spec b 37) as [->|_]; [vm_compute in E; discriminate|].
    by destruct (percent_decode r).
  - rewrite N.eqb_refl, !hex_value_digit by dlia. cbn.
    destruct (percent_decode r) as [rest|]; cbn; [|done]. do 2 f_equal.
    pose proof (N.div_mod' b 16). lia.
Qed.

Lemma percent_decode_encode s :
  Forall (fun c => is_scalar c = true) s -> percent_decode (percent_encode s) = Some (as_bytes s).
Proof.
  intros HF%as_bytes_lt. unfold percent_encode. induction HF as [|b bs Hb _ IH]; cbn; [done|].
  by rewrite percent_decode_byte, IH.
Qed.

Lemma encoded_not c x : encoded_char c -> unreserved x = false -> x <> 37%N -> (x =? c)%N = false.
Proof. intros [Hc| ->] Hx Hn; apply N.eqb_neq; [congruence|done]. Qed.

Lemma split_once_app c a b :
  Forall (fun d => (c =? d)%N = false) a -> split_once c (a ++ c :: b) = Some (a, b).
Proof.
  induction 1 as [|d a Hd _ IH]; cbn; [by rewrite N.eqb_refl|]. by rewrite Hd, IH.
Qed.

Lemma read_encode_param k v :
  Forall (fun c => is_scalar c = true) k -> Forall (fun c => is_scalar c = true) v ->
  read_param (encode_param (k, v)) = Some (as_bytes k, as_bytes v).
Proof.
  intros Hk Hv. unfold read_param, encode_param. cbn [fst snd].
  change (lit "=" ++ percent_encode v) with (61%N :: percent_encode v). rewrite split_once_app.
  - cbn. by rewrite !percent_decode_encode.
  - eapply Forall_impl; [by apply percent_encode_chars|]. intros c Hc. by apply encoded_not.
Qed.

Lemma split_by_app f a b :
  Forall (fun d => f d = false) a -> (exists c r, b = c :: r /\ f c = true) ->
  split_by f (a ++ b) = a :: tail (split_by f b).
Proof.
  intros HF (c & r & -> & Hc). induction HF as [|d a Hd _ IH]; cbn [app split_by tail].
  - by rewrite Hc.
  - rewrite Hd, IH. done.
Qed.

(** Joining pieces without the separator and splitting again. *)
Lemma split_join c l :
  l <> [] -> Forall (Forall (fun d => (c =? d)%N = false)) l -> split_char c (join [c] l) = l.
Proof.
  intros Hne HF. unfold split_char. induction HF as [|a l Ha HF IH]; [done|].
  destruct l as [|b l]; cbn [join]; [by apply split_by_none|].
  rewrite split_by_app by (done || (exists c; eexists; split; [reflexivity|apply N.eqb_refl])).
  f_equal. cbn [app split_by]. rewrite N.eqb_refl. cbn [tail]. by apply IH.
Qed.

Definition valid_text (s : str) : Prop := Forall (fun c => is_scalar c = true) s.
#[global] Instance valid_text_dec s : Decision (valid_text s).
Proof. unfold valid_text. apply _. Defined.

Lemma encode_param_chars k v : valid_text k -> valid_text v ->
  Forall (fun d => (38 =? d)%N = false) (encode_param (k, v)).
Proof.
  intros Hk Hv. unfold encode_param. cbn [fst snd].
  apply Forall_app. split; [|apply Forall_cons; split; [done|]];
    (eapply Forall_impl; [by apply percent_encode_chars|]; intros c Hc; by apply encoded_not).
Qed.

Lemma auth_params_valid c state :
  valid_text (client_id c) -> valid_text (redirect_uri c) -> valid_text state ->
  scopes c = [GMAIL_SCOPE] -> Forall (fun p => valid_text p.1 /\ valid_text p.2) (auth_params c state).
Proof.
  intros Hc Hr Hs Hsc. unfold auth_params. rewrite Hsc. cbn [join].
  repeat constructor; cbn [fst snd]; try done; apply bool_decide_unpack; vm_compute; exact I.
Qed.

(** An authorisation URL cannot be injected into: when one is built, the
    client's values are non-blank and the only scope is Gmail's, and splitting
    its query and undoing the percent encoding gives exactly the seven intended
    parameters, whatever characters the client id, the redirect address and the
    state contain. *)
Theorem authorization_url_carries_params c state url :
  valid_text (client_id c) -> valid_text (redirect_uri c) -> valid_text state ->
  authorization_url c state = Ok url ->
  scopes c = [GMAIL_SCOPE] /\ trim (client_id c) <> [] /\ trim (redirect_uri c) <> [] /\
  trim state <> [] /\
  exists q, url = AUTH_ENDPOINT ++ lit "?" ++ q /\
    map read_param (split_char 38 q) =
    map (fun p => Some (as_bytes p.1, as_bytes p.2)) (auth_params c state).
Proof.
  intros Hc Hr Hs. unfold authorization_url, validate_for_auth_url, validate_non_empty, validate_gmail_scope.
  unfold mbind, result_bind.
  destruct (is_empty (trim (client_id c))) eqn:E1; [done|].
  destruct (is_empty (trim (redirect_uri c))) eqn:E2; [done|].
  destruct (is_empty (trim state)) eqn:E3; [done|].
  case_bool_decide as Hsc; [|done]. intros [= <-].
  rewrite is_empty_false in *. split_and!; [done..|].
  exists (join [38%N] (map encode_param (auth_params c state))). split; [done|].
  pose proof (auth_params_valid c state Hc Hr Hs Hsc) as HF.
  rewrite split_join; [|done|].
  - rewrite map_map. apply map_ext_in. intros [k v] Hin%list_elem_of_In.
    rewrite Forall_forall in HF. destruct (HF _ Hin). by apply read_encode_param.
  - rewrite Forall_map. eapply Forall_impl; [exact HF|]. intros [k v] [??]. by apply encode_param_chars.
Qed.

Lemma authorization_url_carries_params_witness :
  let c := gmail (lit "id&x=1") (lit "s") (lit "http://localhost/?a=b") in
  exists url, authorization_url c (lit "st#ate") = Ok url /\
  scopes c = [GMAIL_SCOPE] /\ trim (client_id c) <> [] /\ trim (redirect_uri c) <> [] /\
  trim (lit "st#ate") <> [] /\
  exists q, url = AUTH_ENDPOINT ++ lit "?" ++ q /\
    map read_param (split_char 38 q) =
    map (fun p => Some (as_bytes p.1, as_bytes p.2)) (auth_params c (lit "st#ate")).
Proof.
  intros c. eexists. split; [reflexivity|].
  apply (authorization_url_carries_params c (lit "st#ate"));
    [apply (bool_decide_unpack (valid_text _)); vm_compute; exact I..|reflexivity].
Defined.

(** ** Properties: tokens *)

Lemma pick_refresh_token_Ok fresh existing t :
  pick_refresh_token fresh existing = Ok t ->
  t <> [] /\ (forall f, fresh = Some f -> f <> [] -> t = f) /\
  ((forall f, fresh = Some f -> f = []) -> existing = Some t).
Proof.
  unfold pick_refresh_token. destruct fresh as [[|c f]|]; cbn; intros Ht.
  - destruct existing as [[|d e]|]; cbn in Ht; try discriminate Ht. injection Ht as <-.
    split_and!; [done| |done]. by intros f [= <-].
  - injection Ht as <-. split_and!; [done| |].
    + by intros f' [= <-].
    + intros Hx. by specialize (Hx _ eq_refl).
  - destruct existing as [[|d e]|]; cbn in Ht; try discriminate Ht. by injection Ht as <-.
Qed.

(** Every accepted token response yields a usable token. *)
Lemma into_token_Ok now r existing t :
  into_token now r existing = Ok t ->
  trim (access_token t) <> [] /\ access_token t = ter_access_token r /\
  (now < expires_at t <= now + seconds MAX_EXPIRES_IN_SECONDS)%Z /\
  pick_refresh_token (ter_refresh_token r) existing = Ok (refresh_token t) /\
  refresh_token t <> [].
Proof.
  unfold into_token, validate_non_empty, mbind, result_bind, checked_add_signed.
  destruct (is_empty (trim _)) eqn:Ea; [done|].
  destruct (Z.leb_spec (ter_expires_in r) 0); [done|].
  destruct (_ <=? MAX_UTC)%Z; cbn [ok_or]; [|done].
  destruct (pick_refresh_token _ _) as [p|] eqn:Ep; [|done]. intros [= <-]. cbn.
  rewrite is_empty_false in Ea. split_and!; try done.
  - unfold seconds, MAX_EXPIRES_IN_SECONDS. lia.
  - unfold seconds, MAX_EXPIRES_IN_SECONDS. lia.
  - by apply pick_refresh_token_Ok in Ep as [? _].
Qed.

(** A token that was just issued is not refreshed at once unless it lives less
    than the skew. *)
Lemma fresh_token_not_refreshed now r existing t :
  into_token now r existing = Ok t -> (REFRESH_SKEW_SECONDS < ter_expires_in r)%Z ->
  needs_refresh t now = false.
Proof.
  unfold into_token, validate_non_empty, mbind, result_bind, checked_add_signed, needs_refresh.
  destruct (is_empty (trim _)); [done|].
  destruct (Z.leb_spec (ter_expires_in r) 0); [done|].
  destruct (_ <=? MAX_UTC)%Z; cbn [ok_or]; [|done].
  destruct (pick_refresh_token _ _); [|done]. intros [= <-] Hs. cbn. apply Z.leb_gt.
  unfold seconds, REFRESH_SKEW_SECONDS, MAX_EXPIRES_IN_SECONDS in *. lia.
Qed.

(** ** Properties: the stored token *)

Section StoredFacts.
Context {TP : TextParsers} {JC : JsonCodec} {S : Type} {SS : SecretStore S} {SL : SecretStoreLaws S}.
Context (text : str -> str).

Lemma token_json_round_trip t : token_of_json (token_to_json t) = Some t.
Proof.
  destruct t as [a r e ty sc]. unfold token_of_json, token_to_json, opt_field. json_eval.
  cbn. rewrite rfc3339_round_trip. by destruct sc.
Qed.

Lemma traverse_strings l : traverse as_str (map VString l) = Some l.
Proof. induction l as [|s l IH]; cbn; [done|]. by rewrite IH. Qed.

Lemma stored_json_round_trip s : stored_of_json (stored_to_json s) = Some s.
Proof.
  destruct s as [[ci cs ru sc] t]. unfold stored_of_json, stored_to_json. json_eval.
  cbn -[token_of_json token_to_json]. rewrite traverse_strings.
  cbn -[token_of_json token_to_json]. by rewrite token_json_round_trip.
Qed.

(** A stored token is read back as it was stored, whatever store there is, when
    the JSON text round trips and nothing else wrote in between. *)
Lemma load_after_store id stored s s1 r s2 :
  (forall v, from_str (to_string v) = Some v) ->
  store_stored_oauth id stored s = (Ok tt, s1) -> load_stored_oauth text id s1 = (r, s2) ->
  r = Ok (Some stored) \/ exists e, r = Err (OAuthSecret e).
Proof.
  intros Hjson Hst Hld. unfold store_stored_oauth in Hst. apply mmap_err_Ok in Hst.
  apply ss_put_law in Hst. cbn in Hst.
  unfold load_stored_oauth, mbind_M, mmap_err in Hld. destruct (ss_get id s1) as [[v|e] s3] eqn:E.
  - apply ss_get_law in E as [_ Hv]. specialize (Hv v eq_refl). rewrite Hst in Hv.
    rewrite lookup_insert_eq in Hv. subst v. cbn in Hld.
    rewrite Hjson in Hld. cbn [mbind option_bind] in Hld. rewrite stored_json_round_trip in Hld. cbn in Hld.
    injection Hld as <- <-. by left.
  - injection Hld as <- <-. right. eauto.
Qed.
End StoredFacts.
