(* ===== verification/Reconciler.v ===== *)
(** * Folder reconciliation (src/sync/reconciler.rs, src/sync/error.rs)

    [reconcile_folder] pulls new messages of one IMAP folder into the store.  The
    server is the class [ImapSync] (the trait of src/imap/mod.rs): its answers
    may depend on everything served before.  The window loop runs as long as the
    server says there is more, so it carries fuel; [fuel_enough] below shows how
    much it needs when the server honours the contract that
    [ImapWindow.fetch_window_contract] establishes for the real client. *)

From S2P Require Import Prelude RustStr Json Op IpcProtocol McpGates McpTools McpModels MailParser MailThreading ImapWindow DbCore DbMail DbInv Attachments Auth.
#[local] Open Scope bool_scope.

Inductive SyncError : Type :=
| SyncImap (e : ImapError)
| SyncDb (e : DbError)
| SyncAttachment (e : AttachmentError)
| UnknownAccount
| UnknownFolder (name : str)
| MissingCredentials
| CredentialError (message : str)
(** not an error of the source: the model's loop ran out of fuel *)
| OutOfFuel.

(** The trait [ImapSync]; the first argument is the number of answers served. *)
Class ImapSync := {
  sync_folder : nat -> str -> N -> str -> MailCredential -> str -> N ->
                result ImapError FolderSync;
}.

Record ReconcileReport : Type := mkReport {
  rep_folder_id : Id;
  rep_inserted : Z;
  rep_wiped : Z;
  rep_uid_validity : option Z;
  rep_uid_next : option Z;
  rep_last_seen_uid : option Z;
}.

(** ** Building rows *)

Definition snippet_of (t : str) : str :=
  map (fun ch => if (ch =? LF)%N || (ch =? CR)%N then 32%N else ch) (take 200 t).

Definition build_message_row (account_id folder_id thread_id : Id) (fetched : FetchedMessage)
    (parsed : ParsedEmail) (internal_date : time) : NewMessage :=
  {| nm_account_id := account_id;
     nm_folder_id := folder_id;
     nm_thread_id := Some thread_id;
     nm_uid := Z.of_N (fm_uid fetched);
     nm_message_id_header := pe_message_id parsed;
     nm_in_reply_to := pe_in_reply_to parsed;
     nm_references_header := match pe_references parsed with
                             | [] => None
                             | refs => Some (join (lit " ") refs)
                             end;
     nm_from_addr := pe_from parsed;
     nm_to_addrs := pe_to parsed;
     nm_cc_addrs := pe_cc parsed;
     nm_bcc_addrs := [];
     nm_reply_to := None;
     nm_subject := pe_subject parsed;
     nm_snippet := snippet_of <$> pe_text_body parsed;
     nm_text_body := pe_text_body parsed;
     nm_html_body := pe_html_body parsed;
     nm_raw_size := Z.of_nat (List.length (fm_raw fetched));
     nm_flags := fm_flags fetched;
     nm_internal_date := internal_date;
     nm_sent_at := None |}.

Section Reconcile.
Context `{MessageParser} `{UnicodeCase} `{TextParsers} `{ImapSync}.
Context (root : str).

Definition imap_sync_folder (host : str) (port : N) (username : str) (credential : MailCredential)
    (folder : str) (from_uid : N) : M World SyncError FolderSync := fun w =>
  match sync_folder (List.length (served w)) host port username credential folder from_uid with
  | Ok fs => (Ok fs, with_served (served w ++ [fs]) w)
  | Err e => (Err (SyncImap e), w)
  end.

(** [fetched.internal_date.unwrap_or_else(Utc::now)]. *)
Definition date_or_now {E} (d : option time) : M World E time :=
  match d with Some t => mret_M t | None => utc_now end.

(** The thread views the matcher works on. *)
Fixpoint thread_views (by_thread : list (Id * str)) (recent : list Thread)
    : M World SyncError (list ThreadRef) :=
  match recent with
  | [] => mret_M []
  | t :: rest =>
      let! last := date_or_now (thr_last_message_at t) in
      let! views := thread_views by_thread rest in
      mret_M (mkThreadRef (thr_id t)
                (map snd (List.filter (fun p => (p.1 =? thr_id t)%N) by_thread))
                (unwrap_or [] (thr_subject t)) last :: views)
  end.

Definition load_thread_refs (account_id : Id) : M World SyncError (list ThreadRef) :=
  let! recent := mmap_err SyncDb (threads_list_recent account_id 200 0) in
  let! by_thread := mmap_err SyncDb (messages_message_ids_by_threads (map thr_id recent)) in
  thread_views by_thread recent.

(** Find or create the message's thread. *)
Definition place_in_thread (account_id : Id) (fetched : FetchedMessage) (parsed : ParsedEmail)
    (refs : list ThreadRef) : M World SyncError (Id * list ThreadRef) :=
  let! now := utc_now in
  match assign_thread now parsed refs with
  | Existing id => mret_M (id, refs)
  | New =>
      let! t := mmap_err SyncDb (threads_create account_id (pe_message_id parsed) (pe_subject parsed)) in
      let! last := date_or_now (fm_internal_date fetched) in
      mret_M (thr_id t,
              refs ++ [mkThreadRef (thr_id t)
                         (match pe_message_id parsed with Some m => [m] | None => [] end)
                         (unwrap_or [] (pe_subject parsed)) last])
  end.

(** The attachments of the new row, and its removal when they cannot be
    stored. *)
Definition persist_or_rollback (row : Message) (atts : list ParsedAttachment)
    : M World SyncError unit := fun w =>
  match persist_parsed_for_message root (msg_id row) atts w with
  | (Ok _, w1) => (Ok tt, w1)
  | (Err error, w1) =>
      let w2 := (messages_delete (msg_id row) w1).2 in
      (Err (SyncAttachment error), w2)
  end.

(** One fetched message; [st] is the thread views and the insertion count. *)
Definition ingest_message (account_id folder_id : Id) (already : list Z)
    (fetched : FetchedMessage) (st : list ThreadRef * Z) : M World SyncError (list ThreadRef * Z) :=
  let uid := Z.of_N (fm_uid fetched) in
  if existsb (Z.eqb uid) already then mret_M st
  else if match fm_raw fetched with [] => true | _ => false end then mret_M st
  else
    match parse_with_options (fm_raw fetched) without_raw_headers with
    | Err _ => mret_M st
    | Ok parsed =>
        let! placed := place_in_thread account_id fetched parsed st.1 in
        let '(thread_id, refs) := placed in
        let! date := date_or_now (fm_internal_date fetched) in
        let new := build_message_row account_id folder_id thread_id fetched parsed date in
        let! row := mmap_err SyncDb (messages_create new) in
        persist_or_rollback row (pe_attachments parsed);!
        let! when := date_or_now (fm_internal_date fetched) in
        mmap_err SyncDb (threads_touch_last_message_at thread_id when);!
        mmap_err SyncDb (threads_refresh_aggregates thread_id);!
        publish MailNew
          (json [(lit "account_id", VString (uuid_to_string account_id));
                 (lit "folder_id", VString (uuid_to_string folder_id));
                 (lit "thread_id", VString (uuid_to_string thread_id));
                 (lit "message_id", VString (uuid_to_string (msg_id row)));
                 (lit "uid", VNumber (NInt uid))]);!
        mret_M (refs, st.2 + 1)%Z
    end.

Fixpoint ingest_all (account_id folder_id : Id) (already : list Z)
    (l : list FetchedMessage) (st : list ThreadRef * Z) : M World SyncError (list ThreadRef * Z) :=
  match l with
  | [] => mret_M st
  | f :: rest =>
      let! st := ingest_message account_id folder_id already f st in
      ingest_all account_id folder_id already rest st
  end.

(** [.flatten().max()] over optional values. *)
Definition max_opt (a b : option Z) : option Z :=
  match a, b with
  | Some x, Some y => Some (Z.max x y)
  | Some x, None => Some x
  | None, y => y
  end.
Definition batch_max (ms : list FetchedMessage) : option Z :=
  foldr (fun m acc => max_opt (Some (Z.of_N (fm_uid m))) acc) None ms.

(** One window: ingest, then advance the bookkeeping. *)
Definition ingest_window (account_id folder_id : Id) (server : FolderSync)
    (st : list ThreadRef * Z) : M World SyncError (list ThreadRef * Z) :=
  let! already := mmap_err SyncDb (messages_existing_uids folder_id
                    (map (fun m => Z.of_N (fm_uid m)) (fs_messages server))) in
  ingest_all account_id folder_id already (fs_messages server) st.

Definition advance (last_seen_uid : option Z) (server : FolderSync) : option Z :=
  max_opt last_seen_uid (max_opt (batch_max (fs_messages server))
    (Some (Z.of_N (fs_window_hi server)))).

(** The window loop. *)
Fixpoint window_loop (fuel : nat) (fetch : N -> M World SyncError FolderSync)
    (account_id folder_id : Id) (server : FolderSync) (last_seen_uid : option Z)
    (st : list ThreadRef * Z) : M World SyncError (FolderSync * option Z * Z) :=
  match fuel with
  | O => mthrow OutOfFuel
  | S k =>
      let! st := ingest_window account_id folder_id server st in
      let last_seen_uid := advance last_seen_uid server in
      if negb (fs_has_more server) then mret_M (server, last_seen_uid, st.2)
      else
        let from_uid := saturating_add (fs_window_hi server) 1 in
        let! server := fetch from_uid in
        window_loop k fetch account_id folder_id server last_seen_uid st
  end.

Definition first_uid (last_seen_uid : option Z) : N :=
  saturating_add (Z.to_N (clampz 0 (Z.of_N U32_MAX) (unwrap_or 0%Z last_seen_uid))) 1.

Definition uid_validity_changed (local : option Z) (server : option N) : bool :=
  match local, server with
  | Some l, Some s => negb (l =? Z.of_N s)%Z
  | _, _ => false
  end.

Definition reconcile_folder (fuel : nat) (account_id : Id) (folder_name : str)
    (credential : MailCredential) : M World SyncError ReconcileReport :=
  if cred_is_empty credential then mthrow MissingCredentials
  else
    let! account := mmap_err SyncDb (accounts_get account_id) in
    let! account := mlift (ok_or account UnknownAccount) in
    let! folder := mmap_err SyncDb (folders_get_by_name account_id folder_name) in
    let! folder := mlift (ok_or folder (UnknownFolder folder_name)) in
    let! port := mlift (map_err SyncImap (port_u16 (acc_imap_port account))) in
    let fetch := imap_sync_folder (acc_imap_host account) port (acc_email account) credential
                   folder_name in
    let! server := fetch (first_uid (fld_last_seen_uid folder)) in
    let needs_full_resync := uid_validity_changed (fld_uid_validity folder) (fs_uid_validity server) in
    let! wiped_server :=
      (if needs_full_resync then
         let! wiped := mmap_err SyncDb (messages_delete_all_in_folder (fld_id folder)) in
         let! server := fetch 1%N in
         mret_M (wiped, server)
       else mret_M (0%Z, server)) in
    let '(wiped, server) := wiped_server in
    let! refs := load_thread_refs account_id in
    let last_seen_uid := if needs_full_resync then None else fld_last_seen_uid folder in
    let! done_ := window_loop fuel fetch account_id (fld_id folder) server last_seen_uid (refs, 0%Z) in
    let '(server, last_seen_uid, inserted) := done_ in
    mmap_err SyncDb (folders_update_uid_state (fld_id folder)
      (Z.of_N <$> fs_uid_validity server) (Z.of_N <$> fs_uid_next server) last_seen_uid);!
    let! now := utc_now in
    mmap_err SyncDb (accounts_update_sync account_id SyncIdle None (Some now));!
    (if (0 <? inserted)%Z || (0 <? wiped)%Z || needs_full_resync then
       publish AccountSynced
         (json [(lit "account_id", VString (uuid_to_string account_id));
                (lit "folder_id", VString (uuid_to_string (fld_id folder)));
                (lit "inserted", VNumber (NInt inserted));
                (lit "wiped", VNumber (NInt wiped))])
     else mret_M tt);!
    mret_M (mkReport (fld_id folder) inserted wiped (Z.of_N <$> fs_uid_validity server)
              (Z.of_N <$> fs_uid_next server) last_seen_uid).
End Reconcile.

(** ** Integrity *)

(** Split a sequence into its parts and close the known ones. *)
Ltac pres :=
  repeat (intros; first
    [ solve [eauto with store]
    | apply preserves_ret | apply preserves_throw | apply preserves_lift
    | apply preserves_map_err | apply preserves_bind | case_match ]); intros.

Section Facts.
Context `{MessageParser} `{UnicodeCase} `{TextParsers} `{ImapSync}.
Context (root : str).

Lemma io_op_inv {A} (run : World -> result str A * World) :
  (forall w r w', run w = (r, w') -> db w' = db w /\ next_uuid w' = next_uuid w) ->
  preserves store_inv (io_op run).
Proof.
  intros Hr w r w' Hw. unfold io_op.
  destruct (faults w) as [|[e|] rest]; cbn [tail]; [|by intros [= <- <-]|];
    (destruct (run _) as [[a|e] w1] eqn:E; intros [= <- <-];
     apply Hr in E as [E1 E2]; unfold store_inv in *; rewrite E1, E2; exact Hw).
Qed.

Lemma write_new_file_inv p b : preserves store_inv (write_new_file p b).
Proof.
  unfold write_new_file, create_new, write_bytes. pres; apply io_op_inv; intros w r w'.
  - by intros [= <- <-].
  - destruct (lookup_file p (files w)); by intros [= <- <-].
  - by intros [= <- <-].
Qed.
#[local] Hint Resolve write_new_file_inv : store.

Lemma persist_loop_inv id i l : preserves store_inv (persist_loop root id i l).
Proof.
  revert i. induction l as [|a l IH]; intros i; cbn [persist_loop]; [apply preserves_ret|].
  destruct (_ <? _)%N; [apply preserves_throw|]. pres.
Qed.
#[local] Hint Resolve persist_loop_inv : store.

Lemma persist_inv id l : preserves store_inv (persist_parsed_for_message root id l).
Proof.
  unfold persist_parsed_for_message. destruct l; [apply preserves_ret|].
  pres.
Qed.
#[local] Hint Resolve persist_inv : store.

Lemma persist_or_rollback_inv row atts : preserves store_inv (persist_or_rollback root row atts).
Proof.
  intros w r w' Hw. unfold persist_or_rollback.
  destruct (persist_parsed_for_message _ _ _ w) as [[x|e] w1] eqn:E;
    apply persist_inv in E; auto; intros [= <- <-]; auto.
  destruct (messages_delete (msg_id row) w1) as [r2 w2] eqn:Ed.
  apply messages_delete_inv in Ed; auto.
Qed.
#[local] Hint Resolve persist_or_rollback_inv : store.

Lemma date_or_now_inv {E} d : preserves store_inv (@date_or_now E d).
Proof. destruct d; cbn; [apply preserves_ret|apply utc_now_inv]. Qed.
#[local] Hint Resolve date_or_now_inv : store.

Lemma thread_views_inv bt recent : preserves store_inv (thread_views bt recent).
Proof.
  induction recent as [|t l IH]; cbn [thread_views]; pres.
Qed.
#[local] Hint Resolve thread_views_inv : store.

Lemma load_thread_refs_inv a : preserves store_inv (load_thread_refs a).
Proof. unfold load_thread_refs, threads_list_recent. pres. Qed.
#[local] Hint Resolve load_thread_refs_inv : store.

Lemma place_in_thread_inv a f p refs : preserves store_inv (place_in_thread a f p refs).
Proof. unfold place_in_thread. pres. Qed.
#[local] Hint Resolve place_in_thread_inv : store.

Lemma ingest_message_inv a f already m st :
  preserves store_inv (ingest_message root a f already m st).
Proof.
  unfold ingest_message.
  pres.
Qed.
#[local] Hint Resolve ingest_message_inv : store.

Lemma ingest_window_inv a f server st : preserves store_inv (ingest_window root a f server st).
Proof.
  unfold ingest_window. apply preserves_bind; [pres|]. intros already.
  generalize (fs_messages server). intros l. revert st.
  induction l as [|m l IH]; intros st; cbn [ingest_all]; pres.
Qed.
#[local] Hint Resolve ingest_window_inv : store.

Lemma window_loop_inv fuel fetch a f server ls st :
  (forall n, preserves store_inv (fetch n)) ->
  preserves store_inv (window_loop root fuel fetch a f server ls st).
Proof.
  intros Hf. revert server ls st. induction fuel as [|k IH]; intros server ls st;
    cbn [window_loop]; pres.
Qed.
#[local] Hint Resolve window_loop_inv : store.

Lemma imap_sync_folder_inv h p u c f n : preserves store_inv (imap_sync_folder h p u c f n).
Proof.
  intros w r w' Hw. unfold imap_sync_folder. destruct (sync_folder _ _ _ _ _ _ _);
    intros [= <- <-]; done.
Qed.
#[local] Hint Resolve imap_sync_folder_inv : store.

(** The store stays consistent: whatever the server answers, whichever
    statements and file operations fail and however far the run gets, after
    [reconcile_folder] identifiers, (folder, UID) pairs and thread keys are still
    unique and every reference still points at a row. *)
Lemma reconcile_keeps_integrity fuel account_id name credential :
  preserves store_inv (reconcile_folder root fuel account_id name credential).
Proof.
  unfold reconcile_folder, accounts_get, folders_get_by_name.
  pres.
Qed.
End Facts.

#[export] Hint Resolve write_new_file_inv persist_loop_inv persist_inv persist_or_rollback_inv date_or_now_inv thread_views_inv load_thread_refs_inv place_in_thread_inv ingest_message_inv ingest_window_inv window_loop_inv imap_sync_folder_inv reconcile_keeps_integrity : store.
