(* ===== verification/ReconcilerProps.v ===== *)
(** * What a successful reconciliation has done

    Completeness of [Reconciler.reconcile_folder]: every usable message of every
    window served is in the store with its contents and attachments, unless its
    UID was taken; the high-water mark covers the windows and is recorded; and the
    window loop ends against a server that honours the window contract. *)

From S2P Require Import Prelude RustStr Json Op IpcProtocol McpGates McpTools McpModels MailParser MailThreading ImapWindow DbCore DbMail DbInv Attachments Auth Reconciler.
#[local] Open Scope bool_scope.

(** ** Operations that leave messages, folders and the server log alone and only
    add attachments *)

Definition same_tables (d d' : Db) : Prop :=
  messages d' = messages d /\ folders d' = folders d /\ attachments d `prefix_of` attachments d'.
Definition same (w w' : World) : Prop := same_tables (db w) (db w') /\ served w' = served w.
Definition keeps {E A} (m : M World E A) : Prop := forall w r w', m w = (r, w') -> same w w'.

Create HintDb keeps.

Lemma same_refl w : same w w.
Proof. done. Qed.
Lemma same_trans a b c : same a b -> same b c -> same a c.
Proof. intros [(?&?&?) ?] [(?&?&?) ?]. repeat split; [congruence..|by etransitivity|congruence]. Qed.

Lemma keeps_ret {E A} (a : A) : keeps (mret_M a : M World E A).
Proof. by intros w r w' [= <- <-]. Qed.
Lemma keeps_throw {E A} (e : E) : keeps (mthrow e : M World E A).
Proof. by intros w r w' [= <- <-]. Qed.
Lemma keeps_lift {E A} (r : result E A) : keeps (mlift r).
Proof. by intros w r' w' [= <- <-]. Qed.
Lemma keeps_map_err {E F A} (f : E -> F) (m : M World E A) : keeps m -> keeps (mmap_err f m).
Proof.
  intros Hm w r w'. unfold mmap_err. destruct (m w) as [r1 w1] eqn:E1. intros [= <- <-].
  by eapply Hm.
Qed.
Lemma keeps_bind {E A B} (m : M World E A) (k : A -> M World E B) :
  keeps m -> (forall a, keeps (k a)) -> keeps (mbind_M k m).
Proof.
  intros Hm Hk w r w'. unfold mbind_M. destruct (m w) as [[a|e] w1] eqn:E1; intros Heq.
  - apply Hm in E1. apply Hk in Heq. by eapply same_trans.
  - invs. by eapply Hm.
Qed.

Lemma keeps_statement {A} (run : Db -> result DbError (A * Db)) :
  (forall d a d', run d = Ok (a, d') -> same_tables d d') -> keeps (statement run).
Proof.
  intros Hr w r w'. unfold statement.
  destruct (faults w) as [|[e|] rest]; cbn [tail]; [|by intros [= <- <-]|];
    (destruct (run _) as [[a d]|e] eqn:E; intros [= <- <-]; [|done];
     apply Hr in E; split; [exact E|done]).
Qed.

Lemma keeps_query {A} (f : Db -> A) : keeps (query f).
Proof. apply keeps_statement. by intros d a d' [= _ <-]. Qed.
Lemma keeps_new_uuid {E} : keeps (@new_uuid E).
Proof. by intros w r w' [= <- <-]. Qed.
Lemma keeps_utc_now {E} : keeps (@utc_now E).
Proof. by intros w r w' [= <- <-]. Qed.
Lemma keeps_publish {E} t v : keeps (@publish E t v).
Proof. by intros w r w' [= <- <-]. Qed.

#[export] Hint Resolve keeps_ret keeps_throw keeps_lift keeps_query keeps_new_uuid keeps_utc_now
  keeps_publish : keeps.

Ltac kept :=
  repeat (intros; first
    [ solve [eauto with keeps] | apply keeps_map_err | apply keeps_bind
    | apply keeps_statement; [intros ??? [= _ <-]; done] | case_match ]); intros.

Lemma keeps_sql_now {E} : keeps (@sql_now E).
Proof. unfold sql_now. kept. Qed.
#[export] Hint Resolve keeps_sql_now : keeps.

Section Facts.
Context {MP : MessageParser} {UC : UnicodeCase} {TP : TextParsers} {IS : ImapSync}.
Context (root : str).

Lemma keeps_threads_create a e s : keeps (threads_create a e s).
Proof.
  unfold threads_create. apply keeps_bind; [kept|]. intros id. apply keeps_bind; [kept|].
  intros now. apply keeps_statement. intros d t d'.
  destruct (match e with Some _ => _ | None => _ end); [done|].
  destruct (negb _); [done|]. by intros [= _ <-].
Qed.

Lemma keeps_touch id w : keeps (threads_touch_last_message_at id w).
Proof. apply keeps_statement. by intros d a d' [= _ <-]. Qed.
Lemma keeps_refresh id : keeps (threads_refresh_aggregates id).
Proof. apply keeps_statement. by intros d a d' [= _ <-]. Qed.
Lemma keeps_update_sync id a b c : keeps (accounts_update_sync id a b c).
Proof.
  unfold accounts_update_sync. apply keeps_bind; [kept|]. intros now.
  apply keeps_statement. by intros d x d' [= _ <-].
Qed.
Lemma keeps_date {E} d : keeps (@date_or_now E d).
Proof. destruct d; cbn; kept. Qed.
#[local] Hint Resolve keeps_threads_create keeps_touch keeps_refresh
  keeps_update_sync keeps_date : keeps.

Lemma keeps_place a f p refs : keeps (place_in_thread a f p refs).
Proof. unfold place_in_thread. kept. Qed.
Lemma keeps_existing f l : keeps (messages_existing_uids f l).
Proof. destruct l; cbn; kept. Qed.
Lemma keeps_views bt l : keeps (thread_views bt l).
Proof. induction l as [|t l IH]; cbn [thread_views]; kept. Qed.
Lemma keeps_ids l : keeps (messages_message_ids_by_threads l).
Proof. destruct l; cbn; kept. Qed.
#[local] Hint Resolve keeps_place keeps_existing keeps_views keeps_ids : keeps.
Lemma keeps_refs a : keeps (load_thread_refs a).
Proof. unfold load_thread_refs, threads_list_recent. kept. Qed.

Lemma keeps_io {A} (run : World -> result str A * World) :
  (forall w r w', run w = (r, w') -> same w w') -> keeps (io_op run).
Proof.
  intros Hr w r w'. unfold io_op.
  destruct (faults w) as [|[e|] rest]; cbn [tail]; [|by intros [= <- <-]|];
    (destruct (run _) as [[a|e] w1] eqn:E; intros [= <- <-]; by apply Hr in E).
Qed.

Lemma keeps_write p b : keeps (write_new_file p b).
Proof.
  unfold write_new_file, create_new, write_bytes. kept; apply keeps_io; intros w r w'.
  - by intros [= <- <-].
  - destruct (lookup_file p (files w)); by intros [= <- <-].
  - by intros [= <- <-].
Qed.

Lemma keeps_attachments_create n : keeps (attachments_create n).
Proof.
  unfold attachments_create. kept. apply keeps_statement. intros d x d'.
  destruct (negb _); [done|]. intros [= _ <-]. repeat split. cbn. by eexists.
Qed.
#[local] Hint Resolve keeps_write keeps_attachments_create : keeps.

Lemma keeps_persist id l : keeps (persist_parsed_for_message root id l).
Proof.
  assert (Hl : forall i, keeps (persist_loop root id i l)).
  { induction l as [|a l IH]; intros i; cbn [persist_loop]; kept. }
  unfold persist_parsed_for_message. destruct l; kept.
Qed.

(** ** Ingestion *)

(** There is a row under that UID. *)
Definition has_uid (w : World) (folder_id : Id) (uid : N) : Prop :=
  existsb (at_uid folder_id (Z.of_N uid)) (messages (db w)) = true.

(** A message worth storing: it has a body that parses. *)
Definition usable (m : FetchedMessage) : Prop :=
  fm_raw m <> [] /\ exists p, parse_with_options (fm_raw m) without_raw_headers = Ok p.

(** The row holds the fetched message [m], which parses as [p]. *)
Definition holds (account_id folder_id : Id) (m : FetchedMessage) (p : ParsedEmail) (row : Message) : Prop :=
  let c := msg_cols row in
  parse_with_options (fm_raw m) without_raw_headers = Ok p /\
  nm_account_id c = account_id /\ nm_folder_id c = folder_id /\ nm_uid c = Z.of_N (fm_uid m) /\
  nm_thread_id c <> None /\ nm_flags c = fm_flags m /\ nm_raw_size c = Z.of_nat (List.length (fm_raw m)) /\
  (forall d, fm_internal_date m = Some d -> nm_internal_date c = d) /\
  nm_message_id_header c = pe_message_id p /\ nm_in_reply_to c = pe_in_reply_to p /\
  nm_from_addr c = pe_from p /\ nm_to_addrs c = pe_to p /\ nm_cc_addrs c = pe_cc p /\
  nm_subject c = pe_subject p /\ nm_text_body c = pe_text_body p /\ nm_html_body c = pe_html_body p.

(** The attachment of a message is in the table, with its size and type and a
    path of its own. *)
Definition has_attachment (w : World) (message_id : Id) (a : ParsedAttachment) : Prop :=
  exists i r, r ∈ attachments (db w) /\
    att_cols r = mkNewAttachment message_id (sanitize_filename (pa_filename a)) (pa_content_type a)
                   (pa_content_id a) (Z.of_nat (List.length (pa_data a))) (pa_disposition a)
                   (stored_attachment_path root message_id i (pa_filename a)).

(** The fetched message is in the store, attachments included. *)
Definition stored (w : World) (account_id folder_id : Id) (m : FetchedMessage) : Prop :=
  exists row p, row ∈ messages (db w) /\ holds account_id folder_id m p row /\
    Forall (has_attachment w (msg_id row)) (pe_attachments p).

(** Rows were only added: each of them holds one of the messages [l]. *)
Definition grew (account_id folder_id : Id) (l : list FetchedMessage) (w w' : World) : Prop :=
  folders (db w') = folders (db w) /\ attachments (db w) `prefix_of` attachments (db w') /\
  exists new, messages (db w') = messages (db w) ++ new /\
    Forall (fun row => exists m p, m ∈ l /\ holds account_id folder_id m p row /\ stored w' account_id folder_id m) new.

Lemma has_attachment_grows w w' id a :
  attachments (db w) `prefix_of` attachments (db w') -> has_attachment w id a -> has_attachment w' id a.
Proof. intros [l Hl] (i & r & Hr & Hc). exists i, r. split; [|done]. rewrite Hl. apply elem_of_app. by left. Qed.
Lemma stored_grows w w' a f m :
  messages (db w) `prefix_of` messages (db w') -> attachments (db w) `prefix_of` attachments (db w') ->
  stored w a f m -> stored w' a f m.
Proof.
  intros [l Hl] Ha (row & p & Hrow & Hp & Hatt). exists row, p. split; [rewrite Hl; apply elem_of_app; by left|].
  split; [done|]. eapply Forall_impl; [exact Hatt|]. intros x. by apply has_attachment_grows.
Qed.

Lemma grew_same a f l w w' : same w w' -> grew a f l w w'.
Proof. intros [(Hm & Hf & Ha) _]. split_and!; [done..|]. exists []. split; [by rewrite app_nil_r|constructor]. Qed.
Lemma grew_stored a f l w w' m : grew a f l w w' -> stored w a f m -> stored w' a f m.
Proof. intros (_ & Ha & new & Hm & _). apply stored_grows; [rewrite Hm; by eexists|done]. Qed.
Lemma grew_trans a f l1 l2 w1 w2 w3 : grew a f l1 w1 w2 -> grew a f l2 w2 w3 -> grew a f (l1 ++ l2) w1 w3.
Proof.
  intros (F1 & A1 & n1 & M1 & N1) G2. pose proof G2 as (F2 & A2 & n2 & M2 & N2).
  split_and!; [congruence|by etransitivity|]. exists (n1 ++ n2). split; [by rewrite M2, M1, app_assoc|].
  apply Forall_app. split; eapply Forall_impl; [exact N1| |exact N2|]; cbn; intros row (m & p & Hm & Hh & Hst);
    exists m, p; rewrite elem_of_app; eauto using grew_stored.
Qed.
Lemma grew_weaken a f l l' w w' : (forall m, m ∈ l -> m ∈ l') -> grew a f l w w' -> grew a f l' w w'.
Proof.
  intros Hl (F1 & A1 & n1 & M1 & N1). split_and!; [done..|]. exists n1. split; [done|].
  eapply Forall_impl; [exact N1|]. cbn. intros row (m & p & Hm & Hr). exists m, p. auto.
Qed.

(** A UID that is taken was taken before, or by one of the messages. *)
Lemma grew_has_uid a f l w w' u :
  grew a f l w w' -> has_uid w' f u -> has_uid w f u \/ exists m, m ∈ l /\ fm_uid m = u /\ stored w' a f m.
Proof.
  intros (_ & _ & new & Hm & HN). unfold has_uid. rewrite Hm, existsb_app, orb_true_iff. intros [H|H]; [by left|right].
  apply existsb_exists in H as (row & Hrow & Hu). rewrite List.Forall_forall in HN.
  destruct (HN row Hrow) as (m & p & Hml & (_ & _ & _ & Huid & _) & Hst). exists m. split_and!; [done| |done].
  unfold at_uid, msg_uid in Hu. rewrite Huid in Hu. brefl. lia.
Qed.

Lemma messages_create_Ok new w row w' :
  messages_create new w = (Ok row, w') ->
  messages (db w') = messages (db w) ++ [row] /\ msg_cols row = new /\ served w' = served w /\
  folders (db w') = folders (db w) /\ attachments (db w') = attachments (db w).
Proof.
  unfold messages_create, mbind_M, new_uuid, sql_now, mbind_M, utc_now, mret_M.
  intros (d & Hd & ->)%statement_Ok. cbn in Hd |- *.
  destruct (existsb _ _); [done|]. destruct (negb _); [done|]. injection Hd as <- <-. done.
Qed.

Lemma attachments_create_Ok new w r w' :
  attachments_create new w = (Ok r, w') -> exists row, row ∈ attachments (db w') /\ att_cols row = new.
Proof.
  unfold attachments_create. intros (id & w1 & _ & Hx)%mbind_M_inv_Ok.
  apply mbind_M_inv_Ok in Hx as (now & w2 & _ & Hx). apply mbind_M_inv_Ok in Hx as (u & w3 & Hc & Hx).
  assert (Hk : same w3 w').
  { match type of Hx with ?m w3 = _ => assert (Hk : keeps m) by kept end. by apply Hk in Hx. }
  apply statement_Ok in Hc as (d & Hd & ->). destruct (negb _); [done|]. injection Hd as _ <-.
  destruct Hk as [(_ & _ & [l Hl]) _]. cbn in Hl. exists (mkAttachmentRow id new now). split; [|done].
  rewrite Hl. apply elem_of_app. left. apply elem_of_app. right. by left.
Qed.
Lemma persist_loop_keeps id i l : keeps (persist_loop root id i l).
Proof. revert i. induction l as [|a l IH]; intros i; cbn [persist_loop]; kept. Qed.
Lemma persist_loop_Ok id i l w r w' :
  persist_loop root id i l w = (Ok r, w') -> Forall (has_attachment w' id) l.
Proof.
  revert i w r. induction l as [|a l IH]; intros i w r; cbn [persist_loop]; [constructor|].
  destruct (_ <? _)%N; [done|]. intros (u & w1 & _ & Hx)%mbind_M_inv_Ok.
  apply mbind_M_inv_Ok in Hx as (row & w2 & Hc & Hx). apply mmap_err_Ok, attachments_create_Ok in Hc as (x & Hx2 & Hcols).
  apply mbind_M_inv_Ok in Hx as (rows & w3 & H3 & [= <- <-]). constructor; [|by eapply IH].
  apply persist_loop_keeps in H3 as [(_ & _ & Hp) _]. apply (has_attachment_grows w2); [done|]. by exists i, x.
Qed.

Lemma persist_or_rollback_Ok row atts w w' :
  persist_or_rollback root row atts w = (Ok tt, w') -> same w w' /\ Forall (has_attachment w' (msg_id row)) atts.
Proof.
  unfold persist_or_rollback. destruct (persist_parsed_for_message _ _ _ w) as [[x|e] w1] eqn:E;
    intros [= <-]. split; [by apply keeps_persist in E|]. unfold persist_parsed_for_message in E.
  destruct atts; [constructor|]. apply mbind_M_inv_Ok in E as (u & w2 & _ & E). by eapply persist_loop_Ok.
Qed.

Lemma date_or_now_Ok {E} d w t w' : @date_or_now E d w = (Ok t, w') -> forall x, d = Some x -> t = x.
Proof. intros H x ->. cbn in H. by injection H as <- _. Qed.

Lemma ingest_message_Ok a f already m st w st' w' :
  ingest_message root a f already m st w = (Ok st', w') ->
  served w' = served w /\ grew a f [m] w w' /\ (Z.of_N (fm_uid m) ∈ already \/ ~ usable m \/ stored w' a f m).
Proof.
  unfold ingest_message. destruct (existsb _ already) eqn:Ea.
  { intros [= <- <-]. split_and!; [done|by apply grew_same|]. left.
    apply existsb_exists in Ea as (z & Hz & ->%Z.eqb_eq). by apply list_elem_of_In. }
  destruct (fm_raw m) as [|b raw] eqn:Er.
  { intros [= <- <-]. split_and!; [done|by apply grew_same|]. right; left. intros [Hne _]. by rewrite Er in Hne. }
  rewrite <- Er. destruct (parse_with_options (fm_raw m) _) as [p|e] eqn:Ep.
  2: { intros [= <- <-]. split_and!; [done|by apply grew_same|]. right; left.
       intros [_ [q Hq]]. rewrite Hq in Ep. done. }
  intros (placed & w1 & H1 & Hx)%mbind_M_inv_Ok. destruct placed as [tid refs].
  apply mbind_M_inv_Ok in Hx as (date & w2 & H2 & Hx).
  apply mbind_M_inv_Ok in Hx as (row & w3 & H3 & Hx).
  apply mbind_M_inv_Ok in Hx as ([] & w4 & H4 & Hx).
  assert (Htail : same w4 w').
  { match type of Hx with ?m w4 = _ => assert (Hk : keeps m) by kept end. by apply Hk in Hx. }
  pose proof (date_or_now_Ok _ _ _ _ H2) as Hdate. apply keeps_place in H1. apply keeps_date in H2.
  apply mmap_err_Ok, messages_create_Ok in H3 as (Hm & Hcols & Hs & Hf & Hat).
  apply persist_or_rollback_Ok in H4 as [H4 Hatt].
  destruct (same_trans _ _ _ H1 H2) as [(M12 & F12 & A12) S12], (same_trans _ _ _ H4 Htail) as [(M34 & F34 & A34) S34].
  assert (Hh : holds a f m p row) by (unfold holds; rewrite Hcols; split_and!; done).
  assert (Hst : stored w' a f m).
  { exists row, p. split; [rewrite M34, Hm; apply elem_of_app; right; by left|]. split; [done|].
    eapply Forall_impl; [exact Hatt|]. intros x. apply has_attachment_grows. by destruct Htail as [(_ & _ & ?) _]. }
  split; [congruence|]. split; [|by right; right]. split_and!; [congruence| |].
  - etransitivity; [exact A12|]. by rewrite <- Hat.
  - exists [row]. split; [by rewrite M34, Hm, M12|]. constructor; [|constructor]. exists m, p. split_and!; [by left|done..].
Qed.

Lemma ingest_all_Ok a f already l st w st' w' :
  ingest_all root a f already l st w = (Ok st', w') ->
  served w' = served w /\ grew a f l w w' /\ Forall (fun m => Z.of_N (fm_uid m) ∈ already \/ ~ usable m \/ stored w' a f m) l.
Proof.
  revert st w. induction l as [|m l IH]; intros st w; cbn [ingest_all].
  { intros [= <- <-]. split_and!; [done|by apply grew_same|constructor]. }
  intros (st1 & w1 & H1 & H2)%mbind_M_inv_Ok.
  apply ingest_message_Ok in H1 as (S1 & G1 & Hm). apply IH in H2 as (S2 & G2 & HF).
  split; [congruence|]. split; [by apply (grew_trans _ _ [m] l _ w1)|]. constructor; [|done].
  destruct Hm as [?|[?|?]]; eauto using grew_stored.
Qed.

Lemma existing_uids_Ok f uids w l w' :
  messages_existing_uids f uids w = (Ok l, w') ->
  forall u, Z.of_N u ∈ l -> has_uid w f u.
Proof.
  destruct uids as [|z uids]; cbn.
  { intros [= <- <-] u Hu. by apply elem_of_nil in Hu. }
  intros [-> ->]%query_Ok u Hu. unfold has_uid. apply existsb_exists.
  apply list_elem_of_In, in_map_iff in Hu as (m & Hm & Hin).
  apply filter_In in Hin as [Hin Hc]. exists m. split; [done|]. brefl.
  unfold at_uid. subst. rewrite Hm, N.eqb_refl, Z.eqb_refl. done.
Qed.

Lemma ingest_window_Ok a f server st w st' w' :
  ingest_window root a f server st w = (Ok st', w') ->
  served w' = served w /\ grew a f (fs_messages server) w w' /\
  Forall (fun m => usable m -> has_uid w f (fm_uid m) \/ stored w' a f m) (fs_messages server).
Proof.
  unfold ingest_window. intros (already & w1 & H1 & H2)%mbind_M_inv_Ok.
  apply mmap_err_Ok in H1. pose proof (existing_uids_Ok _ _ _ _ _ H1) as Hex.
  apply keeps_existing in H1. apply ingest_all_Ok in H2 as (S2 & G & HF).
  split; [destruct H1; congruence|]. split; [by apply (grew_trans _ _ [] _ _ w1); [apply grew_same|]|]. eapply Forall_impl; [exact HF|]. cbn.
  intros m [Hin|[Hn|Hh]] Hu; auto; by left; apply Hex.
Qed.

(** ** The high-water mark *)

Definition covers (mark : option Z) (z : Z) : Prop := exists y, mark = Some y /\ (z <= y)%Z.

Lemma max_opt_covers_l a b z : covers a z -> covers (max_opt a b) z.
Proof.
  intros (y & -> & Hy). destruct b as [x|]; cbn; [exists (Z.max y x)|exists y]; split; auto; lia.
Qed.
Lemma max_opt_covers_r a b z : covers b z -> covers (max_opt a b) z.
Proof.
  intros (y & -> & Hy). destruct a as [x|]; cbn; [exists (Z.max x y)|exists y]; split; auto; lia.
Qed.

Lemma batch_max_covers l m : m ∈ l -> covers (batch_max l) (Z.of_N (fm_uid m)).
Proof.
  induction l as [|x l IH]; intros Hm; [by apply elem_of_nil in Hm|].
  apply elem_of_cons in Hm as [->|Hm]; cbn [batch_max foldr].
  - apply max_opt_covers_l. eexists. by split.
  - apply max_opt_covers_r. by apply IH.
Qed.

Lemma advance_covers ls win :
  (forall z, covers ls z -> covers (advance ls win) z) /\
  Forall (fun m => covers (advance ls win) (Z.of_N (fm_uid m))) (fs_messages win) /\
  covers (advance ls win) (Z.of_N (fs_window_hi win)).
Proof.
  split; [|split].
  - intros z. apply max_opt_covers_l.
  - apply Forall_forall. intros m Hm. apply max_opt_covers_r, max_opt_covers_l.
    by apply batch_max_covers.
  - apply max_opt_covers_r, max_opt_covers_r. eexists. by split.
Qed.

Lemma advances_cover windows ls :
  (forall z, covers ls z -> covers (foldl advance ls windows) z) /\
  Forall (fun win => Forall (fun m => covers (foldl advance ls windows) (Z.of_N (fm_uid m)))
                       (fs_messages win)) windows.
Proof.
  revert ls. induction windows as [|win windows IH]; intros ls; cbn [foldl]; [by split|].
  destruct (advance_covers ls win) as (Ha & Hm & _), (IH (advance ls win)) as (Hb & HF).
  split; [auto|]. constructor; [|done].
  eapply Forall_impl; [exact Hm|]. cbn. auto.
Qed.

(** ** The loop *)

Definition fetched_in (windows : list FolderSync) : list FetchedMessage := concat (map fs_messages windows).

(** Every usable message of the windows is in the store, unless its UID was taken
    before, in [w0], or by another message of the windows that is. *)
Definition all_stored (w0 w : World) (account_id folder_id : Id) (windows : list FolderSync) : Prop :=
  forall m, m ∈ fetched_in windows -> usable m ->
    stored w account_id folder_id m \/ has_uid w0 folder_id (fm_uid m) \/
    exists m', m' ∈ fetched_in windows /\ fm_uid m' = fm_uid m /\ stored w account_id folder_id m'.

(** A fetch logs its answer and changes no table. *)
Definition logs (fetch : N -> M World SyncError FolderSync) : Prop :=
  forall n w fs w', fetch n w = (Ok fs, w') ->
    db w' = db w /\ served w' = served w ++ [fs].

Lemma imap_sync_folder_logs h p u c f : logs (imap_sync_folder h p u c f).
Proof.
  intros n w fs w'. unfold imap_sync_folder. destruct (sync_folder _ _ _ _ _ _ _); [|done].
  by intros [= <- <-].
Qed.

Lemma window_loop_Ok fuel fetch a f server ls st w last ls' n w' :
  logs fetch ->
  window_loop root fuel fetch a f server ls st w = (Ok (last, ls', n), w') ->
  exists more, served w' = served w ++ more /\
    all_stored w w' a f (server :: more) /\ grew a f (fetched_in (server :: more)) w w' /\
    ls' = foldl advance ls (server :: more).
Proof.
  intros Hlog. revert server ls st w. induction fuel as [|k IH]; intros server ls st w; [done|].
  cbn [window_loop]. intros (st1 & w1 & H1 & Hx)%mbind_M_inv_Ok.
  apply ingest_window_Ok in H1 as (S1 & G1 & HF). rewrite Forall_forall in HF.
  destruct (fs_has_more server); cbn [negb] in Hx.
  - apply mbind_M_inv_Ok in Hx as (server' & w2 & H2 & Hx).
    apply Hlog in H2 as [Hd2 Hs2]. apply IH in Hx as (more & Hs & HF' & G2 & Hl).
    assert (G2' : grew a f (fetched_in (server' :: more)) w1 w') by (unfold grew in *; by rewrite Hd2 in G2).
    exists (server' :: more). split_and!; [| | |exact Hl].
    + rewrite Hs, Hs2, S1, <- app_assoc. done.
    + intros m [Hm|Hm]%elem_of_app Hu.
      * destruct (HF m Hm Hu) as [H|H]; [by right; left|left; by eapply grew_stored].
      * destruct (HF' m Hm Hu) as [H|[H|(m' & Hm' & Hu' & H)]]; [by left| |].
        -- unfold has_uid in H. rewrite Hd2 in H.
           destruct (grew_has_uid _ _ _ _ _ _ G1 H) as [H'|(m' & Hm' & Hu' & H')]; [by right; left|].
           right; right. exists m'. split_and!; [apply elem_of_app; by left|done|by eapply grew_stored].
        -- right; right. exists m'. split_and!; [apply elem_of_app; by right|done..].
    + by eapply (grew_trans _ _ (fs_messages server)).
  - injection Hx as <- <- <- <-. exists []. rewrite app_nil_r. cbn. split_and!; [done| |unfold fetched_in; cbn; by rewrite app_nil_r|done].
    intros m Hm Hu. unfold fetched_in in Hm. cbn in Hm. rewrite app_nil_r in Hm.
    destruct (HF m Hm Hu) as [H|H]; [by right; left|by left].
Qed.

(** ** The whole run *)

Lemma mlift_Ok {S E A} (r : result E A) (s : S) a s' : mlift r s = (Ok a, s') -> r = Ok a /\ s = s'.
Proof. by intros [= -> ->]. Qed.

Lemma ok_or_Ok {E A} (o : option A) (e : E) a : ok_or o e = Ok a -> o = Some a.
Proof. destruct o; cbn; congruence. Qed.

(** The wipe of a folder. *)
Lemma wipe_Ok f w n w' :
  messages_delete_all_in_folder f w = (Ok n, w') ->
  served w' = served w /\ folders (db w') = folders (db w) /\
  (forall u, ~ has_uid w' f u) /\
  forall m, m ∈ messages (db w') <-> m ∈ messages (db w) /\ msg_folder_id m <> f.
Proof.
  intros (d & [= _ <-] & ->)%statement_Ok. split_and!; [done..| |].
  - intros u H. unfold has_uid in H. apply existsb_exists in H as (m & Hm & Hu). cbn in Hm.
    apply filter_In in Hm as [_ Hg]. unfold at_uid in Hu. brefl. congruence.
  - intros m. cbn. rewrite !list_elem_of_In, filter_In. split; intros [Hm Hg]; (split; [done|]).
    + brefl. congruence.
    + apply negb_true_iff, N.eqb_neq. done.
Qed.

(** The last statements: the mark and the validity are written to the folder. *)
Definition mark_recorded (report : ReconcileReport) (w w' : World) : Prop :=
  folders (db w') = map (fun x => if (fld_id x =? rep_folder_id report)%N then
      mkFolder (fld_id x) (fld_account_id x) (fld_name x) (fld_delimiter x) (fld_role x)
        (coalesce (rep_uid_validity report) (fld_uid_validity x)) (coalesce (rep_uid_next report) (fld_uid_next x))
        (coalesce (rep_last_seen_uid report) (fld_last_seen_uid x)) (fld_selectable x) (fld_created_at x)
    else x) (folders (db w)).

Lemma report_Ok account_id folder_id (server : FolderSync) (last_seen_uid : option Z) (inserted wiped : Z) (synced : bool) w report w' :
  (mmap_err SyncDb (folders_update_uid_state folder_id
      (Z.of_N <$> fs_uid_validity server) (Z.of_N <$> fs_uid_next server) last_seen_uid);!
    let! now := utc_now in
    mmap_err SyncDb (accounts_update_sync account_id SyncIdle None (Some now));!
    (if synced then
       publish AccountSynced
         (json [(lit "account_id", VString (uuid_to_string account_id));
                (lit "folder_id", VString (uuid_to_string folder_id));
                (lit "inserted", VNumber (NInt inserted));
                (lit "wiped", VNumber (NInt wiped))])
     else mret_M tt);!
    mret_M (mkReport folder_id inserted wiped (Z.of_N <$> fs_uid_validity server)
              (Z.of_N <$> fs_uid_next server) last_seen_uid)) w = (Ok report, w') ->
  served w' = served w /\ messages (db w') = messages (db w) /\ attachments (db w) `prefix_of` attachments (db w') /\
  rep_folder_id report = folder_id /\ rep_last_seen_uid report = last_seen_uid /\ mark_recorded report w w'.
Proof.
  intros (u1 & wa & Ha & Hx)%mbind_M_inv_Ok. apply mmap_err_Ok, statement_Ok in Ha as (d & [= _ <-] & ->).
  apply mbind_M_inv_Ok in Hx as (now & wb & Hb & Hx). apply keeps_utc_now in Hb as [(Mb & Fb & Ab) Sb].
  apply mbind_M_inv_Ok in Hx as (u3 & wc & Hc & Hx). apply keeps_map_err in Hc as [(Mc & Fc & Ac) Sc]; [|apply keeps_update_sync].
  apply mbind_M_inv_Ok in Hx as (u4 & wd & Hd & [= <- <-]).
  assert (same wc wd) as [(Md & Fd & Ad) Sd].
  { destruct synced; [by apply keeps_publish in Hd|by apply keeps_ret in Hd]. }
  cbn in Mb, Fb, Ab, Sb. split_and!; cbn; try congruence.
  - etransitivity; [exact Ab|]. by etransitivity.
  - unfold mark_recorded. cbn. by rewrite Fd, Fc, Fb.
Qed.

Lemma advance_some ls windows : windows <> [] -> exists z, foldl advance ls windows = Some z.
Proof.
  destruct windows as [|x windows _] using rev_ind; [done|]. intros _. rewrite foldl_app. cbn. unfold advance at 1.
  destruct (foldl advance ls windows), (batch_max (fs_messages x)); cbn; eauto.
Qed.

Lemma reconcile_Ok fuel account_id name credential w report w' :
  reconcile_folder root fuel account_id name credential w = (Ok report, w') ->
  exists folder first rest,
    List.find (fun f => (fld_account_id f =? account_id)%N && str_eqb (fld_name f) name)
      (folders (db w)) = Some folder /\
    rep_folder_id report = fld_id folder /\
    served w' = served w ++ first :: rest /\
    let resync := uid_validity_changed (fld_uid_validity folder) (fs_uid_validity first) in
    let windows := if resync then rest else first :: rest in
    windows <> [] /\
    (exists w0 wz, (forall u, has_uid w0 (fld_id folder) u -> resync = false /\ has_uid w (fld_id folder) u) /\
       (forall m, m ∈ messages (db w0) <-> m ∈ messages (db w) /\ (resync = true -> msg_folder_id m <> fld_id folder)) /\
       folders (db w0) = folders (db w) /\
       all_stored w0 wz account_id (fld_id folder) windows /\
       grew account_id (fld_id folder) (fetched_in windows) w0 wz /\
       messages (db w') = messages (db wz) /\ attachments (db wz) `prefix_of` attachments (db w') /\
       mark_recorded report wz w') /\
    rep_last_seen_uid report =
      foldl advance (if resync then None else fld_last_seen_uid folder) windows.
Proof.
  unfold reconcile_folder. destruct (cred_is_empty credential); [done|].
  intros (acc & w1 & H1 & Hx)%mbind_M_inv_Ok.
  apply mmap_err_Ok, query_Ok in H1 as [_ ->].
  apply mbind_M_inv_Ok in Hx as (account & w2 & H2 & Hx). apply mlift_Ok in H2 as [_ <-].
  apply mbind_M_inv_Ok in Hx as (fo & w3 & H3 & Hx).
  apply mmap_err_Ok, query_Ok in H3 as [Hfo ->].
  apply mbind_M_inv_Ok in Hx as (folder & w4 & H4 & Hx). apply mlift_Ok in H4 as [H4 <-].
  apply ok_or_Ok in H4. rewrite Hfo in H4. cbn in H4.
  apply mbind_M_inv_Ok in Hx as (port & w5 & H5 & Hx). apply mlift_Ok in H5 as [_ <-].
  set (fetch := imap_sync_folder (acc_imap_host account) port (acc_email account) credential name) in *.
  pose proof (imap_sync_folder_logs (acc_imap_host account) port (acc_email account) credential name)
    as Hlog. fold fetch in Hlog.
  apply mbind_M_inv_Ok in Hx as (first & w6 & H6 & Hx). apply Hlog in H6 as [Hd6 Hs6].
  cbn [with_faults db served] in Hd6, Hs6.
  exists folder, first.
  set (resync := uid_validity_changed (fld_uid_validity folder) (fs_uid_validity first)) in *.
  apply mbind_M_inv_Ok in Hx as ([wiped server] & w7 & H7 & Hx).
  apply mbind_M_inv_Ok in Hx as (refs & w8 & H8 & Hx). apply keeps_refs in H8 as [(Hm8 & Hf8 & _) Hs8].
  apply mbind_M_inv_Ok in Hx as ([[server' ls'] n] & w9 & H9 & Hx).
  apply (window_loop_Ok _ fetch) in H9 as (more & Hs9 & HF9 & Hp9 & Hl9); [|exact Hlog].
  apply report_Ok in Hx as (Hst & Hmt & Hat & -> & Hls & Hrec). rewrite Hls.
  assert (Hu8 : forall u, has_uid w8 (fld_id folder) u <-> has_uid w7 (fld_id folder) u) by (intros u; unfold has_uid; by rewrite Hm8).
  destruct resync eqn:Er.
  - apply mbind_M_inv_Ok in H7 as (wp & wa & Ha & Hb). apply mmap_err_Ok, wipe_Ok in Ha as (Hsa & Hfa & Hua & Hma).
    apply mbind_M_inv_Ok in Hb as (sv & wb & Hb & Hc). injection Hc as <- <- <-.
    apply Hlog in Hb as [Hdb Hsb]. exists (sv :: more). split_and!; [exact H4|done| |done| |done].
    + rewrite Hst, Hs9, Hs8, Hsb, Hsa, Hs6, <- !app_assoc. done.
    + exists w8, w9. split_and!; try done.
      * intros u Hu. exfalso. apply Hu8 in Hu. apply (Hua u). unfold has_uid in *. by rewrite <- Hdb.
      * intros m. rewrite Hm8, Hdb, Hma, Hd6. naive_solver.
      * by rewrite Hf8, Hdb, Hfa, Hd6.
  - injection H7 as <- <- <-. exists more. split_and!; [exact H4|done| |done| |done].
    + rewrite Hst, Hs9, Hs8, Hs6, <- !app_assoc. done.
    + exists w8, w9. split_and!; try done.
      * intros u Hu. split; [done|]. apply Hu8 in Hu. unfold has_uid in *. by rewrite <- Hd6.
      * intros m. rewrite Hm8, Hd6. naive_solver.
      * by rewrite Hf8, Hd6.
Qed.


(** ** Termination *)

Definition fueled {A} (m : M World SyncError A) : Prop := forall w, (m w).1 <> Err OutOfFuel.

Lemma fueled_bind {A B} (m : M World SyncError A) (k : A -> M World SyncError B) :
  fueled m -> (forall a, fueled (k a)) -> fueled (mbind_M k m).
Proof.
  intros Hm Hk w. unfold mbind_M. specialize (Hm w).
  destruct (m w) as [[a|e] w1]; cbn in *; [apply Hk|congruence].
Qed.
(** The same, with what is known of the value. *)
Definition yields {A} (Q : A -> Prop) (m : M World SyncError A) : Prop :=
  forall w, match (m w).1 with Ok a => Q a | Err e => e <> OutOfFuel end.

Lemma fueled_bind_post {A B} (Q : A -> Prop) (m : M World SyncError A) (k : A -> M World SyncError B) :
  yields Q m -> (forall a, Q a -> fueled (k a)) -> fueled (mbind_M k m).
Proof.
  intros Hm Hk w. unfold mbind_M. specialize (Hm w).
  destruct (m w) as [[a|e] w1]; cbn in *; [by apply Hk|congruence].
Qed.
Lemma fueled_ret {A} (a : A) : fueled (mret_M a).
Proof. done. Qed.
Lemma fueled_throw {A} e : e <> OutOfFuel -> fueled (mthrow e : M World SyncError A).
Proof. intros He w. cbn. congruence. Qed.
Lemma fueled_map_err {E A} (f : E -> SyncError) (m : M World E A) :
  (forall e, f e <> OutOfFuel) -> fueled (mmap_err f m).
Proof.
  intros Hf w. unfold mmap_err. destruct (m w) as [[a|e] w1]; cbn; [done|].
  intros [= Hx]. by apply (Hf e).
Qed.
Lemma fueled_lift_ok_or {A} (o : option A) e : e <> OutOfFuel -> fueled (mlift (ok_or o e)).
Proof. intros He w. destruct o; cbn; congruence. Qed.
Lemma fueled_lift_map_err {E A} (f : E -> SyncError) (r : result E A) :
  (forall e, f e <> OutOfFuel) -> fueled (mlift (map_err f r)).
Proof. intros Hf w. destruct r as [a|e]; cbn; [done|]. intros [= Hx]. by apply (Hf e). Qed.
Lemma fueled_publish t v : fueled (publish t v).
Proof. done. Qed.
Lemma fueled_now : fueled utc_now.
Proof. done. Qed.
Lemma fueled_date d : fueled (date_or_now d).
Proof. by destruct d. Qed.
#[local] Hint Resolve fueled_ret fueled_publish fueled_now fueled_date : fuel.

Ltac fueled_tac :=
  repeat (intros; first
    [ solve [eauto with fuel] | apply fueled_throw; done | apply fueled_map_err; done
    | apply fueled_lift_ok_or; done | apply fueled_lift_map_err; done
    | apply fueled_bind | case_match ]); intros.

Lemma fueled_fetch h p u c f n : fueled (imap_sync_folder h p u c f n).
Proof. intros w. unfold imap_sync_folder. by destruct (sync_folder _ _ _ _ _ _ _). Qed.

Lemma fueled_persist row atts : fueled (persist_or_rollback root row atts).
Proof.
  intros w. unfold persist_or_rollback.
  by destruct (persist_parsed_for_message _ _ _ w) as [[x|e] w1].
Qed.
#[local] Hint Resolve fueled_fetch fueled_persist : fuel.

Lemma fueled_place a f p refs : fueled (place_in_thread a f p refs).
Proof. unfold place_in_thread. fueled_tac. Qed.
#[local] Hint Resolve fueled_place : fuel.

Lemma fueled_ingest a f server st : fueled (ingest_window root a f server st).
Proof.
  unfold ingest_window. fueled_tac. generalize (fs_messages server). intros l. revert st.
  induction l as [|m l IH]; intros st; cbn [ingest_all]; [apply fueled_ret|].
  apply fueled_bind; [|auto]. unfold ingest_message. fueled_tac.
Qed.

Lemma fueled_refs a : fueled (load_thread_refs a).
Proof.
  unfold load_thread_refs. fueled_tac.
  match goal with |- fueled (thread_views ?bt ?l) => induction l as [|t l IH] end;
    cbn [thread_views]; fueled_tac.
Qed.

(** A fetch honours the window contract. *)
Definition contractual (fetch : N -> M World SyncError FolderSync) : Prop :=
  forall n, fueled (fetch n) /\
    forall w fs w', fetch n w = (Ok fs, w') -> window_contract n fs.

Lemma window_loop_fueled fuel fetch a f server ls st :
  contractual fetch ->
  (fs_has_more server = true -> fs_window_hi server < U32_MAX)%N ->
  (N.to_nat (U32_MAX - fs_window_hi server) < fuel)%nat ->
  fueled (window_loop root fuel fetch a f server ls st).
Proof.
  intros Hc. revert server ls st. induction fuel as [|k IH]; intros server ls st Hhi Hfuel; [lia|].
  cbn [window_loop]. apply fueled_bind; [apply fueled_ingest|]. intros st'.
  destruct (fs_has_more server); cbn [negb]; [|apply fueled_ret]. specialize (Hhi eq_refl).
  intros w. unfold mbind_M.
  destruct (Hc (saturating_add (fs_window_hi server) 1)) as [Hff Hwc].
  specialize (Hff w). destruct (fetch _ w) as [[server'|e] w1] eqn:Ef; cbn in *; [|congruence].
  specialize (Hwc w server' w1 Ef). unfold window_contract, saturating_add in Hwc.
  destruct (fs_has_more server') eqn:Em.
  - apply IH; [lia|]. specialize (Hwc eq_refl). lia.
  - (* the next round is the last *)
    destruct k as [|k']; [unfold U32_MAX in *; lia|]. cbn [window_loop]. revert w1 Ef.
    intros w1 Ef. unfold mbind_M. pose proof (fueled_ingest a f server' st' w1) as Hi.
    destruct (ingest_window root a f server' st' w1) as [[st2|e] w2]; cbn in *; [|congruence].
    rewrite Em. done.
Qed.

(** C32. The sync ends: against a server whose windows honour the contract of
    the real client (a window announced as not the last moves forward and stays
    below the largest UID), with fuel for every 32-bit UID the window loop never
    runs out, whatever is stored, fetched or fails. *)
Theorem reconcile_terminates fuel account_id name credential :
  (forall n h p u c f from fs, sync_folder n h p u c f from = Ok fs -> window_contract from fs) ->
  (N.to_nat U32_MAX < fuel)%nat ->
  fueled (reconcile_folder root fuel account_id name credential).
Proof.
  intros Hserver Hfuel w.
  assert (Hcontract : forall h p u c f, contractual (imap_sync_folder h p u c f)).
  { intros h p u c f n. split; [apply fueled_fetch|]. intros w0 fs w1. unfold imap_sync_folder.
    destruct (sync_folder _ _ _ _ _ _ _) eqn:E; [|done]. intros [= <- <-]. eauto. }
  set (below fs := (fs_has_more fs = true -> fs_window_hi fs < U32_MAX)%N).
  assert (Hlim : forall h p u c f n, yields below (imap_sync_folder h p u c f n)).
  { intros h p u c f n w0. destruct (Hcontract h p u c f n) as [Hff Hw]. specialize (Hff w0).
    destruct (imap_sync_folder h p u c f n w0) as [[fs|e] w1] eqn:E; cbn in *; [|congruence].
    intros Hm. specialize (Hw _ _ _ E Hm). lia. }
  revert w. change (fueled (reconcile_folder root fuel account_id name credential)).
  unfold reconcile_folder.
  destruct (cred_is_empty credential); [by apply fueled_throw|].
  apply fueled_bind; [by apply fueled_map_err|]. intros acc.
  apply fueled_bind; [by apply fueled_lift_ok_or|]. intros account.
  apply fueled_bind; [by apply fueled_map_err|]. intros fo.
  apply fueled_bind; [by apply fueled_lift_ok_or|]. intros folder.
  apply fueled_bind; [by apply fueled_lift_map_err|]. intros port.
  apply (fueled_bind_post below); [apply Hlim|]. intros first Hfirst.
  apply (fueled_bind_post (fun p => below p.2)).
  { intros w. destruct (uid_validity_changed _ _); [|exact Hfirst]. unfold mbind_M at 1.
    pose proof (fueled_map_err SyncDb (messages_delete_all_in_folder (fld_id folder)) ltac:(done) w) as Hd.
    destruct (mmap_err _ _ w) as [[n|e] w1]; cbn in *; [|congruence]. unfold mbind_M.
    specialize (Hlim (acc_imap_host account) port (acc_email account) credential name 1%N w1).
    destruct (imap_sync_folder _ _ _ _ _ _ w1) as [[fs|e] w2]; cbn in *; [done|congruence]. }
  intros [wiped server] Hserver'. cbn in Hserver'.
  apply fueled_bind; [apply fueled_refs|]. intros refs.
  apply fueled_bind; [apply window_loop_fueled; [apply Hcontract|exact Hserver'|lia]|].
  intros [[s' ls'] ins]. fueled_tac.
Qed.
End Facts.

(** ** A run *)

Definition example_account : Account :=
  mkAccount 1 (lit "me@ex.com") None AuthPassword (lit "imap") 993 true (lit "smtp") 465 true false
    None None SyncIdle None 0 0.
Definition example_folder : Folder :=
  mkFolder 2 1 (lit "INBOX") (lit "/") RoleInbox None None None true 0.
Definition example_world : World :=
  mkWorld (mkDb [example_account] [example_folder] [] [] [] [] [] [] [] []) 10 [] (fun n => Z.of_nat n) 0
    [] [] [].

(** A parser that takes the bytes as the text body, and a server with two
    messages. *)
Definition example_parser : MessageParser :=
  {| mp_parse raw := Some (mkMpMessage None HEmpty HEmpty None None None None (Some raw) None [] []) |}.
Definition example_server : ImapSync :=
  {| sync_folder _ _ _ _ _ _ from :=
       if (from <=? 1)%N
       then Ok (mkFolderSync (Some 7%N) (Some 4%N) 2
                  [mkFetched 1 [] None [65%N]; mkFetched 3 [] None [66%N]] 3 false)
       else Ok (mkFolderSync (Some 7%N) (Some 4%N) 2 [] 3 false) |}.

Definition example_run : result SyncError ReconcileReport * World :=
  @reconcile_folder example_parser ascii_case plain_parsers example_server (lit "/att") 3 1
    (lit "INBOX") (CredPassword (lit "pw")) example_world.


Lemma reconcile_terminates_witness :
  (@reconcile_folder example_parser ascii_case plain_parsers example_server (lit "/att")
     (S (N.to_nat U32_MAX)) 1 (lit "INBOX") (CredPassword (lit "pw")) example_world).1
  <> Err OutOfFuel.
Proof.
  apply (@reconcile_terminates example_parser ascii_case plain_parsers example_server).
  - intros n h p u c f from fs. cbn. destruct (from <=? 1)%N; intros [= <-]; discriminate.
  - lia.
Defined.

(** ** Messages that stop a folder *)

(** A message whose Message-ID already names a thread of the account (its copy in
    another folder, or itself after a wipe) and that the matcher does not attach
    to it, here because the thread is older than seven days, cannot be stored:
    the thread insertion hits the unique key, the run fails, and so does every
    later one. *)
Definition stale_thread_world : World :=
  mkWorld (mkDb [example_account] [example_folder]
             [mkThread 3 1 (Some (lit "m1")) (Some (lit "Hi")) (Some 0%Z) 1 0] [] [] [] [] [] [] [])
    10 [] (fun _ => (30 * NANOS_PER_DAY)%Z) 0 [] [] [].
Definition same_id_parser : MessageParser :=
  {| mp_parse raw := Some (mkMpMessage (Some (lit "<m1>")) HEmpty HEmpty None None None
                             (Some (lit "Hi")) (Some raw) None [] []) |}.

Lemma known_message_id_blocks_sync :
  (@reconcile_folder same_id_parser ascii_case plain_parsers example_server (lit "/att") 3 1
     (lit "INBOX") (CredPassword (lit "pw")) stale_thread_world).1 =
  Err (SyncDb (UniqueViolation (lit "threads.account_id, threads.external_id"))).
Proof. vm_compute. reflexivity. Qed.

(** A message moved locally keeps its old UID, so the server's message with that
    UID in the target folder is taken for known and never stored. *)
Definition moved_message_world : World :=
  mkWorld (mkDb [example_account] [example_folder; mkFolder 4 1 (lit "Other") (lit "/") RoleCustom
                                                     None None None true 0]
             [mkThread 3 1 None None None 1 0]
             [mkMessage 5 (mkNewMessage 1 4 (Some 3%N) 1 None None None [] [] [] [] None None None
                             None None 0 [] 0 None) 0] [] [] [] [] [] [])
    10 [] (fun n => Z.of_nat n) 0 [] [] [].

Lemma moved_message_hides_server_message :
  let moved := (messages_set_folder 5 2 moved_message_world).2 in
  match @reconcile_folder example_parser ascii_case plain_parsers example_server (lit "/att") 3 1
          (lit "INBOX") (CredPassword (lit "pw")) moved with
  | (Ok report, w') =>
      rep_inserted report = 1%Z /\ rep_last_seen_uid report = Some 3%Z /\
      map (fun m => (msg_uid m, nm_text_body (msg_cols m))) (messages (db w')) =
        [(1%Z, None); (3%Z, Some [66%N])]
  | _ => False
  end.
Proof. vm_compute. repeat split. Qed.

(** An attachment over 25 MiB fails the message it belongs to. *)
Lemma oversize_attachment_fails `{TextParsers} root id i a rest w :
  (MAX_ATTACHMENT_BYTES < N.of_nat (List.length (pa_data a)))%N ->
  persist_loop root id i (a :: rest) w = (Err (TooLarge (pa_filename a) MAX_ATTACHMENT_BYTES), w).
Proof. intros Hl. cbn. destruct (N.ltb_spec MAX_ATTACHMENT_BYTES (N.of_nat (List.length (pa_data a)))); [done|lia]. Qed.
