(* ===== verification/Worker.v ===== *)
(** * Sync workers (src/sync/worker.rs, src/sync/state.rs)

    A worker is a loop of awaited operations.  The model is its state machine:
    [await] is what the task is suspended on, [step] resumes it with the answer
    of that operation and gives the actions it takes until it suspends again.
    Cancellation is an answer of the awaits that race the cancel token, and the
    flag [cancelled] the code reads between them. *)

From S2P Require Import Prelude RustStr Json Op IpcProtocol McpGates McpTools McpModels MailParser MailThreading ImapWindow DbCore DbMail DbInv Attachments Auth Reconciler.
#[local] Open Scope bool_scope.
#[local] Open Scope Z_scope.

(** ** Sync state events *)

Inductive SyncState : Type := StIdle | StPolling | StSyncing | StError.
#[global] Instance SyncState_eq_dec : EqDecision SyncState.
Proof. solve_decision. Defined.

Definition sync_state_as_str (s : SyncState) : str :=
  match s with
  | StIdle => lit "idle"
  | StPolling => lit "polling"
  | StSyncing => lit "syncing"
  | StError => lit "error"
  end.

Definition sync_state_event `{TextParsers} (account_id : Id) (state : SyncState)
    (last_error : option str) : value :=
  json ([(lit "account_id", VString (uuid_to_string account_id));
         (lit "state", VString (sync_state_as_str state))]
        ++ match last_error with Some e => [(lit "last_error", VString e)] | None => [] end).

(** [StateReporter::transition]: an error state is also written to the account
    row, best effort; every transition is published. *)
Definition transition `{TextParsers} {E} (account_id : Id) (state : SyncState)
    (last_error : option str) : M World E unit := fun w =>
  let w1 := match state with
            | StError => (accounts_update_sync account_id SyncErrorStatus last_error None w).2
            | _ => w
            end in
  publish SyncStateTopic (sync_state_event account_id state last_error) w1.

(** ** Configuration and backoff; durations are nanoseconds *)

Definition DURATION_MAX : Z := (2 ^ 64 - 1) * 1000000000 + 999999999.

Record WorkerConfig : Type := mkWorkerConfig {
  poll_interval : Z;
  idle_timeout : Z;
  initial_backoff : Z;
  max_backoff : Z;
}.
Definition seconds (n : Z) : Z := n * 1000000000.
Definition default_config : WorkerConfig :=
  mkWorkerConfig (seconds 60) (seconds (29 * 60)) (seconds 5) (seconds 60).

Definition next_backoff (current max : Z) : Z := Z.min (Z.min (current * 2) DURATION_MAX) max.

Definition is_auth_error (err : SyncError) : bool :=
  match err with
  | SyncImap (Auth _) | MissingCredentials => true
  | _ => false
  end.

(** ** The machine *)

Inductive IdleOutcome : Type := NewData | IdleTimeout | Interrupted.

(** What the task waits for. *)
Inductive await : Type :=
| AwaitCredential
| AwaitReconcile (credential : MailCredential)
| AwaitPoll          (* [sleep_or_cancel(poll_interval)] *)
| AwaitRetry         (* [sleep_or_cancel(backoff)], then double it *)
| AwaitAccount (credential : MailCredential)
| AwaitIdle (credential : MailCredential)
| Stopped.

(** [use_idle] distinguishes [run_sync_worker] with an IDLE client from
    [run_polling_worker]. *)
Record worker : Type := mkWorker { use_idle : bool; backoff : Z; waiting : await }.

Inductive answer : Type :=
| Cancelled                                        (* the cancel branch of a select *)
| CredentialResult (r : result SyncError MailCredential)
| ReconcileResult (r : result SyncError ReconcileReport)
| Elapsed                                          (* a sleep ran its time *)
| AccountResult (r : result DbError (option Account))
| IdleResult (r : result ImapError IdleOutcome).

Inductive action : Type :=
| Transition (s : SyncState) (last_error : option SyncError)
| Sleep (d : Z).

Section Machine.
Context (config : WorkerConfig).

(** The head of the loop: the cancel check, then the credential. *)
Definition loop_top (cancelled use_idle : bool) (b : Z) : worker :=
  mkWorker use_idle b (if cancelled then Stopped else AwaitCredential).

Definition stop (w : worker) : worker := mkWorker (use_idle w) (backoff w) Stopped.

(** A failure that is retried: report, then sleep the current backoff. *)
Definition retry (w : worker) (err : SyncError) : worker * list action :=
  (mkWorker (use_idle w) (backoff w) AwaitRetry, [Transition StError (Some err); Sleep (backoff w)]).
(** A failure that ends the worker. *)
Definition fail (w : worker) (err : SyncError) : worker * list action :=
  (stop w, [Transition StError (Some err)]).

(** Start of [run_polling_worker] and of the IDLE loop. *)
Definition start (cancelled use_idle : bool) : worker * list action :=
  (loop_top cancelled use_idle (initial_backoff config),
   [Transition (if use_idle then StIdle else StPolling) None]).

(** [credential_for_cycle]. *)
Definition on_credential (w : worker) (r : result SyncError MailCredential) : worker * list action :=
  match r with
  | Ok c => (mkWorker (use_idle w) (backoff w) (AwaitReconcile c), [Transition StSyncing None])
  | Err err => if is_auth_error err then fail w err else retry w err
  end.

(** The outcome of the reconciliation: the polling worker sleeps, the IDLE worker
    looks its account up. *)
Definition on_reconcile (w : worker) (c : MailCredential) (r : result SyncError ReconcileReport)
    : worker * list action :=
  match r with
  | Ok _ =>
      if use_idle w
      then (mkWorker true (initial_backoff config) (AwaitAccount c), [])
      else (mkWorker false (initial_backoff config) AwaitPoll,
            [Transition StPolling None; Sleep (poll_interval config)])
  | Err err => if is_auth_error err then fail w err else retry w err
  end.

Definition on_account (w : worker) (c : MailCredential) (r : result DbError (option Account))
    : worker * list action :=
  match r with
  | Ok (Some account) =>
      match port_u16 (acc_imap_port account) with
      | Ok _ => (mkWorker (use_idle w) (backoff w) (AwaitIdle c), [Transition StIdle None])
      | Err err => fail w (SyncImap err)
      end
  | Ok None => (stop w, [])
  | Err err => retry w (SyncDb err)
  end.

Definition on_idle (cancelled : bool) (w : worker) (r : result ImapError IdleOutcome)
    : worker * list action :=
  match r with
  | Ok NewData | Ok IdleTimeout => (loop_top cancelled (use_idle w) (initial_backoff config), [])
  | Ok Interrupted =>
      if cancelled then (stop w, []) else (loop_top cancelled (use_idle w) (initial_backoff config), [])
  | Err (Unsupported _) => start cancelled false
  | Err (Auth m) => fail w (SyncImap (Auth m))
  | Err err => retry w (SyncImap err)
  end.

(** [sleep_or_cancel] ran its time. *)
Definition on_elapsed (cancelled : bool) (w : worker) (retrying : bool) : worker * list action :=
  (loop_top cancelled (use_idle w)
     (if retrying then next_backoff (backoff w) (max_backoff config) else backoff w), []).

(** [cancelled] is the token's state when the task resumes. *)
Definition step (cancelled : bool) (w : worker) (a : answer) : option (worker * list action) :=
  match waiting w, a with
  | Stopped, _ => None
  (* idle_once takes the token itself and answers Interrupted *)
  | AwaitCredential, Cancelled | AwaitReconcile _, Cancelled
  | AwaitPoll, Cancelled | AwaitRetry, Cancelled =>
      if cancelled then Some (stop w, []) else None
  | AwaitCredential, CredentialResult r => Some (on_credential w r)
  | AwaitReconcile c, ReconcileResult r => Some (on_reconcile w c r)
  | AwaitPoll, Elapsed => Some (on_elapsed cancelled w false)
  | AwaitRetry, Elapsed => Some (on_elapsed cancelled w true)
  | AwaitAccount c, AccountResult r => Some (on_account w c r)
  | AwaitIdle _, IdleResult r => Some (on_idle cancelled w r)
  | _, _ => None
  end.

(** A run: the answers with the token's state at each. *)
Fixpoint run (w : worker) (l : list (bool * answer)) : option (worker * list action) :=
  match l with
  | [] => Some (w, [])
  | (c, a) :: rest =>
      match step c w a with
      | None => None
      | Some (w1, acts) =>
          match run w1 rest with
          | None => None
          | Some (w2, acts2) => Some (w2, acts ++ acts2)
          end
      end
  end.

(** ** Backoff *)

Context (Hpos : 0 < initial_backoff config) (Hmax : 0 < max_backoff config <= DURATION_MAX).

Lemma next_backoff_pow b k :
  (b = Z.min (initial_backoff config * 2 ^ Z.of_nat k) (max_backoff config) \/
   (k = 0%nat /\ b = initial_backoff config)) ->
  next_backoff b (max_backoff config) =
    Z.min (initial_backoff config * 2 ^ Z.of_nat (S k)) (max_backoff config).
Proof.
  unfold next_backoff. rewrite Nat2Z.inj_succ, Z.pow_succ_r by lia.
  intros [->|[-> ->]]; cbn [Z.of_nat Z.pow]; nia.
Qed.

(** A failing cycle: the credential cannot be resolved, or it can and the
    reconciliation fails. *)
Definition failure : Type := option MailCredential * SyncError.
Definition failing_cycle (f : failure) : list (bool * answer) :=
  match f with
  | (None, err) => [(false, CredentialResult (Err err)); (false, Elapsed)]
  | (Some c, err) =>
      [(false, CredentialResult (Ok c)); (false, ReconcileResult (Err err)); (false, Elapsed)]
  end.

Definition sleeps (l : list action) : list Z :=
  omap (fun a => match a with Sleep d => Some d | _ => None end) l.

Lemma failing_cycle_run f b u rest :
  is_auth_error f.2 = false ->
  run (mkWorker u b AwaitCredential) (failing_cycle f ++ rest) =
  match run (mkWorker u (next_backoff b (max_backoff config)) AwaitCredential) rest with
  | None => None
  | Some (w2, acts2) =>
      Some (w2, (match f.1 with Some _ => [Transition StSyncing None] | None => [] end)
                ++ [Transition StError (Some f.2); Sleep b] ++ acts2)
  end.
Proof.
  destruct f as [[c|] err]; cbn -[next_backoff]; intros ->; cbn -[next_backoff];
    by destruct (run _ rest) as [[w2 acts2]|].
Qed.

Lemma failures_run fs b u j :
  Forall (fun f => is_auth_error f.2 = false) fs ->
  (b = Z.min (initial_backoff config * 2 ^ Z.of_nat j) (max_backoff config) \/
   (j = 0%nat /\ b = initial_backoff config)) ->
  exists acts w', run (mkWorker u b AwaitCredential) (flat_map failing_cycle fs) = Some (w', acts) /\
    waiting w' = AwaitCredential /\
    forall i, (i < List.length fs)%nat -> sleeps acts !! i =
      Some (match (i + j)%nat with
            | O => b
            | n => Z.min (initial_backoff config * 2 ^ Z.of_nat n) (max_backoff config)
            end).
Proof.
  intros HF. revert b j. induction HF as [|f fs Hf _ IH]; intros b j Hb.
  { cbn. eexists _, _. split; [reflexivity|]. split; [done|]. lia. }
  cbn [flat_map]. rewrite failing_cycle_run by done.
  destruct (IH (next_backoff b (max_backoff config)) (S j)) as (acts & w' & -> & Hw & Hs).
  { left. by apply next_backoff_pow. }
  eexists _, _. split; [reflexivity|]. split; [done|]. intros i Hi.
  assert (Hsl : forall l, sleeps ((match f.1 with Some _ => [Transition StSyncing None] | None => [] end)
                  ++ [Transition StError (Some f.2); Sleep b] ++ l) = b :: sleeps l).
  { intros l. by destruct f as [[c|] err]. }
  rewrite Hsl. destruct i as [|i]; cbn.
  - destruct j as [|j]; [done|]. destruct Hb as [->|[? _]]; done.
  - rewrite Hs by (cbn in Hi; lia). rewrite Nat.add_succ_r. done.
Qed.

(** Retries back off: after a start or a success, the delays of consecutive
    failing cycles (credential or reconciliation, not authentication) are the
    initial backoff, then its doublings capped at the maximum, and the worker is
    each time back at the head of its loop; a successful reconciliation resets
    the backoff. *)
Theorem retries_back_off fs u :
  Forall (fun f => is_auth_error f.2 = false) fs ->
  (exists acts w',
    run (mkWorker u (initial_backoff config) AwaitCredential) (flat_map failing_cycle fs) =
      Some (w', acts) /\
    waiting w' = AwaitCredential /\
    forall i, (i < List.length fs)%nat -> sleeps acts !! i =
      Some (match i with
            | O => initial_backoff config
            | _ => Z.min (initial_backoff config * 2 ^ Z.of_nat i) (max_backoff config)
            end)) /\
  (forall cancelled w c report w' acts, waiting w = AwaitReconcile c ->
     step cancelled w (ReconcileResult (Ok report)) = Some (w', acts) ->
     backoff w' = initial_backoff config).
Proof.
  intros HF. split.
  - destruct (failures_run fs (initial_backoff config) u 0 HF) as (acts & w' & Hr & Hw & Hs).
    { right. done. }
    exists acts, w'. split; [done|]. split; [done|]. intros i Hi. rewrite Hs by done.
    rewrite Nat.add_0_r. by destruct i.
  - intros cancelled w c report w' acts Hw. unfold step, on_reconcile. rewrite Hw.
    destruct (use_idle w); intros [= <- <-]; done.
Qed.
End Machine.

Lemma retries_back_off_witness :
  let err := SyncImap (Timeout (lit "connect")) in
  exists acts w',
    run default_config (mkWorker true (seconds 5) AwaitCredential)
      (flat_map failing_cycle [(None, err); (Some (CredPassword (lit "p")), err); (None, err);
                               (None, err); (None, err)]) = Some (w', acts) /\
    sleeps acts !! 4%nat = Some (seconds 60) /\ sleeps acts !! 1%nat = Some (seconds 10).
Proof.
  intros err.
  destruct (retries_back_off default_config ltac:(reflexivity) ltac:(split; [reflexivity|vm_compute; congruence])
    [(None, err); (Some (CredPassword (lit "p")), err); (None, err); (None, err); (None, err)] true)
    as [(acts & w' & Hr & _ & Hs) _].
  - repeat constructor.
  - exists acts, w'. split; [exact Hr|]. rewrite !Hs by (cbn; lia). split; reflexivity.
Defined.

(** ** Stopping *)

(** Why a worker may end. *)
Definition stop_reason (cancelled : bool) (w : worker) (a : answer) : Prop :=
  cancelled = true \/
  (exists err, is_auth_error err = true /\
     (a = CredentialResult (Err err) \/ a = ReconcileResult (Err err))) \/
  (exists m, a = IdleResult (Err (Auth m))) \/
  a = AccountResult (Ok None) \/
  (exists account e, a = AccountResult (Ok (Some account)) /\ port_u16 (acc_imap_port account) = Err e).

(** Workers stop only for cause, and say so: a step ends the worker only
    when the token is cancelled, the server or the resolver rejects the
    credentials, the account is gone or its port is invalid; in the cases that
    are errors the last thing it does is report the error state; and every other
    failure is reported as an error state and followed by a sleep. *)
Theorem worker_stops_for_cause config cancelled w a w' acts :
  step config cancelled w a = Some (w', acts) ->
  (waiting w' = Stopped -> stop_reason cancelled w a) /\
  (waiting w' = Stopped -> cancelled = false -> a <> AccountResult (Ok None) ->
   exists err, acts = [Transition StError (Some err)]) /\
  (waiting w' = AwaitRetry -> exists err, acts = [Transition StError (Some err); Sleep (backoff w)]).
Proof.
  unfold step, stop_reason, on_credential, on_reconcile, on_account, on_idle, on_elapsed. intros Hs.
  destruct (waiting w) eqn:Ew, a as [|[c|e]|[rp|e]| |[[acc|]|e]|[o|e]]; try discriminate Hs.
  all: repeat (case_hyp Hs; try discriminate Hs).
  all: injection Hs as <- <-.
  all: unfold fail, retry, stop, start, loop_top in *; cbn.
  all: try (destruct cancelled; cbn).
  all: repeat split; try discriminate; intros; try (by left); try (by right); eauto 8; try congruence.
Qed.

Lemma worker_stops_for_cause_witness :
  let w := mkWorker true (seconds 5) AwaitCredential in
  let a := CredentialResult (Err MissingCredentials) in
  step default_config false w a = Some (stop w, [Transition StError (Some MissingCredentials)]) /\
  stop_reason false w a.
Proof.
  intros w a. split; [reflexivity|].
  apply (worker_stops_for_cause default_config false w a (stop w)
           [Transition StError (Some MissingCredentials)]); reflexivity.
Defined.
