(* ===== verification/Manager.v ===== *)
(** * The worker manager (src/sync/manager.rs)

    Which workers run.  [start], [stop] and [stop_all] hold the map's lock only
    for its update; a stopped worker leaves the map at once and winds down
    afterwards, so operations and the ends of tasks interleave.  The model is a
    step relation over the map and the tasks ever spawned. *)

From S2P Require Import Prelude RustStr Json Op IpcProtocol McpGates McpTools McpModels MailParser MailThreading ImapWindow DbCore DbMail DbInv Attachments Auth Reconciler Worker.
#[local] Open Scope bool_scope.

Definition WorkerKey : Type := Id * str.

(** [credential_source]: OAuth accounts re-resolve their token when there is a
    resolver. *)
Inductive credential_source : Type := Static (c : MailCredential) | Dynamic (account_id : Id).
Definition credential_source_for (resolver : bool) (account_id : Id) (c : MailCredential)
    : credential_source :=
  match c with
  | CredOAuth2Bearer _ => if resolver then Dynamic account_id else Static c
  | CredPassword _ => Static c
  end.

(** A spawned task. *)
Record task : Type := mkTask {
  task_key : WorkerKey;
  task_source : credential_source;
  task_cancelled : bool;
  task_finished : bool;
}.

(** The map holds, per key, the index of the task it owns; [announced] is what
    [start] published on the hub. *)
Record WorkerManager : Type := mkManager {
  workers : list (WorkerKey * nat);
  tasks : list task;
  has_idle : bool;
  has_resolver : bool;
  announced : list (Id * SyncState);
}.
Definition no_workers (idle resolver : bool) : WorkerManager := mkManager [] [] idle resolver [].
Definition with_workers (ws : list (WorkerKey * nat)) (ts : list task) (m : WorkerManager)
    : WorkerManager :=
  mkManager ws ts (has_idle m) (has_resolver m) (announced m).

Definition map_lookup (k : WorkerKey) (m : list (WorkerKey * nat)) : option nat :=
  snd <$> List.find (fun p => bool_decide (p.1 = k)) m.
Definition map_remove (k : WorkerKey) (m : list (WorkerKey * nat)) : list (WorkerKey * nat) :=
  List.filter (fun p => negb (bool_decide (p.1 = k))) m.

Definition finished_task (m : WorkerManager) (i : nat) : bool :=
  match tasks m !! i with Some t => task_finished t | None => true end.

(** [start]: refuse when a live worker owns the key, else announce the initial
    state and spawn one. *)
Definition manager_spawn (k : WorkerKey) (c : MailCredential) (m : WorkerManager) : WorkerManager :=
  mkManager (map_remove k (workers m) ++ [(k, List.length (tasks m))])
    (tasks m ++ [mkTask k (credential_source_for (has_resolver m) k.1 c) false false])
    (has_idle m) (has_resolver m)
    (announced m ++ [(k.1, if has_idle m then StIdle else StPolling)]).
Definition manager_start (k : WorkerKey) (c : MailCredential) (m : WorkerManager)
    : bool * WorkerManager :=
  match map_lookup k (workers m) with
  | Some i => if negb (finished_task m i) then (false, m) else (true, manager_spawn k c m)
  | None => (true, manager_spawn k c m)
  end.

Definition cancel_task (t : task) : task :=
  mkTask (task_key t) (task_source t) true (task_finished t).

(** [stop]: take the handle out of the map and cancel it. *)
Definition manager_stop (k : WorkerKey) (m : WorkerManager) : bool * WorkerManager :=
  match map_lookup k (workers m) with
  | Some i => (true, with_workers (map_remove k (workers m)) (alter cancel_task i (tasks m)) m)
  | None => (false, m)
  end.

(** [stop_all]: drain the map, cancel every handle. *)
Definition manager_stop_all (m : WorkerManager) : WorkerManager :=
  with_workers [] (foldr (fun p ts => alter cancel_task p.2 ts) (tasks m) (workers m)) m.

Inductive manager_step (m : WorkerManager) : WorkerManager -> Prop :=
| do_start k c : manager_step m (manager_start k c m).2
| do_stop k : manager_step m (manager_stop k m).2
| do_stop_all : manager_step m (manager_stop_all m)
(** A task ends by itself, after a cancel, or is aborted on the join timeout. *)
| task_ends i t : tasks m !! i = Some t ->
    manager_step m (with_workers (workers m)
      (<[i := mkTask (task_key t) (task_source t) (task_cancelled t) true]> (tasks m)) m).

Inductive manager_reachable : WorkerManager -> Prop :=
| manager_init idle resolver : manager_reachable (no_workers idle resolver)
| manager_next m m' : manager_reachable m -> manager_step m m' -> manager_reachable m'.

(** A worker that runs and has not been told to stop. *)
Definition active (t : task) : Prop := task_cancelled t = false /\ task_finished t = false.

(** Every active task is the one the map holds for its key, and the map holds
    one task per key. *)
Definition manager_inv (m : WorkerManager) : Prop :=
  NoDup (map fst (workers m)) /\
  (forall k i, (k, i) ∈ workers m -> exists t, tasks m !! i = Some t /\ task_key t = k) /\
  (forall i t, tasks m !! i = Some t -> active t -> (task_key t, i) ∈ workers m).

Lemma map_lookup_Some k m i : map_lookup k m = Some i -> (k, i) ∈ m.
Proof.
  unfold map_lookup. destruct (List.find _ m) as [[k' i']|] eqn:E; [|done]. cbn. intros [= <-].
  apply find_some in E as [Hin Hk]. cbn in Hk. brefl. subst. by apply list_elem_of_In.
Qed.

Lemma map_lookup_None k (m : list (WorkerKey * nat)) i : map_lookup k m = None -> (k, i) ∉ m.
Proof.
  unfold map_lookup. destruct (List.find _ m) eqn:E; [done|]. intros _ Hin.
  apply list_elem_of_In in Hin. eapply List.find_none in E; [|exact Hin]. cbn in E.
  by apply bool_decide_eq_false in E.
Qed.

Lemma map_remove_elem k m p : p ∈ map_remove k m <-> p ∈ m /\ p.1 <> k.
Proof.
  unfold map_remove. rewrite !list_elem_of_In, filter_In. rewrite negb_true_iff, bool_decide_eq_false.
  done.
Qed.

Lemma map_remove_NoDup k m :
  NoDup (map fst m) -> NoDup (map fst (map_remove k m)) /\ k ∉ map fst (map_remove k m).
Proof.
  intros Hd. split; [by apply NoDup_map_filter|].
  rewrite list_elem_of_In, in_map_iff. intros (p & Hp & Hin%list_elem_of_In%map_remove_elem).
  naive_solver.
Qed.

(** The map is a function. *)
Lemma workers_unique (m : list (WorkerKey * nat)) (k : WorkerKey) i j :
  NoDup (map fst m) -> (k, i) ∈ m -> (k, j) ∈ m -> i = j.
Proof.
  intros Hd Hi Hj. induction m as [|[k' x] m IH]; [by apply elem_of_nil in Hi|].
  cbn in Hd. apply NoDup_cons in Hd as [Hk Hd].
  assert (Hout : forall y, (k', y) ∈ m -> False).
  { intros y Hy. apply Hk. rewrite list_elem_of_In, in_map_iff. exists (k', y).
    split; [done|]. by apply list_elem_of_In. }
  apply elem_of_cons in Hi, Hj.
  destruct Hi as [Hi|Hi], Hj as [Hj|Hj]; simplify_eq; auto; exfalso; eauto.
Qed.

Lemma spawn_inv k c m :
  manager_inv m ->
  (forall i t, tasks m !! i = Some t -> active t -> task_key t <> k) ->
  manager_inv (manager_spawn k c m).
Proof.
  intros (Hd & Hm & Ha) Hfree. destruct (map_remove_NoDup k (workers m) Hd) as [Hd' Hk].
  unfold manager_spawn. split; [|split]; cbn [workers tasks with_workers].
  - rewrite map_app. cbn. by apply NoDup_snoc.
  - intros k' i [Hin|Hin]%elem_of_app.
    + apply map_remove_elem in Hin as [Hin _]. destruct (Hm _ _ Hin) as (t & Ht & Hkt).
      exists t. split; [|done]. by apply lookup_app_l_Some.
    + apply list_elem_of_singleton in Hin. injection Hin as -> ->.
      eexists. rewrite lookup_app_r, Nat.sub_diag by lia. split; [reflexivity|done].
  - intros i t Hi Hact. apply elem_of_app. apply lookup_app_Some in Hi as [Hi|[Hl Hi]].
    + left. apply map_remove_elem. split; [by apply Ha|]. cbn. by eapply Hfree.
    + right. apply list_lookup_singleton_Some in Hi as [Hi <-].
      apply list_elem_of_singleton. cbn. f_equal. lia.
Qed.

Lemma cancel_active_inv i (ts : list task) j t :
  alter cancel_task i ts !! j = Some t -> active t -> ts !! j = Some t /\ i <> j.
Proof.
  intros Hj [Hc Hf]. destruct (decide (i = j)) as [->|Hne].
  - rewrite list_lookup_alter_eq in Hj. destruct (ts !! j); cbn in Hj; [|done]. injection Hj as <-. discriminate Hc.
  - by rewrite list_lookup_alter_ne in Hj.
Qed.

Lemma cancel_keys i (ts : list task) j t :
  ts !! j = Some t -> exists t', alter cancel_task i ts !! j = Some t' /\ task_key t' = task_key t.
Proof.
  intros Hj. destruct (decide (i = j)) as [->|Hne].
  - rewrite list_lookup_alter_eq, Hj. cbn. by eexists.
  - rewrite list_lookup_alter_ne by done. eauto.
Qed.

Lemma cancel_all_active (l : list (WorkerKey * nat)) (ts : list task) j t :
  foldr (fun p ts => alter cancel_task p.2 ts) ts l !! j = Some t -> active t ->
  ts !! j = Some t /\ forall k, (k, j) ∉ l.
Proof.
  intros Hj Hact. induction l as [|[k i] l IH]; cbn in *.
  - split; [done|]. intros k. apply not_elem_of_nil.
  - apply cancel_active_inv in Hj as [Hj Hne]; [|done]. destruct (IH Hj) as [Ht Hk].
    split; [done|]. intros k'. rewrite not_elem_of_cons. split; [congruence|done].
Qed.

Lemma manager_step_inv m m' : manager_inv m -> manager_step m m' -> manager_inv m'.
Proof.
  intros Hinv Hstep. pose proof Hinv as (Hd & Hm & Ha).
  destruct Hstep as [k c|k| |i t Hi].
  - unfold manager_start. destruct (map_lookup k (workers m)) as [i|] eqn:El; cbn [snd].
    + unfold finished_task. destruct (tasks m !! i) as [t|] eqn:Ei.
      * destruct (task_finished t) eqn:Ef; cbn [negb snd]; [|done]. apply spawn_inv; [done|].
        intros j t' Hj Hact <-. apply map_lookup_Some in El.
        pose proof (workers_unique _ _ _ _ Hd El (Ha _ _ Hj Hact)) as ->.
        destruct Hact. congruence.
      * exfalso. apply map_lookup_Some in El. destruct (Hm _ _ El) as (t & Ht & _). congruence.
    + apply spawn_inv; [done|]. intros j t' Hj Hact <-. by apply (map_lookup_None _ _ j El), Ha.
  - unfold manager_stop. destruct (map_lookup k (workers m)) as [i|] eqn:El; cbn [snd]; [|done].
    apply map_lookup_Some in El.
    destruct (map_remove_NoDup k (workers m) Hd) as [Hd' _]. split; [done|].
    split; cbn [workers tasks with_workers].
    + intros k' j [Hin _]%map_remove_elem. destruct (Hm _ _ Hin) as (t & Ht & Hk).
      destruct (cancel_keys i _ _ _ Ht) as (t' & Ht' & Hk'). exists t'. split; [done|congruence].
    + intros j t Hj Hact. apply cancel_active_inv in Hj as [Hj Hne]; [|done].
      apply map_remove_elem.
      split; [by apply Ha|]. cbn. intros Hk. destruct (Hm _ _ El) as (t0 & Ht0 & Hk0).
      apply Hne. specialize (Ha _ _ Hj Hact). rewrite Hk in Ha.
      exact (workers_unique _ _ _ _ Hd El Ha).
  - unfold manager_stop_all. split; [constructor|]. split; cbn [workers tasks with_workers].
    + intros k i Hin. by apply elem_of_nil in Hin.
    + intros j t Hj Hact. apply cancel_all_active in Hj as [Hj Hk]; [|done].
      exfalso. by apply (Hk (task_key t)), Ha.
  - split; [done|]. split; cbn [workers tasks with_workers].
    + intros k j Hin. destruct (Hm _ _ Hin) as (t0 & Ht0 & Hk).
      destruct (decide (i = j)) as [->|Hne].
      * rewrite Hi in Ht0. simplify_eq. eexists. split; [apply list_lookup_insert_eq; by eapply lookup_lt_Some|done].
      * exists t0. split; [by rewrite list_lookup_insert_ne|done].
    + intros j t0 Hj Hact. destruct (decide (i = j)) as [->|Hne].
      * rewrite list_lookup_insert_eq in Hj by (by eapply lookup_lt_Some). simplify_eq.
        by destruct Hact.
      * rewrite list_lookup_insert_ne in Hj by done. by apply Ha.
Qed.


