(* ===== verification/SqlQuery.v ===== *)
(** * The read-only SQL surface (src/db/sql_query.rs)

    The statement filter, the row cap and the response budget.  SQLite itself is
    the class [SqlEngine]: the rows a statement yields under a bound limit, in
    the order they are streamed.  [base64] is a parameter of the cell
    conversion. *)

From S2P Require Import Prelude RustStr Json.
#[local] Open Scope N_scope.
#[local] Open Scope bool_scope.

Inductive SqlError : Type :=
| Rejected (reason : str)
| SqlSqlx (message : str).

Definition MAX_ROWS_N : N := 1000.
Definition DEFAULT_ROWS : N := 200.
Definition MAX_SQL_BYTES : N := 16 * 1024.
Definition MAX_CELL_BYTES : N := 64 * 1024.
Definition MAX_RESPONSE_BYTES : N := 1024 * 1024.
Definition USIZE_MAX : N := 2 ^ 64 - 1.

Definition FORBIDDEN_KEYWORDS : list str :=
  [lit "INSERT"; lit "UPDATE"; lit "DELETE"; lit "REPLACE"; lit "MERGE"; lit "CREATE"; lit "DROP";
   lit "ALTER"; lit "TRUNCATE"; lit "ATTACH"; lit "DETACH"; lit "VACUUM"; lit "REINDEX";
   lit "BEGIN"; lit "COMMIT"; lit "ROLLBACK"; lit "SAVEPOINT"; lit "RELEASE"; lit "PRAGMA"].

Definition SEMICOLON : N := 59.

Definition trim_one_trailing_semicolon (sql : str) : str :=
  let trimmed := trim sql in
  match strip_suffix_char trimmed SEMICOLON with
  | Some without => trim_end without
  | None => trimmed
  end.

(** Token boundaries: anything but ASCII letters, digits and underscore. *)
Definition delimiter (c : N) : bool := negb (is_ascii_alphanumeric c) && negb (c =? 95).
Definition tokens (s : str) : list str := split_by delimiter s.

Section Validate.
Context `{UnicodeCase}.

Definition validate_query (sql : str) : result SqlError unit :=
  if MAX_SQL_BYTES <? str_len sql then
    Err (Rejected (lit "sql string is " ++ show_N (str_len sql) ++ lit " bytes, exceeds "
                     ++ show_N MAX_SQL_BYTES ++ lit " byte limit"))
  else
    let sql := trim_one_trailing_semicolon sql in
    if is_empty sql then Err (Rejected (lit "statement must not be empty"))
    else
      match List.find (fun token => negb (is_empty token) && existsb (str_eqb token) FORBIDDEN_KEYWORDS)
              (tokens (to_uppercase sql)) with
      | Some kw => Err (Rejected (lit "statement contains forbidden keyword: " ++ kw))
      | None =>
          let first_token := to_ascii_uppercase
            (unwrap_or [] (List.find (fun token => negb (is_empty token)) (tokens sql))) in
          if negb (str_eqb first_token (lit "SELECT")) && negb (str_eqb first_token (lit "WITH"))
          then Err (Rejected (lit "statement must start with SELECT or WITH"))
          else Ok tt
      end.
End Validate.

(** ** Sizes; [usize] arithmetic saturates *)

Definition sat_add (a b : N) : N := N.min (a + b) USIZE_MAX.

Definition json_char_bytes (ch : N) : N :=
  if (ch =? 34) || (ch =? 92) then 2
  else if (ch =? 8) || (ch =? 12) || (ch =? 10) || (ch =? 13) || (ch =? 9) then 2
  else if ch <=? 31 then 6
  else len_utf8 ch.
Definition json_string_bytes (text : str) : N :=
  foldl (fun sum ch => sat_add sum (json_char_bytes ch)) 2 text.

Fixpoint json_value_bytes (v : value) : N :=
  match v with
  | VNull => 4
  | VBool true => 4
  | VBool false => 5
  | VNumber (NInt z) => str_len (show_Z z)
  | VNumber (NFloat text) => str_len text
  | VString text => json_string_bytes text
  | VArray values =>
      (fix go sum l := match l with
                       | [] => sum
                       | x :: r => go (sat_add (sat_add sum (json_value_bytes x)) 1) r
                       end) 2 values
  | VObject m =>
      (fix go sum l := match l with
                       | [] => sum
                       | (k, x) :: r =>
                           go (sat_add (sat_add (sat_add sum (json_string_bytes k))
                                          (json_value_bytes x)) 2) r
                       end) 2 m
  end.

(** ** Cells *)

(** A SQLite cell decoded by its storage class; a REAL is its JSON text when it
    is finite; decoding a cell can fail. *)
Inductive cell : Type :=
| CNull
| CInteger (z : Z)
| CReal (text : option str)
| CText (s : str)
| CBlob (b : list N)
| COther (s : str)
| CUndecodable (error : str).

Definition ensure_cell_bytes (column_name value_kind : str) (bytes : N) : result SqlError unit :=
  if MAX_CELL_BYTES <? bytes then
    Err (Rejected (value_kind ++ lit " cell '" ++ column_name ++ lit "' is " ++ show_N bytes
                     ++ lit " bytes, exceeds " ++ show_N MAX_CELL_BYTES ++ lit " byte limit"))
  else Ok tt.

Section Query.
Context (base64_encode : list N -> str).

Definition sqlite_value_to_json (column_name : str) (c : cell) : result SqlError value :=
  match c with
  | CNull => Ok VNull
  | CInteger z => Ok (VNumber (NInt z))
  | CReal (Some t) => Ok (VNumber (NFloat t))
  | CReal None => Ok VNull
  | CText s | COther s =>
      _ ← ensure_cell_bytes column_name (lit "text") (str_len s); Ok (VString s)
  | CBlob b =>
      _ ← ensure_cell_bytes column_name (lit "blob") (N.of_nat (List.length b));
      Ok (VString (base64_encode b))
  | CUndecodable e => Err (SqlSqlx e)
  end.

(** [ResponseBudget::account]. *)
Definition account (used cell_bytes : N) : result SqlError N :=
  if USIZE_MAX <? used + cell_bytes then
    Err (Rejected (lit "query response exceeds " ++ show_N MAX_RESPONSE_BYTES ++ lit " byte limit"))
  else if MAX_RESPONSE_BYTES <? used + cell_bytes then
    Err (Rejected (lit "query response is " ++ show_N (used + cell_bytes) ++ lit " bytes, exceeds "
                     ++ show_N MAX_RESPONSE_BYTES ++ lit " byte limit"))
  else Ok (used + cell_bytes).

(** One row: its columns in order, into an object. *)
Fixpoint convert_row (used : N) (cols : list (str * cell)) (obj : object)
    : result SqlError (N * object) :=
  match cols with
  | [] => Ok (used, obj)
  | (name, c) :: rest =>
      v ← sqlite_value_to_json name c;
      used ← account used (json_value_bytes v);
      convert_row used rest (map_insert name v obj)
  end.

(** The stream: a row or an error at a time. *)
Fixpoint convert_rows (used : N) (rows : list (result str (list (str * cell))))
    : result SqlError (list object) :=
  match rows with
  | [] => Ok []
  | Err e :: _ => Err (SqlSqlx e)
  | Ok row :: rest =>
      p ← convert_row used row [];
      objs ← convert_rows p.1 rest;
      Ok (p.2 :: objs)
  end.

(** The engine: what is streamed for a statement with its limit bound; [None] when
    the two seconds run out first. *)
Class SqlEngine := {
  fetch_rows : str -> Z -> option (list (result str (list (str * cell))));
  fetch_all : str -> result str (list (list (str * cell)));
}.

Definition capped_sql (sql : str) : str :=
  lit "SELECT * FROM (" ++ [LF] ++ sql ++ [LF] ++ lit ") AS postblox_agent_query LIMIT ?".

Definition query `{UnicodeCase} `{SqlEngine} (sql : str) (limit : N) : result SqlError (list object) :=
  _ ← validate_query sql;
  let sql := trim_one_trailing_semicolon sql in
  let cap := N.max 1 (N.min MAX_ROWS_N limit) in
  match fetch_rows (capped_sql sql) (Z.of_N cap) with
  | None => Err (Rejected (lit "query timed out after 2000 ms"))
  | Some rows => convert_rows 0 rows
  end.

(** The schema dump: the cell limit applies, the response budget does not. *)
Definition SCHEMA_SQL : str :=
  lit "SELECT type, name, sql FROM sqlite_master " ++
  lit "WHERE sql IS NOT NULL AND name NOT LIKE 'sqlite_%' " ++ lit "ORDER BY type, name".
Fixpoint schema_row (cols : list (str * cell)) (obj : object) : result SqlError object :=
  match cols with
  | [] => Ok obj
  | (name, c) :: rest => v ← sqlite_value_to_json name c; schema_row rest (map_insert name v obj)
  end.
Fixpoint schema_rows (rows : list (list (str * cell))) : result SqlError (list object) :=
  match rows with
  | [] => Ok []
  | row :: rest => obj ← schema_row row []; objs ← schema_rows rest; Ok (obj :: objs)
  end.
Definition schema `{SqlEngine} : result SqlError (list object) :=
  match fetch_all SCHEMA_SQL with
  | Err e => Err (SqlSqlx e)
  | Ok rows => schema_rows rows
  end.
End Query.

(** ** The statement filter *)

Lemma to_uppercase_app `{UnicodeCase} a b : to_uppercase (a ++ b) = to_uppercase a ++ to_uppercase b.
Proof. apply flat_map_app. Qed.

Lemma to_uppercase_ascii_str `{UnicodeCase} w : is_ascii w -> to_uppercase w = to_ascii_uppercase w.
Proof.
  induction 1 as [|c w Hc _ IH]; cbn; [done|]. rewrite char_to_uppercase_ascii by done. cbn.
  by f_equal.
Qed.

Lemma delimiter_upper c : delimiter c = true -> ascii_upper c = c.
Proof.
  unfold delimiter, is_ascii_alphanumeric, ascii_upper. intros Hd. brefl.
  by match goal with Hx : is_ascii_lower c = false |- _ => rewrite Hx end.
Qed.

(** Empty, or ends (starts) with an ASCII delimiter. *)
Definition ends_delimited (a : str) : Prop :=
  a = [] \/ exists a' c, a = a' ++ [c] /\ c < 128 /\ delimiter c = true.
Definition starts_delimited (b : str) : Prop :=
  b = [] \/ exists c b', b = c :: b' /\ c < 128 /\ delimiter c = true.

Lemma split_by_snoc_sep (f : N -> bool) a c b :
  f c = true -> split_by f (a ++ c :: b) = split_by f a ++ split_by f b.
Proof.
  intros Hc. induction a as [|x a IH]; cbn; [by rewrite Hc|].
  destruct (f x); [by rewrite IH|]. rewrite IH.
  destruct (split_by f a) as [|w ws] eqn:E; [|done]. exfalso.
  destruct a as [|y a]; cbn in E; [done|]. destruct (f y); [done|]. by destruct (split_by f a).
Qed.

Lemma delimited_token a w b :
  ends_delimited a -> starts_delimited b -> Forall (fun c => delimiter c = false) w ->
  w ∈ tokens (a ++ w ++ b).
Proof.
  intros Ha Hb Hw. unfold tokens.
  assert (Hwb : w ∈ split_by delimiter (w ++ b)).
  { destruct Hb as [->|(c & b' & -> & _ & Hc)].
    - rewrite app_nil_r, split_by_none by done. by left.
    - rewrite split_by_snoc_sep, split_by_none by done. by left. }
  destruct Ha as [->|(a' & c & -> & _ & Hc)]; [done|].
  rewrite <- app_assoc. cbn [app]. rewrite split_by_snoc_sep by done.
  apply elem_of_app. by right.
Qed.

Lemma ends_delimited_upper `{UnicodeCase} a : ends_delimited a -> ends_delimited (to_uppercase a).
Proof.
  intros [->|(a' & c & -> & Hc & Hd)]; [by left|right].
  exists (to_uppercase a'), c. rewrite to_uppercase_app. cbn.
  rewrite char_to_uppercase_ascii, delimiter_upper by done. done.
Qed.

Lemma starts_delimited_upper `{UnicodeCase} b : starts_delimited b -> starts_delimited (to_uppercase b).
Proof.
  intros [->|(c & b' & -> & Hc & Hd)]; [by left|right].
  exists c, (to_uppercase b'). cbn. rewrite char_to_uppercase_ascii, delimiter_upper by done. done.
Qed.

Lemma upper_keyword_ascii w k :
  to_ascii_uppercase w = k -> Forall (fun c => c < 128) k -> is_ascii w.
Proof.
  intros <-. unfold to_ascii_uppercase, is_ascii. rewrite Forall_map. intros Hall.
  eapply Forall_impl; [exact Hall|]. cbn. intros c. unfold ascii_upper, is_ascii_lower.
  destruct (_ && _) eqn:E; brefl; lia.
Qed.

Lemma keywords_plain k :
  k ∈ FORBIDDEN_KEYWORDS ->
  k <> [] /\ Forall (fun c => delimiter c = false) k /\ Forall (fun c => c < 128) k.
Proof.
  intros Hk. assert (Hall : Forall (fun k => negb (is_empty k) &&
     forallb (fun c => negb (delimiter c) && (c <? 128)) k = true) FORBIDDEN_KEYWORDS)
    by (vm_compute; repeat constructor).
  rewrite Forall_forall in Hall. apply Hall in Hk. brefl.
  split; [by apply is_empty_false|].
  match goal with Hx : forallb _ _ = true |- _ => rewrite forallb_forall in Hx end.
  split; apply List.Forall_forall; intros c Hc; specialize (H0 c Hc); brefl; done.
Qed.

(** C21. The statement filter lets no writing keyword through: a statement that
    [validate_query] accepts is at most 16 KiB long, its first word is SELECT or
    WITH in any letter case, and no forbidden keyword in any letter case stands
    in it as a word of its own, whatever Unicode text is around. *)
Theorem accepted_query_is_clean `{UnicodeCase} sql :
  validate_query sql = Ok tt ->
  str_len sql <= MAX_SQL_BYTES /\
  (exists first, List.find (fun t => negb (is_empty t)) (tokens (trim_one_trailing_semicolon sql)) =
     Some first /\ (to_ascii_uppercase first = lit "SELECT" \/ to_ascii_uppercase first = lit "WITH")) /\
  forall a w b, trim_one_trailing_semicolon sql = a ++ w ++ b ->
    ends_delimited a -> starts_delimited b -> to_ascii_uppercase w ∉ FORBIDDEN_KEYWORDS.
Proof.
  unfold validate_query. destruct (N.ltb_spec MAX_SQL_BYTES (str_len sql)); [done|].
  destruct (is_empty _); [done|]. destruct (List.find _ (tokens (to_uppercase _))) as [kw|] eqn:Ef; [done|].
  destruct (_ && _) eqn:Et; [done|]. intros _. split; [done|]. split.
  - destruct (List.find _ (tokens (trim_one_trailing_semicolon sql))) as [t|]; cbn in Et.
    + exists t. split; [done|]. brefl. destruct Et as [E|E]; brefl; apply str_eqb_eq in E; auto.
    + vm_compute in Et. done.
  - intros a w b Hs Ha Hb Hin. destruct (keywords_plain _ Hin) as (Hne & Hdel & Hasc).
    rewrite Hs, !to_uppercase_app in Ef.
    rewrite (to_uppercase_ascii_str w) in Ef by (by eapply upper_keyword_ascii).
    pose proof (delimited_token (to_uppercase a) (to_ascii_uppercase w) (to_uppercase b)
      (ends_delimited_upper a Ha) (starts_delimited_upper b Hb) Hdel) as Htok.
    apply list_elem_of_In in Htok. eapply List.find_none in Ef; [|exact Htok].
    apply andb_false_iff in Ef as [E|E].
    + apply negb_false_iff, is_empty_true in E. done.
    + apply existsb_false in E. rewrite Forall_forall in E. apply E in Hin.
      apply str_eqb_neq in Hin. done.
Qed.

Lemma accepted_query_is_clean_witness :
  str_len (lit "select inserted_at from messages;") <= MAX_SQL_BYTES /\
  @validate_query ascii_case (lit "select inserted_at from messages;") = Ok tt.
Proof.
  split; [|vm_compute; reflexivity].
  apply (@accepted_query_is_clean ascii_case (lit "select inserted_at from messages;")).
  vm_compute. reflexivity.
Defined.

(** The first word may be inside a comment: what is then executed need not start
    with SELECT or WITH. *)
Lemma comment_satisfies_first_word :
  @validate_query ascii_case (lit "--with" ++ [LF] ++ lit "VALUES (1)") = Ok tt.
Proof. vm_compute. reflexivity. Qed.

(** ** The response budget *)

Definition cell_json (b64 : list N -> str) (c : cell) : value :=
  match c with
  | CNull | CReal None | CUndecodable _ => VNull
  | CInteger z => VNumber (NInt z)
  | CReal (Some t) => VNumber (NFloat t)
  | CText s | COther s => VString s
  | CBlob b => VString (b64 b)
  end.

Definition cell_fits (c : cell) : Prop :=
  match c with
  | CText s | COther s => str_len s <= MAX_CELL_BYTES
  | CBlob b => N.of_nat (List.length b) <= MAX_CELL_BYTES
  | CUndecodable _ => False
  | _ => True
  end.

Definition row_bytes (b64 : list N -> str) (row : list (str * cell)) : N :=
  foldr (fun p acc => json_value_bytes (cell_json b64 p.2) + acc) 0 row.
Definition rows_bytes (b64 : list N -> str) (rows : list (list (str * cell))) : N :=
  foldr (fun r acc => row_bytes b64 r + acc) 0 rows.
Definition row_object (b64 : list N -> str) (row : list (str * cell)) (obj : object) : object :=
  foldl (fun o p => map_insert p.1 (cell_json b64 p.2) o) obj row.

Lemma sqlite_value_to_json_iff b64 name c v :
  sqlite_value_to_json b64 name c = Ok v <-> cell_fits c /\ v = cell_json b64 c.
Proof.
  destruct c as [|z|[t|]|s|b|s|e]; cbn; unfold ensure_cell_bytes;
    try (destruct (N.ltb_spec MAX_CELL_BYTES (str_len s)));
    try (destruct (N.ltb_spec MAX_CELL_BYTES (N.of_nat (List.length b)))); cbn;
    split; intros Hx; try (injection Hx as <-); try (split; [done || lia|done]);
    try (destruct Hx as [? ->]); try done; try lia; try discriminate.
Qed.

Lemma account_iff used n u :
  account used n = Ok u <-> used + n <= MAX_RESPONSE_BYTES /\ u = used + n.
Proof.
  unfold account. destruct (N.ltb_spec USIZE_MAX (used + n)).
  { split; [done|]. intros [Hx _]. exfalso. unfold USIZE_MAX, MAX_RESPONSE_BYTES in *. lia. }
  destruct (N.ltb_spec MAX_RESPONSE_BYTES (used + n)).
  - split; [done|]. intros [Hx _]. lia.
  - split; [intros [= <-]; done|]. by intros [_ ->].
Qed.

Lemma convert_row_iff b64 row used obj u o :
  used <= MAX_RESPONSE_BYTES ->
  convert_row b64 used row obj = Ok (u, o) <->
  Forall (fun p => cell_fits p.2) row /\ used + row_bytes b64 row <= MAX_RESPONSE_BYTES /\
  u = used + row_bytes b64 row /\ o = row_object b64 row obj.
Proof.
  revert used obj. induction row as [|[name c] row IH]; intros used obj Hu; cbn [convert_row].
  - cbn. rewrite N.add_0_r. split; [intros [= <- <-]; auto|]. by intros (_ & _ & -> & ->).
  - rewrite Forall_cons. cbn [row_bytes foldr snd]. fold (row_bytes b64 row).
    destruct (sqlite_value_to_json b64 name c) as [v|e] eqn:Ev; cbn.
    + apply sqlite_value_to_json_iff in Ev as [Hfit ->].
      destruct (account used _) as [u'|e] eqn:Ea; cbn.
      * apply account_iff in Ea as [Hle ->]. rewrite IH by done. rewrite N.add_assoc. naive_solver.
      * split; [done|]. intros (_ & Hle & _).
        assert (Hx : account used (json_value_bytes (cell_json b64 c)) =
                     Ok (used + json_value_bytes (cell_json b64 c))) by (apply account_iff; lia).
        congruence.
    + split; [done|]. intros ((Hfit & _) & _).
      assert (Hx : sqlite_value_to_json b64 name c = Ok (cell_json b64 c))
        by (by apply sqlite_value_to_json_iff). congruence.
Qed.

Lemma map_Ok_inj {A E} (xs ys : list A) : map (@Ok E A) xs = map Ok ys -> xs = ys.
Proof.
  revert ys. induction xs as [|x xs IH]; intros [|y ys] Hxy; cbn in Hxy; try discriminate; [done|].
  injection Hxy as -> Hxy. f_equal. by apply IH.
Qed.

Lemma convert_rows_iff b64 rows used out :
  used <= MAX_RESPONSE_BYTES ->
  convert_rows b64 used rows = Ok out <->
  exists rs, rows = map Ok rs /\ Forall (Forall (fun p => cell_fits p.2)) rs /\
    used + rows_bytes b64 rs <= MAX_RESPONSE_BYTES /\ out = map (fun r => row_object b64 r []) rs.
Proof.
  revert used out. induction rows as [|[row|e] rows IH]; intros used out Hu; cbn [convert_rows].
  - split.
    + intros [= <-]. exists []. cbn. rewrite N.add_0_r. auto.
    + intros ([|? ?] & Hr & _ & _ & ->); [done|discriminate].
  - destruct (convert_row b64 used row []) as [[u o]|e] eqn:Er; cbn.
    + apply convert_row_iff in Er as (Hf & Hle & -> & ->); [|done].
      destruct (convert_rows b64 (used + row_bytes b64 row) rows) as [objs|e] eqn:Es; cbn.
      * apply IH in Es as (rs & -> & HF & Hb & ->); [|done]. split.
        { intros [= <-]. exists (row :: rs). cbn. rewrite N.add_assoc. auto. }
        { intros ([|r' rs'] & Hr & HF' & Hb' & ->); [discriminate|]. cbn in Hr.
          injection Hr as <- Hr. apply map_Ok_inj in Hr. by subst. }
      * split; [done|]. intros ([|r' rs'] & Hr & HF' & Hb' & ->); [discriminate|].
        cbn in Hr, Hb'. injection Hr as <- ->. inversion HF'; subst.
        assert (Hx : convert_rows b64 (used + row_bytes b64 row) (map Ok rs') =
          Ok (map (fun r => row_object b64 r []) rs')).
        { apply IH; [done|]. exists rs'. rewrite <- N.add_assoc. auto. }
        congruence.
    + split; [done|]. intros ([|r' rs'] & Hr & HF' & Hb' & ->); [discriminate|].
      cbn in Hr, Hb'. injection Hr as <- ->. inversion HF'; subst.
      assert (Hx : convert_row b64 used row [] =
        Ok (used + row_bytes b64 row, row_object b64 row [])).
      { apply convert_row_iff; [done|]. split; [done|]. split; [lia|done]. }
      congruence.
  - split; [done|]. intros ([|r' rs'] & Hr & _); discriminate.
Qed.

(** What the query surface answers: rows come back exactly when the
    statement passes the filter, the engine streams them all without an error
    before the deadline, every cell decodes and is at most 64 KiB and the JSON
    size of all the values together is at most 1 MiB.  The answer is then every
    streamed row, in order, as an object of its columns; nothing is truncated or
    dropped silently.  The row limit bound into the statement is between 1 and
    1000, whatever was asked for. *)
Theorem query_answers_within_budget `{UnicodeCase} `{SqlEngine} b64 sql limit out :
  (query b64 sql limit = Ok out <->
   validate_query sql = Ok tt /\
   exists rs,
     fetch_rows (capped_sql (trim_one_trailing_semicolon sql))
                (Z.of_N (N.max 1 (N.min MAX_ROWS_N limit))) = Some (map Ok rs) /\
     Forall (Forall (fun p => cell_fits p.2)) rs /\
     rows_bytes b64 rs <= MAX_RESPONSE_BYTES /\
     out = map (fun r => row_object b64 r []) rs) /\
  1 <= N.max 1 (N.min MAX_ROWS_N limit) <= 1000.
Proof.
  split; [|unfold MAX_ROWS_N; lia].
  unfold query. destruct (validate_query sql) as [[]|e]; cbn; [|naive_solver].
  destruct (fetch_rows _ _) as [rows|]; [|naive_solver].
  rewrite convert_rows_iff by done. setoid_rewrite N.add_0_l. naive_solver.
Qed.

(** One row of two cells from an engine that streams just it. *)
Definition one_row_engine : SqlEngine :=
  {| fetch_rows := fun _ _ => Some [Ok [(lit "n", CInteger 7); (lit "s", CText (lit "hi"))]];
     fetch_all := fun _ => Ok [] |}.

Lemma query_answers_within_budget_witness :
  @query (fun _ => []) ascii_case one_row_engine (lit "SELECT n, s FROM t") 5000 =
    Ok [[(lit "n", VNumber (NInt 7)); (lit "s", VString (lit "hi"))]].
Proof.
  apply (proj1 (@query_answers_within_budget ascii_case one_row_engine (fun _ => [])
    (lit "SELECT n, s FROM t") 5000 _)).
  split; [vm_compute; reflexivity|].
  exists [[(lit "n", CInteger 7); (lit "s", CText (lit "hi"))]].
  repeat split; [repeat constructor; vm_compute; done|vm_compute; done].
Defined.
