(* ===== verification/Search.v ===== *)
(** * Message search (src/db/search.rs)

    The quoting of full-text terms, the escaping of [LIKE] patterns and the
    filtered search.  SQLite's full-text index and its [LIKE] operator are the
    classes [Fts] and [SqlLike]; the laws of the second are the documented
    meaning of [LIKE ... ESCAPE]. *)

From S2P Require Import Prelude RustStr Json Op McpModels MailParser DbCore DbMail.
#[local] Open Scope bool_scope.

(** ** Quoting and escaping *)

Definition BACKSLASH : N := 92.
Definition PERCENT : N := 37.
Definition UNDERSCORE : N := 95.

Definition SEEN_FLAG : str := BACKSLASH :: lit "Seen".

Definition quote_term (term : str) : str :=
  let escaped := replace term [DQUOTE] [DQUOTE; DQUOTE] in
  [DQUOTE] ++ escaped ++ [DQUOTE].

Definition is_like_special (ch : N) : bool :=
  (ch =? PERCENT)%N || (ch =? UNDERSCORE)%N || (ch =? BACKSLASH)%N.

Definition like_pattern (needle : str) : str :=
  [PERCENT] ++ flat_map (fun ch => if is_like_special ch then [BACKSLASH; ch] else [ch]) needle
    ++ [PERCENT].

(** ** The engine *)

(** [p LIKE s ESCAPE '\'] as SQLite documents it: [%] is any sequence, [_] any
    character, the escape character makes one of the three special characters
    literal, and any other character stands for itself in either ASCII case. *)
Inductive like_rel : str -> str -> Prop :=
| like_nil : like_rel [] []
| like_any p s1 s2 : like_rel p s2 -> like_rel (PERCENT :: p) (s1 ++ s2)
| like_one p c s : like_rel p s -> like_rel (UNDERSCORE :: p) (c :: s)
| like_esc k p s : is_like_special k = true -> like_rel p s ->
    like_rel (BACKSLASH :: k :: p) (k :: s)
| like_char k p c s : is_like_special k = false -> ascii_lower k = ascii_lower c ->
    like_rel p s -> like_rel (k :: p) (c :: s).

(** SQLite reads both texts as C strings. *)
Definition nul_free (s : str) : Prop := 0%N ∉ s.

Class SqlLike := {
  sql_like : str -> str -> bool;
  sql_like_spec : forall p s, nul_free p -> nul_free s -> sql_like p s = true <-> like_rel p s;
}.

(** The full-text index: the messages a query matches, best rank first, or the
    syntax error of the query. *)
Class Fts := { fts_hits : str -> list Message -> result str (list Message) }.

(** ** Search *)

Record SearchFilters : Type := mkSearchFilters {
  sf_account_id : option Id;
  sf_folder_id : option Id;
  sf_thread_id : option Id;
  sf_date_from : option time;
  sf_date_to : option time;
  sf_from_addr : option str;
  sf_to_addr : option str;
  sf_has_attachments : option bool;
  sf_unread : option bool;
}.
Definition no_filters : SearchFilters :=
  mkSearchFilters None None None None None None None None None.

Section Search.
Context `{Fts} `{SqlLike}.
(** The JSON text of the address column, as serde_json writes it. *)
Context (addrs_text : list str -> str).

Definition search_rows (fts_query : str) (keep : Db -> Message -> bool) (limit offset : Z)
    : M World DbError (list Message) :=
  statement (fun d =>
    match fts_hits fts_query (messages d) with
    | Err e => Err (SqlxOther e)
    | Ok hits => Ok (map summary (limit_offset limit offset (List.filter (keep d) hits)), d)
    end).

Definition search_scoped (fts_query : str) (account_id : option Id) (limit offset : Z)
    : M World DbError (list Message) :=
  let limit := clampz 1 500 limit in
  let offset := Z.max offset 0 in
  match account_id with
  | Some account_id =>
      search_rows fts_query (fun _ m => nm_account_id (msg_cols m) =? account_id)%N limit offset
  | None => search_rows fts_query (fun _ _ => true) limit offset
  end.

Definition search (fts_query : str) (limit offset : Z) : M World DbError (list Message) :=
  search_scoped fts_query None limit offset.

(** A clause of the statement, present when its filter is. *)
Definition clause {A} (filter : option A) (holds : A -> bool) : bool :=
  match filter with Some a => holds a | None => true end.

Definition has_attachment (d : Db) (m : Message) : bool :=
  existsb (fun a => na_message_id (att_cols a) =? msg_id m)%N (attachments d).
Definition has_seen (m : Message) : bool := existsb (str_eqb SEEN_FLAG) (nm_flags (msg_cols m)).

Definition where_clauses (filters : SearchFilters) (d : Db) (m : Message) : bool :=
  clause (sf_account_id filters) (fun a => nm_account_id (msg_cols m) =? a)%N &&
  clause (sf_folder_id filters) (fun f => msg_folder_id m =? f)%N &&
  clause (sf_thread_id filters) (fun t => in_thread t m) &&
  clause (sf_date_from filters) (fun t => t <=? msg_internal_date m)%Z &&
  clause (sf_date_to filters) (fun t => msg_internal_date m <=? t)%Z &&
  clause (sf_from_addr filters) (fun a => sql_like (like_pattern a) (nm_from_addr (msg_cols m))) &&
  clause (sf_to_addr filters)
    (fun a => sql_like (like_pattern a) (addrs_text (nm_to_addrs (msg_cols m)))) &&
  clause (sf_has_attachments filters)
    (fun b : bool => if b then has_attachment d m else negb (has_attachment d m)) &&
  clause (sf_unread filters) (fun b : bool => if b then negb (has_seen m) else has_seen m).

Definition search_filtered (fts_query : str) (filters : SearchFilters) (limit offset : Z)
    : M World DbError (list Message) :=
  let limit := clampz 1 500 limit in
  let offset := Z.max offset 0 in
  search_rows fts_query (where_clauses filters) limit offset.
End Search.

(** ** The pattern matches the needle anywhere *)

Definition escape_like (needle : str) : str :=
  flat_map (fun ch => if is_like_special ch then [BACKSLASH; ch] else [ch]) needle.

(** [needle] occurs in [s], ASCII letter case apart. *)
Definition occurs_ci (needle s : str) : Prop :=
  exists a m b, s = a ++ m ++ b /\ to_ascii_lowercase m = to_ascii_lowercase needle.

Lemma like_special_lower c : is_like_special c = true -> forall k, ascii_lower k = c -> k = c.
Proof.
  unfold is_like_special, PERCENT, UNDERSCORE, BACKSLASH, ascii_lower, is_ascii_upper.
  intros Hc k. destruct (_ && _) eqn:E; brefl; [|by intros ->].
  intros <-. rewrite !orb_true_iff, !N.eqb_eq in Hc. lia.
Qed.

Lemma like_special_id c : is_like_special c = true -> ascii_lower c = c.
Proof.
  unfold is_like_special, PERCENT, UNDERSCORE, BACKSLASH. rewrite !orb_true_iff, !N.eqb_eq.
  by intros [[->| ->]| ->].
Qed.

(** An escaped needle matches one text of its own length. *)
Lemma like_escaped needle p s :
  like_rel (escape_like needle ++ p) s <->
  exists m r, s = m ++ r /\ to_ascii_lowercase m = to_ascii_lowercase needle /\ like_rel p r.
Proof.
  revert s. induction needle as [|k needle IH]; intros s; cbn.
  { split; [intros Hp; by exists [], s|]. intros ([|? ?] & r & -> & Hm & Hp); done. }
  destruct (is_like_special k) eqn:Ek; cbn.
  - split.
    + inversion 1 as [| | |k' p' s' Hk' Hp| k' p' c s' Hk' Hc Hp]; subst; [|done].
      apply IH in Hp as (m & r & -> & Hm & Hp). exists (k :: m), r. unfold to_ascii_lowercase in *. cbn. by rewrite Hm.
    + intros ([|c m] & r & -> & Hm & Hp); [done|]. cbn in Hm.
      injection Hm as Hc Hm. rewrite (like_special_id k Ek) in Hc.
      apply (like_special_lower k Ek) in Hc as ->. apply like_esc; [done|].
      apply IH. by exists m, r.
  - split.
    + inversion 1 as [|p' s1 s2|p' c s'|k' p' s' Hk' Hp|k' p' c s' Hk' Hc Hp]; subst; try done.
      apply IH in Hp as (m & r & -> & Hm & Hp). exists (c :: m), r. unfold to_ascii_lowercase in *. cbn. by rewrite Hm, Hc.
    + intros ([|c m] & r & -> & Hm & Hp); [done|]. injection Hm as Hc Hm.
      apply like_char; [done|done|]. apply IH. by exists m, r.
Qed.

Lemma like_percent p s : like_rel (PERCENT :: p) s <-> exists s1 s2, s = s1 ++ s2 /\ like_rel p s2.
Proof.
  split; [|intros (s1 & s2 & -> & Hp); by constructor].
  inversion 1; subst; [eauto|done].
Qed.

Lemma like_pattern_occurs needle s : like_rel (like_pattern needle) s <-> occurs_ci needle s.
Proof.
  unfold like_pattern. cbn [app]. fold (escape_like needle). rewrite like_percent. split.
  - intros (s1 & s2 & -> & Hp). apply like_escaped in Hp as (m & r & -> & Hm & _).
    by exists s1, m, r.
  - intros (a & m & b & -> & Hm). exists a, (m ++ b). split; [done|]. apply like_escaped.
    exists m, b. split; [done|]. split; [done|]. apply like_percent.
    exists b, []. rewrite app_nil_r. split; [done|constructor].
Qed.

Lemma like_pattern_nul_free needle : nul_free needle -> nul_free (like_pattern needle).
Proof.
  unfold nul_free, like_pattern. intros Hn. cbn. rewrite elem_of_cons, elem_of_app.
  intros [Hx|[Hx|Hx]]; [done| |by apply list_elem_of_singleton in Hx].
  apply list_elem_of_In, in_flat_map in Hx as (c & Hc & Hin).
  apply list_elem_of_In in Hc. destruct (is_like_special c); cbn in Hin.
  - destruct Hin as [?|[->|[]]]; done.
  - destruct Hin as [->|[]]; done.
Qed.

(** ** The matcher the laws describe *)

Fixpoint like_match (p s : str) {struct p} : bool :=
  match p with
  | [] => is_empty s
  | k :: p' =>
      if (k =? PERCENT)%N then
        (fix any (s : str) : bool :=
           like_match p' s || match s with [] => false | _ :: r => any r end) s
      else if (k =? UNDERSCORE)%N then
        match s with [] => false | _ :: r => like_match p' r end
      else if (k =? BACKSLASH)%N then
        match p', s with
        | e :: p'', c :: r => is_like_special e && (e =? c)%N && like_match p'' r
        | _, _ => false
        end
      else match s with
           | c :: r => (ascii_lower k =? ascii_lower c)%N && like_match p' r
           | [] => false
           end
  end.

Lemma like_match_percent p s :
  like_match (PERCENT :: p) s = true <-> exists s1 s2, s = s1 ++ s2 /\ like_match p s2 = true.
Proof.
  induction s as [|c s IH].
  - cbn. rewrite orb_false_r. split; [intros Hp; by exists [], []|].
    intros (s1 & s2 & [-> ->]%eq_sym%app_eq_nil & Hp). done.
  - change (like_match (PERCENT :: p) (c :: s))
      with (like_match p (c :: s) || like_match (PERCENT :: p) s).
    rewrite orb_true_iff, IH. split.
    + intros [Hp|(s1 & s2 & -> & Hp)]; [by exists [], (c :: s)|by exists (c :: s1), s2].
    + intros ([|x s1] & s2 & Hs & Hp); [left; by rewrite Hs|].
      injection Hs as -> ->. right. by exists s1, s2.
Qed.

Lemma like_match_plain k p s :
  is_like_special k = false ->
  like_match (k :: p) s = match s with
                          | c :: r => (ascii_lower k =? ascii_lower c)%N && like_match p r
                          | [] => false
                          end.
Proof.
  unfold is_like_special. intros Hk. apply orb_false_iff in Hk as [[E1 E2]%orb_false_iff E3].
  cbn [like_match]. by rewrite E1, E2, E3.
Qed.

Lemma like_match_rel p s : like_rel p s -> like_match p s = true.
Proof.
  induction 1 as [|p s1 s2 _ IH|p c s _ IH|k p s Hk _ IH|k p c s Hk Hc _ IH].
  - done.
  - apply like_match_percent. by exists s1, s2.
  - done.
  - cbn [like_match]. change (BACKSLASH =? PERCENT)%N with false.
    change (BACKSLASH =? UNDERSCORE)%N with false. cbn. by rewrite Hk, N.eqb_refl, IH.
  - rewrite like_match_plain, Hc, N.eqb_refl by done. done.
Qed.

Lemma like_match_sound n : forall p s, List.length p <= n -> like_match p s = true -> like_rel p s.
Proof.
  induction n as [|n IH]; intros [|k p] s Hn Hm; cbn in Hn; try lia;
    [by destruct s; [constructor|]|by destruct s; [constructor|]|].
  destruct (is_like_special k) eqn:Ek.
  - unfold is_like_special in Ek. rewrite !orb_true_iff, !N.eqb_eq in Ek.
    destruct Ek as [[->| ->]| ->].
    + apply like_match_percent in Hm as (s1 & s2 & -> & Hm). constructor. apply IH; [lia|done].
    + destruct s as [|c s]; [done|]. constructor. apply IH; [lia|done].
    + destruct p as [|e p]; [done|]. destruct s as [|c s]; [done|].
      cbn in Hm, Hn. brefl. subst. constructor; [done|]. apply IH; [lia|done].
  - rewrite like_match_plain in Hm by done. destruct s as [|c s]; [done|]. brefl.
    apply like_char; [done|done|]. apply IH; [lia|done].
Qed.

Definition like_sqlite : SqlLike := {|
  sql_like := like_match;
  sql_like_spec := fun p s _ _ => conj (like_match_sound _ p s (le_n _)) (like_match_rel p s);
|}.

(** ** What a filtered search returns *)

(** The messages the filters mean, in their own terms. *)
Definition selected (addrs_text : list str -> str) (f : SearchFilters) (d : Db) (m : Message) : Prop :=
  let c := msg_cols m in
  (forall a, sf_account_id f = Some a -> nm_account_id c = a) /\
  (forall x, sf_folder_id f = Some x -> nm_folder_id c = x) /\
  (forall t, sf_thread_id f = Some t -> nm_thread_id c = Some t) /\
  (forall t, sf_date_from f = Some t -> (t <= nm_internal_date c)%Z) /\
  (forall t, sf_date_to f = Some t -> (nm_internal_date c <= t)%Z) /\
  (forall a, sf_from_addr f = Some a -> occurs_ci a (nm_from_addr c)) /\
  (forall a, sf_to_addr f = Some a -> occurs_ci a (addrs_text (nm_to_addrs c))) /\
  (forall b, sf_has_attachments f = Some b ->
     (b = true <-> exists a, a ∈ attachments d /\ na_message_id (att_cols a) = msg_id m)) /\
  (forall b, sf_unread f = Some b -> (b = true <-> SEEN_FLAG ∉ nm_flags c)).

Lemma clause_true {A} (o : option A) (h : A -> bool) (P : A -> Prop) :
  (forall a, o = Some a -> h a = true <-> P a) ->
  clause o h = true <-> forall a, o = Some a -> P a.
Proof.
  destruct o as [a|]; cbn; intros Ha.
  - rewrite Ha by done. split; [by intros ? ? [= <-]|auto].
  - split; done.
Qed.

Lemma sql_like_occurs `{SqlLike} needle s :
  nul_free needle -> nul_free s -> sql_like (like_pattern needle) s = true <-> occurs_ci needle s.
Proof.
  intros Hn Hs. rewrite sql_like_spec by auto using like_pattern_nul_free.
  apply like_pattern_occurs.
Qed.

Lemma if_negb_iff (b x : bool) P : (x = true <-> P) ->
  (if b then x else negb x) = true <-> (b = true <-> P).
Proof. destruct b, x; cbn; naive_solver. Qed.

Lemma has_attachment_spec d m :
  has_attachment d m = true <-> exists a, a ∈ attachments d /\ na_message_id (att_cols a) = msg_id m.
Proof.
  unfold has_attachment. rewrite existsb_exists. setoid_rewrite <- list_elem_of_In.
  by setoid_rewrite N.eqb_eq.
Qed.

Lemma has_seen_spec m : negb (has_seen m) = true <-> SEEN_FLAG ∉ nm_flags (msg_cols m).
Proof.
  unfold has_seen. rewrite negb_true_iff, existsb_false, Forall_forall. split.
  - intros Hx Hin. apply Hx in Hin. by rewrite str_eqb_refl in Hin.
  - intros Hn x Hx. apply str_eqb_neq. by intros <-.
Qed.

Lemma where_clauses_selected `{SqlLike} addrs_text f d m :
  (forall a, sf_from_addr f = Some a -> nul_free a) ->
  (forall a, sf_to_addr f = Some a -> nul_free a) ->
  nul_free (nm_from_addr (msg_cols m)) -> nul_free (addrs_text (nm_to_addrs (msg_cols m))) ->
  where_clauses addrs_text f d m = true <-> selected addrs_text f d m.
Proof.
  intros Hf Ht Hmf Hmt. unfold where_clauses, selected. rewrite !andb_true_iff.
  rewrite (clause_true (sf_account_id f) _ (fun a => nm_account_id (msg_cols m) = a)),
    (clause_true (sf_folder_id f) _ (fun x => nm_folder_id (msg_cols m) = x)),
    (clause_true (sf_thread_id f) _ (fun t => nm_thread_id (msg_cols m) = Some t)),
    (clause_true (sf_date_from f) _ (fun t => (t <= nm_internal_date (msg_cols m))%Z)),
    (clause_true (sf_date_to f) _ (fun t => (nm_internal_date (msg_cols m) <= t)%Z)),
    (clause_true (sf_from_addr f) _ (fun a => occurs_ci a (nm_from_addr (msg_cols m)))),
    (clause_true (sf_to_addr f) _ (fun a => occurs_ci a (addrs_text (nm_to_addrs (msg_cols m))))),
    (clause_true (sf_has_attachments f) _ (fun b => b = true <-> exists a, a ∈ attachments d /\
       na_message_id (att_cols a) = msg_id m)),
    (clause_true (sf_unread f) _ (fun b => b = true <-> SEEN_FLAG ∉ nm_flags (msg_cols m)));
    [naive_solver| | | | | | | | |]; intros x Hx.
  - rewrite <- has_seen_spec. destruct x, (has_seen m); cbn; naive_solver.
  - apply if_negb_iff, has_attachment_spec.
  - apply sql_like_occurs; auto.
  - apply sql_like_occurs; auto.
  - apply Z.leb_le.
  - apply Z.leb_le.
  - unfold in_thread. by rewrite bool_decide_eq_true.
  - apply N.eqb_eq.
  - apply N.eqb_eq.
Qed.

Lemma list_filter_sublist {A} (f : A -> bool) l : List.filter f l `sublist_of` l.
Proof. induction l as [|x l IH]; cbn; [done|]. destruct (f x); by constructor. Qed.

(** A filtered search that answers returns, in rank order, the requested
    page (of at most 500) of exactly those full-text hits that every filter
    selects: equal account, folder and thread, dates within the inclusive
    bounds, the given text inside the sender or recipient column ASCII case
    apart (with the wildcard characters of the text taken literally), the
    presence or absence of attachments and of the seen flag.  It changes nothing
    in the store. *)
Theorem filtered_search_selects `{Fts} `{SqlLike} addrs_text q f limit offset w out w' :
  (forall a, sf_from_addr f = Some a -> nul_free a) ->
  (forall a, sf_to_addr f = Some a -> nul_free a) ->
  (forall m, m ∈ messages (db w) -> nul_free (nm_from_addr (msg_cols m)) /\
     nul_free (addrs_text (nm_to_addrs (msg_cols m)))) ->
  (forall hits, fts_hits q (messages (db w)) = Ok hits -> hits ⊆ messages (db w)) ->
  search_filtered addrs_text q f limit offset w = (Ok out, w') ->
  db w' = db w /\
  exists hits kept, fts_hits q (messages (db w)) = Ok hits /\
    out = map summary (limit_offset (clampz 1 500 limit) (Z.max offset 0) kept) /\
    kept `sublist_of` hits /\
    (forall m, m ∈ kept <-> m ∈ hits /\ selected addrs_text f (db w) m) /\
    List.length out <= 500.
Proof.
  intros Hf Ht Hm Hsub (d & Hr & ->)%statement_Ok.
  destruct (fts_hits q (messages (db w))) as [hits|e] eqn:Eh; [|done].
  injection Hr as <- <-. split; [done|].
  exists hits, (List.filter (where_clauses addrs_text f (db w)) hits).
  split; [done|]. split; [done|]. split; [apply list_filter_sublist|]. split.
  - intros m. rewrite !list_elem_of_In, filter_In, <- list_elem_of_In.
    split; intros [Hin Hw]; (split; [done|]);
      destruct (Hm m (Hsub hits eq_refl m Hin)) as [Ha Hb];
      by apply (where_clauses_selected addrs_text f (db w) m Hf Ht Ha Hb).
  - rewrite length_map. unfold limit_offset. rewrite length_take. unfold clampz. lia.
Qed.

(** A message whose sender holds a wildcard character, an index that finds
    everything, and a search for the wildcard character. *)
Definition percent_message (id : Id) (from : str) : Message :=
  mkMessage id (mkNewMessage 1 2 None 1 None None None from [] [] [] None None None None None 0 [] 5 None) 0.
Definition percent_world : World :=
  mkWorld (mkDb [] [] [] [percent_message 1 (lit "50%@x.io"); percent_message 2 (lit "a@x.io")]
             [] [] [] [] [] []) 10 [] (fun _ => 0%Z) 0 [] [] [].
Definition fts_all : Fts := {| fts_hits := fun _ ms => Ok ms |}.

Lemma filtered_search_selects_witness :
  exists hits kept, @fts_hits fts_all [] (messages (db percent_world)) = Ok hits /\
    [percent_message 1 (lit "50%@x.io")] =
      map summary (limit_offset (clampz 1 500 10) (Z.max 0 0) kept) /\
    kept `sublist_of` hits.
Proof.
  destruct (@filtered_search_selects fts_all like_sqlite (fun _ => []) []
      (mkSearchFilters None None None None None (Some (lit "%@X")) None None (Some true)) 10 0
      percent_world [percent_message 1 (lit "50%@x.io")] percent_world)
    as (_ & hits & kept & Hh & Ho & Hs & _).
  - cbn. intros a [= <-]. apply contains_char_false. vm_compute. reflexivity.
  - done.
  - cbn. intros m Hm. rewrite !elem_of_cons, elem_of_nil in Hm.
    destruct Hm as [->|[->|[]]]; split; apply contains_char_false; vm_compute; reflexivity.
  - by intros hits [= <-].
  - vm_compute. reflexivity.
  - by exists hits, kept.
Defined.

(** ** A quoted term is one phrase *)

(** How FTS5 reads a string: between double quotes, a doubled quote is one. *)
Fixpoint fts_string_body (s : str) : option (str * str) :=
  match s with
  | [] => None
  | c :: r =>
      if (c =? DQUOTE)%N then
        match r with
        | c' :: r' => if (c' =? DQUOTE)%N
                      then p ← fts_string_body r'; Some (DQUOTE :: p.1, p.2)
                      else Some ([], r)
        | [] => Some ([], [])
        end
      else p ← fts_string_body r; Some (c :: p.1, p.2)
  end.
Definition fts_string (s : str) : option (str * str) :=
  match s with
  | c :: r => if (c =? DQUOTE)%N then fts_string_body r else None
  | [] => None
  end.

Lemma quote_escape_cons c t :
  replace (c :: t) [DQUOTE] [DQUOTE; DQUOTE] =
  (if (c =? DQUOTE)%N then [DQUOTE; DQUOTE] else [c]) ++ replace t [DQUOTE] [DQUOTE; DQUOTE].
Proof.
  unfold replace. cbn [replace_go]. rewrite N.eqb_sym.
  replace (starts_with (c :: t) [DQUOTE]) with (DQUOTE =? c)%N; [by destruct (DQUOTE =? c)%N|].
  cbn [starts_with]. by destruct t; rewrite andb_true_r.
Qed.

(** User text reaches the full-text engine as data: read by the engine's
    string syntax, the quoted term is a single string, all of the quoted text
    and nothing after it, whatever quotes or operators the term holds. *)
Theorem quoted_term_is_one_phrase t : fts_string (quote_term t) = Some (t, []).
Proof.
  unfold fts_string, quote_term. cbn [app]. rewrite N.eqb_refl.
  induction t as [|c t IH]; [done|]. rewrite quote_escape_cons, <- app_assoc.
  destruct (N.eqb_spec c DQUOTE) as [->|Hne]; cbn [app fts_string_body].
  - rewrite !N.eqb_refl, IH. done.
  - apply N.eqb_neq in Hne. rewrite Hne, IH. done.
Qed.
