(* ===== verification/DbMcp.v ===== *)
(** * Gates, approvals and the audit log in the store (src/db/mcp.rs, src/db/audit.rs)

    One definition per function of the two modules, over the tables of [DbCore].
    An approval is decided by one conditional update; the theorems show what that
    gives under any interleaving of the calls of any number of clients. *)

From S2P Require Import Prelude RustStr Json Op IpcProtocol McpGates McpTools McpModels MailParser ImapWindow DbCore DbMail DbInv.
#[local] Open Scope bool_scope.

(** ** Gates *)

Definition mcp_create_gate (tool : str) (pattern : option str) (action : GateAction)
    (note : option str) : M World DbError McpGate :=
  let! id := new_uuid in
  let! now := sql_now in
  statement (fun d =>
    let row := mkMcpGate id tool pattern action note now in
    Ok (row, set_gates (mcp_gates d ++ [row]) d)).

(** [ORDER BY tool, created_at]. *)
Definition gate_order (a b : McpGate) : bool :=
  match str_compare (gate_tool a) (gate_tool b) with
  | Lt => true
  | Gt => false
  | Eq => (gate_created_at a <=? gate_created_at b)%Z
  end.

Definition mcp_list_gates : M World DbError (list McpGate) :=
  query (fun d => order_by gate_order (mcp_gates d)).

Definition mcp_list_gates_for_tool (tool : str) : M World DbError (list McpGate) :=
  query (fun d => order_by (fun a b => gate_created_at a <=? gate_created_at b)%Z
                    (List.filter (fun g => str_eqb (gate_tool g) tool) (mcp_gates d))).

Definition mcp_delete_gate (id : Id) : M World DbError bool :=
  statement (fun d =>
    let hit g := (gate_id g =? id)%N in
    Ok (existsb hit (mcp_gates d), set_gates (List.filter (fun g => negb (hit g)) (mcp_gates d)) d)).

(** ** Approvals *)

(** The row a new approval starts as. *)
Definition pending_approval (id : Id) (tool : str) (args : value) (summary : str) (now : time)
    : McpApproval :=
  mkMcpApproval id tool args summary Pending None None now.

Definition mcp_create_approval (tool : str) (args : value) (summary : str)
    : M World DbError McpApproval :=
  let! id := new_uuid in
  let! now := sql_now in
  statement (fun d =>
    let row := pending_approval id tool args summary now in
    Ok (row, set_approvals (mcp_approvals d ++ [row]) d)).

Definition mcp_get_approval (id : Id) : M World DbError (option McpApproval) :=
  query (fun d => List.find (fun a => approval_id a =? id)%N (mcp_approvals d)).

(** [ORDER BY created_at DESC, rowid DESC]. *)
Definition newest_first {A} (created : A -> time) (rows : list A) : list A :=
  order_by (fun a b => created b <=? created a)%Z (rev rows).

Definition mcp_list_approvals (state : option ApprovalState) (limit offset : Z)
    : M World DbError (list McpApproval) :=
  let limit := clampz 1 500 limit in
  let offset := Z.max offset 0 in
  match state with
  | Some s =>
      query (fun d => limit_offset limit offset (newest_first approval_created_at
        (List.filter (fun a => bool_decide (approval_state a = s)) (mcp_approvals d))))
  | None => query (fun d => limit_offset limit offset (newest_first approval_created_at (mcp_approvals d)))
  end.

(** [SET state = ?, decided_at = ?, decided_by = ?]. *)
Definition decided_row (new_state : ApprovalState) (now : time) (who : str) (a : McpApproval)
    : McpApproval :=
  mkMcpApproval (approval_id a) (approval_tool a) (approval_args a) (approval_summary_text a)
    new_state (Some now) (Some who) (approval_created_at a).

(** [WHERE id = ? AND state = 'pending']. *)
Definition awaits (id : Id) (a : McpApproval) : bool :=
  (approval_id a =? id)%N && bool_decide (approval_state a = Pending).

(** The debug assertion on [new_state] is not part of a release build. *)
Definition mcp_decide (id : Id) (new_state : ApprovalState) (who : str) : M World DbError bool :=
  let! now := utc_now in
  statement (fun d =>
    Ok (existsb (awaits id) (mcp_approvals d),
        set_approvals (map (fun a => if awaits id a then decided_row new_state now who a else a)
                         (mcp_approvals d)) d)).

(** ** The audit log *)

Record NewAuditEntry : Type := mkNewAuditEntry {
  na_actor : str;
  na_action : str;
  na_target : option str;
  na_details : value;
}.

Definition audit_record (new : NewAuditEntry) : M World DbError AuditEntry :=
  let! id := new_uuid in
  let! now := sql_now in
  statement (fun d =>
    Ok (tt, set_audit (audit_log d ++
              [mkAuditEntry id (na_actor new) (na_action new) (na_target new) (na_details new) now]) d));!
  let! row := query (fun d => List.find (fun e => aud_id e =? id)%N (audit_log d)) in
  match row with
  | Some e => mret_M e
  | None => mthrow RowNotFound
  end.

Definition audit_list_recent (limit offset : Z) : M World DbError (list AuditEntry) :=
  query (fun d => limit_offset (clampz 1 500 limit) (Z.max offset 0)
                    (newest_first aud_created_at (audit_log d))).

Definition audit_list_by_actor (actor : str) (limit : Z) : M World DbError (list AuditEntry) :=
  query (fun d => limit_offset (clampz 1 500 limit) 0
                    (newest_first aud_created_at
                       (List.filter (fun e => str_eqb (aud_actor e) actor) (audit_log d)))).

(** ** Calls *)

(** The calls of the two modules that can change a table, and a read. *)
Inductive McpCall : Type :=
| CCreateGate (tool : str) (pattern : option str) (action : GateAction) (note : option str)
| CDeleteGate (id : Id)
| CCreateApproval (tool : str) (args : value) (summary : str)
| CGetApproval (id : Id)
| CDecide (id : Id) (new_state : ApprovalState) (who : str)
| CRecord (new : NewAuditEntry).

(** What a call answers, of which only a decision's verdict is kept. *)
Definition run_call (c : McpCall) : M World DbError bool :=
  match c with
  | CCreateGate tool pattern action note => mcp_create_gate tool pattern action note;! mret_M false
  | CDeleteGate id => mcp_delete_gate id;! mret_M false
  | CCreateApproval tool args summary => mcp_create_approval tool args summary;! mret_M false
  | CGetApproval id => mcp_get_approval id;! mret_M false
  | CDecide id st who => mcp_decide id st who
  | CRecord new => audit_record new;! mret_M false
  end.

(** Any interleaving of calls: each is one statement on the approvals. *)
Fixpoint run_calls (cs : list McpCall) (w : World)
    : list (McpCall * result DbError bool) * World :=
  match cs with
  | [] => ([], w)
  | c :: rest =>
      let (r, w1) := run_call c w in
      let (log, w2) := run_calls rest w1 in
      ((c, r) :: log, w2)
  end.

(** The contract of [decide] on its target state. *)
Definition respects_contract (c : McpCall) : Prop :=
  match c with CDecide _ st _ => st <> Pending | _ => True end.

Definition wins (id : Id) (p : McpCall * result DbError bool) : bool :=
  match p with
  | (CDecide i _ _, Ok true) => (i =? id)%N
  | _ => false
  end.

Definition approvals_ok (w : World) : Prop :=
  ids_ok (next_uuid w) (map approval_id (mcp_approvals (db w))).

(** ** What a call does to the approvals *)

Definition table (w : World) : list McpApproval := mcp_approvals (db w).

Inductive call_effect (w w' : World) : McpCall -> result DbError bool -> Prop :=
| effect_none c r : table w' = table w -> r <> Ok true -> call_effect w w' c r
| effect_create tool args summary now :
    table w' = table w ++ [pending_approval (next_uuid w) tool args summary now] ->
    (next_uuid w < next_uuid w')%N ->
    call_effect w w' (CCreateApproval tool args summary) (Ok false)
| effect_decide id st who now :
    table w' = map (fun a => if awaits id a then decided_row st now who a else a) (table w) ->
    call_effect w w' (CDecide id st who) (Ok (existsb (awaits id) (table w))).

Lemma bind_inv {S E A B} (k : A -> M S E B) (m : M S E A) s r s' :
  mbind_M k m s = (r, s') ->
  (exists a s1, m s = (Ok a, s1) /\ k a s1 = (r, s')) \/ (exists e, m s = (Err e, s') /\ r = Err e).
Proof.
  unfold mbind_M. destruct (m s) as [[a|e] s1]; [eauto|]. intros [= <- <-]. eauto.
Qed.

(** A failing statement changes nothing in the tables. *)
Lemma statement_cases {A} (run : Db -> result DbError (A * Db)) w r w' :
  statement run w = (r, w') ->
  next_uuid w' = next_uuid w /\
  ((exists a, r = Ok a /\ run (db w) = Ok (a, db w')) \/ (exists e, r = Err e /\ db w' = db w)).
Proof.
  unfold statement. destruct (faults w) as [|[e|] rest];
    [|intros [= <- <-]; eauto|]; (destruct (run _) as [[a d]|e] eqn:E; intros [= <- <-]; eauto 6).
Qed.

Lemma insert_cases {A} (run : Id -> time -> Db -> result DbError (A * Db)) w r w' :
  (let! id := new_uuid in let! now := sql_now in statement (run id now)) w = (r, w') ->
  next_uuid w' = (next_uuid w + 1)%N /\
  ((exists a now, r = Ok a /\ run (next_uuid w) now (db w) = Ok (a, db w')) \/
   (exists e, r = Err e /\ db w' = db w)).
Proof.
  unfold mbind_M at 1, new_uuid, mbind_M, sql_now, utc_now, mret_M.
  intros [Hn Hc]%statement_cases. split; [done|]. cbn in Hc. naive_solver.
Qed.

Lemma query_cases {A} (f : Db -> A) w r w' :
  query f w = (r, w') -> next_uuid w' = next_uuid w /\ db w' = db w.
Proof. intros [Hn [(a & _ & [= _ ->])|(e & _ & ->)]]%statement_cases; done. Qed.

Lemma then_false {A} (m : M World DbError A) w r w' :
  (m;! mret_M false) w = (r, w') ->
  exists r0, m w = (r0, w') /\ match r0 with Ok _ => r = Ok false | Err e => r = Err e end.
Proof.
  intros [(a & w1 & Hm & [= <- <-])|(e & Hm & ->)]%bind_inv; eexists; (split; [exact Hm|done]).
Qed.

Lemma audit_record_effect new w r w' :
  audit_record new w = (r, w') ->
  next_uuid w' = (next_uuid w + 1)%N /\
  (db w' = db w \/ exists now, db w' = set_audit (audit_log (db w) ++
     [mkAuditEntry (next_uuid w) (na_actor new) (na_action new) (na_target new) (na_details new) now])
     (db w)).
Proof.
  unfold audit_record, mbind_M at 1, new_uuid, mbind_M at 1, sql_now, mbind_M at 1, utc_now, mret_M at 1.
  intros [([] & w1 & Hs & Hk)|(e & Hs & ->)]%bind_inv.
  - apply statement_cases in Hs as [Hn [([] & _ & [= Hd])|(e & [=] & _)]].
    apply bind_inv in Hk as [(row & w2 & Hq & Hr)|(e & Hq & _)];
      apply query_cases in Hq as [Hn2 Hd2].
    + assert (w2 = w') as -> by (destruct row; by injection Hr).
      rewrite Hn2, Hn, Hd2, <- Hd. cbn. eauto.
    + rewrite Hn2, Hn, Hd2, <- Hd. cbn. eauto.
  - apply statement_cases in Hs as [Hn [(a & [=] & _)|(e' & _ & Hd)]]. rewrite Hn, Hd. auto.
Qed.

Lemma run_call_effect c w r w' :
  run_call c w = (r, w') -> (next_uuid w <= next_uuid w')%N /\ call_effect w w' c r.
Proof.
  destruct c as [tool pat act note|id|tool args summary|id|id st who|new]; cbn [run_call].
  - intros (r0 & Hm & Hr)%then_false. apply insert_cases in Hm as [-> Hc]. split; [lia|].
    apply effect_none; [|by destruct r0; rewrite Hr].
    unfold table. destruct Hc as [(a & now & _ & [= _ <-])|(e & _ & ->)]; done.
  - intros (r0 & Hm & Hr)%then_false. apply statement_cases in Hm as [-> Hc]. split; [lia|].
    apply effect_none; [|by destruct r0; rewrite Hr].
    unfold table. destruct Hc as [(a & _ & [= _ <-])|(e & _ & ->)]; done.
  - intros (r0 & Hm & Hr)%then_false. apply insert_cases in Hm as [Hn Hc]. split; [lia|].
    destruct Hc as [(a & now & -> & [= _ Hd])|(e & -> & Hd)]; subst r.
    + eapply (effect_create _ _ _ _ _ now); [|lia]. unfold table. by rewrite <- Hd.
    + apply effect_none; [|done]. unfold table. by rewrite Hd.
  - intros (r0 & Hm & Hr)%then_false. apply query_cases in Hm as [-> Hd]. split; [lia|].
    apply effect_none; [|by destruct r0; rewrite Hr]. unfold table. by rewrite Hd.
  - unfold mcp_decide, mbind_M at 1, utc_now. intros [Hn Hc]%statement_cases. cbn in Hn, Hc.
    split; [lia|]. destruct Hc as [(a & -> & [= <- Hd])|(e & -> & Hd)].
    + eapply effect_decide. unfold table. by rewrite <- Hd.
    + apply effect_none; [|done]. unfold table. by rewrite Hd.
  - intros (r0 & Hm & Hr)%then_false. apply audit_record_effect in Hm as [-> Hd]. split; [lia|].
    apply effect_none; [|by destruct r0; rewrite Hr].
    unfold table. destruct Hd as [->|(now & ->)]; done.
Qed.

Lemma filter_none {A} (f : A -> bool) l : Forall (fun a => f a = false) l -> List.filter f l = [].
Proof. induction 1 as [|a l Ha _ IH]; cbn; [done|]. by rewrite Ha. Qed.

(** ** At most one decision wins *)

Lemma decided_row_id st now who a : approval_id (decided_row st now who a) = approval_id a.
Proof. done. Qed.

Lemma call_keeps_approvals_ok c : preserves approvals_ok (run_call c).
Proof.
  intros w r w' Hok [Hn He]%run_call_effect. unfold approvals_ok in *. fold (table w') (table w) in *.
  destruct He as [c r -> _|tool args summary now -> Hlt|id st who now ->].
  - by eapply ids_ok_mono.
  - rewrite map_app. cbn. eapply ids_ok_mono; [|apply ids_ok_insert, Hok]. lia.
  - rewrite map_update_key by done. by eapply ids_ok_mono.
Qed.

(** The approval has been decided, as [st] by [who]. *)
Definition settled (id : Id) (st : ApprovalState) (who : str) (w : World) : Prop :=
  exists a, a ∈ table w /\ approval_id a = id /\ approval_state a = st /\ decided_by a = Some who.

Lemma settled_not_awaited id st who w :
  approvals_ok w -> settled id st who w -> st <> Pending -> existsb (awaits id) (table w) = false.
Proof.
  intros [Hnd _] (a & Ha & Hid & Hst & _) Hne. apply existsb_false, Forall_forall. intros b Hb.
  unfold awaits. destruct (N.eqb_spec (approval_id b) id) as [Eb|]; [|done]. cbn.
  assert (b = a) as -> by (apply (NoDup_map_inj_in approval_id (table w)); [exact Hnd|done|done|congruence]).
  apply bool_decide_eq_false. congruence.
Qed.

Lemma settled_stays id st who c w r w' :
  approvals_ok w -> st <> Pending -> run_call c w = (r, w') -> settled id st who w -> settled id st who w'.
Proof.
  intros Hok Hne [_ He]%run_call_effect (a & Ha & Hid & Hst & Hby). exists a.
  split; [|done]. destruct He as [c r -> _|tool args summary now -> _|i st' who' now ->].
  - done.
  - apply elem_of_app. by left.
  - rewrite list_elem_of_In, in_map_iff. exists a. split; [|by apply list_elem_of_In].
    unfold awaits. rewrite (bool_decide_eq_false_2 (approval_state a = Pending)) by congruence.
    by rewrite andb_false_r.
Qed.

Lemma winner_settles id st who w w' :
  run_call (CDecide id st who) w = (Ok true, w') -> settled id st who w'.
Proof.
  intros [_ He]%run_call_effect. inversion He as [| |i s h now Ht]; subst; [done|].
  match goal with Hx : existsb _ _ = true |- _ => apply existsb_exists in Hx as (a & Ha & Haw) end.
  exists (decided_row st now who a). split; [|unfold awaits in Haw; brefl; done].
  rewrite Ht, list_elem_of_In, in_map_iff. exists a. by rewrite Haw.
Qed.

Lemma settled_run id st who cs : forall w log w',
  approvals_ok w -> st <> Pending -> settled id st who w -> run_calls cs w = (log, w') ->
  settled id st who w' /\ Forall (fun p => wins id p = false) log.
Proof.
  induction cs as [|c cs IH]; intros w log w' Hok Hne Hs; cbn.
  { by intros [= <- <-]. }
  destruct (run_call c w) as [r w1] eqn:Ec. destruct (run_calls cs w1) as [log1 w2] eqn:Er.
  intros [= <- <-].
  destruct (IH w1 log1 w2) as [Hs2 HF]; [by eapply call_keeps_approvals_ok|done|by eapply settled_stays|done|].
  split; [done|]. constructor; [|done]. cbn.
  destruct c as [| | | |i s h|]; try done. destruct r as [[|]|]; try done.
  apply run_call_effect in Ec as [_ He]. inversion He as [| |i' s' h' now Ht]; subst; [done|].
  apply N.eqb_neq. intros ->. by rewrite (settled_not_awaited id st who w) in *.
Qed.

(** C3. Decisions race safely: however the calls of any number of clients
    interleave and whichever statements fail, at most one [decide] on an approval
    answers that it decided, and if one does, the row holds that caller's verdict
    and name from then on. *)
Theorem decided_at_most_once id cs w log w' :
  approvals_ok w -> Forall respects_contract cs -> run_calls cs w = (log, w') ->
  List.length (List.filter (wins id) log) <= 1 /\
  forall st who, (CDecide id st who, Ok true) ∈ log -> settled id st who w'.
Proof.
  revert w log. induction cs as [|c cs IH]; intros w log Hok HC; cbn.
  { intros [= <- <-]. split; [cbn; lia|]. by intros st who ?%elem_of_nil. }
  apply Forall_cons in HC as [Hc HC].
  destruct (run_call c w) as [r w1] eqn:Ec. destruct (run_calls cs w1) as [log1 w2] eqn:Er.
  intros [= <- <-]. assert (Hok1 : approvals_ok w1) by (by eapply call_keeps_approvals_ok).
  destruct (wins id (c, r)) eqn:Ew; cbn [List.filter].
  - destruct c as [| | | |i s h|]; try done. destruct r as [[|]|]; try done.
    cbn in Ew. apply N.eqb_eq in Ew as ->.
    destruct (settled_run id s h cs w1 log1 w2 Hok1 Hc (winner_settles _ _ _ _ _ Ec) Er) as [Hs HF].
    cbn [wins]. rewrite N.eqb_refl. cbn. rewrite (filter_none (wins id) log1) by done.
    split; [done|]. intros st who [[= -> ->]|Hin]%elem_of_cons; [done|].
    rewrite Forall_forall in HF. apply HF in Hin. cbn in Hin. by rewrite N.eqb_refl in Hin.
  - rewrite Ew. destruct (IH w1 log1 Hok1 HC Er) as [Hl Hs]. split; [done|].
    intros st who [[= <- <-]|Hin]%elem_of_cons; [|by apply Hs].
    cbn in Ew. by rewrite N.eqb_refl in Ew.
Qed.

(** Two clients decide the same approval, and an expiry comes after them. *)
Definition race_world : World :=
  mkWorld (mkDb [] [] [] [] [] [] [pending_approval 3 (lit "send") VNull (lit "send") 0] [] [] [])
    10 [] (fun n => Z.of_nat n) 0 [] [] [].
Definition race_calls : list McpCall :=
  [CGetApproval 3; CDecide 3 Denied (lit "user"); CDecide 3 Allowed (lit "mcp:x");
   CCreateApproval (lit "send") VNull (lit "again"); CDecide 3 Expired (lit "mcp:timeout")].

Lemma decided_at_most_once_witness :
  List.length (List.filter (wins 3) (run_calls race_calls race_world).1) = 1 /\
  settled 3 Denied (lit "user") (run_calls race_calls race_world).2.
Proof.
  destruct (decided_at_most_once 3 race_calls race_world (run_calls race_calls race_world).1
    (run_calls race_calls race_world).2) as [_ Hs].
  - split; [|by repeat constructor]. repeat constructor. by intros ?%elem_of_nil.
  - repeat constructor; done.
  - by destruct (run_calls race_calls race_world).
  - split; [vm_compute; reflexivity|]. apply Hs. vm_compute. right. left.
Defined.
