(* ===== verification/Dispatcher.v ===== *)
(** * The daemon's request handlers (src/daemon/dispatcher.rs)

    The argument helpers, the read operations, the gate and approval operations,
    the audit trail and the operations that create and delete accounts, upsert
    folders and flag or move messages.  [dispatch] is [None] for the operations
    whose handlers reach beyond the store (drafts with files, sending, attachments
    on disk, secrets, OAuth and synchronisation), which [Daemon] and [DaemonOps]
    add.

    The JSON of table rows is what serde derives; it is the class [RowCodec],
    with the decoders of the two request structs. *)

From S2P Require Import Prelude RustStr Json SqlQuery Op IpcProtocol McpGates McpTools McpModels MailParser ImapWindow DbCore DbMail DbInv DbMcp Search.
#[local] Open Scope bool_scope.

Class RowCodec := {
  account_to_json : Account -> value;
  folder_to_json : Folder -> value;
  thread_to_json : Thread -> value;
  message_to_json : Message -> value;
  summary_to_json : Message -> value;
  attachment_to_json : AttachmentRow -> value;
  audit_to_json : AuditEntry -> value;
  new_account_of_json : value -> result str NewAccount;
  new_folder_of_json : value -> result str NewFolder;
}.

(** Messages of foreign errors. *)
Class ErrorTexts := {
  db_error_text : DbError -> str;
  uuid_error_text : str -> str;
  rfc3339_error_text : str -> str;
  json_error_text : str -> str;
}.

Definition folder_role_as_str (r : FolderRole) : str :=
  match r with
  | RoleInbox => lit "inbox" | RoleSent => lit "sent" | RoleDrafts => lit "drafts"
  | RoleArchive => lit "archive" | RoleTrash => lit "trash" | RoleSpam => lit "spam"
  | RoleAll => lit "all" | RoleStarred => lit "starred" | RoleCustom => lit "custom"
  end.

(** ** Actors *)

Definition actor_is_allowed (actor : str) : bool :=
  str_eqb actor (lit "user") ||
  (starts_with actor (lit "mcp:") &&
   (let name := drop 4 actor in negb (is_empty name) && (str_len name <=? 128)%N)).

Definition actor_from_args (args : value) : str :=
  unwrap_or (lit "user") (opt_filter actor_is_allowed (vget args (lit "_actor") ≫= as_str)).

Section Handlers.
Context {TP : TextParsers} {JC : JsonCodec} {RC : RowCodec} {ET : ErrorTexts}
        {FT : Fts} {SL : SqlLike} {SE : SqlEngine} {UC : UnicodeCase}.
Context (addrs_text : list str -> str) (base64_encode : list N -> str).

Abbreviation handler := (M World RpcError value).

(** ** Arguments *)

Definition parse_id (args : value) (key : str) : result RpcError Id :=
  s ← ok_or (vget args key ≫= as_str) (rpc_bad_args (lit "missing '" ++ key ++ lit "'"));
  ok_or (uuid_parse_str s)
    (rpc_bad_args (lit "bad '" ++ key ++ lit "': " ++ uuid_error_text s)).

Definition parse_uuid (args : value) (key : str) : result RpcError Id := parse_id args key.

Definition parse_str (args : value) (key : str) : result RpcError str :=
  ok_or (opt_filter (fun s => negb (is_empty s)) (vget args key ≫= as_str))
    (rpc_bad_args (lit "missing '" ++ key ++ lit "'")).

Definition optional_str (args : value) (key : str) : result RpcError (option str) :=
  match vget args key with
  | None | Some VNull => Ok None
  | Some (VString s) => Ok (Some s)
  | Some _ => Err (rpc_bad_args (lit "'" ++ key ++ lit "' must be a string"))
  end.

Definition optional_id (args : value) (key : str) : result RpcError (option Id) :=
  match vget args key with
  | None | Some VNull => Ok None
  | Some _ => id ← parse_id args key; Ok (Some id)
  end.

Definition optional_bool (args : value) (key : str) : result RpcError (option bool) :=
  match vget args key with
  | None | Some VNull => Ok None
  | Some (VBool b) => Ok (Some b)
  | Some _ => Err (rpc_bad_args (lit "'" ++ key ++ lit "' must be a boolean"))
  end.

Definition optional_rfc3339 (args : value) (key : str) : result RpcError (option time) :=
  o ← optional_str args key;
  match o with
  | None => Ok None
  | Some s =>
      t ← ok_or (parse_from_rfc3339 s)
            (rpc_bad_args (lit "'" ++ key ++ lit "' must be rfc3339: " ++ rfc3339_error_text s));
      Ok (Some t)
  end.

Definition optional_nonempty_string (args : value) (key : str) : result RpcError (option str) :=
  o ← optional_str args key;
  match o with
  | None => Ok None
  | Some s => if is_empty s then Err (rpc_bad_args (lit "'" ++ key ++ lit "' must not be empty"))
              else Ok (Some s)
  end.

(** [args.get(key).and_then(|v| v.as_i64()).unwrap_or(default)]. *)
Definition i64_or (args : value) (key : str) (default : Z) : Z :=
  unwrap_or default (vget args key ≫= as_i64).

Definition strings_of_json (v : value) : option (list str) := as_array v ≫= traverse as_str.

Definition parse_message_flags (v : value) : result RpcError (list str) :=
  ok_or (strings_of_json v) (rpc_bad_args (lit "flags must be an array of strings")).

(** ** Results *)

(** [.map_err(|e| RpcError::internal_ctx(ctx, e))]. *)
Definition rpc {A} (ctx : str) (m : M World DbError A) : M World RpcError A :=
  mmap_err (fun e => rpc_internal_ctx ctx (db_error_text e)) m.

Definition encode {A} (to_json : A -> value) (ctx : str) (m : M World DbError A) : handler :=
  let! a := rpc ctx m in mret_M (to_json a).

Definition list_to_json {A} (to_json : A -> value) (l : list A) : value := VArray (map to_json l).
Definition opt_to_json {A} (to_json : A -> value) (o : option A) : value :=
  match o with Some a => to_json a | None => VNull end.

Definition id_json (id : Id) : value := VString (uuid_to_string id).

(** An audit entry that cannot be written is logged and forgotten. *)
Definition audit_actor (actor action : str) (target : option str) (details : value)
    : M World RpcError unit := fun w =>
  match audit_record (mkNewAuditEntry actor action target details) w with
  | (_, w') => (Ok tt, w')
  end.

Definition audit (action : str) (target : option str) (details : value) : M World RpcError unit :=
  audit_actor (lit "user") action target details.

(** ** Read operations *)

Definition op_account_list : handler :=
  encode (list_to_json account_to_json) (lit "accounts::list") accounts_list.

Definition op_folder_list (args : value) : handler :=
  let! id := mlift (parse_id args (lit "account_id")) in
  encode (list_to_json folder_to_json) (lit "folders::list_by_account") (folders_list_by_account id).

Definition op_thread_list (args : value) : handler :=
  let! account_id := mlift (parse_id args (lit "account_id")) in
  encode (list_to_json thread_to_json) (lit "threads::list_recent")
    (threads_list_recent account_id (i64_or args (lit "limit") 50) (i64_or args (lit "offset") 0)).

Definition op_messages_by_folder (args : value) : handler :=
  let! folder_id := mlift (parse_id args (lit "folder_id")) in
  encode (list_to_json summary_to_json) (lit "messages::list_by_folder")
    (messages_list_by_folder folder_id (i64_or args (lit "limit") 50) (i64_or args (lit "offset") 0)).

Definition op_messages_by_thread (args : value) : handler :=
  let! thread_id := mlift (parse_id args (lit "thread_id")) in
  encode (list_to_json summary_to_json) (lit "messages::list_by_thread")
    (messages_list_by_thread thread_id).

Definition op_message_get (args : value) : handler :=
  let! id := mlift (parse_id args (lit "id")) in
  encode (opt_to_json message_to_json) (lit "messages::get") (messages_get id).

Definition op_attachment_list (args : value) : handler :=
  let! message_id := mlift (parse_id args (lit "message_id")) in
  encode (list_to_json attachment_to_json) (lit "attachments::list_for_message")
    (attachments_list_for_message message_id).

Definition search_filters (args : value) : result RpcError SearchFilters :=
  account_id ← optional_id args (lit "account_id");
  folder_id ← optional_id args (lit "folder_id");
  thread_id ← optional_id args (lit "thread_id");
  date_from ← optional_rfc3339 args (lit "date_from");
  date_to ← optional_rfc3339 args (lit "date_to");
  from_addr ← optional_nonempty_string args (lit "from_addr");
  to_addr ← optional_nonempty_string args (lit "to_addr");
  has_attachments ← optional_bool args (lit "has_attachments");
  unread ← optional_bool args (lit "unread");
  Ok (mkSearchFilters account_id folder_id thread_id date_from date_to from_addr to_addr
        has_attachments unread).

Definition op_search (args : value) : handler :=
  let! q := mlift (ok_or (vget args (lit "q") ≫= as_str) (rpc_bad_args (lit "missing 'q'"))) in
  if is_empty (trim q) then mthrow (rpc_bad_args (lit "'q' must not be empty"))
  else
    let! filters := mlift (search_filters args) in
    let limit := clampz 1 200 (i64_or args (lit "limit") 50) in
    let offset := i64_or args (lit "offset") 0 in
    encode (list_to_json summary_to_json) (lit "search")
      (search_filtered addrs_text (quote_term q) filters limit offset).

Definition sql_limit (args : value) : result RpcError N :=
  match vget args (lit "limit") with
  | None => Ok DEFAULT_ROWS
  | Some v =>
      match opt_filter (fun n => 0 <? n)%Z (as_u64 v) with
      | Some n => Ok (N.min (Z.to_N n) MAX_ROWS_N)
      | None => Err (rpc_bad_args (lit "'limit' must be a positive integer"))
      end
  end.

(** On the read-only pool: nothing of the world changes. *)
Definition op_sql_query (args : value) : handler :=
  let! sql := mlift (ok_or (vget args (lit "sql") ≫= as_str) (rpc_bad_args (lit "missing 'sql'"))) in
  let! limit := mlift (sql_limit args) in
  match SqlQuery.query base64_encode sql limit with
  | Ok rows => mret_M (list_to_json VObject rows)
  | Err (Rejected reason) => mthrow (rpc_bad_args reason)
  | Err (SqlSqlx e) => mthrow (rpc_internal_ctx (lit "sql_query") e)
  end.

Definition op_sql_schema : handler :=
  match SqlQuery.schema base64_encode with
  | Ok rows => mret_M (list_to_json VObject rows)
  | Err (SqlSqlx e) => mthrow (rpc_internal_ctx (lit "sql_schema") e)
  | Err (Rejected reason) => mthrow (rpc_internal_ctx (lit "sql_schema rejected") reason)
  end.

Definition op_audit_list (args : value) : handler :=
  encode (list_to_json audit_to_json) (lit "audit::list_recent")
    (audit_list_recent (i64_or args (lit "limit") 50) (i64_or args (lit "offset") 0)).

(** ** Gates and approvals *)

Definition op_mcp_gate_list (args : value) : handler :=
  match vget args (lit "tool") ≫= as_str with
  | Some tool => encode (list_to_json gate_to_json) (lit "mcp::list_gates_for_tool")
                   (mcp_list_gates_for_tool tool)
  | None => encode (list_to_json gate_to_json) (lit "mcp::list_gates") mcp_list_gates
  end.

(** The pattern must parse as a JSON object. *)
Definition check_arg_pattern (pattern : option str) : result RpcError unit :=
  match pattern with
  | None => Ok tt
  | Some p =>
      match from_str p with
      | None => Err (rpc_bad_args (lit "bad 'arg_pattern': " ++ json_error_text p))
      | Some parsed =>
          if is_object parsed then Ok tt
          else Err (rpc_bad_args (lit "'arg_pattern' must be a JSON object"))
      end
  end.

Definition parse_gate_action (s : str) : result RpcError GateAction :=
  ok_or (gate_action_from_str s) (rpc_bad_args (lit "invalid GateAction: " ++ s)).
Definition parse_approval_state (s : str) : result RpcError ApprovalState :=
  ok_or (approval_state_from_str s) (rpc_bad_args (lit "invalid ApprovalState: " ++ s)).

Definition op_mcp_gate_create (args : value) : handler :=
  let actor := actor_from_args args in
  let! tool := mlift (parse_str args (lit "tool")) in
  let! action := mlift (a ← parse_str args (lit "action"); parse_gate_action a) in
  let! pattern := mlift (optional_str args (lit "arg_pattern")) in
  mlift (check_arg_pattern pattern);!
  let! note := mlift (optional_str args (lit "note")) in
  let! gate := rpc (lit "mcp::create_gate") (mcp_create_gate tool pattern action note) in
  audit_actor actor (lit "mcp.gate.create") (Some (uuid_to_string (gate_id gate)))
    (json [(lit "tool", VString tool); (lit "action", VString (gate_action_as_str action))]);!
  mret_M (gate_to_json gate).

Definition op_mcp_gate_delete (args : value) : handler :=
  let actor := actor_from_args args in
  let! id := mlift (parse_uuid args (lit "id")) in
  let! removed := rpc (lit "mcp::delete_gate") (mcp_delete_gate id) in
  audit_actor actor (lit "mcp.gate.delete") (Some (uuid_to_string id))
    (json [(lit "removed", VBool removed)]);!
  mret_M (json [(lit "removed", VBool removed)]).

Definition op_mcp_approval_create (args : value) : handler :=
  let actor := actor_from_args args in
  let! tool := mlift (parse_str args (lit "tool")) in
  let approval_args := unwrap_or (json []) (vget args (lit "args")) in
  let! summary := mlift (parse_str args (lit "summary")) in
  let! a := rpc (lit "mcp::create_approval") (mcp_create_approval tool approval_args summary) in
  audit_actor actor (lit "mcp.approval.create") (Some (uuid_to_string (approval_id a)))
    (json [(lit "tool", VString tool)]);!
  publish McpApprovalRequested
    (json [(lit "approval_id", id_json (approval_id a)); (lit "tool", VString (approval_tool a));
           (lit "summary", VString (approval_summary_text a));
           (lit "state", VString (approval_state_as_str (approval_state a)));
           (lit "args", McpModels.approval_args a)]);!
  mret_M (approval_to_json a).

Definition op_mcp_approval_list (args : value) : handler :=
  let! state := mlift (match vget args (lit "state") ≫= as_str with
                       | Some s => st ← parse_approval_state s; Ok (Some st)
                       | None => Ok None
                       end) in
  encode (list_to_json approval_to_json) (lit "mcp::list_approvals")
    (mcp_list_approvals state (i64_or args (lit "limit") 50) (i64_or args (lit "offset") 0)).

Definition op_mcp_approval_get (args : value) : handler :=
  let! id := mlift (parse_uuid args (lit "id")) in
  encode (opt_to_json approval_to_json) (lit "mcp::get_approval") (mcp_get_approval id).

Definition decided_by_arg (args : value) (actor : str) : result RpcError str :=
  match vget args (lit "decided_by") ≫= as_str with
  | Some v => if actor_is_allowed v then Ok v
              else Err (rpc_bad_args (lit "invalid 'decided_by'"))
  | None => Ok actor
  end.

Definition decided_event (a : McpApproval) : value :=
  json [(lit "approval_id", id_json (approval_id a)); (lit "tool", VString (approval_tool a));
        (lit "state", VString (approval_state_as_str (approval_state a)));
        (lit "decided_by", opt_str_to_json (decided_by a))].

Definition op_mcp_approval_decide (args : value) : handler :=
  let actor := actor_from_args args in
  let! id := mlift (parse_uuid args (lit "id")) in
  let! state := mlift (s ← parse_str args (lit "state"); parse_approval_state s) in
  if bool_decide (state = Pending)
  then mthrow (rpc_bad_args (lit "'state' must be allowed, denied, or expired"))
  else
    let! who := mlift (decided_by_arg args actor) in
    let! decided := rpc (lit "mcp::decide") (mcp_decide id state who) in
    audit_actor actor (lit "mcp.approval.decide") (Some (uuid_to_string id))
      (json [(lit "state", VString (approval_state_as_str state)); (lit "decided", VBool decided)]);!
    (if decided : bool then
       let! row := rpc (lit "mcp::get_approval") (mcp_get_approval id) in
       match row with
       | Some a => publish McpApprovalDecided (decided_event a)
       | None => mret_M tt
       end
     else mret_M tt);!
    mret_M (json [(lit "decided", VBool decided)]).

(** ** Write operations *)

Definition op_account_create (args : value) : handler :=
  let! new := mlift (map_err rpc_bad_args (new_account_of_json args)) in
  let! acc := rpc (lit "accounts::create") (accounts_create new) in
  audit (lit "account.create") (Some (uuid_to_string (acc_id acc))) (json []);!
  mret_M (account_to_json acc).

Definition op_account_delete (args : value) : handler :=
  let! id := mlift (parse_id args (lit "id")) in
  let! removed := rpc (lit "accounts::delete") (accounts_delete id) in
  audit (lit "account.delete") (Some (uuid_to_string id)) (json []);!
  mret_M (json [(lit "removed", VBool removed)]).

Definition op_folder_upsert (args : value) : handler :=
  let! new := mlift (map_err rpc_bad_args (new_folder_of_json args)) in
  encode folder_to_json (lit "folders::upsert") (folders_upsert new).

Definition strings_to_json (l : list str) : value := VArray (map VString l).

Definition op_message_set_flags (args : value) : handler :=
  let actor := actor_from_args args in
  let! id := mlift (parse_id args (lit "id")) in
  let! flags := mlift (v ← ok_or (vget args (lit "flags")) (rpc_bad_args (lit "missing 'flags'"));
                       parse_message_flags v) in
  let! outcome := rpc (lit "messages::set_flags") (messages_set_flags id flags) in
  (if sf_changed outcome then
     audit_actor actor (lit "message.set_flags") (Some (uuid_to_string id))
       (json [(lit "flags", strings_to_json flags)]);!
     publish MailUpdated
       (json [(lit "message_id", id_json id); (lit "flags", strings_to_json flags)])
   else mret_M tt);!
  mret_M (json [(lit "ok", VBool true)]).

Definition require_message (id : Id) : M World RpcError Message :=
  let! row := rpc (lit "messages::get") (messages_get id) in
  mlift (ok_or row (rpc_bad_args (lit "unknown message id"))).

Definition require_role_folder (account_id : Id) (role : FolderRole) : M World RpcError Folder :=
  let! rows := rpc (lit "folders::list_by_account") (folders_list_by_account account_id) in
  mlift (ok_or (List.find (fun f => bool_decide (fld_role f = role)) rows)
           (rpc_bad_args (lit "no '" ++ folder_role_as_str role ++ lit "' folder for account"))).

Definition moved_reply (folder_id : Id) : value :=
  json [(lit "ok", VBool true); (lit "folder_id", id_json folder_id)].
Definition moved_event (id folder_id from_folder_id : Id) : value :=
  json [(lit "message_id", id_json id); (lit "folder_id", id_json folder_id);
        (lit "from_folder_id", id_json from_folder_id)].

Definition op_message_archive (args : value) : handler :=
  let actor := actor_from_args args in
  let! id := mlift (parse_id args (lit "id")) in
  let! message := require_message id in
  let! archive := require_role_folder (nm_account_id (msg_cols message)) RoleArchive in
  if (msg_folder_id message =? fld_id archive)%N then mret_M (moved_reply (fld_id archive))
  else
    rpc (lit "messages::set_folder") (messages_set_folder id (fld_id archive));!
    audit_actor actor (lit "message.archive") (Some (uuid_to_string id))
      (json [(lit "folder_id", id_json (fld_id archive))]);!
    publish MailUpdated (moved_event id (fld_id archive) (msg_folder_id message));!
    mret_M (moved_reply (fld_id archive)).

Definition op_message_delete (args : value) : handler :=
  let actor := actor_from_args args in
  let! id := mlift (parse_id args (lit "id")) in
  let! message := require_message id in
  let! trash := require_role_folder (nm_account_id (msg_cols message)) RoleTrash in
  if (msg_folder_id message =? fld_id trash)%N then mret_M (moved_reply (fld_id trash))
  else
    rpc (lit "messages::set_folder") (messages_set_folder id (fld_id trash));!
    audit_actor actor (lit "message.delete") (Some (uuid_to_string id))
      (json [(lit "folder_id", id_json (fld_id trash))]);!
    publish MailUpdated (moved_event id (fld_id trash) (msg_folder_id message));!
    mret_M (moved_reply (fld_id trash)).

Definition op_message_move (args : value) : handler :=
  let actor := actor_from_args args in
  let! id := mlift (parse_id args (lit "id")) in
  let! folder_name := mlift (parse_str args (lit "folder_name")) in
  let! message := require_message id in
  let! found := rpc (lit "folders::get_by_name")
                  (folders_get_by_name (nm_account_id (msg_cols message)) folder_name) in
  let! target := mlift (ok_or found (rpc_bad_args (lit "unknown folder '" ++ folder_name ++ lit "'"))) in
  if (msg_folder_id message =? fld_id target)%N then mret_M (moved_reply (fld_id target))
  else
    rpc (lit "messages::set_folder") (messages_set_folder id (fld_id target));!
    audit_actor actor (lit "message.move") (Some (uuid_to_string id))
      (json [(lit "folder_id", id_json (fld_id target)); (lit "folder_name", VString folder_name)]);!
    publish MailUpdated (moved_event id (fld_id target) (msg_folder_id message));!
    mret_M (moved_reply (fld_id target)).

(** ** Dispatch *)

Definition dispatch (op : Op) (args : value) : option handler :=
  match op with
  | AccountList => Some op_account_list
  | FolderList => Some (op_folder_list args)
  | ThreadList => Some (op_thread_list args)
  | MessageListByFolder => Some (op_messages_by_folder args)
  | MessageListByThread => Some (op_messages_by_thread args)
  | MessageGet => Some (op_message_get args)
  | AttachmentList => Some (op_attachment_list args)
  | Op.Search => Some (op_search args)
  | Op.SqlQuery => Some (op_sql_query args)
  | SqlSchema => Some op_sql_schema
  | AuditListRecent => Some (op_audit_list args)
  | McpGateList => Some (op_mcp_gate_list args)
  | McpGateCreate => Some (op_mcp_gate_create args)
  | McpGateDelete => Some (op_mcp_gate_delete args)
  | McpApprovalCreate => Some (op_mcp_approval_create args)
  | McpApprovalList => Some (op_mcp_approval_list args)
  | McpApprovalGet => Some (op_mcp_approval_get args)
  | McpApprovalDecide => Some (op_mcp_approval_decide args)
  | AccountCreate => Some (op_account_create args)
  | AccountDelete => Some (op_account_delete args)
  | FolderUpsert => Some (op_folder_upsert args)
  | MessageSetFlags => Some (op_message_set_flags args)
  | MessageArchive => Some (op_message_archive args)
  | MessageDelete => Some (op_message_delete args)
  | MessageMove => Some (op_message_move args)
  | _ => None
  end.
End Handlers.
