(* ===== verification/DispatcherProps.v ===== *)
(** * What requests can do to the store

    Properties of every sequence of requests the dispatcher serves, whatever the
    arguments, the order and the statements that fail: the integrity of the mail
    tables, the life of approvals and the audit trail. *)

From stdpp Require Import relations.
From S2P Require Import Prelude RustStr Json SqlQuery Op IpcProtocol McpGates McpTools McpModels MailParser ImapWindow DbCore DbMail DbInv DbDrafts DbMcp Search Dispatcher.
#[local] Open Scope bool_scope.

(** ** The life of an approval *)

(** The only transition: a pending approval is closed by an allowed actor. *)
Inductive approval_step : McpApproval -> McpApproval -> Prop :=
| approval_closes a st now who :
    approval_state a = Pending -> st <> Pending -> actor_is_allowed who = true ->
    approval_step a (decided_row st now who a).

Definition approval_life : McpApproval -> McpApproval -> Prop := rtc approval_step.

(** Closed states are final. *)
Lemma approval_life_closed a b : approval_life a b -> approval_state a <> Pending -> b = a.
Proof. intros Hl. induction Hl as [|a b c Hs _ _]; [done|]. by destruct Hs. Qed.

Lemma approval_life_pending a b :
  approval_life a b -> b = a \/ (approval_state a = Pending /\ approval_step a b).
Proof.
  intros Hl. destruct Hl as [|a b c Hs Hl]; [by left|]. right.
  assert (c = b) as ->; [|by destruct Hs].
  apply approval_life_closed; [done|]. by destruct Hs.
Qed.

(** From one table to a later one: every row lives on in its place, and what is
    added began pending. *)
Definition approvals_grow (old new : list McpApproval) : Prop :=
  exists mid fresh, new = mid ++ fresh /\ Forall2 approval_life old mid /\
    Forall (fun b => exists a, approval_state a = Pending /\ approval_life a b) fresh.

Definition audit_grows (old new : list AuditEntry) : Prop :=
  exists extra, new = old ++ extra /\ Forall (fun e => actor_is_allowed (aud_actor e) = true) extra.

Lemma Forall2_life_refl l : Forall2 approval_life l l.
Proof. induction l; constructor; [apply rtc_refl|done]. Qed.

Lemma approvals_grow_refl l : approvals_grow l l.
Proof.
  exists l, []. rewrite app_nil_r. split; [done|]. split; [apply Forall2_life_refl|constructor].
Qed.

Lemma approvals_grow_snoc old new id tool args summary now :
  approvals_grow old new -> approvals_grow old (new ++ [pending_approval id tool args summary now]).
Proof.
  intros (mid & fresh & -> & H2 & HF). exists mid, (fresh ++ [pending_approval id tool args summary now]).
  rewrite app_assoc. split; [done|]. split; [done|]. apply Forall_app. split; [done|].
  apply Forall_singleton. eexists. split; [|apply rtc_refl]. done.
Qed.

Lemma decide_lives id st now who a :
  st <> Pending -> actor_is_allowed who = true ->
  approval_life a (if awaits id a then decided_row st now who a else a).
Proof.
  intros Hst Hw. destruct (awaits id a) eqn:E; [|apply rtc_refl]. unfold awaits in E. brefl.
  apply rtc_once. by constructor.
Qed.

Lemma approvals_grow_decide old new id st now who :
  st <> Pending -> actor_is_allowed who = true -> approvals_grow old new ->
  approvals_grow old (map (fun a => if awaits id a then decided_row st now who a else a) new).
Proof.
  intros Hst Hw (mid & fresh & -> & H2 & HF). rewrite map_app. eexists _, _.
  split; [reflexivity|]. split.
  - clear HF. induction H2 as [|a b old mid Hab _ IH]; cbn; constructor; [|done].
    etransitivity; [exact Hab|]. by apply decide_lives.
  - rewrite Forall_map. eapply Forall_impl; [exact HF|]. cbn. intros b (a & Ha & Hab).
    exists a. split; [done|]. etransitivity; [exact Hab|]. by apply decide_lives.
Qed.

(** ** The size of drafts *)

(** The bytes attached to one draft. *)
Definition attached_bytes (id : Id) (d : Db) : Z :=
  sum_sizes (List.filter (of_draft id) (draft_attachments d)).
(** No draft carries more than the limit. *)
Definition draft_cap (d : Db) : Prop := forall id, (attached_bytes id d <= MAX_DRAFT_ATTACHMENT_BYTES)%Z.

Lemma sum_sizes_sublist f (l l' : list (DraftAttachment * list N)) :
  Forall (fun a => (0 <= da_size_bytes a.1)%Z) l -> l' `sublist_of` l ->
  (0 <= sum_sizes (List.filter f l') <= sum_sizes (List.filter f l))%Z.
Proof.
  unfold sum_sizes. intros HF Hs. induction Hs as [|a l1 l2 _ IH|a l1 l2 _ IH]; cbn; [done| |];
    apply Forall_cons in HF as [Ha HF]; specialize (IH HF); destruct (f a); cbn; lia.
Qed.

Lemma store_sizes w : store_inv w -> Forall (fun a => (0 <= da_size_bytes a.1)%Z) (draft_attachments (db w)).
Proof.
  intros Hw. eapply Forall_impl; [exact (ok_draft_attachment_refs _ _ Hw)|]. cbn. intros a [_ ->]. lia.
Qed.

(** ** Events about decisions *)

(** Every announced decision is a closed row of the table. *)
Definition decided_ok {TP : TextParsers} (w : World) : Prop :=
  forall v, (McpApprovalDecided, v) ∈ events w ->
    exists a, a ∈ table w /\ approval_state a <> Pending /\ v = decided_event a.

(** Closed rows stay. *)
Lemma approvals_grow_closed old new a :
  approvals_grow old new -> a ∈ old -> approval_state a <> Pending -> a ∈ new.
Proof.
  intros (mid & fresh & -> & H2 & _) Ha Hst. apply elem_of_app. left.
  apply list_elem_of_lookup in Ha as [i Hi]. destruct (Forall2_lookup_l _ _ _ _ _ H2 Hi) as (b & Hb & Hl).
  apply approval_life_closed in Hl as ->; [|done]. by eapply list_elem_of_lookup_2.
Qed.

(** ** The invariant of a run from [w0]; some of it is kept if it holds at first *)

Record run_inv {TP : TextParsers} (w0 w : World) : Prop := {
  run_store : store_inv w;
  run_approvals : approvals_grow (table w0) (table w);
  run_audit : audit_grows (audit_log (db w0)) (audit_log (db w));
  run_cap : draft_cap (db w0) -> draft_cap (db w);
  run_ids : approvals_ok w0 -> approvals_ok w;
  run_events : decided_ok w0 -> decided_ok w;
}.

Create HintDb daemon.

(** Computations that leave the approvals and the audit log alone, announce no
    decision and attach nothing to drafts. *)
Record quiet_change (w w' : World) : Prop := {
  qc_table : table w' = table w;
  qc_audit : audit_log (db w') = audit_log (db w);
  qc_drafts : draft_attachments (db w') `sublist_of` draft_attachments (db w);
  qc_uuid : (next_uuid w <= next_uuid w')%N;
  qc_events v : (McpApprovalDecided, v) ∈ events w' -> (McpApprovalDecided, v) ∈ events w;
}.
Definition leaves {E A} (m : M World E A) : Prop := forall w r w', m w = (r, w') -> quiet_change w w'.

Lemma quiet_same w w' :
  db w' = db w -> (next_uuid w <= next_uuid w')%N -> events w' = events w -> quiet_change w w'.
Proof. intros Hd Hn He. constructor; unfold table; rewrite ?Hd, ?He; done. Qed.
Lemma quiet_trans a b c : quiet_change a b -> quiet_change b c -> quiet_change a c.
Proof. intros [] []. constructor; [congruence|congruence|by etransitivity|lia|auto]. Qed.

Lemma leaves_ret {E A} (a : A) : leaves (mret_M a : M World E A).
Proof. intros w r w' [= _ <-]. by apply quiet_same. Qed.
Lemma leaves_throw {E A} (e : E) : leaves (mthrow e : M World E A).
Proof. intros w r w' [= _ <-]. by apply quiet_same. Qed.
Lemma leaves_bind {E A B} (m : M World E A) (k : A -> M World E B) :
  leaves m -> (forall a, leaves (k a)) -> leaves (mbind_M k m).
Proof.
  intros Hm Hk w r w' [(a & w1 & H1 & H2)|(e & H1 & _)]%bind_inv; [|by eapply Hm].
  eapply quiet_trans; [by eapply Hm|by eapply Hk].
Qed.
Lemma statement_events {A} (run : Db -> result DbError (A * Db)) w r w' :
  statement run w = (r, w') -> events w' = events w.
Proof.
  unfold statement. destruct (faults w) as [|[e|] rest]; [|by intros [= _ <-]|];
    (destruct (run _) as [[a d]|e]; by intros [= _ <-]).
Qed.
Lemma leaves_statement {A} (run : Db -> result DbError (A * Db)) :
  (forall d a d', run d = Ok (a, d') -> mcp_approvals d' = mcp_approvals d /\
     audit_log d' = audit_log d /\ draft_attachments d' `sublist_of` draft_attachments d) ->
  leaves (statement run).
Proof.
  intros Hr w r w' Hs. pose proof (statement_events _ _ _ _ Hs) as He.
  apply statement_cases in Hs as [Hn [(a & _ & Hd)|(e & _ & Hd)]].
  - apply Hr in Hd as (? & ? & ?). constructor; rewrite ?Hn, ?He; done.
  - apply quiet_same; [done|lia|done].
Qed.
Lemma leaves_query {A} (f : Db -> A) : leaves (query f).
Proof. apply leaves_statement. by intros d a d' [= _ <-]. Qed.
Lemma leaves_new_uuid {E} : leaves (@new_uuid E).
Proof. intros w r w' [= _ <-]. apply quiet_same; cbn; [done|lia|done]. Qed.
Lemma leaves_sql_now {E} : leaves (@sql_now E).
Proof. intros w r w' [= _ <-]. by apply quiet_same. Qed.
Lemma leaves_utc_now {E} : leaves (@utc_now E).
Proof. intros w r w' [= _ <-]. by apply quiet_same. Qed.
Lemma leaves_publish {E} t v : t <> McpApprovalDecided -> leaves (@publish E t v).
Proof.
  intros Ht w r w' [= _ <-]. constructor; cbn; try done.
  intros x [?|Hin%list_elem_of_singleton]%elem_of_app; [done|congruence].
Qed.
#[export] Hint Resolve leaves_ret leaves_throw leaves_query leaves_new_uuid leaves_sql_now
  leaves_utc_now : daemon.
#[export] Hint Extern 1 (leaves (publish _ _)) => apply leaves_publish; discriminate : daemon.

(** Through a sequence of steps, each left to the hints. *)
Ltac leaves_go :=
  repeat first
    [ solve [auto with daemon]
    | apply leaves_bind; [|intros]
    | case_match ].

(** A statement on the mail tables. *)
Ltac leaves_stmt := apply leaves_statement; cbn; intros; repeat (case_match; try discriminate); invs;
  split_and!; first [reflexivity | apply filter_sublist | idtac].

Lemma leaves_accounts_create new : leaves (accounts_create new).
Proof. unfold accounts_create. leaves_go; leaves_stmt. Qed.
Lemma leaves_accounts_delete id : leaves (accounts_delete id).
Proof. leaves_stmt. Qed.
Lemma leaves_folders_upsert new : leaves (folders_upsert new).
Proof. unfold folders_upsert, folders_get_by_name, folders_get, folders_create. leaves_go; leaves_stmt. Qed.
Lemma leaves_set_flags id flags : leaves (messages_set_flags id flags).
Proof. unfold messages_set_flags. leaves_go; leaves_stmt. Qed.
Lemma leaves_set_folder id f : leaves (messages_set_folder id f).
Proof. leaves_stmt. Qed.
Lemma leaves_create_gate tool pat act note : leaves (mcp_create_gate tool pat act note).
Proof. unfold mcp_create_gate. leaves_go; leaves_stmt. Qed.
Lemma leaves_delete_gate id : leaves (mcp_delete_gate id).
Proof. leaves_stmt. Qed.
#[export] Hint Resolve leaves_accounts_create leaves_accounts_delete leaves_folders_upsert
  leaves_set_flags leaves_set_folder leaves_create_gate leaves_delete_gate : daemon.

(** ** The MCP tables do not touch the mail tables *)

Lemma set_gates_ok n t d : db_ok n d -> db_ok n (set_gates t d).
Proof. by intros []. Qed.
Lemma set_approvals_ok n t d : db_ok n d -> db_ok n (set_approvals t d).
Proof. by intros []. Qed.
Lemma set_audit_ok n t d : db_ok n d -> db_ok n (set_audit t d).
Proof. by intros []. Qed.
#[export] Hint Resolve set_gates_ok set_approvals_ok set_audit_ok : store.

Lemma mcp_create_gate_inv tool pat act note : preserves store_inv (mcp_create_gate tool pat act note).
Proof.
  apply (insert_inv (fun id now d =>
    let row := mkMcpGate id tool pat act note now in
    Ok (row, set_gates (mcp_gates d ++ [row]) d))).
  intros n d now a d' Hd [= _ <-]. apply set_gates_ok. eapply db_ok_mono; [|exact Hd]. lia.
Qed.
Lemma mcp_delete_gate_inv id : preserves store_inv (mcp_delete_gate id).
Proof. apply statement_inv. intros n d a d' Hd [= _ <-]. by apply set_gates_ok. Qed.
#[export] Hint Resolve mcp_create_gate_inv mcp_delete_gate_inv : store.

(** ** Steps of a handler keep the invariant *)

Section Run.
Context {TP : TextParsers} (w0 : World).

Lemma run_inv_quiet w w' : run_inv w0 w -> store_inv w' -> quiet_change w w' -> run_inv w0 w'.
Proof.
  intros [Hs Ha Hl Hc Hi He] Hs' [Ht Hau Hd Hn Hev].
  constructor; [done|by rewrite Ht|by rewrite Hau| | |].
  - intros H0 id. etransitivity; [apply (sum_sizes_sublist _ _ _ (store_sizes _ Hs) Hd)|]. by apply Hc.
  - intros H0. unfold approvals_ok. fold (table w'). rewrite Ht. eapply ids_ok_mono; [exact Hn|]. by apply Hi.
  - intros H0 v Hv. rewrite Ht. apply He; auto.
Qed.

Lemma run_inv_leaves {E A} (m : M World E A) :
  preserves store_inv m -> leaves m -> preserves (run_inv w0) m.
Proof.
  intros Hs Hl w r w' Hw Hm. eapply run_inv_quiet; [exact Hw| |by eapply Hl].
  eapply Hs; [|exact Hm]. by destruct Hw.
Qed.

Lemma run_inv_query {A} (f : Db -> A) : preserves (run_inv w0) (query f).
Proof. apply run_inv_leaves; auto with store daemon. Qed.

Lemma run_inv_publish {E} t v : t <> McpApprovalDecided -> preserves (run_inv w0) (@publish E t v).
Proof. intros Ht. apply run_inv_leaves; [apply publish_inv|by apply leaves_publish]. Qed.

Lemma run_inv_lift_bind {E A B} (r : result E A) (k : A -> M World E B) :
  (forall a, r = Ok a -> preserves (run_inv w0) (k a)) ->
  preserves (run_inv w0) (mbind_M k (mlift r)).
Proof.
  intros Hk w r' w' Hw. unfold mbind_M, mlift. destruct r as [a|e]; [by apply Hk|].
  by intros [= <- <-].
Qed.

(** A step that may extend or close approvals and append to the audit log. *)
Lemma run_inv_step w w' :
  run_inv w0 w -> store_inv w' -> approvals_grow (table w0) (table w') -> approvals_grow (table w) (table w') ->
  audit_grows (audit_log (db w0)) (audit_log (db w')) ->
  draft_attachments (db w') = draft_attachments (db w) ->
  (approvals_ok w -> approvals_ok w') -> events w' = events w -> run_inv w0 w'.
Proof.
  intros [Hs Ha Hl Hc Hi He] Hs' Ha' Hg Hl' Hd Hi' Hev. constructor; [done..| |auto|].
  - intros H0 id. unfold attached_bytes. rewrite Hd. by apply Hc.
  - intros H0 v Hv. rewrite Hev in Hv. destruct (He H0 v Hv) as (a & Hin & Hst & ->).
    exists a. split_and!; [|done..]. by eapply approvals_grow_closed.
Qed.

Lemma run_inv_create_approval tool args summary :
  preserves (run_inv w0) (mcp_create_approval tool args summary).
Proof.
  intros w r w' Hw Hm. pose proof Hm as Hm'. apply insert_cases in Hm as [Hn Hc].
  assert (He : events w' = events w).
  { unfold mcp_create_approval, mbind_M at 1, new_uuid, mbind_M, sql_now, mbind_M, utc_now, mret_M in Hm'.
    by apply statement_events in Hm'. }
  assert (Hmono : db_ok (next_uuid w') (db w)) by (eapply db_ok_mono; [|exact (run_store _ _ Hw)]; lia).
  assert (Hids : approvals_ok w -> ids_ok (next_uuid w') (map approval_id (table w)))
    by (intros; eapply ids_ok_mono; [|done]; lia).
  destruct Hc as [(a & now & _ & [= _ Hd])|(e & _ & Hd)]; [symmetry in Hd|].
  - apply (run_inv_step w); unfold store_inv, approvals_ok, table; rewrite ?Hd; cbn; try done.
    + by apply set_approvals_ok.
    + apply approvals_grow_snoc. by destruct Hw.
    + apply approvals_grow_snoc, approvals_grow_refl.
    + by destruct Hw.
    + intros Hok. rewrite map_app, Hn. by apply ids_ok_insert.
  - apply (run_inv_quiet w); [done|by unfold store_inv; rewrite Hd|]. apply quiet_same; [done|lia|done].
Qed.

Lemma run_inv_decide id st who :
  st <> Pending -> actor_is_allowed who = true ->
  preserves (run_inv w0) (mcp_decide id st who).
Proof.
  intros Hst Hwho w r w' Hw. unfold mcp_decide, mbind_M at 1, utc_now. intros Hm.
  pose proof (statement_events _ _ _ _ Hm) as He. apply statement_cases in Hm as [Hn Hc]. cbn in Hn, Hc, He.
  destruct Hc as [(a & _ & [= _ Hd])|(e & _ & Hd)]; [symmetry in Hd|].
  - apply (run_inv_step w); unfold store_inv, approvals_ok, table; rewrite ?Hd, ?Hn; cbn; try done.
    + apply set_approvals_ok. by destruct Hw.
    + apply approvals_grow_decide; [done..|]. by destruct Hw.
    + apply approvals_grow_decide; [done..|]. apply approvals_grow_refl.
    + by destruct Hw.
    + intros Hok. rewrite map_map. erewrite map_ext; [exact Hok|]. intros x. by destruct (awaits id x).
  - apply (run_inv_quiet w); [done|unfold store_inv; rewrite Hd, Hn; by destruct Hw|].
    apply quiet_same; [done|lia|done].
Qed.

Lemma audit_record_events new w r w' : audit_record new w = (r, w') -> events w' = events w.
Proof.
  unfold audit_record, mbind_M at 1, new_uuid, mbind_M at 1, sql_now, mbind_M at 1, utc_now, mret_M at 1.
  intros [([] & w1 & Hs & Hk)|(e & Hs & ->)]%bind_inv; apply statement_events in Hs; cbn in Hs; [|done].
  rewrite <- Hs. apply bind_inv in Hk as [(row & w2 & Hq & Hr)|(e & Hq & _)];
    apply statement_events in Hq; [|done]. destruct row; by injection Hr as _ <-.
Qed.

Lemma run_inv_audit actor action target details :
  actor_is_allowed actor = true ->
  preserves (run_inv w0) (audit_actor actor action target details).
Proof.
  intros Hact w r w' Hw. unfold audit_actor.
  destruct (audit_record _ w) as [r1 w1] eqn:Er. intros [= <- <-].
  pose proof (audit_record_events _ _ _ _ Er) as He. apply audit_record_effect in Er as [Hn Hd].
  assert (Hmono : db_ok (next_uuid w1) (db w)) by (eapply db_ok_mono; [|exact (run_store _ _ Hw)]; lia).
  destruct Hd as [Hd|(now & Hd)].
  - apply (run_inv_quiet w); [done|by unfold store_inv; rewrite Hd|]. apply quiet_same; [done|lia|done].
  - apply (run_inv_step w); unfold store_inv, approvals_ok, table; rewrite ?Hd; cbn; try done.
    + by apply set_audit_ok.
    + by destruct Hw.
    + apply approvals_grow_refl.
    + destruct (run_audit _ _ Hw) as (extra & -> & HF). eexists (extra ++ [_]).
      rewrite app_assoc. split; [done|]. apply Forall_app. split; [done|]. by apply Forall_singleton.
    + intros Hok. eapply ids_ok_mono; [|exact Hok]. lia.
Qed.

(** Announcing a closed row. *)
Lemma run_inv_announce a w :
  run_inv w0 w -> a ∈ table w -> approval_state a <> Pending ->
  forall (r : result RpcError unit) w', publish McpApprovalDecided (decided_event a) w = (r, w') -> run_inv w0 w'.
Proof.
  intros [Hs Ha Hl Hc Hi He] Hin Hst r w' [= _ <-]. constructor; cbn; try done.
  intros H0 v [Hv|Hv%list_elem_of_singleton]%elem_of_app; [by apply He|].
  injection Hv as ->. by exists a.
Qed.

Lemma decide_settles id st who w r w' :
  st <> Pending -> mcp_decide id st who w = (Ok r, w') ->
  forall a, a ∈ table w' -> approval_id a = id -> approval_state a <> Pending.
Proof.
  intros Hst. unfold mcp_decide, mbind_M at 1, utc_now.
  intros [_ [(x & _ & [= _ Hd])|(e & [=] & _)]]%statement_cases a. unfold table. rewrite <- Hd. cbn.
  intros (y & -> & _)%list_elem_of_fmap. unfold awaits. destruct (N.eqb_spec (approval_id y) id); cbn.
  - case_bool_decide; cbn; [done|by intros]. 
  - by intros.
Qed.
End Run.

Lemma actor_is_allowed_spec actor :
  actor_is_allowed actor = true ->
  actor = lit "user" \/
  exists tool, actor = lit "mcp:" ++ tool /\ tool <> [] /\ (str_len tool <= 128)%N.
Proof.
  unfold actor_is_allowed. intros [H|H]%orb_true_iff; [left; by apply str_eqb_eq|right].
  brefl. match goal with Hx : starts_with _ _ = true |- _ => apply starts_with_spec in Hx as (tool & ->) end.
  exists tool. replace (drop 4 (lit "mcp:" ++ tool)) with tool in * by done.
  split; [done|]. split; [by apply is_empty_false|done].
Qed.

Lemma actor_from_args_allowed args : actor_is_allowed (actor_from_args args) = true.
Proof.
  unfold actor_from_args, opt_filter. destruct (vget args _ ≫= as_str) as [s|]; [|by vm_compute].
  destruct (actor_is_allowed s) eqn:E; [done|by vm_compute].
Qed.
#[export] Hint Extern 1 (preserves (run_inv _) (publish _ _)) => apply run_inv_publish; discriminate : daemon.
#[export] Hint Resolve run_inv_query run_inv_create_approval run_inv_audit
  actor_from_args_allowed : daemon.

(** ** Every handler keeps the invariant *)

Section Handlers.
Context {TP : TextParsers} {JC : JsonCodec} {RC : RowCodec} {ET : ErrorTexts}
        {FT : Fts} {SL : SqlLike} {SE : SqlEngine} {UC : UnicodeCase}.
Context (addrs_text : list str -> str) (base64_encode : list N -> str).
Context (w0 : World).

(** Walk through a handler: helpers are unfolded to the calls the hints know. *)
Ltac run_go :=
  repeat first
    [ solve [auto with daemon]
    | solve [apply run_inv_leaves; auto with store daemon]
    | apply preserves_ret | apply preserves_throw | apply preserves_lift
    | apply preserves_map_err
    | solve [apply run_inv_query]
    | apply run_inv_audit; [auto with daemon]
    | apply preserves_bind; [|intros]
    | case_match ].

Lemma search_rows_run q keep limit offset :
  preserves (run_inv w0) (search_rows q keep limit offset).
Proof.
  apply run_inv_leaves; [apply statement_inv|apply leaves_statement]; intros *;
    destruct (fts_hits _ _); (done || by intros ? [= _ <-] || by intros [= _ <-]).
Qed.
Hint Resolve search_rows_run : daemon.

Lemma preserves_bind_at {E A B} (m : M World E A) (k : A -> M World E B) w r w' :
  (forall r1 w1, m w = (r1, w1) -> run_inv w0 w1) -> (forall a, preserves (run_inv w0) (k a)) ->
  run_inv w0 w -> mbind_M k m w = (r, w') -> run_inv w0 w'.
Proof.
  intros Hm Hk _ [(a & w1 & H1 & H2)|(e & H1 & _)]%bind_inv; [|by eapply Hm].
  eapply Hk; [|exact H2]. by eapply Hm.
Qed.

Lemma audit_table actor action target details w r w' :
  audit_actor actor action target details w = (r, w') -> table w' = table w.
Proof.
  unfold audit_actor. destruct (audit_record _ w) as [r1 w1] eqn:Er. intros [= _ <-].
  apply audit_record_effect in Er as [_ [Hd|(now & Hd)]]; unfold table; by rewrite Hd.
Qed.

Lemma approval_decide_run args : preserves (run_inv w0) (op_mcp_approval_decide args).
Proof.
  unfold op_mcp_approval_decide.
  apply run_inv_lift_bind. intros id _. apply run_inv_lift_bind. intros st _.
  destruct (bool_decide (st = Pending)) eqn:Est; [apply preserves_throw|].
  apply bool_decide_eq_false in Est.
  apply run_inv_lift_bind. intros who Hwho.
  assert (Hallowed : actor_is_allowed who = true).
  { unfold decided_by_arg in Hwho. destruct (vget args _ ≫= as_str) as [s|].
    - destruct (actor_is_allowed s) eqn:E; [by injection Hwho as <-|done].
    - injection Hwho as <-. apply actor_from_args_allowed. }
  intros w r w' Hw [(decided & w1 & H1 & H2)|(e & H1 & _)]%bind_inv.
  2: { eapply preserves_map_err; [by apply run_inv_decide|exact Hw|exact H1]. }
  apply mmap_err_Ok in H1. pose proof (decide_settles _ _ _ _ _ _ Est H1) as Hset.
  apply (run_inv_decide w0 id st who Est Hallowed _ _ _ Hw) in H1 as Hw1.
  apply bind_inv in H2 as [(u & w2 & H3 & H4)|(e & H3 & _)];
    pose proof (run_inv_audit w0 _ _ _ _ (actor_from_args_allowed args) _ _ _ Hw1 H3) as Hw2; [|done].
  assert (Ht : table w2 = table w1) by (eapply audit_table; exact H3).
  eapply preserves_bind_at; [| |exact Hw2|exact H4]; [|intros; apply preserves_ret].
  destruct decided; [|by intros r1 w3 [= _ <-]]. clear H4. intros r1 w3 H4.
  unfold rpc, mcp_get_approval in H4.
  apply bind_inv in H4 as [(row & w4 & H5 & H6)|(e & H5 & _)].
  - apply mmap_err_Ok in H5. apply (run_inv_query w0) in H5 as Hw4; [|done].
    apply query_Ok in H5 as [Hrow ->]. destruct row as [a|]; [|by injection H6 as _ <-].
    symmetry in Hrow. apply List.find_some in Hrow as [Hin Hid]. apply list_elem_of_In in Hin.
    apply N.eqb_eq in Hid. fold (table w2) in Hin.
    eapply run_inv_announce; [exact Hw4|exact Hin| |exact H6]. apply Hset; [by rewrite <- Ht|done].
  - eapply preserves_map_err; [apply run_inv_query|exact Hw2|exact H5].
Qed.
Hint Resolve approval_decide_run : daemon.

Lemma dispatch_run op args m :
  dispatch addrs_text base64_encode op args = Some m -> preserves (run_inv w0) m.
Proof.
  destruct op; cbn [dispatch]; intros Hm; try discriminate; injection Hm as <-;
  unfold op_account_list, op_folder_list, op_thread_list, op_messages_by_folder,
    op_messages_by_thread, op_message_get, op_attachment_list, op_search, op_sql_query, op_sql_schema,
    op_audit_list, op_mcp_gate_list, op_mcp_gate_create, op_mcp_gate_delete,
    op_mcp_approval_create, op_mcp_approval_list, op_mcp_approval_get, op_account_create,
    op_account_delete, op_folder_upsert, op_message_set_flags, op_message_archive,
    op_message_delete, op_message_move, require_message, require_role_folder,
    encode, rpc, audit, search_filtered;
  try unfold mcp_list_approvals; run_go.
Qed.

End Handlers.

(** ** A daemon to try them on *)

Definition text_free_codec : JsonCodec :=
  {| from_str := fun _ => None; to_string := fun _ => []; to_string_pretty := fun _ => [] |}.
Definition silent_rows : RowCodec :=
  {| account_to_json := fun _ => VNull; folder_to_json := fun _ => VNull;
     thread_to_json := fun _ => VNull; message_to_json := fun _ => VNull;
     summary_to_json := fun _ => VNull; attachment_to_json := fun _ => VNull;
     audit_to_json := fun _ => VNull;
     new_account_of_json := fun _ => Err []; new_folder_of_json := fun _ => Err [] |}.
Definition silent_errors : ErrorTexts :=
  {| db_error_text := fun _ => []; uuid_error_text := fun s => s; rfc3339_error_text := fun s => s;
     json_error_text := fun s => s |}.

Definition allow_request : value :=
  json [(lit "id", VString [3%N]); (lit "state", VString (lit "allowed"));
        (lit "_actor", VString (lit "mcp:tui"))].
