(* ===== verification/Daemon.v ===== *)
(** * The whole dispatcher (src/daemon/dispatcher.rs)

    The handlers that reach beyond the store: drafts with files of the user,
    sending, forwarding, attachments on disk, credentials, OAuth and the
    synchronisation requests; and [daemon_dispatch], total over [Op], which uses
    [Dispatcher.dispatch] for the rest.

    The daemon's state adds to the [World] the secret store, what went to SMTP
    servers, the worker manager and counters of the calls to outside services,
    whose answers may depend on how often they were called.  The services are the
    source's traits as classes; files of the user are [UserFiles], which may
    change between two calls. *)

From S2P Require Import Prelude RustStr Json SqlQuery Op IpcProtocol McpGates McpTools McpModels MailParser Utf8 MailThreading MailReply MailBuilder ImapWindow DbCore DbMail DbInv DbDrafts Attachments AttachmentFiles Auth Smtp Secrets OAuth Reconciler Worker Manager Search DbMcp Dispatcher.
#[local] Open Scope bool_scope.

(** ** Services *)

Record FolderInfo : Type := mkFolderInfo {
  fi_name : str;
  fi_delimiter : str;
  fi_selectable : bool;
}.

(** The trait [ImapAuth]. *)
Class ImapAuth := {
  test_login : nat -> str -> N -> str -> MailCredential -> result ImapError (list FolderInfo);
}.

(** The trait [GoogleOAuth]; the clock is read by the implementation. *)
Class GoogleOAuth := {
  exchange_code : nat -> time -> GoogleOAuthConfig -> str -> result GoogleOAuthError GoogleOAuthToken;
  refresh_token_call : nat -> time -> GoogleOAuthConfig -> GoogleOAuthToken ->
                       result GoogleOAuthError GoogleOAuthToken;
}.

(** [GoogleOAuthHttpClient]. *)
Definition http_client {EP : TokenEndpoint} : GoogleOAuth :=
  {| exchange_code := http_exchange_code; refresh_token_call := http_refresh_token |}.

(** The trait [SmtpSubmitter], over the log of what was sent; [submit] of [Smtp]
    is the production implementation. *)
Class SmtpSubmitter := {
  smtp_submit : SmtpSubmitRequest -> M (list Transmission) SmtpError unit;
}.
Definition lettre_submitter {LT : Lettre} : SmtpSubmitter := {| smtp_submit := submit |}.

(** Files at paths a client names: whether it is a regular file, its size, and
    its bytes when it is opened. *)
Class UserFiles := {
  fs_metadata : nat -> str -> result IoError (bool * N);
  fs_open_bytes : nat -> str -> result IoError (list N);
  (** [mime_guess::from_path(path).first_raw()]. *)
  mime_from_path : str -> option str;
}.

Definition guess_content_type_for_path {UF : UserFiles} (path : str) : str :=
  unwrap_or (lit "application/octet-stream") (mime_from_path path).

(** What serde derives for the request structs of this file and the rows. *)
Record DraftUpdate : Type := mkDraftUpdate { du_id : Id; du_patch : DraftPatch }.
Record DraftAttachmentSpec : Type := mkDraftAttachmentSpec {
  das_path : str;
  das_content_type : option str;
  das_filename : option str;
}.
Class DraftCodec := {
  new_draft_of_json : value -> result str NewDraft;
  draft_update_of_json : value -> result str DraftUpdate;
  specs_of_json : value -> result str (list DraftAttachmentSpec);
  draft_to_json : Draft -> value;
  preview_to_json : AttachmentPreview -> value;
  export_to_json : AttachmentExport -> value;
  report_to_json : ReconcileReport -> value;
}.

(** Renderings of foreign errors and dates. *)
Class ServiceTexts := {
  secret_error_text : SecretError -> str;
  attachment_error_text : AttachmentError -> str;
  oauth_decode_text : str -> str;
  to_rfc2822 : time -> str;
}.

Definition imap_error_text (e : ImapError) : str :=
  match e with
  | ImapIo m => lit "io: " ++ m
  | ImapWindow.Tls m => lit "tls: " ++ m
  | Protocol m => lit "imap protocol: " ++ m
  | ImapWindow.Auth m => lit "auth failed: " ++ m
  | Unsupported m => lit "unsupported: " ++ m
  | InvalidName m => lit "invalid server name: " ++ m
  | InvalidPort z => lit "invalid port: " ++ show_Z z
  | Timeout m => lit "timed out: " ++ m
  end.

(** ** State *)

Record Daemon (S : Type) : Type := mkDaemon {
  dm_world : World;
  dm_secrets : S;
  dm_wire : list Transmission;
  dm_manager : WorkerManager;
  dm_calls : nat;
}.
Arguments mkDaemon {S} _ _ _ _ _.
Arguments dm_world {S} _.
Arguments dm_secrets {S} _.
Arguments dm_wire {S} _.
Arguments dm_manager {S} _.
Arguments dm_calls {S} _.

Section State.
Context {S : Type}.

Definition on_world {E A} (m : M World E A) : M (Daemon S) E A := fun d =>
  let '(r, w) := m (dm_world d) in
  (r, mkDaemon w (dm_secrets d) (dm_wire d) (dm_manager d) (dm_calls d)).
Definition on_secrets {E A} (m : M S E A) : M (Daemon S) E A := fun d =>
  let '(r, s) := m (dm_secrets d) in
  (r, mkDaemon (dm_world d) s (dm_wire d) (dm_manager d) (dm_calls d)).
Definition on_wire {E A} (m : M (list Transmission) E A) : M (Daemon S) E A := fun d =>
  let '(r, l) := m (dm_wire d) in
  (r, mkDaemon (dm_world d) (dm_secrets d) l (dm_manager d) (dm_calls d)).
Definition on_manager {E A} (f : WorkerManager -> A * WorkerManager) : M (Daemon S) E A := fun d =>
  let '(a, m) := f (dm_manager d) in
  (Ok a, mkDaemon (dm_world d) (dm_secrets d) (dm_wire d) m (dm_calls d)).
(** A call to a service that keeps no state of ours. *)
Definition outside {E A} (f : nat -> result E A) : M (Daemon S) E A := fun d =>
  (f (dm_calls d),
   mkDaemon (dm_world d) (dm_secrets d) (dm_wire d) (dm_manager d) (Datatypes.S (dm_calls d))).
End State.

Section Handlers.
Context {S : Type} {SS : SecretStore S}.
Context {TP : TextParsers} {JC : JsonCodec} {RC : RowCodec} {ET : ErrorTexts}
        {FT : Fts} {SL : SqlLike} {SE : SqlEngine} {UC : UnicodeCase}.
Context {DC : DraftCodec} {ST : ServiceTexts} {IO : HostIo} {UF : UserFiles}
        {MP : MessageParser} {IS : ImapSync} {IA : ImapAuth} {GO : GoogleOAuth} {SM : SmtpSubmitter}.
Context (addrs_text : list str -> str) (base64 : list N -> str).
(** The attachment root and the fuel of the reconciler's window loop. *)
Context (root : str) (fuel : nat).

Abbreviation handler := (M (Daemon S) RpcError value).

(** ** Draft attachments *)

Definition take_attachment_specs (args : value) : result RpcError (option (list DraftAttachmentSpec)) :=
  match vget args (lit "attachments") with
  | None | Some VNull => Ok None
  | Some v => specs ← map_err (fun e => rpc_bad_args (lit "bad 'attachments': " ++ e)) (specs_of_json v);
              Ok (Some specs)
  end.

Record PendingDraftAttachment : Type := mkPendingDraftAttachment {
  pend_path : str;
  pend_size : N;
  pend_filename : str;
  pend_content_type : str;
}.
Record PreparedDraftAttachment : Type := mkPreparedDraftAttachment {
  prep_filename : str;
  prep_content_type : str;
  prep_content : list N;
}.

Definition draft_limit : N := Z.to_N MAX_DRAFT_ATTACHMENT_BYTES.
Definition U64_MAX : N := 2 ^ 64 - 1.
Definition saturating_add64 (a b : N) : N := N.min (a + b) U64_MAX.

Definition attachment_too_large_error (path : str) (size : N) : RpcError :=
  mkRpcError (lit "attachment_too_large")
    (lit "attachment '" ++ path ++ lit "' is " ++ show_N size ++ lit " bytes, exceeds "
     ++ show_Z MAX_DRAFT_ATTACHMENT_BYTES ++ lit " byte limit").
Definition aggregate_attachments_too_large_error (size : N) : RpcError :=
  mkRpcError (lit "attachment_too_large")
    (lit "aggregate draft attachments " ++ show_N size ++ lit " bytes exceed "
     ++ show_Z MAX_DRAFT_ATTACHMENT_BYTES ++ lit " byte limit").

Definition map_attachment_read_error (path : str) (err : IoError) : RpcError :=
  match io_error_kind err with
  | IoNotFound => rpc_bad_args (lit "file not found: " ++ path)
  | IoPermissionDenied => rpc_bad_args (lit "permission denied: " ++ path)
  | _ => rpc_bad_args (lit "cannot read " ++ path ++ lit ": " ++ io_error_text err)
  end.

(** The first pass: metadata and size checks of every file. *)
Fixpoint pending_attachments (specs : list DraftAttachmentSpec) (aggregate : N)
    : M (Daemon S) RpcError (list PendingDraftAttachment) :=
  match specs with
  | [] => mret_M []
  | spec :: rest =>
      let path := das_path spec in
      let! meta := mmap_err (map_attachment_read_error path) (outside (fun n => fs_metadata n path)) in
      if negb meta.1 then mthrow (rpc_bad_args (lit "not a regular file: " ++ path))
      else
        let size := meta.2 in
        if (draft_limit <? size)%N then mthrow (attachment_too_large_error path size)
        else
          let aggregate := saturating_add64 aggregate size in
          if (draft_limit <? aggregate)%N then mthrow (aggregate_attachments_too_large_error aggregate)
          else
            let filename := unwrap_or (unwrap_or (lit "attachment.bin") (file_name path)) (das_filename spec) in
            let content_type := unwrap_or (guess_content_type_for_path path)
              (opt_filter (fun s => negb (is_empty (trim s))) (das_content_type spec)) in
            let! more := pending_attachments rest aggregate in
            mret_M (mkPendingDraftAttachment path size filename content_type :: more)
  end.

(** [file.take(limit + 1).read_to_end]. *)
Definition read_attachment_bounded (path : str) : M (Daemon S) RpcError (list N) :=
  let! content := mmap_err (map_attachment_read_error path) (outside (fun n => fs_open_bytes n path)) in
  let bytes := take (N.to_nat (draft_limit + 1)) content in
  let len := N.of_nat (List.length bytes) in
  if (draft_limit <? len)%N then mthrow (attachment_too_large_error path len) else mret_M bytes.

(** The second pass: the bytes, whose sizes are checked again. *)
Fixpoint read_pending (l : list PendingDraftAttachment) (actual : N)
    : M (Daemon S) RpcError (list PreparedDraftAttachment) :=
  match l with
  | [] => mret_M []
  | p :: rest =>
      let! content := read_attachment_bounded (pend_path p) in
      let actual := saturating_add64 actual (N.of_nat (List.length content)) in
      if (draft_limit <? actual)%N then mthrow (aggregate_attachments_too_large_error actual)
      else
        let! more := read_pending rest actual in
        mret_M (mkPreparedDraftAttachment (pend_filename p) (pend_content_type p) content :: more)
  end.

Definition prepare_draft_attachments (specs : option (list DraftAttachmentSpec))
    : M (Daemon S) RpcError (option (list PreparedDraftAttachment)) :=
  match specs with
  | None => mret_M None
  | Some specs =>
      let! pending := pending_attachments specs 0 in
      let! prepared := read_pending pending 0 in
      mret_M (Some prepared)
  end.

Fixpoint create_draft_attachments (draft_id : Id) (l : list PreparedDraftAttachment)
    : M World RpcError unit :=
  match l with
  | [] => mret_M tt
  | a :: rest =>
      rpc (lit "draft_attachments::create")
        (draft_attachments_create (mkNewDraftAttachment draft_id (prep_filename a)
           (prep_content_type a) (prep_content a)));!
      create_draft_attachments draft_id rest
  end.

Definition replace_draft_attachments (draft_id : Id) (l : list PreparedDraftAttachment)
    : M World RpcError unit :=
  rpc (lit "draft_attachments::delete_all") (draft_attachments_delete_all_for_draft draft_id);!
  create_draft_attachments draft_id l.
Definition replace_draft_attachments_tx := replace_draft_attachments.

(** ** Drafts *)

(** A draft whose attachments cannot be stored is deleted again, best effort. *)
Definition attach_or_delete (draft_id : Id) (l : list PreparedDraftAttachment)
    : M World RpcError unit := fun w =>
  match replace_draft_attachments draft_id l w with
  | (Ok u, w') => (Ok u, w')
  | (Err e, w') => (Err e, (drafts_delete draft_id w').2)
  end.

Definition op_draft_create (args : value) : handler :=
  let actor := actor_from_args args in
  let! specs := mlift (take_attachment_specs args) in
  let! new := mlift (map_err rpc_bad_args (new_draft_of_json args)) in
  let! attachments := prepare_draft_attachments specs in
  on_world (
    let! draft := rpc (lit "drafts::create") (drafts_create new) in
    (match attachments with
     | Some l => attach_or_delete (dr_id draft) l
     | None => mret_M tt
     end);!
    audit_actor actor (lit "draft.create") (Some (uuid_to_string (dr_id draft))) (json []);!
    mret_M (draft_to_json draft)).

Definition op_draft_update (args : value) : handler :=
  let actor := actor_from_args args in
  let! specs := mlift (take_attachment_specs args) in
  let! upd := mlift (map_err rpc_bad_args (draft_update_of_json args)) in
  let! attachments := prepare_draft_attachments specs in
  on_world (
    rpc (lit "begin draft update transaction") tx_statement;!
    let! draft := in_tx (
      let! draft := rpc (lit "drafts::update") (drafts_update_tx (du_id upd) (du_patch upd)) in
      (match attachments, draft with
       | Some l, Some _ => replace_draft_attachments_tx (du_id upd) l
       | _, _ => mret_M tt
       end);!
      rpc (lit "commit draft update transaction") tx_statement;!
      mret_M draft) in
    audit_actor actor (lit "draft.update") (Some (uuid_to_string (du_id upd))) (json []);!
    mret_M (opt_to_json draft_to_json draft)).

Definition op_draft_delete (args : value) : handler :=
  let actor := actor_from_args args in
  let! id := mlift (parse_id args (lit "id")) in
  on_world (
    let! removed := rpc (lit "drafts::delete") (drafts_delete id) in
    audit_actor actor (lit "draft.delete") (Some (uuid_to_string id)) (json []);!
    mret_M (json [(lit "removed", VBool removed)])).

Definition op_draft_list (args : value) : handler :=
  let! account_id := mlift (parse_id args (lit "account_id")) in
  on_world (encode (list_to_json draft_to_json) (lit "drafts::list_by_account")
              (drafts_list_by_account account_id)).

Definition require_draft_attachment_content (id : Id) (content : option (list N))
    : result RpcError (list N) :=
  ok_or content (rpc_internal (lit "draft attachment content missing for " ++ uuid_to_string id)).

Definition draft_attachment_json (row : DraftAttachment) (bytes : list N) : value :=
  json [(lit "id", id_json (da_id row)); (lit "draft_id", id_json (da_draft_id row));
        (lit "filename", VString (da_filename row)); (lit "content_type", VString (da_content_type row));
        (lit "size_bytes", VNumber (NInt (da_size_bytes row)));
        (lit "content_base64", VString (base64 bytes))].

Fixpoint draft_attachments_json (rows : list DraftAttachment) : M World RpcError (list value) :=
  match rows with
  | [] => mret_M []
  | row :: rest =>
      let! content := rpc (lit "draft_attachments::load_content") (draft_attachments_load_content (da_id row)) in
      let! bytes := mlift (require_draft_attachment_content (da_id row) content) in
      let! more := draft_attachments_json rest in
      mret_M (draft_attachment_json row bytes :: more)
  end.

Definition op_draft_get (args : value) : handler :=
  let! id := mlift (parse_id args (lit "id")) in
  on_world (
    let! draft := rpc (lit "drafts::get") (drafts_get id) in
    match draft with
    | None => mret_M VNull
    | Some draft =>
        let! rows := rpc (lit "draft_attachments::list_for_draft") (draft_attachments_list_for_draft id) in
        let! atts := draft_attachments_json rows in
        mret_M (json [(lit "draft", draft_to_json draft); (lit "attachments", VArray atts)])
    end).

(** ** Credentials *)

Definition is_oauth_reauth (err : GoogleOAuthError) : bool :=
  match err with
  | HttpStatus status => existsb (N.eqb status) [400; 401; 403]%N
  | MissingRefreshToken => true
  | _ => false
  end.

Definition map_oauth_error (err : GoogleOAuthError) : RpcError :=
  match err with
  | InvalidInput message => rpc_bad_args message
  | MissingRefreshToken => mkRpcError (lit "oauth_reauth_required")
      (lit "OAuth response did not include a refresh token; re-authentication required")
  | HttpStatus status =>
      if existsb (N.eqb status) [400; 401; 403]%N
      then mkRpcError (lit "oauth_reauth_required")
             (lit "OAuth refresh rejected (status " ++ show_N status ++ lit "); re-authentication required")
      else mkRpcError (lit "oauth_failed")
             (lit "OAuth token endpoint returned status " ++ show_N status)
  | HttpError _ => mkRpcError (lit "oauth_failed") (lit "OAuth token endpoint request failed")
  | OAuthSecret e => rpc_internal_ctx (lit "oauth secrets") (secret_error_text e)
  | OAuthDecode m => rpc_internal_ctx (lit "oauth decode") m
  end.

(** The stored token, refreshed when it is about to expire. *)
Definition fresh_oauth (account_id : Id) (stored : StoredGoogleOAuth)
    : M (Daemon S) RpcError GoogleOAuthToken :=
  let! now := on_world utc_now in
  if negb (needs_refresh (stored_token stored) now) then mret_M (stored_token stored)
  else
    let! at_call := on_world utc_now in
    let! refreshed := outside (fun n =>
      Ok (refresh_token_call n at_call (stored_config stored) (stored_token stored))) in
    match refreshed with
    | Ok token =>
        mmap_err map_oauth_error (on_secrets (store_stored_oauth account_id
          (mkStoredGoogleOAuth (stored_config stored) token)));!
        mret_M token
    | Err err =>
        if is_oauth_reauth err then mthrow (map_oauth_error err)
        else
          let! now := on_world utc_now in
          if (now <? expires_at (stored_token stored))%Z then mret_M (stored_token stored)
          else mthrow (map_oauth_error err)
    end.

Definition credential_for_account (account : Account) : M (Daemon S) RpcError MailCredential :=
  match acc_auth_kind account with
  | AuthPassword =>
      let! secret := mmap_err (fun e => rpc_internal_ctx (lit "secrets::get") (secret_error_text e))
                       (on_secrets (ss_get (acc_id account))) in
      let! secret := mlift (ok_or secret
        (mkRpcError (lit "missing_secret") (lit "no stored secret for account"))) in
      mret_M (CredPassword secret)
  | OAuth2Google =>
      let! stored := mmap_err map_oauth_error
                       (on_secrets (load_stored_oauth oauth_decode_text (acc_id account))) in
      let! stored := mlift (ok_or stored
        (mkRpcError (lit "missing_secret") (lit "no stored OAuth token for account"))) in
      let! token := fresh_oauth (acc_id account) stored in
      mret_M (CredOAuth2Bearer (access_token token))
  end.

Definition get_account (account_id : Id) : M (Daemon S) RpcError Account :=
  let! account := on_world (rpc (lit "accounts::get") (accounts_get account_id)) in
  mlift (ok_or account (rpc_bad_args (lit "unknown account_id"))).

(** [DaemonCredentialResolver::resolve], for the sync workers. *)
Definition resolve (account_id : Id) : M (Daemon S) SyncError MailCredential :=
  let! account := mmap_err SyncDb (on_world (accounts_get account_id)) in
  let! account := mlift (ok_or account UnknownAccount) in
  mmap_err (fun err => if str_eqb (err_code err) (lit "missing_secret") then MissingCredentials
                       else CredentialError (err_code err ++ lit ": " ++ err_message err))
    (credential_for_account account).

(** ** Replies and forwards *)

Definition message_view (m : Message) : MessageView :=
  let c := msg_cols m in
  mkMessageView (msg_id m) (nm_from_addr c) (nm_reply_to c) (nm_subject c) (nm_message_id_header c)
    (nm_references_header c) (nm_to_addrs c) (nm_cc_addrs c) (nm_text_body c) (nm_html_body c)
    (nm_internal_date c).

Definition account_of_message (m : Message) : M World RpcError Account :=
  let! account := rpc (lit "accounts::get") (accounts_get (nm_account_id (msg_cols m))) in
  mlift (ok_or account (rpc_bad_args (lit "unknown account for message"))).

Definition op_message_prepare_reply (args : value) : handler :=
  let! message_id := mlift (parse_id args (lit "message_id")) in
  let reply_all := unwrap_or false (vget args (lit "reply_all") ≫= as_bool) in
  on_world (
    let! message := require_message message_id in
    let! account := account_of_message message in
    let draft := reply_draft to_rfc2822 (message_view message) (acc_email account) reply_all in
    mret_M (json [(lit "message_id", id_json (msg_id message)); (lit "account_id", id_json (acc_id account));
                  (lit "to", strings_to_json (rd_to draft)); (lit "cc", strings_to_json (rd_cc draft));
                  (lit "subject", VString (rd_subject draft));
                  (lit "in_reply_to", VString (rd_in_reply_to draft));
                  (lit "references", VString (rd_references draft));
                  (lit "quoted_body", VString (rd_quoted_body draft))])).

Definition forward_ref_json (a : ForwardAttachmentRef) : value :=
  json [(lit "message_id", id_json (fa_message_id a)); (lit "attachment_id", id_json (fa_attachment_id a));
        (lit "filename", VString (fa_filename a)); (lit "content_type", VString (fa_content_type a));
        (lit "size_bytes", VNumber (NInt (fa_size_bytes a)))].

Definition op_message_prepare_forward (args : value) : handler :=
  let! message_id := mlift (parse_id args (lit "message_id")) in
  on_world (
    let! message := require_message message_id in
    let! account := account_of_message message in
    let! rows := rpc (lit "attachments::list_for_message") (attachments_list_for_message (msg_id message)) in
    let tuples := map (fun a => (att_id a, na_filename (att_cols a), na_content_type (att_cols a),
                                 na_size_bytes (att_cols a))) rows in
    let draft := forward_draft to_rfc2822 (message_view message) tuples in
    mret_M (json [(lit "message_id", id_json (msg_id message)); (lit "account_id", id_json (acc_id account));
                  (lit "subject", VString (fd_subject draft));
                  (lit "forwarded_body", VString (fd_forwarded_body draft));
                  (lit "forwarded_attachments",
                    VArray (map forward_ref_json (fd_forwarded_attachments draft)))])).

(** ** Attachments on disk *)

Definition get_attachment (id : Id) : M World RpcError AttachmentRow :=
  let! row := rpc (lit "attachments::get") (attachments_get id) in
  mlift (ok_or row (rpc_bad_args (lit "unknown attachment id"))).

Definition op_attachment_preview (args : value) : handler :=
  let! id := mlift (parse_id args (lit "id")) in
  on_world (
    let! attachment := get_attachment id in
    let! preview := mmap_err (fun e => rpc_internal_ctx (lit "attachment preview") (io_error_text e))
                      (preview_attachment attachment) in
    mret_M (preview_to_json preview)).

Definition map_attachment_export_error (err : IoError) : RpcError :=
  match io_error_kind err with
  | IoAlreadyExists | IoNotFound | IoInvalidInput => rpc_bad_args (io_error_text err)
  | _ => rpc_internal_ctx (lit "attachment export") (io_error_text err)
  end.

Definition op_attachment_export (args : value) : handler :=
  let actor := actor_from_args args in
  let! id := mlift (parse_id args (lit "id")) in
  let! destination_path := mlift (parse_str args (lit "destination_path")) in
  on_world (
    let! attachment := get_attachment id in
    let! exported := mmap_err map_attachment_export_error (export_attachment attachment destination_path) in
    audit_actor actor (lit "attachment.export") (Some (uuid_to_string id))
      (json [(lit "destination_path", VString (ex_destination_path exported))]);!
    mret_M (export_to_json exported)).

(** ** Attachments of forwarded messages *)

Definition unavailable (message : str) : RpcError := mkRpcError (lit "unavailable_offline") message.
Definition unavailable_offline : RpcError := unavailable (lit "attachment unavailable offline").

Definition forward_parent_message (message_id : Id) : M World RpcError Message :=
  let! row := rpc (lit "messages::get") (messages_get message_id) in
  mlift (ok_or row (unavailable (lit "attachment unavailable offline (parent message missing)"))).

(** Any failure of [m] becomes [e]. *)
Definition or_else {St E F A} (e : F) (m : M St E A) : M St F A := mmap_err (fun _ => e) m.

Definition refetch_forward_attachments (message : Message)
    : M (Daemon S) RpcError (list ParsedAttachment) :=
  let ctx := lit "folders/accounts::get" in
  let! folder := on_world (rpc ctx (folders_get (msg_folder_id message))) in
  let! account := on_world (rpc ctx (accounts_get (nm_account_id (msg_cols message)))) in
  let! folder := mlift (ok_or folder (unavailable (lit "attachment unavailable offline (folder missing)"))) in
  let! account := mlift (ok_or account (unavailable (lit "attachment unavailable offline (account missing)"))) in
  let! credential := or_else unavailable_offline (credential_for_account account) in
  let uid := msg_uid message in
  let! target_uid := mlift (if ((0 <=? uid) && (uid <=? Z.of_N U32_MAX))%Z then Ok (Z.to_N uid)
                            else Err unavailable_offline) in
  let! port := mlift (map_err (fun _ => unavailable_offline) (port_u16 (acc_imap_port account))) in
  let! server := or_else unavailable_offline (on_world (imap_sync_folder (acc_imap_host account) port
                   (acc_email account) credential (fld_name folder) target_uid)) in
  let! fetched := mlift (ok_or (List.find (fun m => fm_uid m =? target_uid)%N (fs_messages server))
                           unavailable_offline) in
  let! parsed := mlift (map_err (fun _ => unavailable_offline) (parse (fm_raw fetched))) in
  mret_M (pe_attachments parsed).

Definition forward_attachment_payload (a : AttachmentRow) (bytes : list N) (source : str) : value :=
  json [(lit "attachment_id", id_json (att_id a)); (lit "filename", VString (na_filename (att_cols a)));
        (lit "content_type", VString (na_content_type (att_cols a)));
        (lit "size_bytes", VNumber (NInt (Z.of_nat (List.length bytes))));
        (lit "content_base64", VString (base64 bytes)); (lit "source", VString source)].

Definition forward_attachment_failure (a : AttachmentRow) (e : RpcError) : value :=
  json [(lit "attachment_id", id_json (att_id a)); (lit "filename", VString (na_filename (att_cols a)));
        (lit "code", VString (err_code e)); (lit "message", VString (err_message e))].
End Handlers.

(** [Iterator::position] and [Vec::swap_remove]. *)
Fixpoint position {A} (f : A -> bool) (l : list A) : option nat :=
  match l with
  | [] => None
  | a :: r => if f a then Some 0%nat else Datatypes.S <$> position f r
  end.
Definition swap_remove {A} (i : nat) (l : list A) : list A :=
  match last l with
  | Some x => take (List.length l - 1) (<[i := x]> l)
  | None => l
  end.

Definition same_name (a : AttachmentRow) (p : ParsedAttachment) : bool :=
  str_eqb (pa_filename p) (na_filename (att_cols a)).
Definition same_name_and_type (a : AttachmentRow) (p : ParsedAttachment) : bool :=
  same_name a p && str_eqb (pa_content_type p) (na_content_type (att_cols a)).
Definition same_cid (cid : str) (p : ParsedAttachment) : bool := bool_decide (pa_content_id p = Some cid).

(** Which part matches: by content id, by name and type, by name. *)
Definition pick_index (parsed : list ParsedAttachment) (a : AttachmentRow) : option nat :=
  match opt_filter (fun s => negb (is_empty s)) (na_content_id (att_cols a)) ≫=
          fun cid => position (same_cid cid) parsed with
  | Some i => Some i
  | None => match position (same_name_and_type a) parsed with
            | Some i => Some i
            | None => position (same_name a) parsed
            end
  end.

(** The bytes of the matching part, which is taken out. *)
Definition pick_attachment_bytes (parsed : list ParsedAttachment) (a : AttachmentRow)
    : option (list N) * list ParsedAttachment :=
  match pick_index parsed a ≫= fun i => (fun p => (i, p)) <$> parsed !! i with
  | Some (i, p) => (Some (pa_data p), swap_remove i parsed)
  | None => (None, parsed)
  end.
