(* ===== verification/DaemonOps.v ===== *)
(** * The dispatcher, continued (src/daemon/dispatcher.rs)

    Fetching attachments to forward, sending a draft, and the requests that use
    the network, the secret store or OAuth; [daemon_dispatch] puts all handlers
    together. *)

From S2P Require Import Prelude RustStr Json SqlQuery Op IpcProtocol McpGates McpTools McpModels MailParser Utf8 MailThreading MailReply MailBuilder ImapWindow DbCore DbMail DbInv DbDrafts Attachments AttachmentFiles Auth Smtp Secrets OAuth Reconciler Worker Manager Search DbMcp Dispatcher Daemon.
#[local] Open Scope bool_scope.

Section Handlers.
Context {S : Type} {SS : SecretStore S}.
Context {TP : TextParsers} {JC : JsonCodec} {RC : RowCodec} {ET : ErrorTexts}
        {FT : Fts} {SL : SqlLike} {SE : SqlEngine} {UC : UnicodeCase}.
Context {DC : DraftCodec} {ST : ServiceTexts} {IO : HostIo} {UF : UserFiles}
        {MP : MessageParser} {IS : ImapSync} {IA : ImapAuth} {GO : GoogleOAuth} {SM : SmtpSubmitter}.
Context (addrs_text : list str -> str) (base64 : list N -> str) (root : str) (fuel : nat).

Abbreviation handler := (M (Daemon S) RpcError value).

(** ** Forwarded attachments *)

(** [Path::parent] is some non-empty path. *)
Definition parent_nonempty (p : str) : bool :=
  match components p with
  | [] => false
  | [_] => starts_with p [SLASH] || starts_with p (lit "./")
  | _ => true
  end.

Definition persist_refetched_bytes (path : str) (bytes : list N) : M World IoError unit :=
  if is_empty path then mret_M tt
  else
    (if parent_nonempty path then fs_step else mret_M tt);!
    fs_write path bytes.

(** A failure is logged and forgotten. *)
Definition best_effort {E F A} (m : M World E A) : M World F unit := fun w => (Ok tt, (m w).2).

(** The cached bytes, [None] when they cannot be read. *)
Definition read_cached (path : str) : M World RpcError (option (list N)) := fun w =>
  match fs_read path w with
  | (Ok b, w') => (Ok (Some b), w')
  | (Err _, w') => (Ok None, w')
  end.

Definition op_attachment_fetch_for_forward (args : value) : handler :=
  let! attachment_id := mlift (parse_id args (lit "attachment_id")) in
  let! attachment := on_world (get_attachment attachment_id) in
  let! cached := on_world (read_cached (na_storage_path (att_cols attachment))) in
  match cached with
  | Some bytes => mret_M (forward_attachment_payload base64 attachment bytes (lit "cache"))
  | None =>
      let! message := on_world (forward_parent_message (na_message_id (att_cols attachment))) in
      let! parsed := refetch_forward_attachments message in
      let! bytes := mlift (ok_or (pick_attachment_bytes parsed attachment).1 unavailable_offline) in
      on_world (best_effort (persist_refetched_bytes (na_storage_path (att_cols attachment)) bytes));!
      mret_M (forward_attachment_payload base64 attachment bytes (lit "imap"))
  end.

Definition MAX_FORWARD_ATTACHMENT_BATCH : nat := 32.

Fixpoint parse_ids (key : str) (index : nat) (values : list value) : result RpcError (list Id) :=
  match values with
  | [] => Ok []
  | v :: rest =>
      let name := key ++ lit "[" ++ show_N (N.of_nat index) ++ lit "]" in
      s ← ok_or (as_str v) (rpc_bad_args (lit "'" ++ name ++ lit "' must be a string"));
      id ← ok_or (uuid_parse_str s) (rpc_bad_args (lit "bad '" ++ name ++ lit "': " ++ uuid_error_text s));
      ids ← parse_ids key (index + 1) rest;
      Ok (id :: ids)
  end.

Definition parse_id_array (args : value) (key : str) (max_len : nat) : result RpcError (list Id) :=
  values ← ok_or (vget args key ≫= as_array) (rpc_bad_args (lit "missing '" ++ key ++ lit "'"));
  match values with
  | [] => Err (rpc_bad_args (lit "'" ++ key ++ lit "' cannot be empty"))
  | _ =>
      if (max_len <? List.length values)%nat
      then Err (rpc_bad_args (lit "'" ++ key ++ lit "' cannot contain more than "
                                ++ show_N (N.of_nat max_len) ++ lit " ids"))
      else parse_ids key 0 values
  end.

(** The state of the batch: the message's attachments not asked for yet, a slot
    per requested id, the failures, and the slots the cache could not fill. *)
Record batch : Type := mkBatch {
  bt_left : list AttachmentRow;
  bt_slots : list (option value);
  bt_failed : list value;
  bt_misses : list (nat * AttachmentRow);
}.

Definition unknown_attachment (id : Id) : value :=
  json [(lit "attachment_id", id_json id); (lit "filename", VString []);
        (lit "code", VString (lit "bad_args"));
        (lit "message", VString (lit "unknown attachment id for message"))].

Fixpoint batch_cached (index : nat) (ids : list Id) (b : batch) : M World RpcError batch :=
  match ids with
  | [] => mret_M b
  | id :: rest =>
      match List.find (fun a => att_id a =? id)%N (bt_left b) with
      | None =>
          batch_cached (index + 1) rest
            (mkBatch (bt_left b) (bt_slots b) (bt_failed b ++ [unknown_attachment id]) (bt_misses b))
      | Some a =>
          let left := List.filter (fun x => negb (att_id x =? id)%N) (bt_left b) in
          let! cached := read_cached (na_storage_path (att_cols a)) in
          batch_cached (index + 1) rest
            (match cached with
             | Some bytes =>
                 mkBatch left (<[index := Some (forward_attachment_payload base64 a bytes (lit "cache"))]>
                                 (bt_slots b)) (bt_failed b) (bt_misses b)
             | None => mkBatch left (bt_slots b) (bt_failed b) (bt_misses b ++ [(index, a)])
             end)
      end
  end.

(** Fill the misses from the parts of the message fetched again. *)
Fixpoint batch_refetched (parsed : list ParsedAttachment) (misses : list (nat * AttachmentRow))
    (b : batch) : M World RpcError batch :=
  match misses with
  | [] => mret_M b
  | (index, a) :: rest =>
      match pick_attachment_bytes parsed a with
      | (Some bytes, parsed) =>
          best_effort (persist_refetched_bytes (na_storage_path (att_cols a)) bytes);!
          batch_refetched parsed rest
            (mkBatch (bt_left b) (<[index := Some (forward_attachment_payload base64 a bytes (lit "imap"))]>
                                    (bt_slots b)) (bt_failed b) (bt_misses b))
      | (None, parsed) =>
          batch_refetched parsed rest
            (mkBatch (bt_left b) (bt_slots b)
               (bt_failed b ++ [forward_attachment_failure a unavailable_offline]) (bt_misses b))
      end
  end.

(** [match refetch.await]: errors become values. *)
Definition attempt {St E A} (m : M St E A) : M St E (result E A) := fun s =>
  let '(r, s') := m s in (Ok r, s').

Definition batch_reply (b : batch) : value :=
  json [(lit "attachments", VArray (omap id (bt_slots b))); (lit "failed", VArray (bt_failed b))].

Definition op_attachment_fetch_for_forward_batch (args : value) : handler :=
  let! message_id := mlift (parse_id args (lit "message_id")) in
  let! ids := mlift (parse_id_array args (lit "attachment_ids") MAX_FORWARD_ATTACHMENT_BATCH) in
  let! message := on_world (require_message message_id) in
  let! rows := on_world (rpc (lit "attachments::list_for_message") (attachments_list_for_message message_id)) in
  let! b := on_world (batch_cached 0 ids (mkBatch rows (replicate (List.length ids) None) [] [])) in
  match bt_misses b with
  | [] => mret_M (batch_reply b)
  | misses =>
      let! refetched := attempt (refetch_forward_attachments message) in
      match refetched with
      | Ok parsed =>
          let! b := on_world (batch_refetched parsed misses b) in
          mret_M (batch_reply b)
      | Err error =>
          mret_M (batch_reply (mkBatch (bt_left b) (bt_slots b)
            (bt_failed b ++ map (fun m => forward_attachment_failure m.2 error) misses) (bt_misses b)))
      end
  end.

(** ** Sending *)

Fixpoint parse_addr_array (l : list str) (field : str) : result RpcError (list str) :=
  match l with
  | [] => Ok []
  | addr :: rest =>
      let addr := trim addr in
      if is_empty addr then Err (rpc_bad_args (field ++ lit " must not contain empty addresses"))
      else more ← parse_addr_array rest field; Ok (addr :: more)
  end.

Definition all_recipients (to cc bcc : list str) : result RpcError (list str) :=
  match to ++ cc ++ bcc with
  | [] => Err (rpc_bad_args (lit "at least one recipient is required"))
  | recipients => Ok recipients
  end.

Definition map_smtp_error (err : SmtpError) : RpcError :=
  match err with
  | SmtpAuth m => mkRpcError (lit "auth_failed") m
  | SmtpInvalidRequest m => rpc_bad_args m
  | SmtpTransient m => mkRpcError (lit "smtp_transient") m
  | SmtpInvalidConfig m | SmtpInternal m => rpc_internal m
  end.

Fixpoint mime_attachments (rows : list DraftAttachment) : M World RpcError (list MimeAttachment) :=
  match rows with
  | [] => mret_M []
  | row :: rest =>
      let! content := rpc (lit "draft_attachments::load_content") (draft_attachments_load_content (da_id row)) in
      let! bytes := mlift (ok_or content (rpc_internal (lit "draft attachment " ++ uuid_to_string (da_id row)
                                                          ++ lit " disappeared mid-send"))) in
      let! more := mime_attachments rest in
      mret_M (mkMimeAttachment (da_filename row) (da_content_type row) bytes None :: more)
  end.

Definition load_draft_mime_attachments (draft_id : Id) : M World RpcError (list MimeAttachment) :=
  let! rows := rpc (lit "draft_attachments::list_for_draft") (draft_attachments_list_for_draft draft_id) in
  mime_attachments rows.

(** The date and the boundaries of one message. *)
Definition mime_env : M World RpcError MimeEnv :=
  let! now := utc_now in
  let! mixed := new_uuid in
  let! alt := new_uuid in
  mret_M (mkMimeEnv (to_rfc2822 now) (uuid_to_string mixed) (uuid_to_string alt) base64).

(** The recipients and the parts of the request taken from the draft. *)
Record outgoing : Type := mkOutgoing {
  og_to : list str;
  og_cc : list str;
  og_recipients : list str;
}.
Definition draft_recipients (c : NewDraft) : result RpcError outgoing :=
  to ← parse_addr_array (nd_to_addrs c) (lit "to_addrs");
  cc ← parse_addr_array (nd_cc_addrs c) (lit "cc_addrs");
  bcc ← parse_addr_array (nd_bcc_addrs c) (lit "bcc_addrs");
  recipients ← all_recipients to cc bcc;
  Ok (mkOutgoing to cc recipients).

Definition u16_of (z : Z) : option N :=
  if ((0 <=? z) && (z <=? 65535))%Z then Some (Z.to_N z) else None.

(** Drop the sent draft and tell subscribers; a failure is only logged. *)
Definition drop_sent_draft (account_id draft_id : Id) : M World RpcError unit := fun w =>
  match drafts_delete draft_id w with
  | (Err _, w') => (Ok tt, w')
  | (Ok _, w') =>
      publish MailUpdated (json [(lit "account_id", id_json account_id);
                                 (lit "draft_id", id_json draft_id); (lit "removed", VBool true)]) w'
  end.

Definition op_message_send (args : value) : handler :=
  let actor := actor_from_args args in
  let! account_id := mlift (parse_id args (lit "account_id")) in
  let! draft_id := mlift (parse_id args (lit "draft_id")) in
  let! account := get_account account_id in
  let! draft := on_world (rpc (lit "drafts::get") (drafts_get draft_id)) in
  let! draft := mlift (ok_or draft (rpc_bad_args (lit "unknown draft_id"))) in
  let c := dr_cols draft in
  if negb (nd_account_id c =? account_id)%N
  then mthrow (rpc_bad_args (lit "draft does not belong to account"))
  else
    let! out := mlift (draft_recipients c) in
    let! port := mlift (ok_or (u16_of (acc_smtp_port account)) (rpc_bad_args (lit "bad smtp_port"))) in
    let! credential := credential_for_account account in
    let! uuid := on_world new_uuid in
    let message_id := lit "<" ++ uuid_to_string uuid ++ lit "@postblox.local>" in
    let! attachments := on_world (load_draft_mime_attachments draft_id) in
    let! env := on_world mime_env in
    let mime := build_mime_full env
      (mkMimeBuildOptions (acc_email account) (og_to out) (og_cc out) (unwrap_or [] (nd_subject c))
         (nd_text_body c) (nd_html_body c) message_id attachments
         (mkReplyHeaders (nd_in_reply_to c) (nd_references_header c))) in
    mmap_err map_smtp_error (on_wire (smtp_submit (mkSmtpSubmitRequest
      (mkSmtpServer (acc_smtp_host account) port (acc_smtp_use_tls account) (acc_smtp_starttls account))
      (acc_email account) credential (acc_email account) (og_recipients out) (as_bytes mime))));!
    on_world (drop_sent_draft account_id draft_id);!
    on_world (audit_actor actor (lit "message.send") (Some (uuid_to_string draft_id))
      (json [(lit "account_id", id_json account_id); (lit "message_id", VString message_id);
             (lit "attachment_count", VNumber (NInt (Z.of_nat (List.length attachments))))]));!
    mret_M (json [(lit "ok", VBool true); (lit "message_id", VString message_id)]).

(** ** Network requests *)

Definition role_for (name : str) : FolderRole :=
  let named l := existsb (str_eqb (to_ascii_uppercase name)) l in
  if named [lit "INBOX"] then RoleInbox
  else if named [lit "SENT"; lit "SENT ITEMS"; lit "[GMAIL]/SENT MAIL"] then RoleSent
  else if named [lit "DRAFTS"; lit "[GMAIL]/DRAFTS"] then RoleDrafts
  else if named [lit "TRASH"; lit "DELETED ITEMS"; lit "[GMAIL]/TRASH"] then RoleTrash
  else if named [lit "ARCHIVE"] then RoleArchive
  else if named [lit "ALL MAIL"; lit "[GMAIL]/ALL MAIL"] then RoleAll
  else if named [lit "SPAM"; lit "JUNK"; lit "[GMAIL]/SPAM"] then RoleSpam
  else if named [lit "STARRED"; lit "[GMAIL]/STARRED"] then RoleStarred
  else RoleCustom.

Fixpoint upsert_listed (account_id : Id) (l : list FolderInfo) : M World RpcError unit :=
  match l with
  | [] => mret_M tt
  | f :: rest =>
      best_effort (folders_upsert (mkNewFolder account_id (fi_name f) (fi_delimiter f)
                                     (role_for (fi_name f)) (fi_selectable f)));!
      upsert_listed account_id rest
  end.

Definition test_login_credential (account : Account) (args : value)
    : M (Daemon S) RpcError MailCredential :=
  match acc_auth_kind account with
  | AuthPassword =>
      let! password := mlift (ok_or (vget args (lit "password") ≫= as_str)
                                (rpc_bad_args (lit "missing 'password'"))) in
      mret_M (CredPassword password)
  | OAuth2Google => credential_for_account account
  end.

Definition op_account_test_login (args : value) : handler :=
  let! account_id := mlift (parse_id args (lit "account_id")) in
  let! account := get_account account_id in
  let! credential := test_login_credential account args in
  let! port := mlift (map_err (fun _ => rpc_bad_args (lit "bad imap_port")) (port_u16 (acc_imap_port account))) in
  let! folders := mmap_err (fun e => match e with
                                     | ImapWindow.Auth m => mkRpcError (lit "auth_failed") m
                                     | other => rpc_internal (imap_error_text other)
                                     end)
                    (outside (fun n => test_login n (acc_imap_host account) port (acc_email account) credential)) in
  on_world (upsert_listed account_id folders);!
  on_world (audit (lit "account.test_login") (Some (uuid_to_string account_id))
              (json [(lit "folders", VNumber (NInt (Z.of_nat (List.length folders))))]));!
  mret_M (json [(lit "ok", VBool true);
                (lit "folders", VArray (map (fun f => VString (fi_name f)) folders))]).

Definition sync_error_text (e : SyncError) : str :=
  match e with
  | SyncImap e => lit "imap: " ++ imap_error_text e
  | SyncDb e => lit "db: " ++ db_error_text e
  | SyncAttachment e => lit "attachment: " ++ attachment_error_text e
  | UnknownAccount => lit "unknown account"
  | UnknownFolder f => lit "unknown folder '" ++ f ++ lit "'"
  | MissingCredentials => lit "missing credentials for account"
  | CredentialError m => lit "credential resolution failed: " ++ m
  | OutOfFuel => []
  end.

Definition map_sync_error (e : SyncError) : RpcError :=
  match e with
  | SyncImap (ImapWindow.Auth m) => mkRpcError (lit "auth_failed") m
  | UnknownAccount => rpc_bad_args (lit "unknown account_id")
  | UnknownFolder _ => rpc_bad_args (sync_error_text e)
  | MissingCredentials => mkRpcError (lit "missing_secret") (lit "no stored secret")
  | other => rpc_internal (sync_error_text other)
  end.

Definition publish_sync_state {E} (account_id : Id) (state : SyncState) (last_error : option str)
    : M World E unit :=
  publish SyncStateTopic (sync_state_event account_id state last_error).

Definition arg_str (args : value) (key : str) : result RpcError str :=
  ok_or (vget args key ≫= as_str) (rpc_bad_args (lit "missing '" ++ key ++ lit "'")).

Definition op_account_sync_folder (args : value) : handler :=
  let! account_id := mlift (parse_id args (lit "account_id")) in
  let! folder_name := mlift (arg_str args (lit "folder_name")) in
  let! account := get_account account_id in
  let! credential := credential_for_account account in
  on_world (
    publish_sync_state account_id StSyncing None;!
    let! outcome := (fun w => let '(r, w') := reconcile_folder root fuel account_id folder_name credential w in
                              (Ok r, w')) in
    match outcome with
    | Ok report =>
        publish_sync_state account_id StIdle None;!
        audit (lit "account.sync_folder") (Some (uuid_to_string account_id))
          (json [(lit "folder_name", VString folder_name);
                 (lit "inserted", VNumber (NInt (rep_inserted report)));
                 (lit "wiped", VNumber (NInt (rep_wiped report)))]);!
        mret_M (report_to_json report)
    | Err e =>
        publish_sync_state account_id StError (Some (sync_error_text e));!
        mthrow (map_sync_error e)
    end).

Definition ensure_account_folder (account_id : Id) (folder_name : str) : M (Daemon S) RpcError unit :=
  get_account account_id;!
  let! folder := on_world (rpc (lit "folders::get_by_name") (folders_get_by_name account_id folder_name)) in
  match folder with
  | None => mthrow (rpc_bad_args (lit "unknown folder '" ++ folder_name ++ lit "'"))
  | Some _ => mret_M tt
  end.

(** [WorkerManager::start] announces the worker's first state on the hub. *)
Definition manager_start_op (key : WorkerKey) (credential : MailCredential) : M (Daemon S) RpcError bool :=
  let! idle := (fun d => (Ok (has_idle (dm_manager d)), d)) in
  let! started := on_manager (manager_start key credential) in
  (if started : bool then on_world (publish_sync_state key.1 (if idle : bool then StIdle else StPolling) None)
   else mret_M tt);!
  mret_M started.

Definition op_account_start_sync (args : value) : handler :=
  let! account_id := mlift (parse_id args (lit "account_id")) in
  let! folder_name := mlift (arg_str args (lit "folder_name")) in
  ensure_account_folder account_id folder_name;!
  let! account := get_account account_id in
  let! credential := credential_for_account account in
  let! started := manager_start_op (account_id, folder_name) credential in
  on_world (audit (lit "account.start_sync") (Some (uuid_to_string account_id))
    (json [(lit "folder_name", VString folder_name); (lit "started", VBool started)]));!
  mret_M (json [(lit "ok", VBool true); (lit "started", VBool started)]).

Definition op_account_stop_sync (args : value) : handler :=
  let! account_id := mlift (parse_id args (lit "account_id")) in
  let! folder_name := mlift (arg_str args (lit "folder_name")) in
  let! stopped := on_manager (manager_stop (account_id, folder_name)) in
  on_world (audit (lit "account.stop_sync") (Some (uuid_to_string account_id))
    (json [(lit "folder_name", VString folder_name); (lit "stopped", VBool stopped)]));!
  mret_M (json [(lit "ok", VBool true); (lit "stopped", VBool stopped)]).

(** ** Secrets *)

Definition secrets_call {A} (ctx : str) (m : M S SecretError A) : M (Daemon S) RpcError A :=
  mmap_err (fun e => rpc_internal_ctx ctx (secret_error_text e)) (on_secrets m).

Definition op_account_set_secret (args : value) : handler :=
  let! account_id := mlift (parse_id args (lit "account_id")) in
  let! password := mlift (arg_str args (lit "password")) in
  if is_empty password then mthrow (rpc_bad_args (lit "'password' must be non-empty"))
  else
    let! account := get_account account_id in
    match acc_auth_kind account with
    | AuthPassword =>
        secrets_call (lit "secrets::put") (ss_put account_id password);!
        on_world (rpc (lit "accounts::set_secret_ref")
                    (accounts_set_secret_ref account_id (Some (ss_secret_ref account_id))));!
        on_world (audit (lit "account.set_secret") (Some (uuid_to_string account_id)) (json []));!
        mret_M (json [(lit "ok", VBool true)])
    | OAuth2Google => mthrow (rpc_bad_args (lit "account.set_secret only supports password accounts"))
    end.

Definition op_account_delete_secret (args : value) : handler :=
  let! account_id := mlift (parse_id args (lit "account_id")) in
  secrets_call (lit "secrets::delete") (ss_delete account_id);!
  on_world (rpc (lit "accounts::set_secret_ref") (accounts_set_secret_ref account_id None));!
  on_world (audit (lit "account.delete_secret") (Some (uuid_to_string account_id)) (json []));!
  mret_M (json [(lit "ok", VBool true)]).

(** ** OAuth *)

Definition ensure_oauth_google_account (account_id : Id) : M (Daemon S) RpcError unit :=
  let! account := get_account account_id in
  match acc_auth_kind account with
  | OAuth2Google => mret_M tt
  | AuthPassword => mthrow (rpc_bad_args (lit "account auth_kind must be oauth2_google"))
  end.

Fixpoint parse_scopes (values : list value) : result RpcError (list str) :=
  match values with
  | [] => Ok []
  | v :: rest =>
      s ← ok_or (as_str v) (rpc_bad_args (lit "'scopes' must contain strings"));
      let scope := trim s in
      if is_empty scope then Err (rpc_bad_args (lit "'scopes' must not contain empty strings"))
      else more ← parse_scopes rest; Ok (scope :: more)
  end.

Definition parse_optional_scopes (args : value) : result RpcError (option (list str)) :=
  match vget args (lit "scopes") with
  | None => Ok None
  | Some v =>
      values ← ok_or (as_array v) (rpc_bad_args (lit "'scopes' must be an array"));
      scopes ← parse_scopes values;
      Ok (Some scopes)
  end.

Definition ensure_requested_scopes_are_gmail (args : value) : result RpcError unit :=
  scopes ← parse_optional_scopes args;
  match scopes with
  | None => Ok tt
  | Some l => if bool_decide (l = [GMAIL_SCOPE]) then Ok tt
              else Err (rpc_bad_args (lit "only the Gmail OAuth scope is supported"))
  end.

Definition op_oauth_google_auth_url (args : value) : handler :=
  let! account_id := mlift (parse_id args (lit "account_id")) in
  let! client_id := mlift (parse_str args (lit "client_id")) in
  let! redirect_uri := mlift (parse_str args (lit "redirect_uri")) in
  let! state := mlift (parse_str args (lit "state")) in
  ensure_oauth_google_account account_id;!
  mlift (ensure_requested_scopes_are_gmail args);!
  let! url := mlift (map_err map_oauth_error (authorization_url (gmail client_id [] redirect_uri) state)) in
  on_world (audit (lit "oauth.google.auth_url") (Some (uuid_to_string account_id)) (json []));!
  mret_M (json [(lit "authorization_url", VString url)]).

Definition op_oauth_google_complete (args : value) : handler :=
  let! account_id := mlift (parse_id args (lit "account_id")) in
  let! client_id := mlift (parse_str args (lit "client_id")) in
  let! client_secret := mlift (parse_str args (lit "client_secret")) in
  let! redirect_uri := mlift (parse_str args (lit "redirect_uri")) in
  let! code := mlift (parse_str args (lit "code")) in
  let! state := mlift (parse_str args (lit "state")) in
  let! expected_state := mlift (parse_str args (lit "expected_state")) in
  if negb (str_eqb state expected_state)
  then mthrow (rpc_bad_args (lit "'state' does not match 'expected_state'"))
  else
    ensure_oauth_google_account account_id;!
    mlift (ensure_requested_scopes_are_gmail args);!
    let config := gmail client_id client_secret redirect_uri in
    let! now := on_world utc_now in
    let! token := mmap_err map_oauth_error (outside (fun n => exchange_code n now config code)) in
    mmap_err map_oauth_error (on_secrets (store_stored_oauth account_id (mkStoredGoogleOAuth config token)));!
    on_world (rpc (lit "accounts::set_secret_ref")
                (accounts_set_secret_ref account_id (Some (ss_secret_ref account_id))));!
    on_world (audit (lit "oauth.google.complete") (Some (uuid_to_string account_id)) (json []));!
    mret_M (json [(lit "ok", VBool true); (lit "expires_at", VString (to_rfc3339 (expires_at token)))]).

(** ** Dispatch *)

(** The handlers of this file and of [Daemon]. *)
Definition service_op (op : Op) (args : value) : option handler :=
  match op with
  | Op.AttachmentPreview => Some (op_attachment_preview args)
  | DraftCreate => Some (op_draft_create args)
  | Op.DraftUpdate => Some (op_draft_update args)
  | DraftDelete => Some (op_draft_delete args)
  | DraftList => Some (op_draft_list args)
  | DraftGet => Some (op_draft_get base64 args)
  | Op.AttachmentExport => Some (op_attachment_export args)
  | MessagePrepareReply => Some (op_message_prepare_reply args)
  | MessagePrepareForward => Some (op_message_prepare_forward args)
  | AttachmentFetchForForward => Some (op_attachment_fetch_for_forward args)
  | AttachmentFetchForForwardBatch => Some (op_attachment_fetch_for_forward_batch args)
  | MessageSend => Some (op_message_send args)
  | AccountTestLogin => Some (op_account_test_login args)
  | AccountSyncFolder => Some (op_account_sync_folder args)
  | AccountStartSync => Some (op_account_start_sync args)
  | AccountStopSync => Some (op_account_stop_sync args)
  | AccountSetSecret => Some (op_account_set_secret args)
  | AccountDeleteSecret => Some (op_account_delete_secret args)
  | OauthGoogleAuthUrl => Some (op_oauth_google_auth_url args)
  | OauthGoogleComplete => Some (op_oauth_google_complete args)
  | _ => None
  end.

(** [Dispatcher::dispatch]. *)
Definition daemon_dispatch (op : Op) (args : value) : handler :=
  match dispatch addrs_text base64 op args with
  | Some m => on_world m
  | None =>
      match service_op op args with
      | Some m => m
      | None => mthrow (rpc_unknown_op (op_as_str op))
      end
  end.

(** Every operation has its handler: the last case above never occurs. *)
Lemma dispatch_total op args :
  (exists m, dispatch addrs_text base64 op args = Some m /\ service_op op args = None) \/
  (exists m, dispatch addrs_text base64 op args = None /\ service_op op args = Some m).
Proof. destruct op; cbn; eauto. Qed.
End Handlers.
