(* ===== verification/DaemonRun.v ===== *)
(** * What the handlers do to the store

    The invariant of [DispatcherProps] carried through the statements that only
    the handlers of [Daemon] and [DaemonOps], and the sync workers, execute:
    drafts, their attachments and transactions, files, and reconciliation. *)

From S2P Require Import Prelude RustStr Json SqlQuery Op IpcProtocol McpGates McpTools McpModels MailParser Utf8 MailThreading MailReply MailBuilder ImapWindow DbCore DbMail DbInv DbDrafts Attachments AttachmentFiles Auth Smtp Secrets OAuth Reconciler Worker Manager Search DbMcp Dispatcher DispatcherProps Daemon DaemonOps.
#[local] Open Scope bool_scope.

(** ** Statements that leave approvals, audit log and draft attachments alone *)

Lemma leaves_map_err {E F A} (f : E -> F) (m : M World E A) : leaves m -> leaves (mmap_err f m).
Proof. intros Hm w r w'. unfold mmap_err. destruct (m w) as [r1 w1] eqn:E1. intros [= _ <-]. by eapply Hm. Qed.
Lemma leaves_lift {E A} (r : result E A) : leaves (mlift r).
Proof. intros w r' w' [= _ <-]. by apply quiet_same. Qed.

(** Operations on files and services change no table and announce nothing. *)
Definition keeps_db {E A} (m : M World E A) : Prop :=
  forall w r w', m w = (r, w') -> db w' = db w /\ next_uuid w' = next_uuid w /\ events w' = events w.
Lemma keeps_db_leaves {E A} (m : M World E A) : keeps_db m -> leaves m.
Proof. intros Hm w r w' (Hd & Hn & He)%Hm. apply quiet_same; [done|lia|done]. Qed.
Lemma keeps_db_inv {E A} (m : M World E A) : keeps_db m -> preserves store_inv m.
Proof. intros Hm w r w' Hw (Hd & Hn & _)%Hm. unfold store_inv in *. by rewrite Hd, Hn. Qed.
#[export] Hint Resolve leaves_map_err leaves_lift : daemon.

Lemma leaves_drafts_create new : leaves (drafts_create new).
Proof. unfold drafts_create. leaves_go; leaves_stmt. Qed.
Lemma leaves_drafts_update id p : leaves (drafts_update id p).
Proof. unfold drafts_update. leaves_go; leaves_stmt. Qed.
Lemma leaves_drafts_delete id : leaves (drafts_delete id).
Proof. leaves_stmt. Qed.
Lemma leaves_delete_all id : leaves (draft_attachments_delete_all_for_draft id).
Proof. leaves_stmt. Qed.
Lemma leaves_secret_ref id r : leaves (accounts_set_secret_ref id r).
Proof. unfold accounts_set_secret_ref. leaves_go; leaves_stmt. Qed.
Lemma leaves_update_sync id a b c : leaves (accounts_update_sync id a b c).
Proof. unfold accounts_update_sync. leaves_go; leaves_stmt. Qed.
Lemma leaves_uid_state id a b c : leaves (folders_update_uid_state id a b c).
Proof. unfold folders_update_uid_state. leaves_go; leaves_stmt. Qed.
Lemma leaves_messages_delete id : leaves (messages_delete id).
Proof. unfold messages_delete. leaves_go; leaves_stmt. Qed.
Lemma leaves_wipe id : leaves (messages_delete_all_in_folder id).
Proof. unfold messages_delete_all_in_folder. leaves_go; leaves_stmt. Qed.
Lemma leaves_messages_create new : leaves (messages_create new).
Proof. unfold messages_create. leaves_go; leaves_stmt. Qed.
Lemma leaves_threads_create a e s : leaves (threads_create a e s).
Proof. unfold threads_create. leaves_go; leaves_stmt. Qed.
Lemma leaves_touch id t : leaves (threads_touch_last_message_at id t).
Proof. unfold threads_touch_last_message_at. leaves_go; leaves_stmt. Qed.
Lemma leaves_refresh id : leaves (threads_refresh_aggregates id).
Proof. unfold threads_refresh_aggregates. leaves_go; leaves_stmt. Qed.
Lemma leaves_existing f l : leaves (messages_existing_uids f l).
Proof. unfold messages_existing_uids. leaves_go. Qed.
Lemma leaves_ids l : leaves (messages_message_ids_by_threads l).
Proof. unfold messages_message_ids_by_threads. leaves_go. Qed.
Lemma leaves_attachments_create new : leaves (attachments_create new).
Proof. unfold attachments_create. leaves_go; leaves_stmt. Qed.
#[export] Hint Resolve leaves_drafts_create leaves_drafts_update leaves_drafts_delete leaves_delete_all
  leaves_secret_ref leaves_update_sync leaves_uid_state leaves_messages_delete leaves_wipe
  leaves_messages_create leaves_threads_create leaves_touch leaves_refresh leaves_existing leaves_ids
  leaves_attachments_create : daemon.

(** ** Reconciliation *)

Section Reconcile.
Context {MP : MessageParser} {UC : UnicodeCase} {TP : TextParsers} {IS : ImapSync}.
Context (root : str).

Lemma leaves_io {A} (run : World -> result str A * World) :
  (forall w r w', run w = (r, w') -> db w' = db w /\ next_uuid w' = next_uuid w /\ events w' = events w) ->
  leaves (io_op run).
Proof.
  intros Hr. apply keeps_db_leaves. intros w r w'. unfold io_op.
  destruct (faults w) as [|[e|] l]; [|by intros [= <- <-]|];
    (destruct (run _) as [[a|x] w1] eqn:E1; apply Hr in E1; by intros [= _ <-]).
Qed.

Lemma leaves_write_new p b : leaves (write_new_file p b).
Proof.
  unfold write_new_file, create_new, write_bytes. leaves_go; apply leaves_io; intros w r w'; repeat case_match;
    by intros [= _ <-].
Qed.
Hint Resolve leaves_write_new : daemon.

Lemma leaves_persist_loop id i l : leaves (persist_loop root id i l).
Proof. revert i. induction l as [|a l IH]; intros i; cbn [persist_loop]; leaves_go. Qed.
Hint Resolve leaves_persist_loop : daemon.

Lemma leaves_persist_or_rollback row atts : leaves (persist_or_rollback root row atts).
Proof.
  intros w r w'. unfold persist_or_rollback.
  destruct (persist_parsed_for_message root _ atts w) as [[x|e] w1] eqn:Ep;
    (assert (leaves (persist_parsed_for_message root (msg_id row) atts)) as Hp
       by (unfold persist_parsed_for_message; leaves_go)); apply Hp in Ep.
  - by intros [= _ <-].
  - destruct (messages_delete (msg_id row) w1) as [r2 w2] eqn:Ed. intros [= _ <-].
    apply leaves_messages_delete in Ed. by eapply quiet_trans.
Qed.
Hint Resolve leaves_persist_or_rollback : daemon.

Lemma leaves_date {E} d : leaves (@date_or_now E d).
Proof. unfold date_or_now. leaves_go. Qed.
Hint Resolve leaves_date : daemon.

Lemma leaves_views bt l : leaves (thread_views bt l).
Proof. induction l as [|t l IH]; cbn [thread_views]; leaves_go. Qed.
Hint Resolve leaves_views : daemon.

Lemma leaves_ingest_message a f al m st : leaves (ingest_message root a f al m st).
Proof. unfold ingest_message, place_in_thread. leaves_go. Qed.
Hint Resolve leaves_ingest_message : daemon.

Lemma leaves_ingest_all a f al l st : leaves (ingest_all root a f al l st).
Proof. revert st. induction l as [|m l IH]; intros st; cbn [ingest_all]; leaves_go. Qed.
Hint Resolve leaves_ingest_all : daemon.

Lemma leaves_imap h p u c f n : leaves (imap_sync_folder h p u c f n).
Proof. apply keeps_db_leaves. intros w r w'. unfold imap_sync_folder. case_match; by intros [= _ <-]. Qed.
Hint Resolve leaves_imap : daemon.

Lemma leaves_window_loop fuel fetch a f server ls st :
  (forall n, leaves (fetch n)) -> leaves (window_loop root fuel fetch a f server ls st).
Proof.
  intros Hf. revert server ls st.
  induction fuel as [|k IH]; intros server ls st; cbn [window_loop]; unfold ingest_window; leaves_go.
Qed.
Hint Resolve leaves_window_loop : daemon.

Lemma leaves_reconcile fuel a name c : leaves (reconcile_folder root fuel a name c).
Proof.
  unfold reconcile_folder, accounts_get, folders_get_by_name, load_thread_refs, threads_list_recent.
  leaves_go.
Qed.
End Reconcile.
#[export] Hint Resolve leaves_imap leaves_reconcile : daemon.

(** ** Files of the user *)

Section Files.
Context {IO : HostIo}.

Lemma keeps_db_ret {E A} (a : A) : keeps_db (mret_M a : M World E A).
Proof. by intros w r w' [= _ <-]. Qed.
Lemma keeps_db_bind {E A B} (m : M World E A) (k : A -> M World E B) :
  keeps_db m -> (forall a, keeps_db (k a)) -> keeps_db (mbind_M k m).
Proof.
  intros Hm Hk w r w' [(a & w1 & H1 & H2)|(e & H1 & _)]%bind_inv; apply Hm in H1 as (<- & <- & <-); [|done].
  by eapply Hk.
Qed.
Lemma keeps_db_lift {E A} (r : result E A) : keeps_db (mlift r).
Proof. by intros w r' w' [= _ <-]. Qed.
Lemma keeps_db_map_err {E F A} (f : E -> F) (m : M World E A) : keeps_db m -> keeps_db (mmap_err f m).
Proof. intros Hm w r w'. unfold mmap_err. destruct (m w) as [r1 w1] eqn:E1. intros [= _ <-]. by eapply Hm. Qed.
Lemma keeps_db_query {A} (f : Db -> A) : keeps_db (query f).
Proof. intros w r w' H. pose proof (statement_events _ _ _ _ H). by apply query_cases in H as [-> ->]. Qed.
Lemma keeps_db_fs {A} fail (run : World -> result IoError A * World) :
  (forall k w, db (fail k w) = db w /\ next_uuid (fail k w) = next_uuid w /\ events (fail k w) = events w) -> keeps_db run ->
  keeps_db (fs_op fail run).
Proof.
  intros Hf Hr w r w'. unfold fs_op.
  destruct (faults w) as [|[e|] l]; [intros H; by apply Hr in H| |intros H; by apply Hr in H].
  intros [= _ <-]. by destruct (Hf (written_before e) (with_faults l w)) as (-> & -> & ->).
Qed.

Lemma keeps_db_read p : keeps_db (fs_read p).
Proof. apply keeps_db_fs; [done|]. by intros w r w' [= _ <-]. Qed.
Lemma keeps_db_step : keeps_db fs_step.
Proof. apply keeps_db_fs; [done|]. by intros w r w' [= _ <-]. Qed.
Lemma keeps_db_export a dest : keeps_db (export_attachment a dest).
Proof.
  unfold export_attachment, fs_create_new, fs_write_open.
  repeat first [apply keeps_db_read | apply keeps_db_step | apply keeps_db_ret | apply keeps_db_bind; [|intros]
               | apply keeps_db_fs; [done|]].
  - intros w r w'. case_match; by intros [= _ <-].
  - by intros w r w' [= _ <-].
Qed.
Lemma keeps_db_preview a : keeps_db (preview_attachment a).
Proof.
  unfold preview_attachment. case_match; [apply keeps_db_ret|].
  repeat first [apply keeps_db_read | apply keeps_db_step | apply keeps_db_ret | apply keeps_db_bind; [|intros]].
Qed.
Lemma keeps_db_cached p : keeps_db (read_cached p).
Proof.
  intros w r w'. unfold read_cached. destruct (fs_read p w) as [[b|e] w1] eqn:Er;
    apply keeps_db_read in Er as (<- & <- & <-); by intros [= _ <-].
Qed.
Lemma keeps_db_persist p b : keeps_db (persist_refetched_bytes p b).
Proof.
  unfold persist_refetched_bytes, fs_write. case_match; [apply keeps_db_ret|].
  apply keeps_db_bind; [case_match; [apply keeps_db_step|apply keeps_db_ret]|]. intros _.
  apply keeps_db_fs; [done|]. by intros w r w' [= _ <-].
Qed.
Lemma keeps_db_best_effort {E F A} (m : M World E A) : keeps_db m -> keeps_db (@best_effort E F A m).
Proof.
  intros Hm w r w'. unfold best_effort. destruct (m w) as [r1 w1] eqn:E1. intros [= _ <-]. by eapply Hm.
Qed.
End Files.

Lemma leaves_best_effort {E F A} (m : M World E A) : leaves m -> leaves (@best_effort E F A m).
Proof.
  intros Hm w r w'. unfold best_effort. destruct (m w) as [r1 w1] eqn:E1. intros [= _ <-]. by eapply Hm.
Qed.
Lemma best_effort_inv {E F A} (P : World -> Prop) (m : M World E A) :
  preserves P m -> preserves P (@best_effort E F A m).
Proof.
  intros Hm w r w' Hw. unfold best_effort. destruct (m w) as [r1 w1] eqn:E1. intros [= _ <-]. by eapply Hm.
Qed.
#[export] Hint Resolve keeps_db_leaves leaves_best_effort : daemon.
#[export] Hint Resolve keeps_db_inv : store.
#[export] Hint Resolve keeps_db_export keeps_db_preview keeps_db_cached keeps_db_persist : store daemon.
#[export] Hint Resolve best_effort_inv : store.

(** ** Attaching files to drafts *)

Definition prepared_bytes (l : list PreparedDraftAttachment) : Z :=
  foldr (fun a n => Z.of_nat (List.length (prep_content a)) + n)%Z 0%Z l.

Lemma prepared_bytes_nonneg l : (0 <= prepared_bytes l)%Z.
Proof. unfold prepared_bytes. induction l; cbn; lia. Qed.

Lemma sum_sizes_app l l' : sum_sizes (l ++ l') = (sum_sizes l + sum_sizes l')%Z.
Proof. unfold sum_sizes. induction l; cbn; lia. Qed.

(** Creating one attachment adds its row, or changes nothing. *)
Lemma attachment_create_effect new w r w' :
  draft_attachments_create new w = (r, w') ->
  next_uuid w' = (next_uuid w + 1)%N /\ events w' = events w /\
  (db w' = db w \/ (exists row : DraftAttachment,
     db w' = set_draft_attachments (draft_attachments (db w) ++ [(row, nda_content new)]) (db w) /\
     da_draft_id row = nda_draft_id new /\ da_size_bytes row = Z.of_nat (List.length (nda_content new)))).
Proof.
  unfold draft_attachments_create, mbind_M at 1, new_uuid, mbind_M at 1, sql_now, mbind_M at 1, utc_now,
    mret_M at 1.
  intros [([] & w1 & Hs & Hk)|(e & Hs & ->)]%bind_inv; pose proof (statement_events _ _ _ _ Hs) as He;
    apply statement_cases in Hs as [Hn Hs]; cbn in Hn, Hs, He.
  - destruct Hs as [([] & _ & Hd)|(e & [=] & _)].
    destruct (negb _); [done|]. injection Hd as Hd.
    assert (next_uuid w' = next_uuid w1 /\ events w' = events w1 /\ db w' = db w1) as (-> & -> & ->).
    { apply bind_inv in Hk as [(row & w2 & Hq & Hr)|(e & Hq & _)]; apply keeps_db_query in Hq as (<- & <- & <-);
        [|done]. destruct row; by injection Hr as _ <-. }
    split; [done|]. split; [done|]. right. rewrite <- Hd. by eexists.
  - destruct Hs as [(a & [=] & _)|(e' & _ & Hd)]. rewrite Hd. auto.
Qed.

Lemma attachment_create_Ok new w row0 w' :
  draft_attachments_create new w = (Ok row0, w') ->
  exists row : DraftAttachment,
     db w' = set_draft_attachments (draft_attachments (db w) ++ [(row, nda_content new)]) (db w) /\
     da_draft_id row = nda_draft_id new /\ da_size_bytes row = Z.of_nat (List.length (nda_content new)).
Proof.
  unfold draft_attachments_create. intros (id & w1 & [= <- <-] & H)%mbind_M_inv_Ok.
  apply mbind_M_inv_Ok in H as (now & w2 & [= <- <-] & H). apply mbind_M_inv_Ok in H as (u & w3 & Hs & H).
  apply statement_cases in Hs as [_ [(x & _ & Hd)|(e & [=] & _)]]. destruct (negb _); [done|]. injection Hd as _ Hd.
  apply mbind_M_inv_Ok in H as (found & w4 & Hq & H). apply keeps_db_query in Hq as (Hq & _).
  destruct found; [|done]. injection H as _ <-. rewrite Hq, <- Hd. by eexists.
Qed.

(** The sizes of the drafts, row by row. *)
Lemma attached_bytes_snoc id (row : DraftAttachment) content d :
  attached_bytes id (set_draft_attachments (draft_attachments d ++ [(row, content)]) d) =
  (attached_bytes id d + if (da_draft_id row =? id)%N then da_size_bytes row else 0)%Z.
Proof.
  unfold attached_bytes. cbn [draft_attachments set_draft_attachments].
  rewrite List.filter_app, sum_sizes_app. f_equal. cbn. unfold of_draft. cbn. destruct (_ =? _)%N; cbn; lia.
Qed.
Lemma attached_after_create id new w r w' :
  draft_attachments_create new w = (r, w') ->
  (attached_bytes id (db w) <= attached_bytes id (db w') <=
   attached_bytes id (db w) + if (nda_draft_id new =? id)%N then Z.of_nat (List.length (nda_content new)) else 0)%Z.
Proof.
  intros (_ & _ & [->|(row & -> & <- & Hsz)])%attachment_create_effect; [destruct (_ =? _)%N; lia|].
  rewrite attached_bytes_snoc, Hsz. destruct (_ =? _)%N; lia.
Qed.
Lemma attached_after_clear id draft_id w n w' :
  draft_attachments_delete_all_for_draft draft_id w = (Ok n, w') ->
  attached_bytes id (db w') = if (draft_id =? id)%N then 0%Z else attached_bytes id (db w).
Proof.
  intros [_ [(x & _ & [= _ Hd])|(e & [=] & _)]]%statement_cases.
  unfold attached_bytes. rewrite <- Hd. cbn [draft_attachments set_draft_attachments]. clear Hd.
  destruct (N.eqb_spec draft_id id) as [<-|Hne].
  - replace (List.filter _ _) with (@nil (DraftAttachment * list N)); [done|].
    induction (draft_attachments (db w)) as [|y ys IH]; cbn; [done|].
    destruct (of_draft draft_id y) eqn:Ey; cbn; [done|]. by rewrite Ey.
  - f_equal. induction (draft_attachments (db w)) as [|y ys IH]; cbn; [done|]. rewrite <- IH.
    destruct (of_draft draft_id y) eqn:Ey; cbn; [|done]. destruct (of_draft id y) eqn:Ey'; [|done].
    unfold of_draft in *. brefl. congruence.
Qed.
Lemma attached_quiet id w w' :
  store_inv w -> quiet_change w w' -> (attached_bytes id (db w') <= attached_bytes id (db w))%Z.
Proof. intros Hw [_ _ Hs _ _]. unfold attached_bytes. apply sum_sizes_sublist; [by apply store_sizes|done]. Qed.

Section Drafts.
Context {TP : TextParsers} {ET : ErrorTexts} (w0 : World).

Lemma run_inv_create_attachment new w r w' :
  run_inv w0 w ->
  (draft_cap (db w0) -> (attached_bytes (nda_draft_id new) (db w) + Z.of_nat (List.length (nda_content new))
              <= MAX_DRAFT_ATTACHMENT_BYTES)%Z) ->
  draft_attachments_create new w = (r, w') ->
  run_inv w0 w' /\
  (attached_bytes (nda_draft_id new) (db w') <=
   attached_bytes (nda_draft_id new) (db w) + Z.of_nat (List.length (nda_content new)))%Z.
Proof.
  intros Hi Hb Hc. pose proof (draft_attachments_create_inv new _ _ _ (run_store _ _ Hi) Hc) as Hs.
  apply attachment_create_effect in Hc as (Hn & He & [Hd|(row & Hd & Hid & Hsz)]).
  - rewrite Hd. split; [|lia]. apply (run_inv_quiet w0 w); [done..|]. apply quiet_same; [done|lia|done].
  - assert (Hsum : forall id, attached_bytes id (db w') =
      (attached_bytes id (db w) +
       if (nda_draft_id new =? id)%N then Z.of_nat (List.length (nda_content new)) else 0)%Z).
    { intros id. by rewrite Hd, attached_bytes_snoc, Hid, Hsz. }
    split; [|rewrite Hsum, N.eqb_refl; lia].
    destruct Hi as [_ Ha Hl Hcap Hids Hev]. constructor; [done|unfold table; by rewrite Hd|by rewrite Hd| | |].
    + intros Hc id. rewrite Hsum. destruct (N.eqb_spec (nda_draft_id new) id) as [<-|]; [by apply Hb|].
      rewrite Z.add_0_r. by apply Hcap.
    + intros Hc. unfold approvals_ok. rewrite Hd, Hn. eapply ids_ok_mono; [|by apply Hids]. lia.
    + intros Hc v Hv. rewrite He in Hv. unfold table. rewrite Hd. by apply Hev.
Qed.

Lemma run_inv_create_attachments id l w r w' :
  run_inv w0 w ->
  (draft_cap (db w0) -> (attached_bytes id (db w) + prepared_bytes l <= MAX_DRAFT_ATTACHMENT_BYTES)%Z) ->
  create_draft_attachments id l w = (r, w') -> run_inv w0 w'.
Proof.
  revert w. induction l as [|a l IH]; intros w Hw Hb; cbn [create_draft_attachments].
  - by intros [= _ <-].
  - cbn in Hb. fold (prepared_bytes l) in Hb. pose proof (prepared_bytes_nonneg l).
    unfold rpc, mmap_err, mbind_M. destruct (draft_attachments_create _ w) as [[x|e] w1] eqn:Ec;
      apply run_inv_create_attachment in Ec as [H1 H2]; try done;
      try (cbn; intros Hc; specialize (Hb Hc); lia).
    + cbn in H2. apply IH; [done|]. intros Hc. specialize (Hb Hc). lia.
    + by intros [= _ <-].
Qed.

Lemma run_inv_replace id l :
  (prepared_bytes l <= MAX_DRAFT_ATTACHMENT_BYTES)%Z ->
  preserves (run_inv w0) (replace_draft_attachments id l).
Proof.
  intros Hl w r w' Hw. unfold replace_draft_attachments, rpc.
  intros [(n & w1 & H1 & H2)|(e & H1 & _)]%bind_inv.
  - apply mmap_err_Ok in H1. eapply run_inv_create_attachments; [| |exact H2].
    + by eapply (run_inv_leaves w0 _ (draft_attachments_delete_all_inv id)); auto with daemon.
    + intros _. rewrite (attached_after_clear _ _ _ _ _ H1), N.eqb_refl. lia.
  - unfold mmap_err in H1. destruct (draft_attachments_delete_all_for_draft id w) as [r1 w1] eqn:Ed.
    injection H1 as _ <-. by eapply (run_inv_leaves w0 _ (draft_attachments_delete_all_inv id)); auto with daemon.
Qed.

Lemma run_inv_attach_or_delete id l :
  (prepared_bytes l <= MAX_DRAFT_ATTACHMENT_BYTES)%Z ->
  preserves (run_inv w0) (attach_or_delete id l).
Proof.
  intros Hl w r w' Hw. unfold attach_or_delete.
  destruct (replace_draft_attachments id l w) as [[u|e] w1] eqn:Er;
    apply run_inv_replace in Er; try done; [by intros [= _ <-]|].
  destruct (drafts_delete id w1) as [r2 w2] eqn:Ed. intros [= _ <-].
  by eapply (run_inv_leaves w0 _ (drafts_delete_inv id)); auto with daemon.
Qed.

(** ** Transactions *)

(** Identifiers are only ever drawn, and nothing is announced. *)
Definition uuid_grows {E A} (m : M World E A) : Prop :=
  forall w r w', m w = (r, w') -> (next_uuid w <= next_uuid w')%N /\ events w' = events w.

Lemma uuid_grows_bind {E A B} (m : M World E A) (k : A -> M World E B) :
  uuid_grows m -> (forall a, uuid_grows (k a)) -> uuid_grows (mbind_M k m).
Proof.
  intros Hm Hk w r w' [(a & w1 & H1 & H2)|(e & H1 & _)]%bind_inv; apply Hm in H1 as [Hn <-]; [|done].
  apply Hk in H2 as [Hn2 <-]. split; [lia|done].
Qed.
Lemma uuid_grows_map_err {E F A} (f : E -> F) (m : M World E A) : uuid_grows m -> uuid_grows (mmap_err f m).
Proof. intros Hm w r w'. unfold mmap_err. destruct (m w) as [r1 w1] eqn:E1. intros [= _ <-]. by eapply Hm. Qed.
Lemma uuid_grows_ret {E A} (a : A) : uuid_grows (mret_M a : M World E A).
Proof. by intros w r w' [= _ <-]. Qed.
Lemma uuid_grows_statement {A} (run : Db -> result DbError (A * Db)) : uuid_grows (statement run).
Proof.
  intros w r w' H. pose proof (statement_events _ _ _ _ H). by apply statement_cases in H as [-> _].
Qed.
Lemma uuid_grows_replace id l : uuid_grows (replace_draft_attachments id l).
Proof.
  apply uuid_grows_bind; [apply uuid_grows_map_err, uuid_grows_statement|]. intros _.
  induction l as [|a l IH]; cbn [create_draft_attachments]; [apply uuid_grows_ret|].
  apply uuid_grows_bind; [|done]. apply uuid_grows_map_err.
  intros w r w' (-> & -> & _)%attachment_create_effect. split; [lia|done].
Qed.

Lemma run_inv_tx {E A} (m : M World E A) :
  uuid_grows m -> preserves (run_inv w0) m -> preserves (run_inv w0) (in_tx m).
Proof.
  intros Hn Hm w r w' Hw. unfold in_tx. destruct (m w) as [[a|e] w1] eqn:Em; intros [= <- <-].
  - by eapply Hm.
  - apply Hn in Em as [Hn' He]. apply (run_inv_quiet w0 w); [done| |by apply quiet_same].
    eapply db_ok_mono; [exact Hn'|]. by destruct Hw.
Qed.
End Drafts.
