(* ===== verification/DaemonProps.v ===== *)
(** * Properties of the whole daemon

    Every request, whichever services answer what and whichever statements fail,
    interleaved with the sync workers and the ends of their tasks: the integrity
    of the tables, the life of approvals, the audit trail, the size of drafts,
    one worker per folder, and secrets only inside TLS. *)

From stdpp Require Import relations.
From S2P Require Import Prelude RustStr Json SqlQuery Op IpcProtocol McpGates McpTools McpModels MailParser Utf8 MailThreading MailReply MailBuilder ImapWindow DbCore DbMail DbInv DbDrafts Attachments AttachmentFiles Auth Smtp Secrets OAuth Reconciler Worker Manager Search DbMcp Dispatcher DispatcherProps Daemon DaemonOps DaemonRun.
#[local] Open Scope bool_scope.

Section Daemon.
Context {S : Type} {SS : SecretStore S}.
Context {TP : TextParsers} {JC : JsonCodec} {RC : RowCodec} {ET : ErrorTexts}
        {FT : Fts} {SL : SqlLike} {SE : SqlEngine} {UC : UnicodeCase}.
Context {DC : DraftCodec} {ST : ServiceTexts} {IO : HostIo} {UF : UserFiles}
        {MP : MessageParser} {IS : ImapSync} {IA : ImapAuth} {GO : GoogleOAuth} {SM : SmtpSubmitter}.
Context (addrs_text : list str -> str) (base64 : list N -> str) (root : str) (fuel : nat).

(** ** Steps of the daemon *)

(** The daemon serves a request, a worker resolves its credentials or syncs its
    folder, or a worker's task ends (or all are stopped).  A request runs to its
    end in one step.  Handlers of the daemon run concurrently and meet in the
    database, statement by statement: where an invariant could break between two
    statements of a handler, these are steps of their own, in [DbMcp] the decision
    of an approval and in [draft_step] below the creation of a draft, the only
    handler that writes attachments of drafts outside a transaction. *)
Inductive daemon_step (d : Daemon S) : Daemon S -> Prop :=
| serves_request op args r d' :
    daemon_dispatch addrs_text base64 root fuel op args d = (r, d') -> daemon_step d d'
| worker_resolves account_id r d' :
    resolve account_id d = (r, d') -> daemon_step d d'
| worker_syncs account_id name credential r d' :
    on_world (reconcile_folder root fuel account_id name credential) d = (r, d') -> daemon_step d d'
| manager_moves m' :
    manager_step (dm_manager d) m' ->
    daemon_step d (mkDaemon (dm_world d) (dm_secrets d) (dm_wire d) m' (dm_calls d)).

(** ** The invariant *)

Section Inv.
Context (w0 : World).
(** What holds of the wire, kept by the submitter. *)
Context (wire_ok : list Transmission -> Prop).
Hypothesis submit_ok : forall req, preserves wire_ok (smtp_submit req).

Record daemon_inv (d : Daemon S) : Prop := {
  dinv_run : run_inv w0 (dm_world d);
  dinv_manager : manager_inv (dm_manager d);
  dinv_wire : wire_ok (dm_wire d);
}.

Lemma inv_on_world {E A} (m : M World E A) :
  preserves (run_inv w0) m -> preserves daemon_inv (on_world m).
Proof.
  intros Hm d r d' []. unfold on_world. destruct (m (dm_world d)) as [r1 w1] eqn:E1. intros [= _ <-].
  constructor; cbn; [by eapply Hm|done..].
Qed.
Lemma inv_on_secrets {E A} (m : M S E A) : preserves daemon_inv (on_secrets m).
Proof. intros d r d' []. unfold on_secrets. destruct (m _). by intros [= _ <-]. Qed.
Lemma inv_outside {E A} (f : nat -> result E A) : preserves daemon_inv (outside f).
Proof. intros d r d' []. by intros [= _ <-]. Qed.
Lemma inv_submit req : preserves daemon_inv (on_wire (smtp_submit req)).
Proof.
  intros d r d' []. unfold on_wire. destruct (smtp_submit req (dm_wire d)) as [r1 l1] eqn:E1.
  intros [= _ <-]. constructor; cbn; [done..|]. by eapply submit_ok.
Qed.
Lemma inv_on_manager {E A} (f : WorkerManager -> A * WorkerManager) :
  (forall m, manager_step m (f m).2) -> preserves daemon_inv (@on_manager S E A f).
Proof.
  intros Hf d r d' []. unfold on_manager. destruct (f (dm_manager d)) as [a m] eqn:E1.
  intros [= _ <-]. constructor; cbn; [done| |done].
  eapply manager_step_inv; [done|]. change m with ((a, m).2). rewrite <- E1. apply Hf.
Qed.
Lemma inv_attempt {E A} (m : M (Daemon S) E A) : preserves daemon_inv m -> preserves daemon_inv (attempt m).
Proof.
  intros Hm d r d' Hd. unfold attempt. destruct (m d) as [r1 d1] eqn:E1. intros [= _ <-]. by eapply Hm.
Qed.
Lemma preserves_bind_Ok {St E A B} (P : St -> Prop) (m : M St E A) (k : A -> M St E B) :
  preserves P m -> (forall a s s', m s = (Ok a, s') -> preserves P (k a)) -> preserves P (mbind_M k m).
Proof.
  intros Hm Hk s r s' HP [(a & s1 & H1 & H2)|(e & H1 & _)]%bind_inv; [|by eapply Hm].
  eapply Hk; [exact H1| |exact H2]. by eapply Hm.
Qed.

(** Through a handler: world steps to the hints of the store and the run. *)
Ltac world_go :=
  repeat first
    [ solve [auto with daemon]
    | solve [apply run_inv_leaves; auto with store daemon]
    | apply preserves_ret | apply preserves_throw | apply preserves_lift | apply preserves_map_err
    | solve [apply run_inv_query]
    | apply run_inv_audit; [solve [auto with daemon | by vm_compute]]
    | apply preserves_bind; [|intros]
    | case_match ].
Ltac daemon_go :=
  repeat first
    [ solve [auto with daemon]
    | apply preserves_ret | apply preserves_throw | apply preserves_lift | apply preserves_map_err
    | apply inv_on_secrets | apply inv_outside | apply inv_submit | apply inv_attempt
    | apply inv_on_world; solve [world_go]
    | apply preserves_bind; [|intros]
    | case_match ].

(** ** Credentials *)

Lemma fresh_oauth_inv id stored : preserves daemon_inv (fresh_oauth id stored).
Proof. unfold fresh_oauth. daemon_go. Qed.
Hint Resolve fresh_oauth_inv : daemon.
Lemma credential_inv a : preserves daemon_inv (credential_for_account a).
Proof. unfold credential_for_account. daemon_go. Qed.
Hint Resolve credential_inv : daemon.
Lemma get_account_inv id : preserves daemon_inv (get_account id).
Proof. unfold get_account, rpc, accounts_get. daemon_go. Qed.
Hint Resolve get_account_inv : daemon.
Lemma resolve_inv id : preserves daemon_inv (resolve id).
Proof. unfold resolve, accounts_get. daemon_go. Qed.

(** ** Drafts *)

Lemma pending_inv specs n : preserves daemon_inv (pending_attachments specs n).
Proof. revert n. induction specs as [|s l IH]; intros n; cbn [pending_attachments]; daemon_go. Qed.
Hint Resolve pending_inv : daemon.
Lemma read_pending_inv l n : preserves daemon_inv (read_pending l n).
Proof.
  revert n. induction l as [|s l IH]; intros n; cbn [read_pending]; unfold read_attachment_bounded; daemon_go.
Qed.
Hint Resolve read_pending_inv : daemon.
Lemma prepare_inv specs : preserves daemon_inv (prepare_draft_attachments specs).
Proof. unfold prepare_draft_attachments. daemon_go. Qed.
Hint Resolve prepare_inv : daemon.

Lemma read_pending_bytes l n (d : Daemon S) ps d' :
  (n <= draft_limit)%N -> read_pending l n d = (Ok ps, d') ->
  (Z.of_N n + prepared_bytes ps <= MAX_DRAFT_ATTACHMENT_BYTES)%Z.
Proof.
  revert n d ps d'. induction l as [|p l IH]; intros n d ps d' Hn; cbn [read_pending].
  - intros [= <- _]. unfold draft_limit, MAX_DRAFT_ATTACHMENT_BYTES in *. cbn. lia.
  - intros (content & d1 & _ & H1)%mbind_M_inv_Ok.
    destruct (draft_limit <? _)%N eqn:El; [done|]. apply N.ltb_ge in El.
    apply mbind_M_inv_Ok in H1 as (more & d2 & H2 & [= <- _]).
    apply IH in H2; [|done]. cbn. fold (prepared_bytes more). unfold saturating_add64 in *.
    assert ((draft_limit < U64_MAX)%N) by done. lia.
Qed.

Lemma prepare_bytes specs (d : Daemon S) l d' :
  prepare_draft_attachments specs d = (Ok (Some l), d') ->
  (prepared_bytes l <= MAX_DRAFT_ATTACHMENT_BYTES)%Z.
Proof.
  unfold prepare_draft_attachments. destruct specs; [|done].
  intros (p & d1 & _ & (ps & d2 & H2 & [= <- _])%mbind_M_inv_Ok)%mbind_M_inv_Ok.
  apply read_pending_bytes in H2; [done|]. vm_compute. discriminate.
Qed.

Lemma draft_create_inv args : preserves daemon_inv (op_draft_create args).
Proof.
  unfold op_draft_create. apply preserves_bind; [daemon_go|]. intros specs.
  apply preserves_bind; [daemon_go|]. intros new. apply preserves_bind_Ok; [daemon_go|].
  intros l d d' Hl. apply inv_on_world. unfold rpc. apply preserves_bind; [world_go|]. intros draft.
  apply preserves_bind; [|intros; world_go]. destruct l; [|world_go].
  by eapply run_inv_attach_or_delete, prepare_bytes.
Qed.

Lemma draft_update_inv args : preserves daemon_inv (op_draft_update args).
Proof.
  unfold op_draft_update. apply preserves_bind; [daemon_go|]. intros specs.
  apply preserves_bind; [daemon_go|]. intros upd. apply preserves_bind_Ok; [daemon_go|].
  intros l d d' Hl. apply inv_on_world. unfold rpc, drafts_update_tx, replace_draft_attachments_tx.
  apply preserves_bind; [unfold tx_statement; world_go|]. intros _.
  apply preserves_bind; [|intros; world_go]. apply run_inv_tx.
  - apply uuid_grows_bind.
    + apply uuid_grows_map_err. unfold drafts_update. apply uuid_grows_bind; [|intros; apply uuid_grows_statement].
      intros w r w' [= _ <-]; cbn; split; [lia|done].
    + intros x. apply uuid_grows_bind; [|intros _; apply uuid_grows_bind; intros; auto using uuid_grows_ret].
      * repeat case_match; auto using uuid_grows_ret, uuid_grows_replace.
      * apply uuid_grows_map_err, uuid_grows_statement.
  - apply preserves_bind; [world_go|]. intros x.
    apply preserves_bind; [|intros; unfold tx_statement; world_go].
    destruct l, x; try apply preserves_ret. by eapply run_inv_replace, prepare_bytes.
Qed.

Lemma attachments_json_inv rows : preserves (run_inv w0) (draft_attachments_json base64 rows).
Proof.
  induction rows as [|row l IH]; cbn [draft_attachments_json];
    unfold rpc, draft_attachments_load_content; world_go.
Qed.
Lemma mime_attachments_inv rows : preserves (run_inv w0) (mime_attachments rows).
Proof.
  induction rows as [|row l IH]; cbn [mime_attachments];
    unfold rpc, draft_attachments_load_content; world_go.
Qed.
Lemma drop_sent_inv a id : preserves (run_inv w0) (drop_sent_draft a id).
Proof.
  intros w r w' Hw. unfold drop_sent_draft.
  destruct (drafts_delete id w) as [[b|e] w1] eqn:Ed;
    (assert (Hi : run_inv w0 w1)
       by (eapply (run_inv_leaves w0 _ (drafts_delete_inv id)); eauto with daemon)).
  - by apply run_inv_publish.
  - by intros [= _ <-].
Qed.
Hint Resolve attachments_json_inv mime_attachments_inv drop_sent_inv draft_create_inv draft_update_inv : daemon.

(** ** Forwarded attachments and listed folders *)

Lemma refetch_inv m : preserves daemon_inv (refetch_forward_attachments m).
Proof. unfold refetch_forward_attachments, rpc, folders_get, accounts_get, or_else. daemon_go. Qed.
Lemma batch_cached_inv i ids b : preserves (run_inv w0) (batch_cached base64 i ids b).
Proof. revert i b. induction ids as [|x l IH]; intros i b; cbn [batch_cached]; world_go. Qed.
Lemma batch_refetched_inv ps ms b : preserves (run_inv w0) (batch_refetched base64 ps ms b).
Proof. revert ps b. induction ms as [|[i x] l IH]; intros ps b; cbn [batch_refetched]; world_go. Qed.
Lemma upsert_listed_inv id l : preserves (run_inv w0) (upsert_listed id l).
Proof. induction l as [|f l IH]; cbn [upsert_listed]; world_go. Qed.
Hint Resolve refetch_inv batch_cached_inv batch_refetched_inv upsert_listed_inv : daemon.

Lemma sync_folder_inv args : preserves daemon_inv (op_account_sync_folder root fuel args).
Proof.
  unfold op_account_sync_folder. apply preserves_bind; [daemon_go|]. intros a.
  apply preserves_bind; [daemon_go|]. intros n. apply preserves_bind; [daemon_go|]. intros acc.
  apply preserves_bind; [daemon_go|]. intros c. apply inv_on_world. unfold publish_sync_state, audit.
  apply preserves_bind; [world_go|]. intros _. apply preserves_bind; [|intros; world_go].
  intros w r w' Hw. destruct (reconcile_folder root fuel a n c w) as [r1 w1] eqn:Er. intros [= _ <-].
  eapply (run_inv_leaves w0 (reconcile_folder root fuel a n c));
    [auto with store|auto with daemon|exact Hw|exact Er].
Qed.

Lemma start_sync_inv args : preserves daemon_inv (op_account_start_sync args).
Proof.
  unfold op_account_start_sync, ensure_account_folder, manager_start_op, rpc, folders_get_by_name,
    publish_sync_state, audit. daemon_go.
  - intros d r d' Hd [= _ <-]. done.
  - apply inv_on_manager. intros m. constructor.
Qed.
Lemma stop_sync_inv args : preserves daemon_inv (op_account_stop_sync args).
Proof.
  unfold op_account_stop_sync, audit. daemon_go. apply inv_on_manager. intros m. constructor.
Qed.
Hint Resolve sync_folder_inv start_sync_inv stop_sync_inv : daemon.

Lemma service_op_inv op args m :
  service_op base64 root fuel op args = Some m -> preserves daemon_inv m.
Proof.
  destruct op; cbn [service_op]; intros Hm; try discriminate; injection Hm as <-;
  unfold op_attachment_preview, op_draft_delete, op_draft_list, op_draft_get, op_attachment_export,
    op_message_prepare_reply, op_message_prepare_forward, op_attachment_fetch_for_forward,
    op_attachment_fetch_for_forward_batch, op_message_send, op_account_test_login,
    op_account_set_secret, op_account_delete_secret, op_oauth_google_auth_url, op_oauth_google_complete,
    get_attachment, require_message, account_of_message, forward_parent_message, test_login_credential,
    ensure_oauth_google_account, load_draft_mime_attachments, mime_env, secrets_call,
    encode, rpc, audit, drafts_get, drafts_list_by_account, draft_attachments_list_for_draft,
    attachments_get, attachments_list_for_message, messages_get, accounts_get;
  daemon_go.
Qed.

Lemma daemon_step_inv d d' : daemon_inv d -> daemon_step d d' -> daemon_inv d'.
Proof.
  intros Hd [op args r d1 H|id r d1 H|a n c r d1 H|m' H].
  - revert H. unfold daemon_dispatch. destruct (dispatch addrs_text base64 op args) as [m|] eqn:Em.
    + apply inv_on_world; [|done]. by eapply dispatch_run.
    + destruct (service_op base64 root fuel op args) as [m|] eqn:Es.
      * by eapply service_op_inv.
      * by intros [= _ <-].
  - by eapply resolve_inv.
  - eapply inv_on_world; [|exact Hd|exact H]. apply run_inv_leaves; auto with store daemon.
  - destruct Hd. constructor; cbn; [done| |done]. by eapply manager_step_inv.
Qed.

Lemma daemon_run_inv d d' : daemon_inv d -> rtc daemon_step d d' -> daemon_inv d'.
Proof. intros Hd Hr. induction Hr; [done|]. eauto using daemon_step_inv. Qed.
End Inv.

(** ** Theorems *)

Lemma run_inv_start w : store_inv w -> run_inv w w.
Proof.
  intros Hw. constructor; [done|apply approvals_grow_refl| |done..].
  exists []. rewrite app_nil_r. split; [done|constructor].
Qed.

Definition any_wire (l : list Transmission) : Prop := True.

Lemma daemon_inv_start d :
  store_inv (dm_world d) -> manager_inv (dm_manager d) ->
  daemon_inv (dm_world d) any_wire d.
Proof. intros Hw Hm. constructor; [by apply run_inv_start|done|done]. Qed.

Lemma any_wire_kept req : preserves any_wire (smtp_submit req).
Proof. by intros l r l' _ _. Qed.

(** C2. The life of an approval, over every sequence of requests and worker
    steps from a sound store, with any arguments, any answers of the services and
    any statements failing: a row is never removed or moved; once it is allowed,
    denied or expired nothing about it ever changes; while it is pending it is
    unchanged, or it was closed in one step by an allowed actor with tool,
    arguments and summary as they were shown.  A row added meanwhile began
    pending. *)
Theorem approval_lifecycle d d' i b :
  store_inv (dm_world d) -> manager_inv (dm_manager d) -> rtc daemon_step d d' ->
  (forall a, table (dm_world d) !! i = Some a ->
     exists b, table (dm_world d') !! i = Some b /\
       (b = a \/ exists st now who, approval_state a = Pending /\ st <> Pending /\
          actor_is_allowed who = true /\ b = decided_row st now who a)) /\
  (table (dm_world d) !! i = None -> table (dm_world d') !! i = Some b -> approval_state b <> Pending ->
     exists a st now who, approval_state a = Pending /\ actor_is_allowed who = true /\
       b = decided_row st now who a).
Proof.
  intros Hw Hm Hr.
  destruct (daemon_run_inv _ any_wire any_wire_kept _ _ (daemon_inv_start d Hw Hm) Hr)
    as [[_ (mid & fresh & Ht & H2 & HF) _ _ _ _] _ _].
  rewrite Ht. pose proof (Forall2_length _ _ _ H2) as Hlen. split.
  - intros a Ha. destruct (Forall2_lookup_l _ _ _ _ _ H2 Ha) as (b' & Hb & Hl). exists b'.
    split; [by apply lookup_app_l_Some|].
    destruct (approval_life_pending a b' Hl) as [->|[Hp Hs]]; [by left|].
    right. inversion Hs; subst. by eexists _, _, _.
  - intros Hn Hb Hp. apply lookup_ge_None in Hn. rewrite lookup_app_r in Hb by lia.
    rewrite Forall_lookup in HF. destruct (HF _ _ Hb) as (a & Ha & Hl).
    destruct (approval_life_pending a b Hl) as [->|[_ Hs]]; [done|].
    inversion Hs; subst. by eexists a, _, _, _.
Qed.

(** C7. The daemon keeps its state sound and leaves a trail: after any sequence
    of requests and worker steps from a sound state, identifiers, (folder, UID)
    pairs and thread keys are still unique and every reference (of folders,
    threads, messages, attachments, drafts and their attachments) points at a row,
    whichever steps failed half-way; every active worker is the one the manager
    holds for its folder; and the audit log is the old one with entries appended,
    each under the name of the user or of a tool. *)
Theorem daemon_keeps_integrity d d' :
  store_inv (dm_world d) -> manager_inv (dm_manager d) -> rtc daemon_step d d' ->
  store_inv (dm_world d') /\ manager_inv (dm_manager d') /\
  exists extra, audit_log (db (dm_world d')) = audit_log (db (dm_world d)) ++ extra /\
    Forall (fun e => aud_actor e = lit "user" \/
      exists tool, aud_actor e = lit "mcp:" ++ tool /\ tool <> [] /\ (str_len tool <= 128)%N) extra.
Proof.
  intros Hw Hm Hr.
  destruct (daemon_run_inv _ any_wire any_wire_kept _ _ (daemon_inv_start d Hw Hm) Hr)
    as [[Hs _ (extra & Hl & HF) _ _ _] Hm' _].
  split; [done|]. split; [done|]. exists extra. split; [done|]. eapply Forall_impl; [exact HF|]. cbn.
  intros e. apply actor_is_allowed_spec.
Qed.

(** ** Drafts under creation

    [op_draft_create] inserts the draft and then, statement by statement and
    without a transaction, clears and inserts its attachments; when one fails it
    deletes the draft again.  [op_draft_update] does the same inside one
    transaction. *)

Inductive Phase : Type :=
| Clearing (l : list PreparedDraftAttachment)
| Inserting (l : list PreparedDraftAttachment)
| Undoing.
Record Creation : Type := mkCreation { cr_draft : Id; cr_phase : Phase }.

Definition new_attachment (id : Id) (a : PreparedDraftAttachment) : NewDraftAttachment :=
  mkNewDraftAttachment id (prep_filename a) (prep_content_type a) (prep_content a).

(** One statement of one of the creations under way, or a whole step of the
    others, which attach nothing to a draft that is still being created.  The
    attachments of a creation were prepared in some earlier state; identifiers
    are fresh. *)
Inductive draft_step : Daemon S * list Creation -> Daemon S * list Creation -> Prop :=
| others_step d cs d' :
    daemon_step d d' ->
    (forall c, c ∈ cs -> attached_bytes (cr_draft c) (db (dm_world d')) <= attached_bytes (cr_draft c) (db (dm_world d)))%Z ->
    draft_step (d, cs) (d', cs)
| creation_begins d cs specs l (d0 d0' : Daemon S) new draft d' :
    prepare_draft_attachments specs d0 = (Ok (Some l), d0') ->
    on_world (drafts_create new) d = (Ok draft, d') -> dr_id draft ∉ map cr_draft cs ->
    draft_step (d, cs) (d', cs ++ [mkCreation (dr_id draft) (Clearing l)])
| creation_clears d before id l after n d' :
    on_world (draft_attachments_delete_all_for_draft id) d = (Ok n, d') ->
    draft_step (d, before ++ mkCreation id (Clearing l) :: after) (d', before ++ mkCreation id (Inserting l) :: after)
| creation_clear_fails d before id l after e d' :
    on_world (draft_attachments_delete_all_for_draft id) d = (Err e, d') ->
    draft_step (d, before ++ mkCreation id (Clearing l) :: after) (d', before ++ mkCreation id Undoing :: after)
| creation_inserts d before id a l after r d' :
    on_world (draft_attachments_create (new_attachment id a)) d = (r, d') ->
    draft_step (d, before ++ mkCreation id (Inserting (a :: l)) :: after)
      (d', before ++ mkCreation id (if is_ok r then Inserting l else Undoing) :: after)
| creation_undone d before id after r d' :
    on_world (drafts_delete id) d = (r, d') ->
    draft_step (d, before ++ mkCreation id Undoing :: after) (d', before ++ after)
| creation_ends d before id after :
    draft_step (d, before ++ mkCreation id (Inserting []) :: after) (d, before ++ after).

(** A creation still fits the limit when all its attachments are there. *)
Definition creation_fits (d : Daemon S) (c : Creation) : Prop :=
  match cr_phase c with
  | Clearing l => (prepared_bytes l <= MAX_DRAFT_ATTACHMENT_BYTES)%Z
  | Inserting l => (attached_bytes (cr_draft c) (db (dm_world d)) + prepared_bytes l <= MAX_DRAFT_ATTACHMENT_BYTES)%Z
  | Undoing => True
  end.
Record creations_inv (x : Daemon S * list Creation) : Prop := {
  ci_store : store_inv (dm_world x.1);
  ci_manager : manager_inv (dm_manager x.1);
  ci_cap : draft_cap (db (dm_world x.1));
  ci_distinct : NoDup (map cr_draft x.2);
  ci_fit : Forall (creation_fits x.1) x.2;
}.

Lemma creation_fits_less d d' c :
  (attached_bytes (cr_draft c) (db (dm_world d')) <= attached_bytes (cr_draft c) (db (dm_world d)))%Z ->
  creation_fits d c -> creation_fits d' c.
Proof. unfold creation_fits. destruct (cr_phase c); [done|lia|done]. Qed.

Lemma on_world_inv {E A} (m : M World E A) (d : Daemon S) r d' :
  on_world m d = (r, d') -> m (dm_world d) = (r, dm_world d') /\ dm_manager d' = dm_manager d.
Proof. unfold on_world. destruct (m (dm_world d)) as [r1 w1]. by intros [= <- <-]. Qed.

(** A statement of one creation that keeps the store and changes the attachments
    of no other draft. *)
Lemma creation_statement d d' before c c' after :
  creations_inv (d, before ++ c :: after) ->
  store_inv (dm_world d') -> dm_manager d' = dm_manager d ->
  (forall id, id <> cr_draft c -> attached_bytes id (db (dm_world d')) <= attached_bytes id (db (dm_world d)))%Z ->
  (attached_bytes (cr_draft c) (db (dm_world d')) <= MAX_DRAFT_ATTACHMENT_BYTES)%Z ->
  cr_draft c' = cr_draft c -> creation_fits d' c' ->
  creations_inv (d', before ++ c' :: after) /\ creations_inv (d', before ++ after).
Proof.
  intros [Hs Hm Hc Hnd HF] Hs' Hm' Hoth Hself Hid Hfit. cbn in *.
  rewrite map_app in Hnd. cbn in Hnd. apply NoDup_app in Hnd as (N1 & N2 & N3). apply NoDup_cons in N3 as [N3 N4].
  apply Forall_app in HF as [F1 F2]. apply Forall_cons in F2 as [_ F2].
  assert (Hcap : draft_cap (db (dm_world d'))).
  { intros id. destruct (N.eq_dec id (cr_draft c)) as [->|Hne]; [done|]. specialize (Hoth id Hne). specialize (Hc id). lia. }
  assert (Hk : forall l, (forall x, x ∈ l -> cr_draft x <> cr_draft c) -> Forall (creation_fits d) l -> Forall (creation_fits d') l).
  { intros l Hl Hf. rewrite Forall_forall in Hf |- *. intros x Hx. eapply creation_fits_less; [|by apply Hf]. by apply Hoth, Hl. }
  assert (G1 : Forall (creation_fits d') before).
  { apply Hk; [|done]. intros x Hx Heq. apply (N2 (cr_draft x)); [apply list_elem_of_In, in_map, list_elem_of_In; done|].
    rewrite Heq. by left. }
  assert (G2 : Forall (creation_fits d') after).
  { apply Hk; [|done]. intros x Hx Heq. apply N3. rewrite <- Heq. by apply list_elem_of_In, in_map, list_elem_of_In. }
  split; (constructor; cbn; [done|by rewrite Hm'|done| |]); rewrite ?map_app; cbn; rewrite ?Hid.
  - apply NoDup_app. split_and!; [done..|by apply NoDup_cons].
  - apply Forall_app. split; [done|by apply Forall_cons].
  - apply NoDup_app. split_and!; [done| |done]. intros x Hx Ha. apply (N2 x Hx). by right.
  - by apply Forall_app.
Qed.

Lemma draft_step_inv x y : creations_inv x -> draft_step x y -> creations_inv y.
Proof.
  intros Hi Hstep. destruct Hstep as [d cs d' Hd Hless|d cs specs l d0 d0' new draft d' Hp Hc Hf
    |d before id l after n d' Hx|d before id l after e d' Hx|d before id a l after r d' Hx|d before id after r d' Hx|d before id after].
  - destruct Hi as [Hs Hm Hc Hnd HF]. cbn in *.
    destruct (daemon_step_inv _ any_wire any_wire_kept _ _ (daemon_inv_start d Hs Hm) Hd) as [[Hs' _ _ Hc' _ _] Hm' _].
    constructor; cbn; [done..|by apply Hc'|done|]. rewrite Forall_forall in HF |- *.
    intros c Hin. eapply creation_fits_less; [by apply Hless|by apply HF].
  - destruct Hi as [Hs Hm Hcap Hnd HF]. cbn in *. apply on_world_inv in Hc as [Hc Hm'].
    pose proof (drafts_create_inv _ _ _ _ Hs Hc) as Hs'. pose proof (leaves_drafts_create _ _ _ _ Hc) as Hq.
    assert (Hless : forall id, (attached_bytes id (db (dm_world d')) <= attached_bytes id (db (dm_world d)))%Z)
      by (intros id; by apply attached_quiet).
    constructor; cbn; [done|by rewrite Hm'| | |].
    + intros id. specialize (Hless id). specialize (Hcap id). lia.
    + rewrite map_app. apply NoDup_app. split_and!; [done| |apply NoDup_singleton]. intros i Hi ->%list_elem_of_singleton. done.
    + apply Forall_app. split; [|apply Forall_singleton; by eapply prepare_bytes].
      eapply Forall_impl; [exact HF|]. intros c. by apply creation_fits_less.
  - apply on_world_inv in Hx as [Hx Hm']. pose proof Hi as [Hs _ Hcap _ HF]. cbn [fst snd] in Hs, Hcap, HF.
    apply Forall_app in HF as [_ HF]. apply Forall_cons in HF as [Hfit _]. unfold creation_fits in Hfit. cbn in Hfit.
    apply (fun H1 H2 H3 H4 H5 H6 => proj1 (creation_statement _ d' _ _ _ _ Hi H1 H2 H3 H4 H5 H6)); [by eapply draft_attachments_delete_all_inv|done| | |done|]; cbn.
    + intros i Hne. rewrite (attached_after_clear _ _ _ _ _ Hx). destruct (N.eqb_spec id i); [congruence|lia].
    + rewrite (attached_after_clear _ _ _ _ _ Hx), N.eqb_refl. done.
    + unfold creation_fits. cbn. rewrite (attached_after_clear _ _ _ _ _ Hx), N.eqb_refl. lia.
  - apply on_world_inv in Hx as [Hx Hm']. pose proof Hi as [Hs _ Hcap _ _]. cbn [fst snd] in Hs, Hcap.
    pose proof (leaves_delete_all _ _ _ _ Hx) as Hq.
    apply (fun H1 H2 H3 H4 H5 H6 => proj1 (creation_statement _ d' _ _ _ _ Hi H1 H2 H3 H4 H5 H6)); [by eapply draft_attachments_delete_all_inv|done| | |done|done]; cbn.
    + intros i _. by apply attached_quiet.
    + etransitivity; [by apply attached_quiet|apply Hcap].
  - apply on_world_inv in Hx as [Hx Hm']. pose proof Hi as [Hs _ Hcap _ HF]. cbn [fst snd] in Hs, Hcap, HF.
    apply Forall_app in HF as [_ HF]. apply Forall_cons in HF as [Hfit _]. unfold creation_fits in Hfit. cbn in Hfit.
    fold (prepared_bytes l) in Hfit. pose proof (prepared_bytes_nonneg l).
    pose proof (attached_after_create id _ _ _ _ Hx) as Hself. cbn in Hself. rewrite N.eqb_refl in Hself.
    apply (fun H1 H2 H3 H4 H5 H6 => proj1 (creation_statement _ d' _ _ _ _ Hi H1 H2 H3 H4 H5 H6)); [by eapply draft_attachments_create_inv|done| | |done|]; cbn.
    + intros i Hne. pose proof (attached_after_create i _ _ _ _ Hx) as Ho. cbn in Ho.
      destruct (N.eqb_spec id i); [congruence|lia].
    + lia.
    + unfold creation_fits. destruct (is_ok r); cbn; [lia|done].
  - apply on_world_inv in Hx as [Hx Hm']. pose proof Hi as [Hs _ Hcap _ _]. cbn [fst snd] in Hs, Hcap.
    pose proof (leaves_drafts_delete _ _ _ _ Hx) as Hq.
    apply (fun H1 H2 H3 H4 H5 H6 => proj2 (creation_statement _ d' _ _ (mkCreation id Undoing) _ Hi H1 H2 H3 H4 H5 H6)); [by eapply drafts_delete_inv|done| | |done|done]; cbn.
    + intros i _. by apply attached_quiet.
    + etransitivity; [by apply attached_quiet|apply Hcap].
  - pose proof Hi as [Hs _ Hcap _ _].
    apply (fun H1 H2 H3 H4 H5 H6 => proj2 (creation_statement _ d _ _ (mkCreation id Undoing) _ Hi H1 H2 H3 H4 H5 H6)); [done|done|done|apply Hcap|done|done].
Qed.

(** C8. No draft carries more than 25 MiB of attachments at any moment, though
    files may change between the check of their size and their reading, whichever
    statements of a replacement fail, and however the statements of the creations
    under way interleave with each other and with whole requests and worker steps,
    as long as nobody attaches files to a draft whose creation has not returned. *)
Theorem drafts_within_limit d d' creations id :
  store_inv (dm_world d) -> manager_inv (dm_manager d) -> draft_cap (db (dm_world d)) ->
  rtc draft_step (d, []) (d', creations) ->
  (attached_bytes id (db (dm_world d')) <= 26214400)%Z.
Proof.
  intros Hw Hm Hc Hr.
  assert (creations_inv (d', creations)) as [_ _ Hcap _ _]; [|by apply Hcap].
  assert (Hi : creations_inv (d, [])) by (constructor; [done..|constructor|constructor]).
  remember (d, []) as x eqn:Ex. clear Ex. induction Hr; eauto using draft_step_inv.
Qed.

(** Without that proviso the limit can be exceeded: an update of the draft that
    comes between the clearing and the insertions of its creation leaves the
    attachments of both. *)
Lemma attached_after_all id l w w' :
  create_draft_attachments id l w = (Ok tt, w') ->
  attached_bytes id (db w') = (attached_bytes id (db w) + prepared_bytes l)%Z.
Proof.
  revert w. induction l as [|a l IH]; intros w; cbn [create_draft_attachments].
  { intros [= <-]. unfold prepared_bytes. cbn. lia. }
  intros (x & w1 & H1 & H2)%mbind_M_inv_Ok. apply mmap_err_Ok in H1. rewrite (IH _ H2). cbn. fold (prepared_bytes l).
  enough (attached_bytes id (db w1) = (attached_bytes id (db w) + Z.of_nat (List.length (prep_content a)))%Z) by lia.
  apply attachment_create_Ok in H1 as (row & -> & Hid & Hsz). rewrite attached_bytes_snoc, Hid, Hsz. cbn. by rewrite N.eqb_refl.
Qed.
Lemma update_during_creation_adds_up id mine theirs w0 n w1 w2 w3 :
  draft_attachments_delete_all_for_draft id w0 = (Ok n, w1) ->
  replace_draft_attachments_tx id theirs w1 = (Ok tt, w2) ->
  create_draft_attachments id mine w2 = (Ok tt, w3) ->
  attached_bytes id (db w3) = (prepared_bytes theirs + prepared_bytes mine)%Z.
Proof.
  intros _ H2 H3. unfold replace_draft_attachments_tx, replace_draft_attachments, rpc in H2.
  apply mbind_M_inv_Ok in H2 as (k & w & Hc & H2). apply mmap_err_Ok in Hc.
  rewrite (attached_after_all _ _ _ _ H3), (attached_after_all _ _ _ _ H2), (attached_after_clear _ _ _ _ _ Hc), N.eqb_refl. lia.
Qed.
End Daemon.
