(* ===== verification/DaemonSend.v ===== *)
(** * Sending and credentials

    What [message.send] puts on the wire and what it leaves in the store, for the
    production submitter; and which access token a Google account is used with. *)

From stdpp Require Import relations.
From S2P Require Import Prelude RustStr Json SqlQuery Op IpcProtocol McpGates McpTools McpModels MailParser Utf8 MailThreading MailReply MailBuilder ImapWindow DbCore DbMail DbInv DbDrafts Attachments AttachmentFiles Auth Smtp Secrets OAuth Reconciler Worker Manager Search DbMcp Dispatcher DispatcherProps Daemon DaemonOps DaemonRun DaemonProps.
#[local] Open Scope bool_scope.

Section Send.
Context {S : Type} {SS : SecretStore S} {LAWS : SecretStoreLaws S}.
Context {TP : TextParsers} {JC : JsonCodec} {RC : RowCodec} {ET : ErrorTexts}
        {FT : Fts} {SL : SqlLike} {SE : SqlEngine} {UC : UnicodeCase}.
Context {DC : DraftCodec} {ST : ServiceTexts} {IO : HostIo} {UF : UserFiles}
        {MP : MessageParser} {IS : ImapSync} {IA : ImapAuth} {LT : Lettre}.
Context (addrs_text : list str -> str) (base64 : list N -> str) (root : str) (fuel : nat).
#[local] Existing Instance lettre_submitter.

(** ** Steps that send nothing and write nothing *)

Definition calm {E A} (m : M (Daemon S) E A) : Prop :=
  forall d r d', m d = (r, d') -> dm_wire d' = dm_wire d /\ db (dm_world d') = db (dm_world d).

Lemma calm_ret {E A} (a : A) : calm (mret_M a : M (Daemon S) E A).
Proof. by intros d r d' [= _ <-]. Qed.
Lemma calm_throw {E A} (e : E) : calm (mthrow e : M (Daemon S) E A).
Proof. by intros d r d' [= _ <-]. Qed.
Lemma calm_lift {E A} (r : result E A) : calm (mlift r).
Proof. by intros d r' d' [= _ <-]. Qed.
Lemma calm_bind {E A B} (m : M (Daemon S) E A) (k : A -> M (Daemon S) E B) :
  calm m -> (forall a, calm (k a)) -> calm (mbind_M k m).
Proof.
  intros Hm Hk d r d' [(a & d1 & H1 & H2)|(e & H1 & _)]%bind_inv; apply Hm in H1 as [<- <-]; [|done].
  by eapply Hk.
Qed.
Lemma calm_map_err {E F A} (f : E -> F) (m : M (Daemon S) E A) : calm m -> calm (mmap_err f m).
Proof. intros Hm d r d'. unfold mmap_err. destruct (m d) as [r1 d1] eqn:E1. intros [= _ <-]. by eapply Hm. Qed.
Lemma calm_outside {E A} (f : nat -> result E A) : calm (outside f : M (Daemon S) E A).
Proof. by intros d r d' [= _ <-]. Qed.
Lemma calm_secrets {E A} (m : M S E A) : calm (on_secrets m).
Proof. intros d r d'. unfold on_secrets. destruct (m _). by intros [= _ <-]. Qed.
Lemma calm_world {E A} (m : M World E A) :
  (forall w r w', m w = (r, w') -> db w' = db w) -> calm (on_world m : M (Daemon S) E A).
Proof.
  intros Hm d r d'. unfold on_world. destruct (m (dm_world d)) as [r1 w1] eqn:E1. intros [= _ <-].
  split; [done|]. by eapply Hm.
Qed.
Lemma calm_rpc_query {A} ctx (f : Db -> A) : calm (on_world (rpc ctx (query f)) : M (Daemon S) RpcError A).
Proof.
  apply calm_world. intros w r w'. unfold rpc, mmap_err. destruct (query f w) as [r1 w1] eqn:Eq.
  apply query_cases in Eq as [_ Hd]. by intros [= _ <-].
Qed.

Ltac calm_go :=
  repeat first
    [ apply calm_ret | apply calm_throw | apply calm_lift | apply calm_outside | apply calm_secrets
    | apply calm_rpc_query | apply calm_map_err
    | apply calm_world; by intros w r w' [= _ <-]
    | apply calm_bind; [|intros]
    | case_match ].

Lemma calm_credential {GO : GoogleOAuth} a : calm (credential_for_account a).
Proof. unfold credential_for_account, fresh_oauth. calm_go. Qed.
Lemma calm_get_account id : calm (get_account id).
Proof. unfold get_account, accounts_get. calm_go. Qed.
Lemma load_mime_keeps id : keeps_db (load_draft_mime_attachments id).
Proof.
  unfold load_draft_mime_attachments, rpc, draft_attachments_list_for_draft.
  apply keeps_db_bind; [apply keeps_db_map_err, keeps_db_query|]. intros rows.
  induction rows as [|row l IH]; cbn [mime_attachments]; [apply keeps_db_ret|].
  unfold rpc, draft_attachments_load_content.
  repeat first [done | apply keeps_db_map_err, keeps_db_query | apply keeps_db_lift | apply keeps_db_ret
               | apply keeps_db_bind; [|intros]].
Qed.
Lemma calm_mime id : calm (on_world (load_draft_mime_attachments id)).
Proof. apply calm_world. intros w r w' H. by apply load_mime_keeps in H as [? _]. Qed.
Lemma calm_uuid {E} : calm (on_world (@new_uuid E)).
Proof. apply calm_world. by intros w r w' [= _ <-]. Qed.
Lemma calm_env : calm (on_world (mime_env base64)).
Proof. apply calm_world. unfold mime_env. by intros w r w' [= _ <-]. Qed.

(** ** Recipients *)

Lemma parse_addr_array_Ok l field out :
  parse_addr_array l field = Ok out -> out = map trim l /\ Forall (fun a => trim a <> []) l.
Proof.
  revert out. induction l as [|a l IH]; intros out; cbn; [by intros [= <-]|].
  destruct (is_empty (trim a)) eqn:Ea; [done|]. apply is_empty_false in Ea.
  unfold mbind, result_bind. destruct (parse_addr_array l field) as [more|]; [|done].
  intros [= <-]. destruct (IH more eq_refl) as [-> HF]. auto.
Qed.

Definition recipients_of (c : NewDraft) : list str := nd_to_addrs c ++ nd_cc_addrs c ++ nd_bcc_addrs c.

Lemma draft_recipients_Ok c out :
  draft_recipients c = Ok out -> og_recipients out = map trim (recipients_of c).
Proof.
  unfold draft_recipients, mbind, result_bind, all_recipients, recipients_of.
  destruct (parse_addr_array (nd_to_addrs c) _) as [to|] eqn:E1; [|done].
  destruct (parse_addr_array (nd_cc_addrs c) _) as [cc|] eqn:E2; [|done].
  destruct (parse_addr_array (nd_bcc_addrs c) _) as [bcc|] eqn:E3; [|done].
  apply parse_addr_array_Ok in E1 as [-> _], E2 as [-> _], E3 as [-> _].
  rewrite <- !map_app. destruct (map trim _) as [|x l] eqn:Em; [done|]. by intros [= <-].
Qed.

(** ** The outcome of a send *)

(** The store after a send: the draft is gone, or its deletion failed. *)
Lemma drop_sent_drafts a id w r w' :
  drop_sent_draft a id w = (r, w') ->
  r = Ok tt /\ (db w' = db w \/ db w' = delete_drafts (fun x => dr_id x =? id)%N (db w)).
Proof.
  unfold drop_sent_draft. destruct (drafts_delete id w) as [[b|e] w1] eqn:Ed;
    apply statement_cases in Ed as [_ Ed].
  - destruct Ed as [(x & _ & [= _ Hd])|(e & [=] & _)]. intros [= <- <-]. split; [done|]. right. by rewrite Hd.
  - destruct Ed as [(x & [=] & _)|(e' & _ & Hd)]. intros [= <- <-]. rewrite Hd. auto.
Qed.

Lemma audit_drafts actor action target details w r w' :
  audit_actor actor action target details w = (r, w') -> r = Ok tt /\ drafts (db w') = drafts (db w).
Proof.
  unfold audit_actor. destruct (audit_record _ w) as [r1 w1] eqn:Er. intros [= <- <-].
  apply audit_record_effect in Er as [_ [->|(now & ->)]]; done.
Qed.

Definition nothing_sent {A} (d : Daemon S) (r : result RpcError A) (d' : Daemon S) : Prop :=
  (exists e, r = Err e) /\ dm_wire d' = dm_wire d /\ drafts (db (dm_world d')) = drafts (db (dm_world d)).

(** One transmission of the draft from the account, whose outcome is the reply's. *)
Definition one_sent {A} (account : Account) (c : NewDraft) (draft_id : Id)
    (d : Daemon S) (r : result RpcError A) (d' : Daemon S) : Prop :=
  exists t, dm_wire d' = dm_wire d ++ [t] /\ tx_accepted t = is_ok r /\
    protected (tx_transport t) /\ tr_host (tx_transport t) = acc_smtp_host account /\
    tr_user (tx_transport t) = acc_email account /\
    address_parse (acc_email account) = Ok (env_from (tx_envelope t)) /\
    Forall2 (fun a b => address_parse a = Ok b) (map trim (recipients_of c)) (env_to (tx_envelope t)) /\
    (drafts (db (dm_world d')) = drafts (db (dm_world d)) \/
     (is_ok r = true /\ drafts (db (dm_world d')) =
        List.filter (fun x => negb (dr_id x =? draft_id)%N) (drafts (db (dm_world d))))).

Definition same_store (d d' : Daemon S) : Prop :=
  dm_wire d' = dm_wire d /\ db (dm_world d') = db (dm_world d).

(** A calm step: the run stopped there, or goes on from an equal store. *)
Lemma calm_split {A B} (d : Daemon S) (m : M (Daemon S) RpcError A) (k : A -> M (Daemon S) RpcError B) d1 r d' :
  calm m -> same_store d d1 -> mbind_M k m d1 = (r, d') ->
  nothing_sent d r d' \/
  exists a d2, m d1 = (Ok a, d2) /\ k a d2 = (r, d') /\ same_store d d2.
Proof.
  intros Hc [Hw1 Hd1] [(a & d2 & H1 & H2)|(e & H1 & ->)]%bind_inv; destruct (Hc _ _ _ H1) as [Hw Hd].
  - right. exists a, d2. split_and!; [done..|]. split; congruence.
  - left. split; [eauto|]. split; congruence.
Qed.

Lemma submit_tail request account_id draft_id actor action target details (reply : value) d d1 (account : Account) c (r : result RpcError value) d' :
  (let! _ := mmap_err map_smtp_error (on_wire (submit request)) in
   let! _ := on_world (drop_sent_draft account_id draft_id) in
   let! _ := on_world (audit_actor actor action target details) in
   mret_M reply) d1 = (r, d') ->
  same_store d d1 ->
  srv_host (req_server request) = acc_smtp_host account -> req_username request = acc_email account ->
  req_from request = acc_email account -> req_recipients request = map trim (recipients_of c) ->
  nothing_sent d r d' \/ one_sent account c draft_id d r d'.
Proof.
  intros H [Hw Hd] Hhost Huser Hfrom Hrcpt.
  apply bind_inv in H as [([] & d2 & H1 & H2)|(e & H1 & ->)];
    unfold mmap_err, on_wire in H1; destruct (submit request (dm_wire d1)) as [r1 log] eqn:Es;
    injection H1 as Hr1 <-; apply submit_cases in Es as [[-> (x & ->)]|(t & env & Ht & He & ->)]; try done.
  - right. destruct r1 as [[]|]; [|done].
    apply build_transport_protected in Ht as (Hp & Hh & _ & Hu & _).
    apply build_envelope_Ok in He as (Hf & _ & HF). rewrite Hfrom in Hf. rewrite Hrcpt in HF.
    apply bind_inv in H2 as [(u & d3 & H3 & H4)|(e & H3 & _)]; unfold on_world in H3; cbn in H3;
      destruct (drop_sent_draft _ _ _) as [r3 w3] eqn:E3; apply drop_sent_drafts in E3 as [-> Hdr];
      [|done]. injection H3 as _ <-.
    apply bind_inv in H4 as [(u' & d4 & H5 & [= <- <-])|(e & H5 & _)]; unfold on_world in H5; cbn in H5;
      destruct (audit_actor _ _ _ _ _) as [r5 w5] eqn:E5; apply audit_drafts in E5 as [-> Hau];
      [|done]. injection H5 as _ <-.
    exists (mkTransmission t env (req_mime request) true). cbn. rewrite Hw. split_and!; [done|done|exact Hp|by rewrite Hh|by rewrite Hu|exact Hf|exact HF|].
    rewrite Hau. destruct Hdr as [->| ->]; rewrite Hd; [by left|by right].
  - left. split; [eauto|]. cbn. by rewrite Hw, Hd.
  - right. apply build_transport_protected in Ht as (Hp & Hh & _ & Hu & _).
    apply build_envelope_Ok in He as (Hf & _ & HF). rewrite Hfrom in Hf. rewrite Hrcpt in HF.
    destruct r1; [done|]. exists (mkTransmission t env (req_mime request) false). cbn. rewrite Hw.
    split_and!; [done|done|exact Hp|by rewrite Hh|by rewrite Hu|exact Hf|exact HF|].
    left. by rewrite Hd.
Qed.

Lemma on_world_query {A} ctx (f : Db -> A) (d : Daemon S) a d' :
  on_world (rpc ctx (query f)) d = (Ok a, d') -> a = f (db (dm_world d)).
Proof.
  unfold on_world. destruct (rpc ctx (query f) (dm_world d)) as [r w] eqn:Eq. intros [= -> _].
  by apply mmap_err_Ok, query_Ok in Eq as [? _].
Qed.

Lemma get_account_Ok id (d : Daemon S) a d' :
  get_account id d = (Ok a, d') -> List.find (fun a => acc_id a =? id)%N (accounts (db (dm_world d))) = Some a.
Proof.
  unfold get_account, accounts_get. intros (o & d1 & H1 & H2)%mbind_M_inv_Ok.
  apply on_world_query in H1. unfold mlift in H2. injection H2 as H2 _. rewrite H1 in H2.
  by destruct (List.find _ _); cbn in H2; [injection H2 as ->|].
Qed.

Context {GO : GoogleOAuth}.


(** ** Secrets on the wire *)

Lemma submit_protected req :
  preserves (Forall (fun t => protected (tx_transport t))) (smtp_submit req).
Proof.
  intros l r l' Hl Hs. cbn in Hs. apply submit_cases in Hs as [[-> _]|(t & e & Ht & _ & ->)]; [done|].
  apply Forall_app. split; [done|]. apply Forall_singleton.
  by apply build_transport_protected in Ht as [? _].
Qed.

(** C10. Whatever is requested, a password or an access token leaves for an SMTP
    server only inside TLS to the very host that was configured, from the first
    byte or after a required STARTTLS. *)
Theorem secrets_only_over_tls (d d' : Daemon S) t :
  store_inv (dm_world d) -> manager_inv (dm_manager d) -> dm_wire d = [] ->
  rtc (daemon_step addrs_text base64 root fuel) d d' -> t ∈ dm_wire d' -> tr_secret (tx_transport t) <> [] ->
  tr_tls (tx_transport t) = TlsWrapper (tr_host (tx_transport t)) \/
  tr_tls (tx_transport t) = TlsRequired (tr_host (tx_transport t)).
Proof.
  intros Hw Hm Hl Hr Ht Hsec.
  assert (Hd : daemon_inv (dm_world d)
                 (Forall (fun t => protected (tx_transport t))) d)
    by (constructor; [by apply run_inv_start|done|by rewrite Hl]).
  destruct (daemon_run_inv _ _ _ _ _ _ submit_protected _ _ Hd Hr) as [_ _ HF].
  rewrite Forall_forall in HF. specialize (HF t Ht). unfold protected in HF.
  destruct (tr_tls (tx_transport t)); [left|right|done]; by rewrite HF.
Qed.
End Send.

(** ** Access tokens *)

Section Bearer.
Context {S : Type} {SS : SecretStore S} {LAWS : SecretStoreLaws S}.
Context {TP : TextParsers} {JC : JsonCodec} {ET : ErrorTexts} {ST : ServiceTexts} {EP : TokenEndpoint}.
#[local] Existing Instance http_client.

(** The clock was last read before the daemon reached [d]. *)
Definition last_read (d : Daemon S) : time := clock (dm_world d) (Nat.pred (ticks (dm_world d))).

(** The token comes from the secret store and is left there, or was just issued
    and is stored. *)
Definition token_kept (account_id : Id) (tok : GoogleOAuthToken) (d d' : Daemon S) : Prop :=
  exists config,
    (ss_view (dm_secrets d') = ss_view (dm_secrets d) /\
     exists text, ss_view (dm_secrets d) !! account_id = Some text /\
       from_str text ≫= stored_of_json = Some (mkStoredGoogleOAuth config tok)) \/
    ss_view (dm_secrets d') =
      <[account_id := to_string (stored_to_json (mkStoredGoogleOAuth config tok))]> (ss_view (dm_secrets d)).

Lemma http_refresh_Ok n now c t t' : http_refresh_token n now c t = Ok t' -> (now < expires_at t')%Z.
Proof.
  unfold http_refresh_token, mbind, result_bind. destruct (validate_for_token_request c); [|done].
  destruct (validate_non_empty _ _); [|done]. destruct (post_token_form _ _); [|done].
  intros H. apply into_token_Ok in H as (_ & _ & [? _] & _). done.
Qed.

Lemma load_stored_Ok id (d : Daemon S) stored d' :
  mmap_err map_oauth_error (on_secrets (load_stored_oauth oauth_decode_text id)) d = (Ok (Some stored), d') ->
  dm_world d' = dm_world d /\ ss_view (dm_secrets d') = ss_view (dm_secrets d) /\
  exists text, ss_view (dm_secrets d) !! id = Some text /\ from_str text ≫= stored_of_json = Some stored.
Proof.
  intros H%mmap_err_Ok. unfold on_secrets in H.
  destruct (load_stored_oauth _ id (dm_secrets d)) as [r s] eqn:El. injection H as -> <-. cbn.
  split; [done|]. unfold load_stored_oauth in El. apply mbind_M_inv_Ok in El as (o & s1 & H1 & H2).
  apply mmap_err_Ok, ss_get_law in H1 as [Hv Ho]. specialize (Ho o eq_refl).
  destruct o as [text|]; [|done].
  destruct (from_str text ≫= stored_of_json) as [x|] eqn:Ex; [|done]. injection H2 as -> <-.
  split; [done|]. exists text. by rewrite <- Ho.
Qed.

Lemma fresh_oauth_Ok id stored (d : Daemon S) tok d' :
  fresh_oauth id stored d = (Ok tok, d') ->
  (last_read d' < expires_at tok)%Z /\
  ((tok = stored_token stored /\ ss_view (dm_secrets d') = ss_view (dm_secrets d)) \/
   ss_view (dm_secrets d') =
     <[id := to_string (stored_to_json (mkStoredGoogleOAuth (stored_config stored) tok))]>
       (ss_view (dm_secrets d))).
Proof.
  unfold fresh_oauth. intros (now & d1 & H1 & H)%mbind_M_inv_Ok. injection H1 as <- <-.
  destruct (needs_refresh _ _) eqn:En; cbn [negb] in H.
  - apply mbind_M_inv_Ok in H as (at_call & d2 & H2 & H). injection H2 as <- <-.
    apply mbind_M_inv_Ok in H as (refreshed & d3 & H3 & H). injection H3 as H3 <-.
    destruct refreshed as [t|err].
    + apply mbind_M_inv_Ok in H as ([] & d4 & H4 & [= <- <-]). apply mmap_err_Ok in H4.
      unfold on_secrets in H4. destruct (store_stored_oauth _ _ _) as [r s] eqn:Es.
      injection H4 as -> <-. cbn in Es. apply mmap_err_Ok, ss_put_law in Es. cbn in Es. cbn.
      split; [by apply http_refresh_Ok in H3|]. by right.
    + destruct (is_oauth_reauth err); [done|].
      apply mbind_M_inv_Ok in H as (now & d4 & H4 & H). injection H4 as <- <-.
      destruct (_ <? _)%Z eqn:El; [|done]. injection H as <- <-. apply Z.ltb_lt in El. auto.
  - injection H as <- <-. split; [|auto]. unfold last_read, on_world, utc_now. cbn.
    unfold needs_refresh in En. apply Z.leb_gt in En.
    unfold OAuth.seconds, REFRESH_SKEW_SECONDS in En. lia.
Qed.

(** C11. The access token a Google account is used with had not expired when the
    clock was last read; it is the one in the secret store, left as it is, or one
    the token endpoint just issued, which is stored first. *)
Theorem bearer_is_current account (d : Daemon S) c d' :
  acc_auth_kind account = OAuth2Google -> credential_for_account account d = (Ok c, d') ->
  exists tok, c = CredOAuth2Bearer (access_token tok) /\ (last_read d' < expires_at tok)%Z /\
    token_kept (acc_id account) tok d d'.
Proof.
  unfold credential_for_account. intros ->.
  intros (o & d1 & H1 & (stored & d2 & H2 & H)%mbind_M_inv_Ok)%mbind_M_inv_Ok.
  unfold mlift in H2. injection H2 as H2 ->. destruct o as [x|]; cbn in H2; [|done]. injection H2 as ->.
  apply mbind_M_inv_Ok in H as (tok & d3 & H3 & [= <- <-]).
  apply load_stored_Ok in H1 as (_ & Hv & text & Ht & Hj).
  apply fresh_oauth_Ok in H3 as [Hl Hs]. exists tok. split_and!; [done|done|].
  exists (stored_config stored). destruct Hs as [[-> Hs]|Hs]; [left|right; by rewrite Hs, Hv].
  split; [by rewrite Hs|]. exists text. split; [done|]. by destruct stored.
Qed.
End Bearer.
