(* ===== verification/DaemonTrial.v ===== *)
(** * A daemon to try the properties on

    Concrete services: a secret store in memory, an SMTP server that accepts
    everything, one file of the user, an IMAP server with nothing new and a token
    endpoint that refuses; and the witnesses of the daemon's properties. *)

From stdpp Require Import relations gmap.
From S2P Require Import Prelude RustStr Json SqlQuery Op IpcProtocol McpGates McpTools McpModels MailParser Utf8 MailThreading MailReply MailBuilder ImapWindow DbCore DbMail DbInv DbDrafts Attachments AttachmentFiles Auth Smtp Secrets OAuth Reconciler ReconcilerProps Worker Manager Search DbMcp Dispatcher DispatcherProps Daemon DaemonOps DaemonRun DaemonProps DaemonSend.

(** ** Services *)

Definition memory_store : SecretStore (gmap N str) :=
  {| ss_put id secret := fun s => (Ok tt, <[id := secret]> s);
     ss_get id := fun s => (Ok (s !! id), s);
     ss_delete id := fun s => (Ok tt, delete id s);
     ss_secret_ref id := lit "memory" |}.
#[local] Existing Instances memory_store plain_parsers.
Definition memory_store_laws : SecretStoreLaws (gmap N str).
Proof.
  refine {| ss_view s := s |}.
  - by intros id secret s r s' [= <- <-].
  - intros id s r s' [= <- <-]. by split; [|intros v [= <-]].
  - by intros id s r s' [= <- <-].
Defined.

Definition trial_lettre : Lettre :=
  {| address_parse s := if is_empty s then Err (lit "empty") else Ok s;
     tls_parameters_new _ := Ok tt; missing_to_text := lit "missing";
     send_raw _ _ _ _ := Ok tt |}.
Definition trial_config : GoogleOAuthConfig := gmail (lit "id") (lit "secret") (lit "http://localhost").
Definition trial_token : GoogleOAuthToken :=
  mkGoogleOAuthToken (lit "access") (lit "refresh") (OAuth.seconds 30) (lit "Bearer") None.
(** Knows one text: the stored token. *)
Definition trial_codec : JsonCodec :=
  {| from_str t := if str_eqb t (lit "stored")
                   then Some (stored_to_json (mkStoredGoogleOAuth trial_config trial_token)) else None;
     to_string _ := []; to_string_pretty _ := [] |}.
Definition trial_draft : NewDraft :=
  mkNewDraft 1 None [lit " bob@x "] [] [lit "eve@x"] (Some (lit "hi")) (Some (lit "text")) None None None.
Definition trial_drafts : DraftCodec :=
  {| new_draft_of_json _ := Ok trial_draft;
     draft_update_of_json _ := Err [];
     specs_of_json _ := Ok [mkDraftAttachmentSpec (lit "/home/a.txt") None None];
     draft_to_json x := VString (uuid_to_string (dr_id x)); preview_to_json _ := VNull;
     export_to_json _ := VNull; report_to_json _ := VNull |}.
Definition trial_texts : ServiceTexts :=
  {| secret_error_text _ := []; attachment_error_text _ := []; oauth_decode_text s := s;
     to_rfc2822 _ := lit "Thu, 1 Jan 1970 00:00:00 +0000" |}.
(** The file grew after its size was read. *)
Definition trial_files : UserFiles :=
  {| fs_metadata _ _ := Ok (true, 2%N); fs_open_bytes _ _ := Ok [104; 105; 33]%N;
     mime_from_path _ := None |}.
Definition trial_auth : ImapAuth := {| test_login _ _ _ _ _ := Ok [] |}.
Definition refusing_endpoint : TokenEndpoint := {| post_form _ _ := Err (lit "unreachable") |}.
#[local] Existing Instances trial_lettre lettre_submitter trial_codec trial_drafts trial_texts trial_files
  trial_auth refusing_endpoint http_client silent_rows silent_errors fts_all like_sqlite
  one_row_engine ascii_case plain_io example_parser example_server.

(** ** State and requests *)

Definition no_tables : Db := mkDb [] [] [] [] [] [] [] [] [] [].
Definition daemon_of (d : Db) (secrets : gmap N str) : Daemon (gmap N str) :=
  mkDaemon (mkWorld d 10 [] (fun n => Z.of_nat n) 0 [] [] []) secrets [] (no_workers false false) 0.
Definition trial_dispatch (op : Op) (args : value) (d : Daemon (gmap N str)) : Daemon (gmap N str) :=
  (daemon_dispatch (fun _ => []) (fun _ => []) (lit "/att") 3 op args d).2.
Definition trial_step : Daemon (gmap N str) -> Daemon (gmap N str) -> Prop :=
  daemon_step (fun _ => []) (fun _ => []) (lit "/att") 3.

Lemma trial_served op args d : rtc trial_step d (trial_dispatch op args d).
Proof. apply rtc_once. eapply serves_request. apply surjective_pairing. Qed.

Lemma no_workers_inv idle resolver : manager_inv (no_workers idle resolver).
Proof.
  split; [constructor|]. split; [|done]. intros k i H. by apply elem_of_nil in H.
Qed.

Definition race_daemon : Daemon (gmap N str) := daemon_of (db race_world) ∅.
Lemma race_daemon_ok : store_inv (dm_world race_daemon).
Proof. repeat constructor. Qed.

Lemma approval_lifecycle_witness :
  let d' := trial_dispatch McpApprovalDecide allow_request race_daemon in
  exists b, table (dm_world d') !! 0%nat = Some b /\ approval_state b = Allowed /\
    decided_by b = Some (lit "mcp:tui").
Proof.
  intros d'.
  destruct (approval_lifecycle (fun _ => []) (fun _ => []) (lit "/att") 3 race_daemon d' 0
    (pending_approval 3 (lit "send") VNull (lit "send") 0)
    race_daemon_ok (no_workers_inv _ _) (trial_served _ _ _)) as [Hl _].
  destruct (Hl (pending_approval 3 (lit "send") VNull (lit "send") 0) eq_refl) as (b & Hb & _).
  exists b. split; [exact Hb|]. revert Hb. vm_compute. by intros [= <-].
Defined.

Lemma daemon_keeps_integrity_witness :
  let d' := trial_dispatch McpApprovalDecide allow_request race_daemon in
  store_inv (dm_world d') /\ map aud_actor (audit_log (db (dm_world d'))) = [lit "mcp:tui"].
Proof.
  intros d'. split; [|vm_compute; reflexivity].
  apply (daemon_keeps_integrity (fun _ => []) (fun _ => []) (lit "/att") 3 race_daemon d'
    race_daemon_ok (no_workers_inv _ _) (trial_served _ _ _)).
Defined.

(** An account, and a draft created with a file attached. *)
Definition mail_account (kind : AuthKind) : Account :=
  mkAccount 1 (lit "me@x") None kind (lit "imap.x") 993 true (lit "smtp.x") 587 false true None None
    SyncIdle None 0 0.
Definition mail_daemon : Daemon (gmap N str) :=
  daemon_of (mkDb [mail_account AuthPassword] [] [] [] [] [] [] [] [] []) {[ 1%N := lit "pw" ]}.
Definition create_request : value := json [(lit "attachments", VArray [VNull])].
Definition drafted : Daemon (gmap N str) := trial_dispatch DraftCreate create_request mail_daemon.

Lemma mail_daemon_ok : store_inv (dm_world mail_daemon).
Proof. repeat constructor. by intros ?%elem_of_nil. Qed.

(** The creation of that draft, statement by statement, with a request of another
    client before its attachment is inserted. *)
Definition trial_file : PreparedDraftAttachment :=
  mkPreparedDraftAttachment (lit "a.txt") (guess_content_type_for_path (lit "/home/a.txt")) [104; 105; 33]%N.
Definition half_created : Daemon (gmap N str) := (on_world (drafts_create trial_draft) mail_daemon).2.
Definition half_cleared : Daemon (gmap N str) :=
  (on_world (draft_attachments_delete_all_for_draft 10) half_created).2.
Definition meanwhile : Daemon (gmap N str) := trial_dispatch DraftList (json []) half_cleared.
Definition half_inserted : Daemon (gmap N str) :=
  (on_world (draft_attachments_create (new_attachment 10 trial_file)) meanwhile).2.

Abbreviation trial_draft_step := (draft_step (fun _ => []) (fun _ => []) (lit "/att") 3).
Lemma trial_begins : trial_draft_step (mail_daemon, []) (half_created, [mkCreation 10 (Clearing [trial_file])]).
Proof.
  assert (H : on_world (E := DbError) (drafts_create trial_draft) mail_daemon = (Ok (mkDraft 10 trial_draft None None 0 0), half_created))
    by (vm_compute; reflexivity).
  eapply (creation_begins _ _ _ _ _ [] (Some [mkDraftAttachmentSpec (lit "/home/a.txt") None None])
            [trial_file] mail_daemon _ trial_draft (mkDraft 10 trial_draft None None 0 0)); [vm_compute; reflexivity|exact H|].
  apply not_elem_of_nil.
Qed.
Lemma trial_inserts :
  trial_draft_step (meanwhile, [mkCreation 10 (Inserting [trial_file])]) (half_inserted, [mkCreation 10 (Inserting [])]).
Proof.
  assert (H : is_ok (on_world (E := DbError) (draft_attachments_create (new_attachment 10 trial_file)) meanwhile).1 = true)
    by (vm_compute; reflexivity).
  pose proof (creation_inserts (fun _ => []) (fun _ => []) (lit "/att") 3 meanwhile [] 10 trial_file [] [] _ _
    (surjective_pairing _)) as Hi.
  rewrite H in Hi. exact Hi.
Qed.
Lemma trial_creation : rtc trial_draft_step (mail_daemon, []) (half_inserted, []).
Proof.
  eapply rtc_l; [exact trial_begins|].
  eapply rtc_l; [apply (creation_clears _ _ _ _ half_created [] 10 [trial_file] [] 0 half_cleared); vm_compute; reflexivity|].
  eapply rtc_l; [apply (others_step _ _ _ _ _ _ meanwhile); [eapply serves_request, surjective_pairing|]|].
  { intros c ->%list_elem_of_singleton. vm_compute. discriminate. }
  eapply rtc_l; [exact trial_inserts|]. apply rtc_once. apply (creation_ends _ _ _ _ half_inserted [] 10 []).
Qed.

Lemma drafts_within_limit_witness :
  attached_bytes 10 (db (dm_world half_inserted)) = 3%Z /\ (3 <= 26214400)%Z.
Proof.
  assert (attached_bytes 10 (db (dm_world half_inserted)) = 3%Z) as H by (vm_compute; reflexivity).
  split; [exact H|]. rewrite <- H.
  apply (drafts_within_limit (fun _ => []) (fun _ => []) (lit "/att") 3 mail_daemon half_inserted [] 10
    mail_daemon_ok (no_workers_inv _ _)); [|exact trial_creation].
  intros id. vm_compute. discriminate.
Defined.

Definition send_request : value :=
  json [(lit "account_id", VString [1%N]); (lit "draft_id", VString [10%N])].
Definition sent : Daemon (gmap N str) := trial_dispatch MessageSend send_request drafted.


Lemma secrets_only_over_tls_witness :
  match dm_wire sent with
  | t :: _ => tr_secret (tx_transport t) = lit "pw" /\
      (tr_tls (tx_transport t) = TlsWrapper (tr_host (tx_transport t)) \/
       tr_tls (tx_transport t) = TlsRequired (tr_host (tx_transport t)))
  | [] => False
  end.
Proof.
  assert (Hs : option_map (fun t => tr_secret (tx_transport t)) (head (dm_wire sent)) = Some (lit "pw"))
    by (vm_compute; reflexivity).
  destruct (dm_wire sent) as [|t l] eqn:E; [discriminate Hs|]. cbn in Hs. injection Hs as Hs.
  split; [exact Hs|].
  apply (secrets_only_over_tls (fun _ => []) (fun _ => []) (lit "/att") 3 mail_daemon sent t
    mail_daemon_ok (no_workers_inv _ _) eq_refl).
  - transitivity drafted; [exact (trial_served DraftCreate create_request mail_daemon)|].
    exact (trial_served MessageSend send_request drafted).
  - rewrite E. left.
  - rewrite Hs. discriminate.
Defined.

(** Fifteen seconds of the token are left, so a refresh is tried and fails. *)
Definition google_daemon : Daemon (gmap N str) :=
  mkDaemon (mkWorld (mkDb [mail_account OAuth2Google] [] [] [] [] [] [] [] [] []) 10 []
              (fun n => OAuth.seconds 15) 0 [] [] [])
    {[ 1%N := lit "stored" ]} [] (no_workers false false) 0.

Lemma bearer_is_current_witness :
  match credential_for_account (mail_account OAuth2Google) google_daemon with
  | (Ok c, d') => c = CredOAuth2Bearer (lit "access") /\ (last_read d' < OAuth.seconds 30)%Z
  | _ => False
  end.
Proof.
  destruct (credential_for_account (mail_account OAuth2Google) google_daemon) as [[c|e] d'] eqn:E;
    [|vm_compute in E; discriminate E].
  destruct (bearer_is_current (LAWS := memory_store_laws) (mail_account OAuth2Google) google_daemon c d'
              eq_refl E) as (tok & _ & _ & _).
  vm_compute in E. injection E as <- <-. split; [reflexivity|]. vm_compute. reflexivity.
Defined.
