(* ===== verification/System.v ===== *)
(** * The bridge and the daemon together

    The MCP bridge of [McpBridge] talks to the daemon of [DaemonOps]: the system
    is an instance of the bridge's interface [DaemonBridge] over the daemon's
    state.  Before each of the bridge's requests and waits other clients and the
    sync workers may take any number of the daemon's steps; a request or its reply
    may be lost with the connection; the subscription delivers the daemon's events
    in order, may lag and lose some, and may close.  A ghost log keeps each request
    the daemon served for the bridge with the state of the daemon it was served
    in, so that the theorem can speak of those states. *)

From stdpp Require Import relations gmap.
From S2P Require Import Prelude RustStr Json SqlQuery Op IpcProtocol McpGates McpTools McpProtocol McpModels McpBridge MailParser Utf8 MailThreading MailReply MailBuilder ImapWindow DbCore DbMail DbInv DbDrafts Attachments AttachmentFiles Auth Smtp Secrets OAuth Reconciler Worker Manager Search DbMcp Dispatcher DispatcherProps Daemon DaemonOps DaemonRun DaemonProps DaemonSend DaemonTrial ReconcilerProps.
#[local] Open Scope bool_scope.

(** What becomes of a request on the socket, and what the event stream yields. *)
Inductive delivery : Type :=
| Delivered
| LostRequest (e : str)
| LostReply (e : str).
Inductive arrival : Type :=
| NoneInTime
| StreamClosed
| NextEvent
| LaggedBy (n : nat).

(** A request the daemon served, and its state when it did. *)
Record Served (S : Type) : Type := mkServed { sv_op : str; sv_args : value; sv_daemon : Daemon S }.
Arguments mkServed {S} _ _ _.
Arguments sv_op {S} _.
Arguments sv_args {S} _.
Arguments sv_daemon {S} _.

Record System (S : Type) : Type := mkSystem {
  sy_daemon : Daemon S;
  sy_turn : nat;
  (** events the subscription has passed, in the daemon's log *)
  sy_cursor : nat;
  (** what the daemon served for the bridge so far, oldest first *)
  sy_served : list (Served S);
}.
Arguments mkSystem {S} _ _ _ _.
Arguments sy_served {S} _.
Arguments sy_daemon {S} _.
Arguments sy_turn {S} _.
Arguments sy_cursor {S} _.

Section System.
Context {S : Type} {SS : SecretStore S}.
Context {TP : TextParsers} {JC : JsonCodec} {RC : RowCodec} {ET : ErrorTexts}
        {FT : Fts} {SL : SqlLike} {SE : SqlEngine} {UC : UnicodeCase}.
Context {DC : DraftCodec} {ST : ServiceTexts} {IO : HostIo} {UF : UserFiles}
        {MP : MessageParser} {IS : ImapSync} {IA : ImapAuth} {GO : GoogleOAuth} {SM : SmtpSubmitter}.
Context (addrs_text : list str -> str) (base64 : list N -> str) (root : str) (fuel : nat).
(** The others' steps, the socket and the stream, per turn of the bridge. *)
Context (others : nat -> Daemon S -> Daemon S) (socket : nat -> delivery) (stream : nat -> arrival).

Abbreviation dispatch_op := (daemon_dispatch addrs_text base64 root fuel).
Abbreviation step := (daemon_step addrs_text base64 root fuel).

Hypothesis others_step : forall n d, rtc step d (others n d).

(** [IpcDaemon::request]: an error reply keeps its code and message. *)
Definition bridge_reply (r : result RpcError value) : result BridgeError value :=
  map_err (fun e => BDaemon (err_code e) (err_message e)) r.

(** The server's part: parse the operation, dispatch. *)
Definition serve (op : str) (args : value) (d : Daemon S) : result RpcError value * Daemon S :=
  match op_from_str op with
  | Some o => dispatch_op o args d
  | None => (Err (rpc_unknown_op op), d)
  end.

Definition system_request (op : str) (args : value) (s : System S) : result BridgeError value * System S :=
  let d := others (sy_turn s) (sy_daemon s) in
  let next d l := mkSystem d (Datatypes.S (sy_turn s)) (sy_cursor s) (sy_served s ++ l) in
  match socket (sy_turn s) with
  | LostRequest e => (Err (BIpc e), next d [])
  | LostReply e => (Err (BIpc e), next (serve op args d).2 [mkServed op args d])
  | Delivered => (bridge_reply (serve op args d).1, next (serve op args d).2 [mkServed op args d])
  end.

(** A fresh connection, subscribed from now on. *)
Definition system_subscribe (t : Topic) (s : System S) : result BridgeError unit * System S :=
  let d := others (sy_turn s) (sy_daemon s) in
  match socket (sy_turn s) with
  | Delivered => (Ok tt, mkSystem d (Datatypes.S (sy_turn s)) (List.length (events (dm_world d))) (sy_served s))
  | LostRequest e | LostReply e => (Err (BIpc e), mkSystem d (Datatypes.S (sy_turn s)) (sy_cursor s) (sy_served s))
  end.

Definition is_decided (e : Topic * value) : bool := bool_decide (e.1 = McpApprovalDecided).

(** The next event of the topic after the cursor: how many entries to pass, and
    its payload. *)
Fixpoint next_decided (l : list (Topic * value)) : option (nat * value) :=
  match l with
  | [] => None
  | e :: r => if is_decided e then Some (1%nat, e.2) else (fun p => (Datatypes.S p.1, p.2)) <$> next_decided r
  end.

Definition decided_topic_event (data : value) : Event :=
  mkEvent 1 (topic_as_str McpApprovalDecided) data.

Definition system_wait (s : System S) : Wait * System S :=
  let d := others (sy_turn s) (sy_daemon s) in
  let next cursor := mkSystem d (Datatypes.S (sy_turn s)) cursor (sy_served s) in
  match stream (sy_turn s) with
  | NoneInTime => (WTimeout, next (sy_cursor s))
  | StreamClosed => (WClosed, next (sy_cursor s))
  | LaggedBy n => (WRecv (decided_topic_event (json [(lit "lagged", VNumber (NInt (Z.of_nat n)))])),
                   next (sy_cursor s + n)%nat)
  | NextEvent =>
      match next_decided (drop (sy_cursor s) (events (dm_world d))) with
      | Some (k, data) => (WRecv (decided_topic_event data), next (sy_cursor s + k)%nat)
      | None => (WTimeout, next (sy_cursor s))
      end
  end.

#[local] Instance system_bridge : DaemonBridge (System S) :=
  {| d_request := system_request; d_subscribe := system_subscribe; d_wait := system_wait |}.

(** ** What a trace says about the daemon *)

(** What an event of the stream says of the state it was taken in. *)
Definition event_of (d : Daemon S) (ev : Event) : Prop :=
  (exists n, ev_data ev = json [(lit "lagged", VNumber (NInt (Z.of_nat n)))]) \/
  (McpApprovalDecided, ev_data ev) ∈ events (dm_world d).

(** The run of the daemon behind a trace: from [d] to [d'], with the requests
    that were served and the states they were served in. *)
Inductive ran : Daemon S -> list item -> list (Served S) -> Daemon S -> Prop :=
| ran_idle d d' : rtc step d d' -> ran d [] [] d'
| ran_served d d1 op args r t l d' :
    rtc step d d1 -> (r = bridge_reply (serve op args d1).1 \/ exists e, r = Err (BIpc e)) ->
    ran (serve op args d1).2 t l d' -> ran d (TReq op args r :: t) (mkServed op args d1 :: l) d'
| ran_lost d d1 op args e t l d' :
    rtc step d d1 -> ran d1 t l d' -> ran d (TReq op args (Err e) :: t) l d'
| ran_subscribed d d1 topic t l d' : rtc step d d1 -> ran d1 t l d' -> ran d (TSub topic :: t) l d'
| ran_event d d1 ev t l d' : rtc step d d1 -> event_of d1 ev -> ran d1 t l d' -> ran d (TEvent ev :: t) l d'.

(** An item of the trace is explained by a moment between [d] and [d']. *)
Definition explained (d d' : Daemon S) (it : item) : Prop :=
  match it with
  | TReq op args (Ok reply) =>
      exists o d1 d2, op_from_str op = Some o /\ rtc step d d1 /\
        dispatch_op o args d1 = (Ok reply, d2) /\ rtc step d2 d'
  | TEvent ev => exists d1, rtc step d d1 /\ rtc step d1 d' /\ event_of d1 ev
  | _ => True
  end.

Definition accounts_for {A} (m : T (System S) A) : Prop :=
  forall s t r s', m s = (t, r, s') ->
    exists l, sy_served s' = sy_served s ++ l /\ ran (sy_daemon s) t l (sy_daemon s').

Lemma serve_step op args d r d' : serve op args d = (r, d') -> rtc step d d'.
Proof.
  unfold serve. destruct (op_from_str op) as [o|]; [|by intros [= _ <-]].
  intros H. apply rtc_once. by eapply serves_request.
Qed.

Lemma ran_before d0 d t l d' : rtc step d0 d -> ran d t l d' -> ran d0 t l d'.
Proof.
  intros H0 H. revert d0 H0. destruct H as [d d' H|d d1 op args r t l d' H Hr Hk|d d1 op args e t l d' H Hk|d d1 topic t l d' H Hk|d d1 ev t l d' H He Hk];
    intros d0 H0; pose proof (transitivity H0 H) as H1;
    [by apply ran_idle|by apply (ran_served _ d1)|by apply (ran_lost _ d1)|by apply (ran_subscribed _ d1)|by apply (ran_event _ d1)].
Qed.
Lemma ran_app d t1 l1 d1 t2 l2 d2 : ran d t1 l1 d1 -> ran d1 t2 l2 d2 -> ran d (t1 ++ t2) (l1 ++ l2) d2.
Proof. intros H. revert t2 l2 d2. induction H; intros t2 l2 d2 H2; cbn;
  [by eapply ran_before|eapply ran_served|eapply ran_lost|eapply ran_subscribed|eapply ran_event]; eauto.
Qed.
Lemma ran_split d t1 t2 l d2 :
  ran d (t1 ++ t2) l d2 -> exists l1 l2 d1, l = l1 ++ l2 /\ ran d t1 l1 d1 /\ ran d1 t2 l2 d2.
Proof.
  revert d l. induction t1 as [|it t1 IH]; intros d l H; cbn in H.
  - exists [], l, d. split_and!; [done|by constructor|done].
  - inversion H; subst;
      match goal with Hr : ran _ (t1 ++ t2) _ _ |- _ => apply IH in Hr as (m1 & m2 & dm & -> & K1 & K2) end;
    [eexists (_ :: m1), m2, dm|eexists m1, m2, dm..]; split_and!; try done;
    [eapply ran_served|eapply ran_lost|eapply ran_subscribed|eapply ran_event]; eauto.
Qed.
Lemma ran_rtc d t l d' : ran d t l d' -> rtc step d d'.
Proof. induction 1; try by etransitivity. etransitivity; [done|]. etransitivity; [|done]. by eapply serve_step, surjective_pairing. Qed.

Lemma explained_wider d0 d d' it : rtc step d0 d -> explained d d' it -> explained d0 d' it.
Proof.
  intros H0. destruct it as [op args [reply|e]|t|ev]; cbn; try done.
  - intros (o & a & b & Ho & Ha & Hd & Hb). exists o, a, b. split_and!; [done|by etransitivity|done..].
  - intros (a & Ha & Hb & Hin). exists a. split_and!; [by etransitivity|done..].
Qed.
Lemma ran_explained d t l d' : ran d t l d' -> Forall (explained d d') t.
Proof.
  induction 1 as [|d d1 op args r t l d' H0 Hr H IH|d d1 op args e t l d' H0 H IH|d d1 topic t l d' H0 H IH|d d1 ev t l d' H0 He H IH];
    [constructor|..]; (constructor; [|eapply Forall_impl; [exact IH|]; intros it; apply explained_wider]); try done.
  - destruct Hr as [->|[e ->]]; [|done]. destruct (serve op args d1) as [[reply|e] d2] eqn:Es; cbn; [|done]. cbn in H.
    unfold serve in Es. destruct (op_from_str op) as [o|] eqn:Eo; [|done]. exists o, d1, d2. split_and!; [done..|by eapply ran_rtc].
  - etransitivity; [done|]. by eapply serve_step, surjective_pairing.
  - cbn. exists d1. split_and!; [done|by eapply ran_rtc|done].
Qed.
(** A served request is one of the trace. *)
Lemma ran_served_in d t l d' x : ran d t l d' -> x ∈ l -> exists r, In (TReq (sv_op x) (sv_args x) r) t.
Proof.
  induction 1 as [|d d1 op args r t l d' H0 Hr H IH|d d1 op args e t l d' H0 H IH|d d1 topic t l d' H0 H IH|d d1 ev t l d' H0 He H IH];
    intros Hx; [by apply elem_of_nil in Hx|..]; try by destruct (IH Hx) as [r0 ?]; exists r0; right.
  apply elem_of_cons in Hx as [->|Hx]; [by exists r; left|]. destruct (IH Hx) as [r0 ?]. exists r0. by right.
Qed.
(** An answered request of the trace was served. *)
Lemma ran_answered d t l d' op args reply :
  ran d t l d' -> In (TReq op args (Ok reply)) t ->
  exists d1, mkServed op args d1 ∈ l /\ (serve op args d1).1 = Ok reply.
Proof.
  induction 1 as [|d d1 op' args' r t l d' H0 Hr H IH|d d1 op' args' e t l d' H0 H IH|d d1 topic t l d' H0 H IH|d d1 ev t l d' H0 He H IH];
    intros Hin; [done|..]; destruct Hin as [Heq|Hin]; try done; try by (destruct (IH Hin) as (x & Hx & Hs); exists x; split; [try (by right); done|done]).
  injection Heq as -> -> ->. exists d1. split; [by left|]. destruct Hr as [Hr|[e Hr]]; [|done].
  destruct (serve op args d1) as [[v|e] d2]; cbn in *; [by injection Hr as ->|done].
Qed.

Lemma accounts_ret {A} (a : A) : accounts_for (tret a).
Proof. intros s t r s' [= <- _ <-]. exists []. by split; [rewrite app_nil_r|constructor]. Qed.
Lemma accounts_throw {A} e : accounts_for (tthrow e : T (System S) A).
Proof. intros s t r s' [= <- _ <-]. exists []. by split; [rewrite app_nil_r|constructor]. Qed.
Lemma accounts_bind {A B} (m : T (System S) A) (k : A -> T (System S) B) :
  accounts_for m -> (forall a, accounts_for (k a)) -> accounts_for (tbind k m).
Proof.
  intros Hm Hk s t r s' [(t1 & a & s1 & t2 & H1 & H2 & ->)|(e & H1 & _)]%tbind_inv; [|by eapply Hm].
  apply Hm in H1 as (l1 & Hl1 & H1). apply Hk in H2 as (l2 & Hl2 & H2).
  exists (l1 ++ l2). split; [by rewrite Hl2, Hl1, app_assoc|by eapply ran_app].
Qed.

Lemma accounts_request op args : accounts_for (request op args).
Proof.
  intros s t r s'. unfold request. cbn. unfold system_request.
  pose proof (others_step (sy_turn s) (sy_daemon s)) as He.
  destruct (socket (sy_turn s)); intros [= <- <- <-]; (eexists; split; [reflexivity|]); cbn.
  - eapply ran_served; [exact He|by left|by constructor].
  - eapply ran_lost; [exact He|by constructor].
  - eapply ran_served; [exact He|by right; eexists|by constructor].
Qed.

Lemma accounts_subscribe t : accounts_for (subscribe t).
Proof.
  intros s tr r s'. unfold subscribe. cbn. unfold system_subscribe.
  pose proof (others_step (sy_turn s) (sy_daemon s)) as He.
  destruct (socket (sy_turn s)); intros [= <- _ <-]; exists []; (split; [by rewrite app_nil_r|]);
    (eapply ran_subscribed; [exact He|by constructor]).
Qed.

Lemma next_decided_in l k v : next_decided l = Some (k, v) -> (McpApprovalDecided, v) ∈ l.
Proof.
  revert k. induction l as [|[t x] l IH]; intros k; cbn; [done|]. unfold is_decided. cbn.
  case_bool_decide as Ht.
  - intros [= _ <-]. subst t. left.
  - destruct (next_decided l) as [[j y]|]; cbn; [|done]. intros [= _ <-]. right. by eapply IH.
Qed.

Lemma accounts_select : accounts_for select_round.
Proof.
  intros s t r s'. unfold select_round. cbn. unfold system_wait.
  pose proof (others_step (sy_turn s) (sy_daemon s)) as He.
  destruct (stream (sy_turn s)).
  - intros [= <- _ <-]. exists []. split; [by rewrite app_nil_r|by constructor].
  - intros [= <- _ <-]. exists []. split; [by rewrite app_nil_r|by constructor].
  - destruct (next_decided _) as [[k v]|] eqn:En; intros [= <- _ <-]; exists [];
      (split; [by rewrite app_nil_r|]); [|by constructor].
    eapply ran_event; [exact He| |by constructor]. right. cbn.
    apply next_decided_in in En. eapply elem_of_submseteq; [exact En|]. apply sublist_submseteq, sublist_drop.
  - intros [= <- _ <-]. exists []. split; [by rewrite app_nil_r|].
    eapply ran_event; [exact He| |by constructor]. left. by exists n.
Qed.

Context (decode_error : str).

Ltac accounts_go :=
  repeat first [ apply accounts_ret | apply accounts_throw | apply accounts_request | apply accounts_subscribe
               | apply accounts_select | apply accounts_bind; [|intros] | case_match ].

Lemma accounts_get_approval id : accounts_for (get_approval decode_error id).
Proof. unfold get_approval. accounts_go. Qed.
Lemma accounts_expire id : accounts_for (expire_approval decode_error id).
Proof. unfold expire_approval, get_approval. accounts_go. Qed.
Lemma accounts_wait_loop budget id : accounts_for (wait_loop decode_error budget id).
Proof.
  induction budget as [|b IH]; cbn [wait_loop]; [apply accounts_expire|].
  apply accounts_bind; [apply accounts_select|]. intros [|ev|]; [apply accounts_expire| |].
  - case_match; [apply accounts_ret|]. case_match; [|done].
    apply accounts_bind; [apply accounts_get_approval|]. intros a. case_match; [done|apply accounts_ret].
  - apply accounts_bind; [apply accounts_get_approval|]. intros a.
    case_match; [apply accounts_expire|apply accounts_ret].
Qed.
Lemma accounts_call_tool budget tool args : accounts_for (call_tool decode_error budget tool args).
Proof.
  unfold call_tool. case_match; [apply accounts_request|].
  apply accounts_bind; [unfold gate_decision; accounts_go|].
  intros [| |]; [apply accounts_request|apply accounts_throw|].
  unfold call_after_required_approval, create_approval, wait_for_approval, forward_dangerous_tool.
  apply accounts_bind; [accounts_go|]. intros a. apply accounts_bind; [|intros st; accounts_go].
  apply accounts_bind; [accounts_go|]. intros _. apply accounts_bind; [apply accounts_get_approval|].
  intros x. case_match; [apply accounts_wait_loop|apply accounts_ret].
Qed.

(** ** What the daemon's replies mean *)

Lemma dispatch_world o args m d r d' :
  dispatch addrs_text base64 o args = Some m -> dispatch_op o args d = (r, d') ->
  exists w', m (dm_world d) = (r, w') /\ dm_world d' = w'.
Proof.
  intros Hm. unfold daemon_dispatch. rewrite Hm. unfold on_world.
  destruct (m (dm_world d)) as [r1 w1]. intros [= <- <-]. eauto.
Qed.

(** [mcp.gate.list] answers with the tool's rows. *)
Lemma gate_list_reply tool d reply d' :
  dispatch_op McpGateList (json [(lit "tool", VString tool)]) d = (Ok reply, d') ->
  gates_of_json reply = Some (order_by (fun a b => gate_created_at a <=? gate_created_at b)%Z
    (List.filter (fun g => str_eqb (gate_tool g) tool) (mcp_gates (db (dm_world d))))).
Proof.
  intros H. eapply dispatch_world in H as (w' & H & _); [|reflexivity]. unfold op_mcp_gate_list in H.
  replace (vget _ _ ≫= as_str) with (Some tool) in H by (json_eval; reflexivity).
  unfold encode in H. apply mbind_M_inv_Ok in H as (rows & w1 & H1 & [= <- _]).
  apply mmap_err_Ok, query_Ok in H1 as [-> _]. apply gates_json_round_trip.
Qed.

(** [mcp.approval.get] answers with a row of the table. *)
Lemma approval_get_reply id d reply d' a :
  dispatch_op McpApprovalGet (id_args id) d = (Ok reply, d') -> approval_of_json reply = Some a ->
  a ∈ table (dm_world d) /\ approval_id a = id.
Proof.
  intros H Ha. eapply dispatch_world in H as (w' & H & _); [|reflexivity]. unfold op_mcp_approval_get in H.
  assert (Hid : parse_uuid (id_args id) (lit "id") = Ok id).
  { unfold parse_uuid, parse_id, id_args. json_eval. cbn. by rewrite uuid_round_trip. }
  rewrite Hid in H. apply mbind_M_inv_Ok in H as (i & w1 & [= <- <-] & H).
  unfold encode in H. apply mbind_M_inv_Ok in H as (row & w2 & H1 & [= <- _]).
  apply mmap_err_Ok, query_Ok in H1 as [Hrow _]. destruct row as [b|]; [|done]. cbn [opt_to_json] in Ha.
  rewrite approval_json_round_trip in Ha. injection Ha as ->. symmetry in Hrow.
  apply List.find_some in Hrow as [Hin Heq]. split; [by apply list_elem_of_In|by apply N.eqb_eq].
Qed.

(** [mcp.approval.create] answers with the pending row it added. *)
Lemma approval_create_reply tool args d reply d' a :
  dispatch_op McpApprovalCreate (approval_request tool args) d = (Ok reply, d') ->
  approval_of_json reply = Some a ->
  a ∈ table (dm_world d') /\ approval_tool a = tool_name tool /\ approval_args a = args /\
  approval_state a = Pending.
Proof.
  intros H Ha. eapply dispatch_world in H as (w' & H & ->); [|reflexivity].
  unfold op_mcp_approval_create in H.
  apply mbind_M_inv_Ok in H as (t & w1 & H1 & H). unfold mlift in H1. injection H1 as Ht <-.
  apply mbind_M_inv_Ok in H as (sm & w1 & H1 & H). unfold mlift in H1. injection H1 as _ <-.
  apply mbind_M_inv_Ok in H as (row & w1 & H1 & H).
  apply mbind_M_inv_Ok in H as (u & w2 & H2 & H).
  apply mbind_M_inv_Ok in H as (u' & w3 & H3 & [= <- <-]).
  rewrite approval_json_round_trip in Ha. injection Ha as ->.
  apply audit_table in H2. injection H3 as _ <-. unfold table at 1. cbn. fold (table w2). rewrite H2.
  apply mmap_err_Ok, insert_cases in H1 as [_ [(b & now & [= <-] & [= Hb Hd])|(e & [=] & _)]].
  unfold table. rewrite <- Hd. cbn. rewrite <- Hb. cbn.
  assert (t = tool_name tool) as ->.
  { unfold parse_str, approval_request in Ht. revert Ht. json_eval. cbn. unfold opt_filter.
    by destruct (negb (is_empty (tool_name tool))); [intros [= <-]|]. }
  split_and!; [|done| |done]; [apply elem_of_app; right; by left|].
  unfold approval_request. json_eval. reflexivity.
Qed.

(** ** End to end *)

Definition sound (d : Daemon S) : Prop :=
  store_inv (dm_world d) /\ manager_inv (dm_manager d) /\ approvals_ok (dm_world d) /\ decided_ok (dm_world d).

Lemma sound_run d d' :
  sound d -> rtc step d d' -> sound d' /\ approvals_grow (table (dm_world d)) (table (dm_world d')).
Proof.
  intros (Hs & Hm & Hi & He) Hr.
  destruct (daemon_run_inv addrs_text base64 root fuel _ any_wire any_wire_kept _ _
              (daemon_inv_start d Hs Hm) Hr) as [[Hs' Hg _ _ Hi' He'] Hm' _].
  split; [|done]. split_and!; auto.
Qed.

Lemma match_decided id a ev :
  ev_data ev = decided_event a ->
  match_decided_event id ev = if (approval_id a =? id)%N then Some (approval_state a) else None.
Proof.
  intros Hd. unfold match_decided_event. rewrite Hd. unfold decided_event, id_json, json, as_object, obj_of.
  cbn [mbind option_bind]. rewrite !map_get_obj_of. cbn [rev app map_get]. eval_lits.
  cbn [mbind option_bind as_str]. rewrite uuid_round_trip. cbn [mbind option_bind].
  by rewrite approval_state_round_trip.
Qed.

(** What the bridge saw of an allowed approval is a row of the daemon's table. *)
Lemma evidence_row id t d d' :
  sound d -> Forall (explained d d') t -> allowed_evidence id t ->
  exists a, a ∈ table (dm_world d') /\ approval_id a = id /\ approval_state a = Allowed.
Proof.
  intros Hsd HF. rewrite List.Forall_forall in HF. intros [(reply & a & Hin & Ha & Hst)|(ev & Hin & Hm)].
  - destruct (HF _ Hin) as (o & d1 & d2 & Ho & H1 & Hd & H2).
    assert (o = McpApprovalGet) as -> by (vm_compute in Ho; congruence).
    eapply approval_get_reply in Hd as Hr; [|exact Ha]. destruct Hr as [Hrow Hid].
    exists a. split_and!; [|done..]. destruct (sound_run d d1 Hsd H1) as [Hs1 _].
    destruct (sound_run d1 d' Hs1) as [_ Hg].
    + eapply rtc_l; [|exact H2]. by eapply serves_request.
    + eapply approvals_grow_closed; [exact Hg|done|congruence].
  - destruct (HF _ Hin) as (d1 & H1 & H2 & [(n & Hl)|Hev]).
    + exfalso. revert Hm. unfold match_decided_event. rewrite Hl. json_eval. cbn. by vm_compute.
    + destruct (sound_run d d1 Hsd H1) as [Hs1 _]. pose proof Hs1 as (_ & _ & _ & Hok).
      destruct (Hok _ Hev) as (a & Hrow & Hst & Hdata).
      destruct (sound_run d1 d' Hs1 H2) as [_ Hg].
      exists a. split; [by eapply approvals_grow_closed|].
      rewrite (match_decided id a ev Hdata) in Hm. destruct (N.eqb_spec (approval_id a) id); [|done].
      by injection Hm as ->.
Qed.

Lemma approvals_unique w a b :
  approvals_ok w -> a ∈ table w -> b ∈ table w -> approval_id a = approval_id b -> a = b.
Proof.
  unfold table. intros [Hnd _] Ha Hb Hid. apply list_elem_of_lookup in Ha as [i Hi], Hb as [j Hj].
  assert (i = j) as ->; [|congruence].
  eapply NoDup_lookup; [exact Hnd|..]; rewrite list_lookup_fmap; [by rewrite Hi|]. rewrite Hj. cbn. by rewrite Hid.
Qed.

(** A row that was pending and is allowed now was closed by an allowed actor. *)
Lemma approvals_grow_row old new a :
  approvals_grow old new -> a ∈ old ->
  exists b, b ∈ new /\ approval_life a b.
Proof.
  intros (mid & fresh & -> & H2 & _) Ha. apply list_elem_of_lookup in Ha as [i Hi].
  destruct (Forall2_lookup_l _ _ _ _ _ H2 Hi) as (b & Hb & Hl). exists b. split; [|done].
  apply elem_of_app. left. by eapply list_elem_of_lookup_2.
Qed.

(** The gates the daemon lists for a tool. *)
Definition gates_for (tool : ToolSpec) (d : Daemon S) : list McpGate :=
  order_by (fun a b => gate_created_at a <=? gate_created_at b)%Z
    (List.filter (fun g => str_eqb (gate_tool g) (tool_name tool)) (mcp_gates (db (dm_world d)))).

(** The daemon served the bridge a listing of the tool's gates, and they
    auto-allowed the call. *)
Definition gate_served (tool : ToolSpec) (args : value) (l : list (Served S)) : Prop :=
  exists d id, mkServed (lit "mcp.gate.list") (json [(lit "tool", VString (tool_name tool))]) d ∈ l /\
    decide_gates (gates_for tool d) args = DAutoAllow id.
(** The approval table has an allowed row of this tool and these arguments, closed
    by an actor that may. *)
Definition approval_stands (tool : ToolSpec) (args : value) (d : Daemon S) : Prop :=
  exists a who, a ∈ table (dm_world d) /\ approval_tool a = tool_name tool /\ approval_args a = args /\
    approval_state a = Allowed /\ decided_by a = Some who /\ actor_is_allowed who = true.

Lemma gate_moment tool args t l d d' : ran d t l d' -> gate_allows tool args t -> gate_served tool args l.
Proof.
  intros Hr (reply & gates & id & Hin & Hg & Hdec). destruct (ran_answered _ _ _ _ _ _ _ Hr Hin) as (d1 & Hl & Hs).
  exists d1, id. split; [done|]. destruct (serve _ _ d1) as [r d2] eqn:Es. cbn in Hs. subst r.
  assert (Ho : op_from_str (lit "mcp.gate.list") = Some McpGateList) by reflexivity.
  unfold serve in Es. rewrite Ho in Es. apply gate_list_reply in Es. unfold gates_for. rewrite Hg in Es. by injection Es as <-.
Qed.

Lemma approval_moment tool args t d d' :
  sound d -> rtc step d d' -> Forall (explained d d') t -> approval_allows tool args t ->
  approval_stands tool args d'.
Proof.
  intros Hsd Hr HF (reply & c & Hin & Hc & Hev).
  destruct (evidence_row _ _ _ _ Hsd HF Hev) as (a & Ha & Hid & Hst).
  rewrite List.Forall_forall in HF. destruct (HF _ Hin) as (o & d1 & d2 & Ho & H1 & Hd & H2).
  assert (o = McpApprovalCreate) as -> by (vm_compute in Ho; congruence).
  assert (H12 : rtc step d d2) by (eapply rtc_r; [exact H1|by eapply serves_request]).
  eapply approval_create_reply in Hd as (Hrow & Htool & Hargs & Hp); [|exact Hc].
  destruct (sound_run d d2 Hsd H12) as [Hs2 _]. destruct (sound_run d2 d' Hs2 H2) as [(_ & _ & Hok & _) Hg].
  destruct (approvals_grow_row _ _ _ Hg Hrow) as (b & Hb & Hl).
  assert (a = b) as ->.
  { eapply approvals_unique; [exact Hok|done..|]. rewrite Hid.
    apply approval_life_pending in Hl as [->|[_ Hs]]; [done|]. by destruct Hs. }
  apply approval_life_pending in Hl as [->|[_ Hs]]; [congruence|].
  destruct Hs as [x st now who _ _ Hwho]. exists (decided_row st now who x), who. done.
Qed.

(** One request served at the end of a run came before its operation. *)
Lemma last_request d t op args r l d' :
  ran d (t ++ [TReq op args r]) l d' ->
  exists l0 d0, ran d t l0 d0 /\ (l = l0 \/ exists d1, rtc step d0 d1 /\ l = l0 ++ [mkServed op args d1]).
Proof.
  intros H. apply ran_split in H as (l0 & l1 & d0 & -> & H0 & H1). exists l0, d0. split; [done|].
  inversion H1; subst; match goal with Hn : ran _ [] _ _ |- _ => inversion Hn; subst end.
  - right. eauto.
  - left. by rewrite app_nil_r.
Qed.

(** C5. End to end: with the real daemon behind the bridge, whatever other
    clients and workers do meanwhile and whatever the connection loses, consider
    what the daemon serves for the bridge during one call of a dangerous tool.
    Each request for the tool's operation that it serves carries the arguments of
    the call; and either the bridge was served, earlier in this call, the gates of
    the tool from a state of the daemon in which they auto-allowed these arguments,
    or the state in which the operation itself is served has an approval row for
    this tool and exactly these arguments, closed as allowed by a named actor. *)
Theorem system_authorises budget tool args s t r s' :
  In tool TOOLS -> dangerous tool = true -> sound (sy_daemon s) ->
  call_tool decode_error budget tool args s = (t, r, s') ->
  exists l, sy_served s' = sy_served s ++ l /\
    forall before x after, l = before ++ x :: after -> sv_op x = op_as_str (tool_op tool) ->
      sv_args x = with_actor tool args /\
      (gate_served tool args before \/ approval_stands tool args (sv_daemon x)).
Proof.
  intros Hin Hd Hs Hx. pose proof (accounts_call_tool _ _ _ _ _ _ _ Hx) as (l & Hl & Hr).
  exists l. split; [done|]. intros before x after -> Hop.
  assert (Hno : forall t d d' l, ran d t l d' -> Forall (fun it => ~ forwards tool it) t -> x ∈ l -> False).
  { intros t' d d' l' Hr' HF Hxl. destruct (ran_served_in _ _ _ _ _ Hr' Hxl) as [r0 Hin0].
    rewrite List.Forall_forall in HF. eapply HF; [exact Hin0|]. rewrite Hop. by eexists _, _. }
  destruct (call_tool_authorised _ _ _ _ _ _ _ _ Hin Hd Hx) as [HF|(t0 & -> & HF & Hall)].
  { exfalso. eapply (Hno _ _ _ _ Hr HF). apply elem_of_app. right. by left. }
  apply last_request in Hr as (l0 & d0 & H0 & [Hl0|(d1 & H1 & Hl0)]).
  { exfalso. eapply (Hno _ _ _ _ H0 HF). rewrite <- Hl0. apply elem_of_app. right. by left. }
  destruct after as [|y after _] using rev_ind.
  2: { exfalso. eapply (Hno _ _ _ _ H0 HF). rewrite app_comm_cons, app_assoc in Hl0.
       apply app_inj_tail in Hl0 as [<- _]. apply elem_of_app. right. by left. }
  apply app_inj_tail in Hl0 as [-> ->]. cbn. split; [done|].
  destruct Hall as [Hg|Ha]; [left; by eapply gate_moment|right].
  assert (H01 : ran (sy_daemon s) t0 l0 d1).
  { rewrite <- (app_nil_r t0), <- (app_nil_r l0). eapply ran_app; [exact H0|by constructor]. }
  eapply approval_moment; [exact Hs|by eapply ran_rtc|by eapply ran_explained|exact Ha].
Qed.
End System.

(** ** Example: another client allows the call while the bridge waits *)

#[local] Existing Instances memory_store plain_parsers trial_lettre lettre_submitter trial_codec trial_drafts
  trial_texts trial_files trial_auth refusing_endpoint http_client silent_rows silent_errors fts_all
  like_sqlite one_row_engine ascii_case plain_io example_parser example_server.

Definition allow_new : value :=
  json [(lit "id", VString [10%N]); (lit "state", VString (lit "allowed"))].
Definition trial_others (n : nat) (d : Daemon (gmap N str)) : Daemon (gmap N str) :=
  if (n =? 3)%nat then trial_dispatch McpApprovalDecide allow_new d else d.
Lemma trial_others_step n d : rtc trial_step d (trial_others n d).
Proof. unfold trial_others. destruct (n =? 3)%nat; [apply trial_served|reflexivity]. Qed.

Definition trial_system : System (gmap N str) := mkSystem (daemon_of no_tables ∅) 0 0 [].
Definition trial_bridge : DaemonBridge (System (gmap N str)) :=
  system_bridge (fun _ => []) (fun _ => []) (lit "/att") 3 trial_others (fun _ => Delivered) (fun _ => NextEvent).
Definition trial_call : list item * result BridgeError value * System (gmap N str) :=
  @call_tool _ trial_bridge trial_codec plain_parsers [] 3 delete_tool delete_args trial_system.

Lemma trial_sound : sound (sy_daemon trial_system).
Proof.
  split; [repeat constructor|]. split; [apply no_workers_inv|]. split; [repeat constructor|].
  intros v H. by apply elem_of_nil in H.
Qed.

(** The call is forwarded, and its operation is the last request served. *)
Lemma system_authorises_witness :
  (sv_op <$> sy_served trial_call.2) =
    [lit "mcp.gate.list"; lit "mcp.approval.create"; lit "mcp.approval.get"; op_as_str (tool_op delete_tool)] /\
  exists l, sy_served trial_call.2 = sy_served trial_system ++ l /\
    forall before x after, l = before ++ x :: after -> sv_op x = op_as_str (tool_op delete_tool) ->
      sv_args x = with_actor delete_tool delete_args /\
      (gate_served delete_tool delete_args before \/ approval_stands delete_tool delete_args (sv_daemon x)).
Proof.
  split; [vm_compute; reflexivity|].
  apply (system_authorises (fun _ => []) (fun _ => []) (lit "/att") 3 trial_others (fun _ => Delivered)
           (fun _ => NextEvent) trial_others_step [] 3 delete_tool delete_args trial_system trial_call.1.1
           trial_call.1.2 trial_call.2).
  - do 9 right. left. reflexivity.
  - reflexivity.
  - exact trial_sound.
  - unfold trial_call. by destruct (call_tool _ _ _ _ _) as [[t r] s'].
Defined.
