(* ===== verification/Config.v ===== *)
(** * Configuration (src/config.rs, the theme names of src/tui/theme.rs,
      [build_secret_store] of src/bin/postbloxd.rs)

    TOML is read by a library: [toml_from_str] yields the raw sections or an error,
    which covers unknown fields too. *)

From S2P Require Import Prelude RustStr Json AttachmentFiles.
#[local] Open Scope bool_scope.

(** ** Themes *)

Inductive ThemeName : Type := Dark | Light | HighContrast.
#[global] Instance ThemeName_eq_dec : EqDecision ThemeName.
Proof. solve_decision. Defined.

Definition theme_as_str (t : ThemeName) : str :=
  match t with
  | Light => lit "light"
  | Dark => lit "dark"
  | HighContrast => lit "high-contrast"
  end.
Definition theme_next (t : ThemeName) : ThemeName :=
  match t with
  | Dark => Light
  | Light => HighContrast
  | HighContrast => Dark
  end.
(** The error carries the input. *)
Definition theme_from_str (s : str) : result str ThemeName :=
  if str_eqb s (lit "light") then Ok Light
  else if str_eqb s (lit "dark") then Ok Dark
  else if str_eqb s (lit "high-contrast") || str_eqb s (lit "hc") then Ok HighContrast
  else Err s.

Lemma theme_round_trip t : theme_from_str (theme_as_str t) = Ok t.
Proof. destruct t; vm_compute; reflexivity. Qed.
(** The rotation visits every theme. *)
Lemma theme_next_cycle t : theme_next (theme_next (theme_next t)) = t /\ theme_next t <> t.
Proof. by destruct t. Qed.

(** ** Sections *)

Inductive SecretsBackend : Type := BackendKeyring | BackendFile.
#[global] Instance SecretsBackend_eq_dec : EqDecision SecretsBackend.
Proof. solve_decision. Defined.

Record SecretsConfig : Type := mkSecretsConfig {
  sc_backend : SecretsBackend;
  sc_passphrase : option str;
  sc_path : option str;
}.
Record TuiConfig : Type := mkTuiConfig { tc_theme : option ThemeName }.
Record Config : Type := mkConfig { cfg_secrets : SecretsConfig; cfg_tui : TuiConfig }.
Definition default_config : Config := mkConfig (mkSecretsConfig BackendKeyring None None) (mkTuiConfig None).

Record RawSecretsConfig : Type := mkRawSecrets {
  rs_backend : option SecretsBackend;
  rs_passphrase : option str;
  rs_path : option str;
}.
Record RawTuiConfig : Type := mkRawTui { rt_theme : option str }.
Record RawConfig : Type := mkRaw { raw_secrets : option RawSecretsConfig; raw_tui : option RawTuiConfig }.

Inductive ConfigError : Type :=
| ConfigIo (e : IoError)
| ConfigToml (message : str)
| ConfigInvalid (message : str).

Definition normalize_tui (raw : option RawTuiConfig) : result ConfigError TuiConfig :=
  match raw with
  | None => Ok (mkTuiConfig None)
  | Some raw =>
      match trim <$> rt_theme raw with
      | None | Some [] => Ok (mkTuiConfig None)
      | Some name =>
          t ← map_err (fun s => ConfigInvalid (lit "[tui] unknown theme '" ++ s
                 ++ lit "'; valid: light, dark, high-contrast (or hc)")) (theme_from_str name);
          Ok (mkTuiConfig (Some t))
      end
  end.

Definition backend_of (s : RawSecretsConfig) : SecretsBackend :=
  match rs_backend s with
  | Some b => b
  | None => match rs_passphrase s with Some _ => BackendFile | None => BackendKeyring end
  end.

Definition quoted_file : str := 34%N :: lit "file" ++ [34%N].

Definition normalize (raw : RawConfig) : result ConfigError Config :=
  tui ← normalize_tui (raw_tui raw);
  match raw_secrets raw with
  | None => Ok (mkConfig (cfg_secrets default_config) tui)
  | Some s =>
      let backend := backend_of s in
      if bool_decide (backend = BackendKeyring) && negb (is_none (rs_path s))
      then Err (ConfigInvalid (lit "[secrets] path requires backend = " ++ quoted_file
                 ++ lit " with passphrase; remove path for keyring"))
      else if bool_decide (backend = BackendFile)
              && match rs_passphrase s with Some p => is_empty p | None => true end
      then Err (ConfigInvalid (lit "[secrets] backend = " ++ quoted_file ++ lit " requires non-empty passphrase"))
      else Ok (mkConfig (mkSecretsConfig backend (rs_passphrase s) (rs_path s)) tui)
  end.

Class Toml := { toml_from_str : str -> result str RawConfig }.

Section Load.
Context {TM : Toml}.

Definition parse_config (input : str) : result ConfigError Config :=
  raw ← map_err ConfigToml (toml_from_str input);
  normalize raw.

(** [read] is what reading the file as text yields. *)
Definition load (read : result IoError str) : result ConfigError Config :=
  match read with
  | Ok s => parse_config s
  | Err e => match io_error_kind e with IoNotFound => Ok default_config | _ => Err (ConfigIo e) end
  end.
End Load.

(** [Debug] shows that there is a passphrase, not which. *)
Definition redacted (secret : option str) : option str := (fun _ => lit "<redacted>") <$> secret.
Definition secrets_debug (c : SecretsConfig) : SecretsBackend * option str * option str :=
  (sc_backend c, redacted (sc_passphrase c), sc_path c).

(** ** The store the daemon starts with *)

Inductive ChosenStore : Type :=
| UseKeyring
| UseFile (path passphrase : str).

(** [db_path.parent()] joined with the file name; [None] is the root itself. *)
Definition build_secret_store (cfg : Config) (default_secrets_path : str) : result str ChosenStore :=
  match sc_backend (cfg_secrets cfg) with
  | BackendKeyring => Ok UseKeyring
  | BackendFile =>
      passphrase ← ok_or (sc_passphrase (cfg_secrets cfg))
                     (lit "file secrets backend requires [secrets] passphrase");
      Ok (UseFile (unwrap_or default_secrets_path (sc_path (cfg_secrets cfg))) passphrase)
  end.

(** What [normalize] guarantees of the secrets section. *)
Definition secrets_ok (c : SecretsConfig) : Prop :=
  match sc_backend c with
  | BackendKeyring => sc_path c = None
  | BackendFile => exists p, sc_passphrase c = Some p /\ p <> []
  end.

Lemma normalize_ok raw c : normalize raw = Ok c -> secrets_ok (cfg_secrets c).
Proof.
  unfold normalize, mbind, result_bind. destruct (normalize_tui (raw_tui raw)) as [tui|]; [|done].
  destruct (raw_secrets raw) as [s|]; [|by intros [= <-]].
  destruct (backend_of s) eqn:Eb; cbn.
  - destruct (rs_path s) eqn:Ep; cbn; [done|]. intros [= <-]. done.
  - destruct (rs_passphrase s) as [p|]; cbn; [|done]. destruct (is_empty p) eqn:Ee; [done|].
    intros [= <-]. cbn. exists p. split; [done|]. by apply is_empty_false.
Qed.

(** A configuration that loads starts the daemon with a working choice of
    secret store: the keyring, or a file with a non-empty passphrase, at the
    configured path if there is one; the start never fails for a missing
    passphrase, and a path is never ignored silently. *)
Theorem loaded_config_chooses_store {TM : Toml} read c default_path :
  load read = Ok c ->
  build_secret_store c default_path = Ok UseKeyring /\ sc_path (cfg_secrets c) = None \/
  exists path passphrase, build_secret_store c default_path = Ok (UseFile path passphrase) /\
    passphrase <> [] /\ sc_passphrase (cfg_secrets c) = Some passphrase /\
    path = unwrap_or default_path (sc_path (cfg_secrets c)).
Proof.
  intros Hl. assert (secrets_ok (cfg_secrets c)) as Hok.
  { revert Hl. unfold load, parse_config, mbind, result_bind. destruct read as [s|e].
    - destruct (toml_from_str s) as [raw|]; cbn; [|done]. apply normalize_ok.
    - case_match; try done. by intros [= <-]. }
  unfold secrets_ok in Hok. unfold build_secret_store, mbind, result_bind.
  destruct (sc_backend (cfg_secrets c)); [by left|right].
  destruct Hok as (p & Hp & Hne). rewrite Hp. cbn. eauto 6.
Qed.

Definition one_toml : Toml :=
  {| toml_from_str _ := Ok (mkRaw (Some (mkRawSecrets None (Some (lit "pw")) None)) None) |}.
Lemma loaded_config_chooses_store_witness :
  match load (TM := one_toml) (Ok []) with
  | Ok c => exists path passphrase, build_secret_store c (lit "/d/secrets.bin") = Ok (UseFile path passphrase) /\
              path = lit "/d/secrets.bin"
  | Err _ => False
  end.
Proof.
  destruct (load (TM := one_toml) (Ok [])) as [c|] eqn:E; [|discriminate E].
  destruct (loaded_config_chooses_store (TM := one_toml) (Ok []) c (lit "/d/secrets.bin") E)
    as [[Hk _]|(path & pw & Hb & _ & _ & Hp)].
  - vm_compute in E. injection E as <-. discriminate Hk.
  - exists path, pw. split; [exact Hb|]. vm_compute in E. injection E as <-. exact Hp.
Defined.
