(* ===== verification/EditDistance.v ===== *)
(** * Edit distance (src/tui/command.rs, [damerau_levenshtein])

    The routine behind "did you mean": three rolling rows of a dynamic programme.
    It is shown equal to a recursive definition ([osa]) and that to be the length
    of a shortest alignment by insertions, deletions, substitutions and swaps of
    neighbours in which no character is edited twice: the optimal string alignment
    distance, of which Damerau and Levenshtein's, the source's name for it, is a
    lower bound that can be smaller ([two_edits_suffice]). *)

From S2P Require Import Prelude RustStr.
#[local] Open Scope nat_scope.
#[local] Open Scope bool_scope.

(** ** The routine *)

Section Rows.
Context (a b : list N).

Definition byte_at (s : list N) (i : nat) : N := nth i s 0%N.

(** [curr[j]], from the rows above and the entry to the left. *)
Definition dl_value (i j : nat) (prev_prev prev curr : list nat) : nat :=
  let cost := if (byte_at a (i - 1) =? byte_at b (j - 1))%N then 0 else 1 in
  let deletion := nth j prev 0 + 1 in
  let insertion := nth (j - 1) curr 0 + 1 in
  let substitution := nth (j - 1) prev 0 + cost in
  let value := Nat.min (Nat.min deletion insertion) substitution in
  if (1 <? i) && (1 <? j) && (byte_at a (i - 1) =? byte_at b (j - 2))%N
     && (byte_at a (i - 2) =? byte_at b (j - 1))%N
  then Nat.min value (nth (j - 2) prev_prev 0 + 1)
  else value.

(** [for j in 1..=cols]. *)
Fixpoint dl_row (i : nat) (prev_prev prev : list nat) (js : list nat) (curr : list nat) : list nat :=
  match js with
  | [] => curr
  | j :: rest => dl_row i prev_prev prev rest (<[j := dl_value i j prev_prev prev curr]> curr)
  end.

(** [for i in 1..=rows], with the two swaps at the end of a round. *)
Fixpoint dl_rows (rounds : list nat) (prev_prev prev curr : list nat) : list nat :=
  match rounds with
  | [] => prev
  | i :: rest =>
      let curr := dl_row i prev_prev prev (seq 1 (List.length b)) (<[0 := i]> curr) in
      dl_rows rest prev curr prev_prev
  end.

Definition damerau_levenshtein : nat :=
  let rows := List.length a in
  let cols := List.length b in
  if rows =? 0 then cols
  else if cols =? 0 then rows
  else nth cols (dl_rows (seq 1 rows) (repeat 0 (cols + 1)) (seq 0 (cols + 1)) (repeat 0 (cols + 1))) 0.
End Rows.

(** ** Recursive definition, on reversed words *)

Definition cost (x y : N) : nat := if (x =? y)%N then 0 else 1.

Fixpoint osa (u : list N) : list N -> nat :=
  match u with
  | [] => @List.length N
  | x :: u' =>
      fix inner (v : list N) : nat :=
        match v with
        | [] => S (List.length u')
        | y :: v' =>
            let value := Nat.min (Nat.min (osa u' v + 1) (inner v' + 1)) (osa u' v' + cost x y) in
            match u', v' with
            | x2 :: u2, y2 :: v2 =>
                if (x =? y2)%N && (x2 =? y)%N then Nat.min value (osa u2 v2 + 1) else value
            | _, _ => value
            end
        end
  end.

(** ** Edit scripts *)

Inductive alignment : list N -> list N -> nat -> Prop :=
| s_nil : alignment [] [] 0
| s_keep x u v n : alignment u v n -> alignment (x :: u) (x :: v) n
| s_delete x u v n : alignment u v n -> alignment (x :: u) v (S n)
| s_insert y u v n : alignment u v n -> alignment u (y :: v) (S n)
| s_substitute x y u v n : alignment u v n -> alignment (x :: u) (y :: v) (S n)
| s_swap x y u v n : alignment u v n -> alignment (x :: y :: u) (y :: x :: v) (S n).

Lemma alignment_app a b n c d m : alignment a b n -> alignment c d m -> alignment (a ++ c) (b ++ d) (n + m).
Proof.
  induction 1; intros Hcd; cbn; [done|apply s_keep|apply s_delete|apply s_insert|apply s_substitute|apply s_swap];
    auto.
Qed.

Lemma alignment_rev a b n : alignment a b n -> alignment (rev a) (rev b) n.
Proof.
  induction 1; cbn; [constructor|..].
  - rewrite <- (Nat.add_0_r n). apply alignment_app; [done|repeat constructor].
  - rewrite <- (app_nil_r (rev v)), <- Nat.add_1_r. apply alignment_app; [done|repeat constructor].
  - rewrite <- (app_nil_r (rev u)), <- Nat.add_1_r. apply alignment_app; [done|repeat constructor].
  - rewrite <- Nat.add_1_r. apply alignment_app; [done|apply s_substitute, s_nil].
  - rewrite <- !app_assoc. cbn. rewrite <- Nat.add_1_r. apply alignment_app; [done|].
    apply s_swap, s_nil.
Qed.

Lemma alignment_delete_all u : alignment u [] (List.length u).
Proof. induction u; constructor; auto. Qed.
Lemma alignment_insert_all v : alignment [] v (List.length v).
Proof. induction v; constructor; auto. Qed.

(** One case of the recursion. *)
Lemma osa_cons x u y v :
  osa (x :: u) (y :: v) =
  let value := Nat.min (Nat.min (osa u (y :: v) + 1) (osa (x :: u) v + 1)) (osa u v + cost x y) in
  match u, v with
  | x2 :: u2, y2 :: v2 => if (x =? y2)%N && (x2 =? y)%N then Nat.min value (osa u2 v2 + 1) else value
  | _, _ => value
  end.
Proof. reflexivity. Qed.
Lemma osa_nil_r u : osa u [] = List.length u.
Proof. by destruct u. Qed.

Lemma osa_le x u y v :
  osa (x :: u) (y :: v) <= osa u (y :: v) + 1 /\ osa (x :: u) (y :: v) <= osa (x :: u) v + 1 /\
  osa (x :: u) (y :: v) <= osa u v + cost x y.
Proof.
  rewrite osa_cons. cbn zeta. generalize (osa (x :: u) v). intros k. generalize (osa u (y :: v)). intros j.
  generalize (osa u v). intros i. destruct u as [|x2 u2], v as [|y2 v2]; try lia.
  generalize (osa u2 v2). intros h. destruct (_ && _); lia.
Qed.

Lemma osa_delete x u v : osa (x :: u) v <= osa u v + 1.
Proof. destruct v; [rewrite !osa_nil_r; cbn; lia|apply osa_le]. Qed.
Lemma osa_insert u y v : osa u (y :: v) <= osa u v + 1.
Proof. destruct u; [cbn; lia|apply osa_le]. Qed.

(** No alignment is shorter. *)
Lemma osa_min u v n : alignment u v n -> osa u v <= n.
Proof.
  induction 1 as [|x u v n _ IH|x u v n _ IH|y u v n _ IH|x y u v n _ IH|x y u v n _ IH].
  - done.
  - destruct (osa_le x u x v) as (_ & _ & H). unfold cost in H. rewrite N.eqb_refl in H. lia.
  - pose proof (osa_delete x u v). lia.
  - pose proof (osa_insert u y v). lia.
  - destruct (osa_le x u y v) as (_ & _ & H). unfold cost in H. case_match; lia.
  - rewrite osa_cons. rewrite !N.eqb_refl. cbn [andb]. lia.
Qed.

(** And one has its length. *)
Lemma osa_alignment u v : alignment u v (osa u v).
Proof.
  remember (List.length u + List.length v) as k eqn:Hk. revert u v Hk.
  induction k as [k IH] using lt_wf_ind. intros u v ->.
  destruct u as [|x u]; [apply alignment_insert_all|]. destruct v as [|y v]; [apply alignment_delete_all|].
  assert (Hbase : alignment (x :: u) (y :: v)
    (Nat.min (Nat.min (osa u (y :: v) + 1) (osa (x :: u) v + 1)) (osa u v + cost x y))).
  { destruct (Nat.min_dec (Nat.min (osa u (y :: v) + 1) (osa (x :: u) v + 1)) (osa u v + cost x y)) as [->| ->].
    - destruct (Nat.min_dec (osa u (y :: v) + 1) (osa (x :: u) v + 1)) as [->| ->]; rewrite Nat.add_1_r;
        [apply s_delete|apply s_insert]; eapply IH; try reflexivity; cbn; lia.
    - unfold cost. destruct (N.eqb_spec x y) as [->|]; rewrite ?Nat.add_0_r, ?Nat.add_1_r;
        [apply s_keep|apply s_substitute]; eapply IH; try reflexivity; cbn; lia. }
  rewrite osa_cons. cbn zeta. destruct u as [|x2 u2]; [done|]. destruct v as [|y2 v2]; [done|].
  destruct (N.eqb_spec x y2) as [->|], (N.eqb_spec x2 y) as [->|]; cbn [andb]; try done.
  match goal with |- alignment _ _ (Nat.min ?x ?y) => destruct (Nat.min_dec x y) as [->| ->] end; [done|].
  rewrite Nat.add_1_r.   apply s_swap. eapply IH; [|reflexivity]. cbn. lia.
Qed.

(** ** The rows are the recursive definition *)

Section Correct.
Context (a b : list N).

(** The distance of the first [i] bytes of [a] and the first [j] of [b]. *)
Definition dist (i j : nat) : nat := osa (rev (take i a)) (rev (take j b)).

Lemma rev_take_S (s : list N) i : i < List.length s -> rev (take (S i) s) = byte_at s i :: rev (take i s).
Proof.
  intros Hi. unfold byte_at. rewrite (take_S_r _ _ (nth i s 0%N)), rev_app_distr; [done|].
  destruct (nth_lookup_or_length s i 0%N); [done|lia].
Qed.

Definition row_ok (i : nat) (r : list nat) : Prop :=
  List.length r = List.length b + 1 /\ forall j, j <= List.length b -> nth j r 0 = dist i j.

Lemma dist_0_l j : j <= List.length b -> dist 0 j = j.
Proof. intros Hj. change (List.length (rev (take j b)) = j). rewrite length_rev, length_take. lia. Qed.
Lemma dist_0_r i : i <= List.length a -> dist i 0 = i.
Proof. intros Hi. unfold dist. rewrite osa_nil_r, length_rev, length_take. lia. Qed.

Lemma dl_value_ok i j pp p curr :
  i < List.length a -> j < List.length b ->
  (1 <= i -> row_ok (i - 1) pp) -> row_ok i p -> nth j curr 0 = dist (S i) j ->
  dl_value a b (S i) (S j) pp p curr = dist (S i) (S j).
Proof.
  intros Hi Hj Hpp [_ Hp] Hc. unfold dl_value.
  replace (S i - 1) with i by lia. replace (S j - 1) with j by lia.
  rewrite (Hp (S j)), (Hp j), Hc by lia.
  assert (Hval : dist (S i) (S j) =
    let value := Nat.min (Nat.min (dist i (S j) + 1) (dist (S i) j + 1)) (dist i j + cost (byte_at a i) (byte_at b j)) in
    match i, j with
    | S i2, S j2 => if (byte_at a i =? byte_at b j2)%N && (byte_at a i2 =? byte_at b j)%N
                    then Nat.min value (dist i2 j2 + 1) else value
    | _, _ => value
    end).
  { unfold dist. rewrite !rev_take_S by done. rewrite osa_cons. cbn zeta.
    destruct i as [|i2]; [done|]. rewrite (rev_take_S a i2) by lia.
    destruct j as [|j2]; [done|]. by rewrite (rev_take_S b j2) by lia. }
  rewrite Hval. unfold cost. cbn zeta. destruct i as [|i2]; [done|]. destruct j as [|j2]; [done|].
  replace (1 <? S (S i2)) with true by done. replace (1 <? S (S j2)) with true by done.
  replace (S (S i2) - 2) with i2 by lia. replace (S (S j2) - 2) with j2 by lia. cbn [andb].
  destruct (Hpp ltac:(lia)) as [_ Hq]. replace (S i2 - 1) with i2 in Hq by lia. by rewrite (Hq j2) by lia.
Qed.

Lemma nth_insert_ne (l : list nat) i j x : i <> j -> nth j (<[i := x]> l) 0 = nth j l 0.
Proof. intros Hne. by rewrite !nth_lookup, list_lookup_insert_ne. Qed.
Lemma nth_insert_eq (l : list nat) i x : i < List.length l -> nth i (<[i := x]> l) 0 = x.
Proof. intros Hl. by rewrite nth_lookup, list_lookup_insert_eq. Qed.

Lemma dl_row_ok i pp p k j curr :
  i < List.length a -> (1 <= i -> row_ok (i - 1) pp) -> row_ok i p ->
  List.length curr = List.length b + 1 -> j + k = List.length b ->
  (forall j0, j0 <= j -> nth j0 curr 0 = dist (S i) j0) ->
  row_ok (S i) (dl_row a b (S i) pp p (seq (S j) k) curr).
Proof.
  intros Hi Hpp Hp. revert j curr. induction k as [|k IH]; intros j curr Hlen Hjk Hcurr; cbn [seq dl_row].
  { split; [done|]. intros j0 Hj0. apply Hcurr. lia. }
  apply IH; [by rewrite length_insert|lia|]. intros j0 Hj0.
  destruct (decide (j0 = S j)) as [->|Hne].
  - rewrite nth_insert_eq by lia. apply dl_value_ok; auto; lia.
  - rewrite nth_insert_ne by done. apply Hcurr. lia.
Qed.

Lemma dl_rows_ok k i pp p curr :
  i + k = List.length a -> (1 <= i -> row_ok (i - 1) pp) -> List.length pp = List.length b + 1 ->
  row_ok i p -> List.length curr = List.length b + 1 ->
  row_ok (List.length a) (dl_rows a b (seq (S i) k) pp p curr).
Proof.
  revert i pp p curr. induction k as [|k IH]; intros i pp p curr Hik Hpp Hlp Hp Hlc; cbn [seq dl_rows].
  { by replace (List.length a) with i by lia. }
  apply IH; [lia| |by destruct Hp| |done].
  - intros _. by replace (S i - 1) with i by lia.
  - apply (dl_row_ok i pp p (List.length b) 0); auto; [lia|by rewrite length_insert|].
    intros j0 Hj0. assert (j0 = 0) as -> by lia. rewrite nth_insert_eq by lia. rewrite dist_0_r; lia.
Qed.
End Correct.

Lemma damerau_levenshtein_osa a b : damerau_levenshtein a b = osa (rev a) (rev b).
Proof.
  unfold damerau_levenshtein. destruct (Nat.eqb_spec (List.length a) 0) as [Ha|Ha].
  { apply nil_length_inv in Ha as ->. change (List.length b = List.length (rev b)). by rewrite length_rev. }
  destruct (Nat.eqb_spec (List.length b) 0) as [Hb|Hb].
  { apply nil_length_inv in Hb as ->. by rewrite osa_nil_r, length_rev. }
  destruct (dl_rows_ok a b (List.length a) 0 (repeat 0 (List.length b + 1)) (seq 0 (List.length b + 1))
              (repeat 0 (List.length b + 1))) as [_ H]; rewrite ?repeat_length; try lia.
  - split; [apply length_seq|]. intros j Hj. rewrite dist_0_l by done. rewrite seq_nth; lia.
  - rewrite H by lia. unfold dist. by rewrite !firstn_all.
Qed.

(** C39. The distance between two byte strings that the command bar computes with
    three rolling rows is their optimal string alignment distance: the least number
    of insertions, deletions, substitutions and swaps of neighbours that turn one
    into the other when no character is edited twice.  Some alignment has that
    length and none is shorter. *)
Theorem distance_is_shortest_alignment a b :
  alignment a b (damerau_levenshtein a b) /\ forall n, alignment a b n -> damerau_levenshtein a b <= n.
Proof.
  rewrite damerau_levenshtein_osa. split.
  - pose proof (alignment_rev _ _ _ (osa_alignment (rev a) (rev b))) as H. by rewrite !rev_involutive in H.
  - intros n Hs. by apply osa_min, alignment_rev.
Qed.

(** One edit anywhere in a string; a sequence of them may edit a character again.
    The least length of a sequence is the distance of Damerau and Levenshtein. *)
Inductive edit : list N -> list N -> Prop :=
| e_delete u x v : edit (u ++ x :: v) (u ++ v)
| e_insert u x v : edit (u ++ v) (u ++ x :: v)
| e_substitute u x y v : edit (u ++ x :: v) (u ++ y :: v)
| e_swap u x y v : edit (u ++ x :: y :: v) (u ++ y :: x :: v).
(** Two edits turn "ca" into "abc", the routine says three. *)
Lemma two_edits_suffice :
  edit (lit "ca") (lit "ac") /\ edit (lit "ac") (lit "abc") /\ damerau_levenshtein (lit "ca") (lit "abc") = 3.
Proof.
  split; [apply (e_swap [])|]. split; [apply (e_insert (lit "a") _ (lit "c"))|vm_compute; reflexivity].
Qed.

Example distance_swap : damerau_levenshtein (lit "serach") (lit "search") = 1.
Proof. vm_compute. reflexivity. Qed.
