(* ===== verification/TuiCommand.v ===== *)
(** * The command bar (src/tui/command.rs)

    Parsing of [:]-lines, Tab completion and the suggestion for an unknown
    command. *)

From S2P Require Import Prelude RustStr MailParser Utf8 Config EditDistance.
#[local] Open Scope bool_scope.

Inductive Command : Type :=
| CSync | CStartSync | CStopSync | CSeen | CUnseen | CFlag | CUnflag | CArchive
| CApprovals | CApprove | CDelete | CDeny
| CMove (folder : str)
| CThemeNext
| CTheme (t : ThemeName)
| CCompose | CReply | CReplyAll | CForward
| CGoto (folder : str)
| CHelp
| CAccount (name : str)
| CSearch (account : option str) (query : str)
| CWrite.

Definition COMMAND_NAMES : list str :=
  [lit "account"; lit "approvals"; lit "approve"; lit "archive"; lit "compose"; lit "delete"; lit "deny";
   lit "flag"; lit "forward"; lit "goto"; lit "help"; lit "move"; lit "reply"; lit "reply-all";
   lit "search"; lit "seen"; lit "start-sync"; lit "stop-sync"; lit "sync"; lit "theme"; lit "unflag";
   lit "unseen"; lit "w"].

Inductive CommandError : Type :=
| EmptyCommand
| UnknownCommand (name : str)
| Usage (usage : str).

(** ** Parsing *)

Definition parse_no_args (c : Command) (usage : str) (parts : list str) : result CommandError Command :=
  match parts with
  | _ :: _ => Err (Usage usage)
  | [] => Ok c
  end.

Definition usage_for (token : str) : CommandError :=
  if str_eqb token (lit "move") then Usage (lit "move <folder>")
  else if str_eqb token (lit "goto") then Usage (lit "goto <folder>")
  else Usage (lit "missing argument").

Definition remainder_after_token (input token : str) : str :=
  let trimmed := trim_start input in
  if starts_with trimmed token then drop (List.length token) trimmed else trimmed.

Definition parse_remainder (input token : str) (parts : list str) : result CommandError str :=
  match parts with
  | [] => Err (usage_for token)
  | _ =>
      let value := trim (remainder_after_token input token) in
      if is_empty value then Err (usage_for token) else Ok value
  end.

Definition parse_account (parts : list str) : result CommandError Command :=
  match parts with
  | [name] => Ok (CAccount name)
  | _ => Err (Usage (lit "account <name|email>"))
  end.

Definition search_usage : CommandError := Usage (lit "search [--account <name>] <query>").

(** The [while let] loop over the parts. *)
Fixpoint search_parts (parts : list str) (account : option str) (query : list str)
    : result CommandError (option str * list str) :=
  match parts with
  | [] => Ok (account, query)
  | part :: rest =>
      if str_eqb part (lit "--account") then
        match rest with
        | [] => Err search_usage
        | value :: rest =>
            match account with
            | Some _ => Err search_usage
            | None => search_parts rest (Some value) query
            end
        end
      else search_parts rest account (query ++ [part])
  end.

Definition parse_search (parts : list str) : result CommandError Command :=
  p ← search_parts parts None [];
  match p.2 with
  | [] => Err search_usage
  | words => Ok (CSearch p.1 (join (lit " ") words))
  end.

Definition theme_usage : CommandError := Usage (lit "theme next|light|dark|high-contrast").

Definition parse_theme (parts : list str) : result CommandError Command :=
  match parts with
  | [name] =>
      if str_eqb name (lit "next") then Ok CThemeNext
      else t ← map_err (fun _ => theme_usage) (theme_from_str name); Ok (CTheme t)
  | _ => Err theme_usage
  end.

(** The commands without arguments, by name. *)
Definition plain_commands : list (str * Command) :=
  [(lit "sync", CSync); (lit "start-sync", CStartSync); (lit "stop-sync", CStopSync); (lit "seen", CSeen);
   (lit "unseen", CUnseen); (lit "flag", CFlag); (lit "unflag", CUnflag); (lit "archive", CArchive);
   (lit "approvals", CApprovals); (lit "approve", CApprove); (lit "delete", CDelete); (lit "deny", CDeny);
   (lit "compose", CCompose); (lit "reply", CReply); (lit "reply-all", CReplyAll); (lit "forward", CForward);
   (lit "help", CHelp); (lit "w", CWrite)].

Definition parse_command (input : str) : result CommandError Command :=
  match split_whitespace input with
  | [] => Err EmptyCommand
  | name :: parts =>
      match List.find (fun p => str_eqb p.1 name) plain_commands with
      | Some (usage, c) => parse_no_args c usage parts
      | None =>
          if str_eqb name (lit "move") then CMove <$> parse_remainder input (lit "move") parts
          else if str_eqb name (lit "goto") then CGoto <$> parse_remainder input (lit "goto") parts
          else if str_eqb name (lit "account") then parse_account parts
          else if str_eqb name (lit "search") then parse_search parts
          else if str_eqb name (lit "theme") then parse_theme parts
          else Err (UnknownCommand name)
      end
  end.

(** ** Suggestions *)

Definition abs_diff (a b : nat) : nat := ((a - b) + (b - a))%nat.

(** One round of the loop over the names. *)
Definition consider (input : list N) (best : option (nat * nat)) (p : nat * str) : option (nat * nat) :=
  let name := as_bytes p.2 in
  if (2 <? abs_diff (List.length name) (List.length input))%nat then best
  else
    let distance := damerau_levenshtein input name in
    if (2 <? distance)%nat then best
    else match best with
         | None => Some (distance, p.1)
         | Some (cur, i) =>
             if (distance <? cur)%nat || ((distance =? cur)%nat && (p.1 <? i)%nat)
             then Some (distance, p.1) else best
         end.

Definition enumerate {A} (l : list A) : list (nat * A) := combine (seq 0 (List.length l)) l.

Definition nearest_command_name (input : str) : option str :=
  if is_empty input then None
  else
    best ← foldl (consider (as_bytes input)) None (enumerate COMMAND_NAMES);
    COMMAND_NAMES !! best.2.

(** ** Completion *)

Record CommandCompletion : Type := mkCompletion {
  cc_text : str;
  cc_matches : list str;
  cc_unique : bool;
}.

(** Characters of the first word while every word has them in place. *)
Fixpoint common_prefix_go (words : list str) (i : nat) (rest : str) : str :=
  match rest with
  | [] => []
  | ch :: rest' =>
      if forallb (fun w => bool_decide (w !! i = Some ch)) words
      then ch :: common_prefix_go words (S i) rest' else []
  end.
Definition longest_common_prefix (words : list str) : str :=
  match words with
  | [] => []
  | first :: _ => common_prefix_go words 0 first
  end.

Definition complete_command (input : str) : option CommandCompletion :=
  if is_empty input then None
  else if existsb is_whitespace input then None
  else match List.filter (fun name => starts_with name input) COMMAND_NAMES with
       | [] => None
       | [only] => Some (mkCompletion only [only] true)
       | many => Some (mkCompletion (longest_common_prefix many) many false)
       end.

(** ** Properties of suggestions *)

Definition distance_to (input name : str) : nat := damerau_levenshtein (as_bytes input) (as_bytes name).

Lemma alignment_length a b n : alignment a b n -> (abs_diff (List.length a) (List.length b) <= n)%nat.
Proof. unfold abs_diff. induction 1; cbn [List.length]; lia. Qed.

Lemma distance_length a b : (abs_diff (List.length b) (List.length a) <= damerau_levenshtein a b)%nat.
Proof.
  rewrite damerau_levenshtein_osa. pose proof (alignment_length _ _ _ (osa_alignment (rev a) (rev b))) as H.
  rewrite !length_rev in H. unfold abs_diff in *. lia.
Qed.

(** The best of the names seen so far. *)
Definition best_of (input : str) (seen : list (nat * str)) (best : option (nat * nat)) : Prop :=
  match best with
  | None => Forall (fun p => 2 < distance_to input p.2)%nat seen
  | Some (c, i) =>
      (c <= 2)%nat /\ (exists name, (i, name) ∈ seen /\ c = distance_to input name) /\
      Forall (fun p => c <= distance_to input p.2 /\ (distance_to input p.2 = c -> i <= p.1))%nat seen
  end.

Lemma consider_best input seen best p :
  best_of input seen best -> best_of input (seen ++ [p]) (consider (as_bytes input) best p).
Proof.
  intros Hb. pose proof (distance_length (as_bytes input) (as_bytes p.2)) as Hlen.
  fold (distance_to input p.2) in Hlen.
  assert (Hkeep : (2 < distance_to input p.2)%nat -> best_of input (seen ++ [p]) best).
  { intros Hd. destruct best as [[c i]|]; cbn in *.
    - destruct Hb as (Hc & (name & Hin & Hn) & HF). split; [done|]. split.
      + exists name. split; [|done]. apply elem_of_app. by left.
      + apply Forall_app. split; [done|]. apply Forall_singleton. lia.
    - apply Forall_app. split; [done|]. by apply Forall_singleton. }
  unfold consider. destruct (Nat.ltb_spec 2 (abs_diff (List.length (as_bytes p.2)) (List.length (as_bytes input)))).
  { apply Hkeep. lia. }
  fold (distance_to input p.2).
  destruct (Nat.ltb_spec 2 (distance_to input p.2)) as [Hd|Hd]; [by apply Hkeep|].
  destruct best as [[c i]|]; cbn [best_of] in Hb |- *.
  - destruct Hb as (Hc & (name & Hin & Hn) & HF).
    destruct (_ || _) eqn:Eb; cbn [best_of]; (split; [lia|]).
    + split; [exists p.2; split; [apply elem_of_app; right; destruct p; by left|done]|].
      assert (distance_to input p.2 <= c)%nat by (apply orb_true_iff in Eb as [|]; brefl; lia).
      apply Forall_app. split; [|apply Forall_singleton; lia]. eapply Forall_impl; [exact HF|]. cbn.
      intros q [Hq1 Hq2]. split; [lia|]. intros Heq. apply orb_true_iff in Eb as [|]; brefl; [lia|].
      assert (i <= q.1)%nat by (apply Hq2; lia). lia.
    + apply orb_false_iff in Eb as [E1 E2]. apply Nat.ltb_ge in E1.
      split; [exists name; split; [apply elem_of_app; by left|done]|].
      apply Forall_app. split; [done|]. apply Forall_singleton. split; [done|]. intros Heq.
      apply andb_false_iff in E2 as [E2|E2]; brefl; lia.
  - split; [done|]. split; [exists p.2; split; [apply elem_of_app; right; destruct p; by left|done]|].
    apply Forall_app. split; [|apply Forall_singleton; lia]. eapply Forall_impl; [exact Hb|]. cbn. lia.
Qed.

Lemma foldl_best input ps : best_of input ps (foldl (consider (as_bytes input)) None ps).
Proof.
  induction ps as [|p ps IH] using rev_ind; [constructor|]. rewrite foldl_app. by apply consider_best.
Qed.

Lemma enumerate_elem {A} (l : list A) i a : (i, a) ∈ enumerate l <-> l !! i = Some a.
Proof.
  unfold enumerate. cut (forall k, (i, a) ∈ combine (seq k (List.length l)) l <-> (k <= i)%nat /\ l !! (i - k)%nat = Some a).
  { intros H. rewrite (H 0%nat), Nat.sub_0_r. split; [by intros [_ ?]|]. split; [lia|done]. }
  induction l as [|x l IH]; intros k; cbn [List.length seq combine].
  - split; [by intros ?%elem_of_nil|by intros [_ ?]].
  - rewrite elem_of_cons, IH. destruct (decide (i = k)) as [->|Hne].
    + rewrite Nat.sub_diag. cbn. split; [intros [[= ->]|[? _]]; [done|lia]|]. intros [_ [= ->]]. by left.
    + split.
      * intros [[= ? _]|[Hk Hl]]; [done|]. split; [lia|]. by replace (i - k)%nat with (S (i - S k)) by lia.
      * intros [Hk Hl]. right. split; [lia|]. by replace (i - k)%nat with (S (i - S k)) in Hl by lia.
Qed.

(** The suggestion for an unknown command is a nearest command name, within
    two edits, the first of the list on a tie; and none is made exactly when the
    input is empty or no name is within two edits, so the length test that skips
    the computation loses nothing. *)
Theorem nearest_command_name_spec input :
  match nearest_command_name input with
  | Some name =>
      exists i, COMMAND_NAMES !! i = Some name /\ (distance_to input name <= 2)%nat /\
        forall j other, COMMAND_NAMES !! j = Some other ->
          (distance_to input name <= distance_to input other)%nat /\
          (distance_to input other = distance_to input name -> (i <= j)%nat)
  | None => input = [] \/ Forall (fun name => 2 < distance_to input name)%nat COMMAND_NAMES
  end.
Proof.
  unfold nearest_command_name. destruct (is_empty input) eqn:Ee; [left; by apply is_empty_true|].
  pose proof (foldl_best input (enumerate COMMAND_NAMES)) as Hb.
  destruct (foldl _ None _) as [[c i]|]; unfold best_of in Hb; cbn [mbind option_bind snd].
  - destruct Hb as (Hc & (name & Hin & ->) & HF). apply enumerate_elem in Hin. rewrite Hin.
    exists i. split; [done|]. split; [done|]. intros j other Hj%enumerate_elem.
    rewrite Forall_forall in HF. apply (HF _ Hj).
  - right. rewrite Forall_forall. rewrite Forall_forall in Hb. intros name [j Hj]%list_elem_of_lookup.
    apply enumerate_elem in Hj. by apply (Hb _ Hj).
Qed.

(** ** Properties of completion *)

Lemma common_prefix_go_spec words done_ rest :
  Forall (fun w => starts_with w done_ = true) words ->
  let r := common_prefix_go words (List.length done_) rest in
  Forall (fun w => starts_with w (done_ ++ r) = true) words /\
  forall p, starts_with rest p = true -> Forall (fun w => starts_with w (done_ ++ p) = true) words ->
    (List.length p <= List.length r)%nat.
Proof.
  revert done_. induction rest as [|ch rest IH]; intros done_ Hd; cbn [common_prefix_go].
  - split; [by rewrite app_nil_r|]. intros [|c p]; [cbn; lia|done].
  - destruct (forallb _ words) eqn:Ef.
    + assert (Hd' : Forall (fun w => starts_with w (done_ ++ [ch]) = true) words).
      { rewrite forallb_forall in Ef. rewrite Forall_forall in Hd |- *. intros w Hw. specialize (Hd w Hw).
        apply list_elem_of_In in Hw. specialize (Ef w Hw). apply bool_decide_eq_true in Ef.
        apply starts_with_spec in Hd as [r ->]. rewrite lookup_app_r, Nat.sub_diag in Ef by lia.
        destruct r as [|c r]; [done|]. injection Ef as ->. apply starts_with_spec. exists r. by rewrite <- app_assoc. }
      destruct (IH (done_ ++ [ch]) Hd') as [H1 H2]. rewrite length_app in H1, H2. cbn in H1, H2.
      rewrite Nat.add_1_r in H1, H2. rewrite <- app_assoc in H1. split; [exact H1|].
      intros [|c p]; [cbn; lia|]. cbn [starts_with]. intros [Hc Hp]%andb_true_iff HF.
      apply N.eqb_eq in Hc as ->. cbn. apply le_n_S, H2; [done|]. eapply Forall_impl; [exact HF|]. cbn.
      intros w. by rewrite <- app_assoc.
    + split; [by rewrite app_nil_r|]. intros [|c p]; [cbn; lia|]. cbn [starts_with].
      intros [Hc _]%andb_true_iff HF. exfalso. apply N.eqb_eq in Hc as ->. apply not_true_iff_false in Ef.
      apply Ef. rewrite forallb_forall. intros w Hw%list_elem_of_In. rewrite Forall_forall in HF.
      specialize (HF w Hw). apply starts_with_spec in HF as [r ->]. apply bool_decide_eq_true.
      rewrite <- app_assoc. rewrite lookup_app_r, Nat.sub_diag by lia. done.
Qed.

Lemma longest_common_prefix_spec words p :
  words <> [] ->
  Forall (fun w => starts_with w (longest_common_prefix words) = true) words /\
  (Forall (fun w => starts_with w p = true) words -> (List.length p <= List.length (longest_common_prefix words))%nat).
Proof.
  intros Hne. destruct words as [|first rest]; [done|]. unfold longest_common_prefix.
  destruct (common_prefix_go_spec (first :: rest) [] first) as [H1 H2].
  { apply Forall_true. intros w. by destruct w. }
  split; [exact H1|]. intros HF. apply H2; [|done]. by inversion HF.
Qed.

(** Tab completion offers exactly the command names that start with the
    input, in the order of the list, and its text is their longest common prefix,
    which extends the input; it is marked unique exactly when one name matches,
    whose full name the text then is.  It offers nothing for an empty input, past
    the command name, or when no name matches. *)
Theorem complete_command_spec input :
  let matches := List.filter (fun name => starts_with name input) COMMAND_NAMES in
  match complete_command input with
  | Some c =>
      cc_matches c = matches /\ matches <> [] /\ starts_with (cc_text c) input = true /\
      Forall (fun w => starts_with w (cc_text c) = true) matches /\
      (forall p, Forall (fun w => starts_with w p = true) matches -> (List.length p <= List.length (cc_text c))%nat) /\
      (cc_unique c = true <-> matches = [cc_text c])
  | None => input = [] \/ Exists (fun ch => is_whitespace ch = true) input \/ matches = []
  end.
Proof.
  intros matches. unfold complete_command. fold matches.
  destruct (is_empty input) eqn:Ee; [left; by apply is_empty_true|].
  destruct (existsb is_whitespace input) eqn:Ew.
  { right. left. apply Exists_exists. apply existsb_exists in Ew as (ch & Hin & Hw). exists ch.
    split; [by apply list_elem_of_In|done]. }
  assert (Hm : Forall (fun w => starts_with w input = true) matches).
  { rewrite Forall_forall. intros w Hw%list_elem_of_In. by apply filter_In in Hw as [_ ?]. }
  destruct matches as [|first [|second rest]] eqn:Em; [auto|..].
  - cbn. split_and!; try done; [by inversion Hm|by repeat constructor; apply starts_with_refl|].
    intros p HF. inversion HF as [|? ? Hp _]. apply starts_with_spec in Hp as [r ->]. rewrite length_app. lia.
  - cbn [cc_matches cc_text cc_unique].
    destruct (longest_common_prefix_spec (first :: second :: rest) input ltac:(done)) as [H1 H2].
    split_and!; try done.
    + specialize (H2 Hm). inversion Hm as [|? ? Hf _]. inversion H1 as [|? ? Hf1 _].
      apply starts_with_spec in Hf as [r ->], Hf1 as [r' Hr']. apply starts_with_spec.
      exists (drop (List.length input) (longest_common_prefix ((input ++ r) :: second :: rest))).
      rewrite <- (take_drop (List.length input) (longest_common_prefix _)) at 1. f_equal.
      apply (f_equal (take (List.length input))) in Hr'. rewrite take_app_length, take_app_le in Hr' by lia.
      by symmetry.
    + intros p. by apply longest_common_prefix_spec.
Qed.

(** ** Properties of parsing *)

Definition word (s : str) : Prop := s <> [] /\ Forall (fun c => is_whitespace c = false) s.

Lemma split_by_word f w s :
  Forall (fun c => f c = false) w -> forall x xs, split_by f s = x :: xs -> split_by f (w ++ s) = (w ++ x) :: xs.
Proof. induction 1 as [|c w Hc _ IH]; intros x xs Hs; cbn; [done|]. rewrite Hc. by rewrite (IH _ _ Hs). Qed.

Lemma split_by_cons f s : exists x xs, split_by f s = x :: xs.
Proof.
  induction s as [|c s (x & xs & IH)]; cbn; [eauto|]. destruct (f c); [eauto|]. rewrite IH. eauto.
Qed.

Lemma split_whitespace_word w s :
  word w -> split_whitespace (w ++ lit " " ++ s) = w :: split_whitespace s.
Proof.
  intros [Hne Hw]. unfold split_whitespace.
  rewrite (split_by_word _ w (lit " " ++ s) Hw [] (split_by is_whitespace s)) by done.
  rewrite app_nil_r. cbn [List.filter]. by apply is_empty_false in Hne as ->.
Qed.

Lemma split_whitespace_last w : word w -> split_whitespace w = [w].
Proof.
  intros [Hne Hw]. unfold split_whitespace. rewrite <- (app_nil_r w) at 1.
  rewrite (split_by_word _ w [] Hw [] []) by done. rewrite app_nil_r. cbn. by apply is_empty_false in Hne as ->.
Qed.

(** Words joined by single blanks. *)
Lemma split_whitespace_join ws : Forall word ws -> split_whitespace (join (lit " ") ws) = ws.
Proof.
  induction 1 as [|w ws Hw Hws IH]; [done|]. destruct ws as [|v ws]; [by apply split_whitespace_last|].
  change (join (lit " ") (w :: v :: ws)) with (w ++ lit " " ++ join (lit " ") (v :: ws)).
  rewrite split_whitespace_word by done. by rewrite IH.
Qed.

(** A trimmed, non-empty text has a word. *)
Lemma split_whitespace_nonempty s : s <> [] -> trim s = s -> split_whitespace s <> [].
Proof.
  intros Hne Ht Hs.
  assert (Hall : Forall (fun c => is_whitespace c = true) s).
  { clear Hne Ht. unfold split_whitespace in Hs. induction s as [|c s IH]; [constructor|]. cbn in Hs.
    destruct (is_whitespace c) eqn:Ec; [constructor; [done|]; by apply IH|].
    destruct (split_by_cons is_whitespace s) as (x & xs & Hx). rewrite Hx in Hs. discriminate Hs. }
  apply trim_nil_iff in Hall. congruence.
Qed.

(** The documented way to write a command. *)
Definition show_command (c : Command) : str :=
  match c with
  | CMove f => lit "move" ++ lit " " ++ f
  | CGoto f => lit "goto" ++ lit " " ++ f
  | CAccount n => lit "account" ++ lit " " ++ n
  | CSearch (Some a) q => lit "search" ++ lit " " ++ lit "--account" ++ lit " " ++ a ++ lit " " ++ q
  | CSearch None q => lit "search" ++ lit " " ++ q
  | CThemeNext => lit "theme next"
  | CTheme t => lit "theme" ++ lit " " ++ theme_as_str t
  | CSync => lit "sync" | CStartSync => lit "start-sync" | CStopSync => lit "stop-sync"
  | CSeen => lit "seen" | CUnseen => lit "unseen" | CFlag => lit "flag" | CUnflag => lit "unflag"
  | CArchive => lit "archive" | CApprovals => lit "approvals" | CApprove => lit "approve"
  | CDelete => lit "delete" | CDeny => lit "deny" | CCompose => lit "compose" | CReply => lit "reply"
  | CReplyAll => lit "reply-all" | CForward => lit "forward" | CHelp => lit "help" | CWrite => lit "w"
  end.

(** What a line can carry: a folder without outer blanks, an account of one
    word, and a query of words other than the option. *)
Definition writable (c : Command) : Prop :=
  match c with
  | CMove f | CGoto f => f <> [] /\ trim f = f
  | CAccount n => word n
  | CSearch a q =>
      (forall n, a = Some n -> word n) /\
      exists ws, q = join (lit " ") ws /\ ws <> [] /\ Forall (fun w => word w /\ w <> lit "--account") ws
  | _ => True
  end.

Lemma search_parts_words ws acc q :
  Forall (fun w => word w /\ w <> lit "--account") ws -> search_parts ws acc q = Ok (acc, q ++ ws).
Proof.
  intros H. revert q. induction H as [|w ws [_ Hw] _ IH]; intros q; cbn; [by rewrite app_nil_r|].
  rewrite (proj2 (str_eqb_neq _ _) Hw), IH. by rewrite <- app_assoc.
Qed.

Lemma name_is_word s : forallb (fun c => negb (is_whitespace c)) s && negb (is_empty s) = true -> word s.
Proof.
  intros [Hs Hne]%andb_prop. split; [by destruct s|].
  apply Forall_forall. intros c Hc. rewrite forallb_forall in Hs.
  apply negb_true_iff, Hs. by apply list_elem_of_In.
Qed.

Ltac a_name := apply name_is_word; reflexivity.

Lemma parse_remainder_value token f parts :
  parts <> [] -> f <> [] -> trim f = f -> word token ->
  parse_remainder (token ++ lit " " ++ f) token parts = Ok f.
Proof.
  intros Hp Hf Ht [Hne Hw]. unfold parse_remainder. destruct parts as [|? ?]; [done|].
  assert (Hr : remainder_after_token (token ++ lit " " ++ f) token = lit " " ++ f).
  { unfold remainder_after_token.
    assert (Hs : trim_start (token ++ lit " " ++ f) = token ++ lit " " ++ f).
    { destruct token as [|c token]; [done|]. inversion Hw as [|? ? Hc]; subst. cbn. unfold trim_start. cbn. by rewrite Hc. }
    rewrite Hs. rewrite starts_with_app. by rewrite drop_app_length. }
  rewrite Hr.
  assert (Hb : trim (lit " " ++ f) = trim f) by reflexivity.
  rewrite Hb, Ht. by apply is_empty_false in Hf as ->.
Qed.

(** Which parser a line with arguments goes to, by its first word. *)
Lemma parse_command_args input parts :
  (split_whitespace input = lit "move" :: parts ->
   parse_command input = CMove <$> parse_remainder input (lit "move") parts) /\
  (split_whitespace input = lit "goto" :: parts ->
   parse_command input = CGoto <$> parse_remainder input (lit "goto") parts) /\
  (split_whitespace input = lit "account" :: parts -> parse_command input = parse_account parts) /\
  (split_whitespace input = lit "search" :: parts -> parse_command input = parse_search parts) /\
  (split_whitespace input = lit "theme" :: parts -> parse_command input = parse_theme parts).
Proof. repeat split; intros H; unfold parse_command; rewrite H; reflexivity. Qed.

Lemma parse_search_words q ws :
  q = join (lit " ") ws -> ws <> [] -> Forall (fun w => word w /\ w <> lit "--account") ws ->
  split_whitespace q = ws /\ parse_search ws = Ok (CSearch None q) /\
  forall n, parse_search (lit "--account" :: n :: ws) = Ok (CSearch (Some n) q).
Proof.
  intros -> Hne Hws. split; [|split].
  - apply split_whitespace_join. by eapply Forall_impl; [exact Hws|intros ? []].
  - unfold parse_search. rewrite search_parts_words by done. by destruct ws.
  - intros n. unfold parse_search.
    change (search_parts (lit "--account" :: n :: ws) None []) with (search_parts ws (Some n) []).
    rewrite search_parts_words by done. by destruct ws.
Qed.

(** Every command the terminal interface knows can be typed: the line
    written for it in the documented syntax is parsed back to that command. *)
Theorem command_round_trip c : writable c -> parse_command (show_command c) = Ok c.
Proof.
  destruct c as [| | | | | | | | | | | |f| |t| | | | |f| |n|a q|]; cbn [writable show_command]; intros Hc; try reflexivity.
  - destruct Hc as [Hne Ht]. rewrite (proj1 (parse_command_args _ (split_whitespace f))).
    + rewrite parse_remainder_value; [done| by apply split_whitespace_nonempty|done|done|a_name].
    + apply split_whitespace_word. a_name.
  - by destruct t.
  - destruct Hc as [Hne Ht]. rewrite (proj1 (proj2 (parse_command_args _ (split_whitespace f)))).
    + rewrite parse_remainder_value; [done| by apply split_whitespace_nonempty|done|done|a_name].
    + apply split_whitespace_word. a_name.
  - rewrite (proj1 (proj2 (proj2 (parse_command_args _ [n])))); [done|].
    rewrite split_whitespace_word by a_name. by rewrite split_whitespace_last.
  - destruct Hc as [Ha (ws & Hq & Hne & Hws)]. destruct (parse_search_words q ws Hq Hne Hws) as (Hs & Hn & Hsome).
    destruct a as [n|].
    + rewrite (proj1 (proj2 (proj2 (proj2 (parse_command_args _ (lit "--account" :: n :: ws)))))); [done|].
      rewrite !split_whitespace_word; [by rewrite Hs|by apply Ha|a_name|a_name].
    + rewrite (proj1 (proj2 (proj2 (proj2 (parse_command_args _ ws))))); [done|].
      rewrite split_whitespace_word by a_name. by rewrite Hs.
Qed.

Lemma command_round_trip_witness :
  writable (CSearch (Some (lit "work")) (lit "from:ana invoice")) /\
  parse_command (show_command (CSearch (Some (lit "work")) (lit "from:ana invoice")))
    = Ok (CSearch (Some (lit "work")) (lit "from:ana invoice")).
Proof.
  assert (H : writable (CSearch (Some (lit "work")) (lit "from:ana invoice"))).
  { split; [intros n [= <-]; a_name|]. exists [lit "from:ana"; lit "invoice"].
    split; [reflexivity|]. split; [discriminate|].
    repeat constructor; try discriminate; apply name_is_word; reflexivity. }
  split; [exact H|]. exact (command_round_trip _ H).
Defined.
