(* ===== verification/TuiText.v ===== *)
(** * Text with line boundaries (src/tui/app.rs, [LineCache] and helpers)

    The composer body and the message detail are edited and scrolled by line;
    [LineCache] keeps the character and byte offsets of every line.  Byte
    offsets address the UTF-8 form, so a slice, an insertion or a removal is
    defined only at character boundaries ([None] is the panic of the
    standard library). *)

From S2P Require Import Prelude RustStr MailParser.
#[local] Open Scope nat_scope.
#[local] Open Scope bool_scope.

(** ** Strings by byte offset *)

(** The two parts of a string at a byte offset. *)
Fixpoint split_at_byte (s : str) (n : N) : option (str * str) :=
  if (n =? 0)%N then Some ([], s)
  else match s with
       | [] => None
       | c :: r =>
           if (n <? len_utf8 c)%N then None
           else match split_at_byte r (n - len_utf8 c)%N with
                | Some (x, y) => Some (c :: x, y)
                | None => None
                end
       end.

(** [str::get(a..b)]. *)
Definition str_get (s : str) (a b : N) : option str :=
  if (b <? a)%N then None
  else p ← split_at_byte s a; fst <$> split_at_byte p.2 (b - a)%N.

(** [String::insert]. *)
Definition string_insert (s : str) (i : N) (ch : char) : option str :=
  p ← split_at_byte s i; Some (p.1 ++ ch :: p.2).

(** [String::replace_range(a..b, _)] with nothing. *)
Definition string_remove (s : str) (a b : N) : option str :=
  if (b <? a)%N then None
  else p ← split_at_byte s a; q ← split_at_byte p.2 (b - a)%N; Some (p.1 ++ q.2).

Definition char_count (s : str) : nat := List.length s.

(** [char_indices().nth(k)]: the byte offset of a character. *)
Fixpoint nth_char_index (s : str) (k : nat) (at_byte : N) : option N :=
  match s with
  | [] => None
  | c :: r => match k with
              | O => Some at_byte
              | S k => nth_char_index r k (at_byte + len_utf8 c)%N
              end
  end.
Definition char_to_byte_index (value : str) (char_index : nat) : N :=
  if char_index =? 0 then 0%N else unwrap_or (str_len value) (nth_char_index value char_index 0%N).

(** ** The line cache *)

Record LineBounds : Type := mkLine {
  char_start : nat;
  char_end : nat;
  byte_start : N;
  byte_end : N;
}.
Record LineCache : Type := mkLineCache {
  bounds : list LineBounds;
  char_len : nat;
}.

(** The loop of [from_text] at byte offset [byte_index]; [total] is the byte
    length of the text. *)
Fixpoint scan_lines (total : N) (s : str) (byte_index : N) (start : nat) (bstart : N) (char_index : nat)
    : list LineBounds * nat :=
  match s with
  | [] => ([mkLine start char_index bstart total], char_index)
  | ch :: r =>
      let next := (byte_index + len_utf8 ch)%N in
      if (ch =? LF)%N then
        let p := scan_lines total r next (S char_index) next (S char_index) in
        (mkLine start char_index bstart byte_index :: p.1, p.2)
      else scan_lines total r next start bstart (S char_index)
  end.
Definition from_text (value : str) : LineCache :=
  let p := scan_lines (str_len value) value 0%N 0 0%N 0 in mkLineCache p.1 p.2.

Definition line_count (c : LineCache) : nat := List.length (bounds c).
Definition clamped_line (c : LineCache) (line : nat) : option LineBounds :=
  bounds c !! Nat.min line (List.length (bounds c) - 1).
Definition line_start (c : LineCache) (line : nat) : nat := unwrap_or 0 (char_start <$> clamped_line c line).
Definition line_end (c : LineCache) (line : nat) : nat := unwrap_or 0 (char_end <$> clamped_line c line).

(** [slice::partition_point]: how many leading elements satisfy the test. *)
Fixpoint partition_point {A} (f : A -> bool) (l : list A) : nat :=
  match l with
  | [] => 0
  | a :: r => if f a then S (partition_point f r) else 0
  end.
Definition line_for_cursor (c : LineCache) (cursor : nat) : nat :=
  Nat.min (partition_point (fun b => char_end b <? cursor) (bounds c)) (List.length (bounds c) - 1).

Definition line_text (c : LineCache) (text : str) (line : nat) : option str :=
  b ← bounds c !! line; str_get text (byte_start b) (byte_end b).
Definition text_lines (c : LineCache) (text : str) : list str :=
  omap (line_text c text) (seq 0 (line_count c)).

Record TextLineCache : Type := mkTextLines { tlc_text : str; tlc_lines : LineCache }.
Definition text_line_cache (text : str) : TextLineCache := mkTextLines text (from_text text).

(** ** Indices in lists on the screen *)

Definition clamp_index (index len : nat) : nat := if len =? 0 then 0 else Nat.min index (len - 1).

(** [move_index]: the new index and whether it moved. *)
Definition move_index (index len : nat) (delta : Z) : bool * nat :=
  if len =? 0 then (false, 0)
  else
    let old := Nat.min index (len - 1) in
    let next := if (delta <? 0)%Z then old - Z.abs_nat delta else Nat.min (old + Z.to_nat delta) (len - 1) in
    (negb (next =? old), next).

Definition clamp_isize (value lo hi : Z) : Z := Z.min (Z.max value lo) (Z.max hi lo).

(** ** Byte offsets *)

Lemma split_at_byte_app a b : split_at_byte (a ++ b) (str_len a) = Some (a, b).
Proof.
  induction a as [|c a IH]; cbn [app str_len]; [by destruct b|]. cbn [split_at_byte].
  assert (1 <= len_utf8 c)%N by (unfold len_utf8; repeat case_match; lia).
  rewrite (proj2 (N.eqb_neq _ _)) by lia. rewrite (proj2 (N.ltb_ge _ _)) by lia.
  replace (len_utf8 c + str_len a - len_utf8 c)%N with (str_len a) by lia. by rewrite IH.
Qed.

Lemma str_get_middle a b c : str_get (a ++ b ++ c) (str_len a) (str_len a + str_len b) = Some b.
Proof.
  unfold str_get. rewrite (proj2 (N.ltb_ge _ _)) by lia. rewrite split_at_byte_app. cbn.
  replace (str_len a + str_len b - str_len a)%N with (str_len b) by lia. by rewrite split_at_byte_app.
Qed.

Lemma nth_char_index_take s k n :
  nth_char_index s k n = if k <? List.length s then Some (n + str_len (take k s))%N else None.
Proof.
  revert k n. induction s as [|c s IH]; intros k n; [by destruct k|].
  destruct k as [|k]; cbn [nth_char_index List.length take str_len]; [by rewrite N.add_0_r|].
  rewrite IH. change (S k <? S (List.length s)) with (k <? List.length s).
  case_match; [|done]. f_equal. lia.
Qed.

(** The offset of a character is the length of what precedes it. *)
Lemma char_to_byte_index_take s k : char_to_byte_index s k = str_len (take k s).
Proof.
  unfold char_to_byte_index. destruct k as [|k]; [done|]. cbn [Nat.eqb].
  rewrite nth_char_index_take. destruct (Nat.ltb_spec (S k) (List.length s)); cbn [unwrap_or]; [done|].
  by rewrite take_ge.
Qed.

(** So insertion and removal at character positions never panic. *)
Lemma string_insert_chars s k ch :
  string_insert s (char_to_byte_index s k) ch = Some (take k s ++ ch :: drop k s).
Proof.
  unfold string_insert. rewrite char_to_byte_index_take.
  rewrite <- (take_drop k s) at 1. by rewrite split_at_byte_app.
Qed.

Lemma str_len_take_mono s j k : j <= k -> (str_len (take j s) <= str_len (take k s))%N.
Proof.
  revert j k. induction s as [|c s IH]; intros [|j] [|k] H; cbn; try lia. specialize (IH j k). lia.
Qed.

Lemma string_remove_chars s j k :
  j <= k -> string_remove s (char_to_byte_index s j) (char_to_byte_index s k) = Some (take j s ++ drop k s).
Proof.
  intros Hjk. unfold string_remove. rewrite !char_to_byte_index_take.
  rewrite (proj2 (N.ltb_ge _ _)) by (by apply str_len_take_mono).
  rewrite <- (take_drop j s) at 1. rewrite split_at_byte_app. cbn [mbind option_bind fst snd].
  assert (Hm : take k s = take j s ++ take (k - j) (drop j s)).
  { rewrite take_drop_commute. replace (j + (k - j)) with k by lia.
    rewrite <- (take_drop j (take k s)) at 1. by rewrite take_take, Nat.min_l by lia. }
  rewrite Hm, str_len_app. replace (_ + _ - _)%N with (str_len (take (k - j) (drop j s))) by lia.
  rewrite <- (take_drop (k - j) (drop j s)) at 1. rewrite split_at_byte_app. cbn.
  do 2 f_equal. rewrite drop_drop. f_equal. lia.
Qed.

(** ** The cache against the lines of the text *)

(** The bounds of lines that start at a character and a byte. *)
Fixpoint bounds_of (ls : list str) (cs : nat) (bs : N) : list LineBounds :=
  match ls with
  | [] => []
  | w :: ws =>
      mkLine cs (cs + List.length w) bs (bs + str_len w)%N
      :: bounds_of ws (cs + List.length w + 1) (bs + str_len w + 1)%N
  end.

Definition lines_of (s : str) : list str := split_char LF s.

Lemma lines_of_cons s : exists w ws, lines_of s = w :: ws.
Proof.
  unfold lines_of, split_char. induction s as [|c s (w & ws & IH)]; cbn [split_by]; [eauto|].
  rewrite IH. destruct (LF =? c)%N; eauto.
Qed.

Lemma lines_of_nonempty s : 0 < List.length (lines_of s).
Proof. destruct (lines_of_cons s) as (w & ws & ->). cbn. lia. Qed.

Lemma lines_of_join s : join [LF] (lines_of s) = s.
Proof.
  unfold lines_of, split_char. induction s as [|c s IH]; [done|]. cbn [split_by].
  destruct (lines_of_cons s) as (w & ws & Hw). unfold lines_of, split_char in Hw. rewrite Hw in *.
  destruct (LF =? c)%N eqn:Ec.
  - apply N.eqb_eq in Ec as <-. cbn [join app]. f_equal. exact IH.
  - rewrite <- IH. by destruct ws.
Qed.

Lemma scan_lines_bounds total s w0 cs bs w ws :
  lines_of s = w :: ws -> total = (bs + str_len w0 + str_len s)%N ->
  scan_lines total s (bs + str_len w0)%N cs bs (cs + List.length w0)
  = (bounds_of ((w0 ++ w) :: ws) cs bs, cs + List.length w0 + List.length s).
Proof.
  revert w0 cs bs w ws. induction s as [|c s IH]; intros w0 cs bs w ws Hs Ht; cbn [scan_lines].
  - injection Hs as <- <-. rewrite app_nil_r. cbn [bounds_of List.length str_len] in *.
    by rewrite Nat.add_0_r, Ht, N.add_0_r.
  - destruct (lines_of_cons s) as (v & vs & Hv). unfold lines_of, split_char in *. cbn [split_by] in Hs.
    cbn [str_len] in Ht. rewrite N.eqb_sym in Hs. destruct (N.eqb_spec c LF) as [->|Hc].
    + injection Hs as <- <-. change (len_utf8 LF) with 1%N in *. rewrite app_nil_r.
      specialize (IH [] (S (cs + List.length w0)) (bs + str_len w0 + 1)%N v vs Hv).
      cbn [str_len List.length app] in IH. rewrite N.add_0_r, Nat.add_0_r in IH.
      rewrite IH by lia. cbn [fst snd List.length]. rewrite Hv. cbn [bounds_of].
      repeat first [ lia | f_equal ].
    + rewrite Hv in Hs. injection Hs as <- <-.
      specialize (IH (w0 ++ [c]) cs bs v vs Hv). rewrite str_len_app, length_app in IH.
      cbn [str_len List.length] in IH. rewrite N.add_0_r, <- app_assoc in IH. cbn [app] in IH.
      rewrite N.add_assoc in IH. rewrite Nat.add_1_r, <- plus_n_Sm in IH.
      rewrite IH by lia. cbn [List.length]. f_equal. lia.
Qed.

Lemma from_text_bounds s :
  from_text s = mkLineCache (bounds_of (lines_of s) 0 0%N) (List.length s).
Proof.
  unfold from_text. destruct (lines_of_cons s) as (w & ws & Hs).
  pose proof (scan_lines_bounds (str_len s) s [] 0 0%N w ws Hs) as H. cbn [str_len List.length app] in H.
  change (0 + 0)%N with 0%N in H. rewrite !Nat.add_0_l in H. rewrite H by lia. cbn [fst snd]. by rewrite Hs.
Qed.

Lemma bounds_of_length ls cs bs : List.length (bounds_of ls cs bs) = List.length ls.
Proof. revert cs bs. induction ls as [|w ws IH]; intros; cbn; [done|]. by rewrite IH. Qed.

(** The offset of a line: all lines before it and their line feeds. *)
Definition chars_before (ls : list str) (k : nat) : nat :=
  sum_list_with (fun w => S (List.length w)) (take k ls).
Definition bytes_before (ls : list str) (k : nat) : N :=
  foldr (fun w n => str_len w + 1 + n)%N 0%N (take k ls).

Lemma bounds_of_lookup ls cs bs k w :
  ls !! k = Some w ->
  bounds_of ls cs bs !! k =
    Some (mkLine (cs + chars_before ls k) (cs + chars_before ls k + List.length w)
                 (bs + bytes_before ls k) (bs + bytes_before ls k + str_len w)).
Proof.
  revert cs bs k. induction ls as [|v ls IH]; intros cs bs [|k] H; cbn in H; [done..| |].
  - injection H as ->. cbn. by rewrite Nat.add_0_r, N.add_0_r.
  - cbn [bounds_of lookup list_lookup]. rewrite (IH _ _ _ H). unfold chars_before, bytes_before.
    cbn [take sum_list_with foldr]. repeat first [ lia | f_equal ].
Qed.

Lemma join_cons w v ws : join [LF] (w :: v :: ws) = w ++ LF :: join [LF] (v :: ws).
Proof. reflexivity. Qed.

(** A line within the text. *)
Lemma join_split ls k w :
  ls !! k = Some w ->
  exists a b, join [LF] ls = a ++ w ++ b /\ str_len a = bytes_before ls k
              /\ List.length a = chars_before ls k.
Proof.
  revert k. induction ls as [|v ls IH]; intros [|k] H; cbn in H; [done..| |].
  - injection H as ->. exists [], (match ls with [] => [] | _ => LF :: join [LF] ls end).
    split; [|done]. destruct ls; [by rewrite app_nil_r|]. apply join_cons.
  - destruct (IH k H) as (a & b & Ha & Hb & Hc). destruct ls as [|u ls]; [done|].
    exists (v ++ LF :: a), b. rewrite join_cons, Ha, str_len_app, length_app.
    unfold bytes_before, chars_before in *. cbn [take foldr sum_list_with str_len List.length].
    rewrite Hb, Hc. change (len_utf8 LF) with 1%N. split; [by rewrite <- app_assoc|]. lia.
Qed.

Lemma line_text_lookup s k : line_text (from_text s) s k = lines_of s !! k.
Proof.
  unfold line_text. rewrite from_text_bounds. cbn [bounds].
  destruct (lines_of s !! k) as [w|] eqn:Hw.
  - rewrite (bounds_of_lookup _ _ _ _ _ Hw). cbn. rewrite N.add_0_l.
    destruct (join_split _ _ _ Hw) as (a & b & Hs & <- & _). rewrite lines_of_join in Hs.
    rewrite Hs. apply str_get_middle.
  - assert (Hn : bounds_of (lines_of s) 0 0%N !! k = None).
    { apply lookup_ge_None. rewrite bounds_of_length. by apply lookup_ge_None. }
    by rewrite Hn.
Qed.

Lemma line_count_lines s : line_count (from_text s) = List.length (lines_of s).
Proof. rewrite from_text_bounds. apply bounds_of_length. Qed.

Lemma omap_lookup_seq {A} (l : list A) (f : nat -> option A) i :
  (forall k, f (i + k) = l !! k) -> omap f (seq i (List.length l)) = l.
Proof.
  revert f i. induction l as [|a l IH]; intros f i Hf; [done|]. cbn.
  pose proof (Hf 0) as H0. rewrite Nat.add_0_r in H0. rewrite H0. cbn. f_equal.
  apply IH. intros k. specialize (Hf (S k)). by rewrite <- plus_n_Sm in Hf.
Qed.

(** The cached slices are the lines of the text. *)
Lemma text_lines_split s : text_lines (from_text s) s = lines_of s.
Proof. unfold text_lines. rewrite line_count_lines. apply omap_lookup_seq, line_text_lookup. Qed.

(** ** Positions *)

(** The line and column of a cursor. *)
Definition cursor_line_column (c : LineCache) (cursor : nat) : nat * nat :=
  let cursor := Nat.min cursor (char_len c) in
  let line := line_for_cursor c cursor in
  (line, cursor - line_start c line).

Lemma chars_before_S w ls k : chars_before (w :: ls) (S k) = S (List.length w) + chars_before ls k.
Proof. reflexivity. Qed.

Lemma partition_point_line ls cs bs cursor :
  ls <> [] -> cs <= cursor <= cs + List.length (join [LF] ls) ->
  exists w, ls !! partition_point (fun b => char_end b <? cursor) (bounds_of ls cs bs) = Some w /\
    let k := partition_point (fun b => char_end b <? cursor) (bounds_of ls cs bs) in
    cs + chars_before ls k <= cursor <= cs + chars_before ls k + List.length w.
Proof.
  revert cs bs. induction ls as [|v ls IH]; intros cs bs Hne Hc; [done|].
  cbn [bounds_of partition_point char_end]. destruct (Nat.ltb_spec (cs + List.length v) cursor) as [Hlt|Hge].
  - destruct ls as [|u ls]; [cbn in Hc; lia|]. rewrite join_cons, length_app in Hc. cbn [List.length] in Hc.
    destruct (IH (cs + List.length v + 1) (bs + str_len v + 1)%N) as (w & Hw & Hk); [done|lia|].
    exists w. cbn [lookup list_lookup]. split; [exact Hw|]. cbv zeta in *. rewrite chars_before_S. lia.
  - exists v. split; [done|]. cbn. unfold chars_before. cbn. lia.
Qed.

Lemma line_start_lines s k :
  k < List.length (lines_of s) -> line_start (from_text s) k = chars_before (lines_of s) k.
Proof.
  intros Hk. unfold line_start, clamped_line. rewrite from_text_bounds. cbn [bounds].
  rewrite bounds_of_length, Nat.min_l by lia.
  destruct (lookup_lt_is_Some_2 _ _ Hk) as [w Hw]. by rewrite (bounds_of_lookup _ _ _ _ _ Hw).
Qed.

Lemma line_end_lines s k w :
  lines_of s !! k = Some w -> line_end (from_text s) k = chars_before (lines_of s) k + List.length w.
Proof.
  intros Hw. pose proof (lookup_lt_Some _ _ _ Hw). unfold line_end, clamped_line. rewrite from_text_bounds. cbn [bounds].
  rewrite bounds_of_length, Nat.min_l by lia. by rewrite (bounds_of_lookup _ _ _ _ _ Hw).
Qed.

(** The text before a position. *)
Lemma take_position ls k w col :
  ls !! k = Some w -> col <= List.length w ->
  take (chars_before ls k + col) (join [LF] ls) = join [LF] (take k ls ++ [take col w]).
Proof.
  revert k. induction ls as [|v ls IH]; intros [|k] Hw Hc; cbn in Hw; [done..| |].
  - injection Hw as ->. unfold chars_before. cbn [take sum_list_with Nat.add app].
    destruct ls; [done|]. rewrite join_cons. by rewrite take_app_le.
  - destruct ls as [|u ls]; [done|]. rewrite join_cons, chars_before_S.
    cbn [take app]. destruct (take k (u :: ls) ++ [take col w]) as [|x xs] eqn:Hx; [by destruct (take k (u :: ls))|].
    rewrite join_cons, <- Hx, <- IH by done.
    replace (S (List.length v) + chars_before (u :: ls) k + col)
      with (List.length v + S (chars_before (u :: ls) k + col)) by lia.
    rewrite take_app_add'; done.
Qed.

Lemma cursor_position s cursor :
  let p := cursor_line_column (from_text s) cursor in
  exists w, lines_of s !! p.1 = Some w /\ p.2 <= List.length w /\
    line_start (from_text s) p.1 + p.2 = Nat.min cursor (List.length s) /\
    take cursor s = join [LF] (take p.1 (lines_of s) ++ [take p.2 w]).
Proof.
  unfold cursor_line_column. set (c := Nat.min cursor _).
  assert (Hc : c = Nat.min cursor (List.length s)) by (unfold c; by rewrite from_text_bounds).
  assert (Hlt : line_for_cursor (from_text s) c =
                partition_point (fun b => char_end b <? c) (bounds_of (lines_of s) 0 0%N)).
  { unfold line_for_cursor. rewrite from_text_bounds. cbn [bounds]. apply Nat.min_l.
    destruct (partition_point_line (lines_of s) 0 0%N c) as (w & Hw & _).
    - destruct (lines_of_cons s) as (? & ? & ->). done.
    - rewrite lines_of_join. lia.
    - apply lookup_lt_Some in Hw. rewrite bounds_of_length. lia. }
  destruct (partition_point_line (lines_of s) 0 0%N c) as (w & Hw & Hk).
  { destruct (lines_of_cons s) as (? & ? & ->). done. }
  { rewrite lines_of_join. lia. }
  rewrite <- Hlt in Hw, Hk. set (k := line_for_cursor _ _) in *. cbn zeta in Hk. cbn [fst snd].
  pose proof (lookup_lt_Some _ _ _ Hw). rewrite line_start_lines by done.
  exists w. split_and!; [done|lia|lia|].
  rewrite <- take_position by (done || lia). rewrite lines_of_join.
  replace (chars_before (lines_of s) k + (c - chars_before (lines_of s) k)) with c by lia. rewrite Hc.
  destruct (Nat.le_gt_cases cursor (List.length s)); [by rewrite Nat.min_l|].
  rewrite Nat.min_r by lia. by rewrite !take_ge by lia.
Qed.

Lemma chars_before_mono ls k w j :
  ls !! k = Some w -> k < j -> chars_before ls k + List.length w < chars_before ls j.
Proof.
  revert k j. induction ls as [|v ls IH]; intros [|k] [|j] Hw Hj; cbn in Hw; try done; try lia.
  - injection Hw as ->. rewrite chars_before_S. unfold chars_before at 1. cbn. lia.
  - rewrite !chars_before_S. specialize (IH k j Hw). lia.
Qed.

Lemma position_inside ls k w : ls !! k = Some w -> chars_before ls k + List.length w <= List.length (join [LF] ls).
Proof.
  intros Hw. destruct (join_split _ _ _ Hw) as (a & b & -> & _ & <-). rewrite !length_app. lia.
Qed.

(** Every position of the text is the place of exactly one cursor. *)
Lemma position_cursor s k w col :
  lines_of s !! k = Some w -> col <= List.length w ->
  cursor_line_column (from_text s) (line_start (from_text s) k + col) = (k, col).
Proof.
  intros Hw Hc. pose proof (lookup_lt_Some _ _ _ Hw) as Hk. pose proof (position_inside _ _ _ Hw) as Hin.
  rewrite lines_of_join in Hin. rewrite line_start_lines by done.
  destruct (cursor_position s (chars_before (lines_of s) k + col)) as (v & Hv & Hcol & Hstart & _).
  destruct (cursor_line_column _ _) as [k' col']. cbn [fst snd] in *.
  pose proof (lookup_lt_Some _ _ _ Hv). rewrite line_start_lines, Nat.min_l in Hstart by lia.
  destruct (Nat.lt_trichotomy k k') as [Hlt|[->|Hlt]].
  - pose proof (chars_before_mono _ _ _ _ Hw Hlt). lia.
  - f_equal. lia.
  - pose proof (chars_before_mono _ _ _ _ Hv Hlt). lia.
Qed.

Lemma lines_of_no_LF s : Forall (fun w => Forall (fun c => c <> LF) w) (lines_of s).
Proof.
  unfold lines_of, split_char. induction s as [|c s IH]; cbn [split_by]; [by repeat constructor|].
  destruct (N.eqb_spec LF c) as [|Hc]; [by constructor|].
  assert (Hc' : c <> LF) by congruence.
  destruct (split_by (N.eqb LF) s) as [|w ws]; inversion IH; subst; repeat (constructor; try done).
Qed.

(** The text after a position. *)
Lemma drop_position ls k w col :
  ls !! k = Some w -> col <= List.length w ->
  drop (chars_before ls k + col) (join [LF] ls) = join [LF] (drop col w :: drop (S k) ls).
Proof.
  revert k. induction ls as [|v ls IH]; intros [|k] Hw Hc; cbn in Hw; [done..| |].
  - injection Hw as ->. unfold chars_before. cbn [take sum_list_with Nat.add drop].
    destruct ls as [|u ls]; [done|]. rewrite !join_cons. by rewrite drop_app_le.
  - destruct ls as [|u ls]; [done|]. rewrite join_cons, chars_before_S.
    replace (S (List.length v) + chars_before (u :: ls) k + col)
      with (List.length v + S (chars_before (u :: ls) k + col)) by lia.
    rewrite drop_app_add'; [|done]. cbn [drop]. by rewrite IH.
Qed.

(** The part of the current line before and after the cursor. *)
Definition not_LF (c : char) : bool := negb (c =? LF)%N.
Definition line_head (before : str) : str := trim_end_by not_LF before.
Fixpoint take_while (f : char -> bool) (s : str) : str :=
  match s with
  | c :: r => if f c then c :: take_while f r else []
  | [] => []
  end.

Lemma not_LF_line w : Forall (fun c => c <> LF) w -> Forall (fun c => not_LF c = true) w.
Proof. intros H. eapply Forall_impl; [exact H|]. intros c Hc. unfold not_LF. by apply negb_true_iff, N.eqb_neq. Qed.

Lemma join_snoc ls w : ls <> [] -> join [LF] (ls ++ [w]) = join [LF] ls ++ LF :: w.
Proof.
  induction ls as [|v [|u ls] IH]; intros Hne; [done| done|].
  change ((v :: u :: ls) ++ [w]) with (v :: u :: (ls ++ [w])). rewrite !join_cons.
  change (u :: ls ++ [w]) with ((u :: ls) ++ [w]). rewrite IH by done. by rewrite <- app_assoc.
Qed.

Lemma line_head_join ls w :
  Forall (fun c => c <> LF) w -> line_head (join [LF] (ls ++ [w])) = join [LF] (ls ++ [[]]).
Proof.
  intros Hw. unfold line_head. destruct (decide (ls = [])) as [->|Hne].
  - cbn [app join]. rewrite <- (app_nil_l w), trim_end_by_app; [done|]. by apply not_LF_line.
  - rewrite !join_snoc by done.
    change (LF :: w) with ([LF] ++ w). rewrite app_assoc, trim_end_by_app by (by apply not_LF_line).
    by rewrite trim_end_by_last.
Qed.

Lemma take_while_line w ls : Forall (fun c => c <> LF) w -> take_while not_LF (join [LF] (w :: ls)) = w.
Proof.
  intros Hw%not_LF_line. destruct ls as [|v ls]; [cbn [join]|rewrite join_cons];
    induction Hw as [|c w Hc _ IH]; cbn [take_while app]; try done; rewrite Hc; f_equal; exact IH.
Qed.

(** ** Indices *)

Definition in_range (index len : nat) : Prop := index < len \/ (index = 0 /\ len = 0).

Lemma in_range_lookup {A} (l : list A) index : in_range index (List.length l) -> l <> [] -> is_Some (l !! index).
Proof. unfold in_range. destruct l; [done|]. intros H _. apply lookup_lt_is_Some. cbn in *. lia. Qed.
Lemma clamp_in_range index len : in_range (clamp_index index len) len.
Proof. unfold in_range, clamp_index. destruct (Nat.eqb_spec len 0); lia. Qed.

Lemma move_in_range index len delta : in_range (move_index index len delta).2 len.
Proof.
  unfold in_range, move_index. destruct (Nat.eqb_spec len 0); cbn; [lia|].
  destruct (Z.ltb_spec delta 0); cbn; lia.
Qed.

Lemma in_range_0 len : in_range 0 len.
Proof. unfold in_range. lia. Qed.

Lemma clamp_of_range index len : in_range index len -> clamp_index index len = index.
Proof. unfold in_range, clamp_index. destruct (Nat.eqb_spec len 0); lia. Qed.

Create HintDb tui.
#[export] Hint Resolve clamp_in_range move_in_range in_range_0 lines_of_nonempty : tui.
