(* ===== verification/TuiComposer.v ===== *)
(** * The composer (src/tui/app.rs, [ComposerState])

    The fields of a message being written, each with a cursor counted in
    characters; the body also has a line cache, a scroll offset and a line
    selection.  Lengths and cursors are [usize] counters and are natural
    numbers here; nothing adds to them beyond the length of a text. *)

From S2P Require Import Prelude RustStr MailParser DbCore Attachments TuiText.
#[local] Open Scope nat_scope.
#[local] Open Scope bool_scope.

Definition MAX_COMPOSE_HEADER_CHARS : N := 4096.
Definition MAX_COMPOSE_BODY_CHARS : N := 100000.
Definition MAX_COMPOSE_ATTACHMENT_BYTES : Z := 25 * 1024 * 1024.
Definition MAX_COMPOSE_PATH_CHARS : N := 4096.

(** [chars().count() >= limit]. *)
Definition at_limit (s : str) (limit : N) : bool := (limit <=? N.of_nat (char_count s))%N.

(** [char::is_control]: Unicode's Cc. *)
Definition is_control (c : char) : bool := ((c <? 32) || ((127 <=? c) && (c <? 160)))%N.

Inductive ComposeField : Type := FTo | FCc | FBcc | FSubject | FBody.
#[global] Instance ComposeField_eq_dec : EqDecision ComposeField.
Proof. solve_decision. Defined.

Definition field_next (f : ComposeField) : ComposeField :=
  match f with FTo => FCc | FCc => FBcc | FBcc => FSubject | FSubject => FBody | FBody => FTo end.
Definition field_previous (f : ComposeField) : ComposeField :=
  match f with FTo => FBody | FCc => FTo | FBcc => FCc | FSubject => FBcc | FBody => FSubject end.

Record ComposerAttachment : Type := mkComposerAttachment {
  ca_path : str;
  ca_filename : str;
  ca_size_bytes : Z;
  ca_content_type : str;
}.

Record ComposerDraft : Type := mkComposerDraft {
  cd_account_id : Id;
  cd_in_reply_to_msg : option Id;
  cd_to_addrs : list str;
  cd_cc_addrs : list str;
  cd_bcc_addrs : list str;
  cd_subject : option str;
  cd_text_body : option str;
  cd_html_body : option str;
  cd_attachments : list ComposerAttachment;
  cd_in_reply_to : option str;
  cd_references_header : option str;
}.

Record ComposerPrefill : Type := mkPrefill {
  pf_in_reply_to_msg : option Id;
  pf_to_addrs : list str;
  pf_cc_addrs : list str;
  pf_bcc_addrs : list str;
  pf_subject : option str;
  pf_body : option str;
  pf_in_reply_to : option str;
  pf_references_header : option str;
  pf_attachments : list ComposerAttachment;
}.

Record ComposerState : Type := mkComposer {
  c_account_id : Id;
  c_draft_id : option Id;
  c_focused : ComposeField;
  c_to : str;
  c_to_cursor : nat;
  c_cc : str;
  c_cc_cursor : nat;
  c_bcc : str;
  c_bcc_cursor : nat;
  c_subject : str;
  c_subject_cursor : nat;
  c_body : str;
  c_body_cursor : nat;
  c_body_line_cache : LineCache;
  c_body_scroll : nat;
  c_body_selection_anchor : option nat;
  c_body_selection_focus : nat;
  c_body_preferred_column : option nat;
  c_dirty : bool;
  c_attachments : list ComposerAttachment;
  c_selected_attachment : nat;
  c_attach_input : str;
  c_in_reply_to_msg : option Id;
  c_in_reply_to : option str;
  c_references_header : option str;
}.

#[export] Instance composer_fields : Fields ComposerState := fun c =>
  mkComposer (c_account_id c) (c_draft_id c) (c_focused c) (c_to c) (c_to_cursor c) (c_cc c) (c_cc_cursor c)
    (c_bcc c) (c_bcc_cursor c) (c_subject c) (c_subject_cursor c) (c_body c) (c_body_cursor c)
    (c_body_line_cache c) (c_body_scroll c) (c_body_selection_anchor c) (c_body_selection_focus c)
    (c_body_preferred_column c) (c_dirty c) (c_attachments c) (c_selected_attachment c) (c_attach_input c)
    (c_in_reply_to_msg c) (c_in_reply_to c) (c_references_header c).

(** Evaluate field accesses of an updated composer. *)
Ltac composer_simpl :=
  cbn [update c_account_id c_draft_id c_focused c_to c_to_cursor c_cc c_cc_cursor c_bcc c_bcc_cursor c_subject
       c_subject_cursor c_body c_body_cursor c_body_line_cache c_body_scroll c_body_selection_anchor
       c_body_selection_focus c_body_preferred_column c_dirty c_attachments c_selected_attachment c_attach_input
       c_in_reply_to_msg c_in_reply_to c_references_header fst snd] in *.

(** ** Opening *)

Definition composer_new (account_id : Id) : ComposerState :=
  mkComposer account_id None FTo [] 0 [] 0 [] 0 [] 0 [] 0 (from_text []) 0 None 0 None false [] 0 [] None None None.

Definition is_separator (c : char) : bool := ((c =? 44) || (c =? 59) || (c =? LF))%N.
Definition split_addresses (value : str) : list str :=
  List.filter (fun part => negb (is_empty part)) (map trim (split_by is_separator value)).
Definition join_addresses (values : list str) : str := join (lit ", ") values.
Definition non_empty_string (value : str) : option str := if is_empty (trim value) then None else Some value.

Definition has_content (c : ComposerState) : bool :=
  existsb (fun v => negb (is_empty (trim v))) [c_to c; c_cc c; c_bcc c; c_subject c; c_body c]
  || negb (bool_decide (c_attachments c = [])).

Definition refresh_body_line_cache (c : ComposerState) : ComposerState :=
  c <| c_body_line_cache := from_text (c_body c) |>.

(** The three address fields, with the cursors at their ends. *)
Definition with_addresses (to cc bcc : list str) (c : ComposerState) : ComposerState :=
  c <| c_to := join_addresses to |> <| c_to_cursor := char_count (join_addresses to) |>
    <| c_cc := join_addresses cc |> <| c_cc_cursor := char_count (join_addresses cc) |>
    <| c_bcc := join_addresses bcc |> <| c_bcc_cursor := char_count (join_addresses bcc) |>.
Definition with_subject (subject : option str) (c : ComposerState) : ComposerState :=
  match subject with
  | Some s => c <| c_subject := s |> <| c_subject_cursor := char_count s |>
  | None => c
  end.

Definition from_prefill (account_id : Id) (p : ComposerPrefill) : ComposerState :=
  let c := with_subject (pf_subject p)
             (with_addresses (pf_to_addrs p) (pf_cc_addrs p) (pf_bcc_addrs p) (composer_new account_id)) in
  let c := match pf_body p with
           | Some body => refresh_body_line_cache (c <| c_body := body |> <| c_body_cursor := char_count body |>)
           | None => c
           end in
  let c := c <| c_attachments := pf_attachments p |> <| c_in_reply_to_msg := pf_in_reply_to_msg p |>
             <| c_in_reply_to := pf_in_reply_to p |> <| c_references_header := pf_references_header p |>
             <| c_focused := FBody |> in
  c <| c_dirty := has_content c |>.

(** [enter_composer_for_existing_draft], the composer it opens. *)
Definition from_existing_draft (draft_id : Id) (d : ComposerDraft) (focus : ComposeField) : ComposerState :=
  let c := with_subject (cd_subject d)
             (with_addresses (cd_to_addrs d) (cd_cc_addrs d) (cd_bcc_addrs d)
               ((composer_new (cd_account_id d)) <| c_draft_id := Some draft_id |>)) in
  let c := match cd_text_body d with
           | Some body =>
               let c := refresh_body_line_cache (c <| c_body := body |> <| c_body_cursor := 0 |>) in
               c <| c_body_scroll := line_count (c_body_line_cache c) - 1 |>
           | None => c
           end in
  c <| c_in_reply_to_msg := cd_in_reply_to_msg d |> <| c_in_reply_to := cd_in_reply_to d |>
    <| c_references_header := cd_references_header d |> <| c_attachments := cd_attachments d |>
    <| c_focused := focus |> <| c_dirty := false |>.

Definition composer_draft_of (c : ComposerState) : ComposerDraft :=
  mkComposerDraft (c_account_id c) (c_in_reply_to_msg c) (split_addresses (c_to c)) (split_addresses (c_cc c))
    (split_addresses (c_bcc c)) (non_empty_string (c_subject c)) (non_empty_string (c_body c)) None
    (c_attachments c) (c_in_reply_to c) (c_references_header c).

(** [u64::saturating_add]. *)
Definition sat_add64 (a b : Z) : Z := Z.min (a + b) (2 ^ 64 - 1).
Definition aggregate_attachment_size (c : ComposerState) : Z :=
  foldl (fun acc a => sat_add64 acc (ca_size_bytes a)) 0%Z (c_attachments c).

(** ** The focused field *)

Definition focused_text (c : ComposerState) : str :=
  match c_focused c with
  | FTo => c_to c | FCc => c_cc c | FBcc => c_bcc c | FSubject => c_subject c | FBody => c_body c
  end.
Definition focused_cursor (c : ComposerState) : nat :=
  match c_focused c with
  | FTo => c_to_cursor c | FCc => c_cc_cursor c | FBcc => c_bcc_cursor c
  | FSubject => c_subject_cursor c | FBody => c_body_cursor c
  end.
(** Writing through [focused_text_and_cursor_mut]. *)
Definition set_focused (text : str) (cursor : nat) (c : ComposerState) : ComposerState :=
  match c_focused c with
  | FTo => c <| c_to := text |> <| c_to_cursor := cursor |>
  | FCc => c <| c_cc := text |> <| c_cc_cursor := cursor |>
  | FBcc => c <| c_bcc := text |> <| c_bcc_cursor := cursor |>
  | FSubject => c <| c_subject := text |> <| c_subject_cursor := cursor |>
  | FBody => c <| c_body := text |> <| c_body_cursor := cursor |>
  end.
Definition set_cursor (cursor : nat) (c : ComposerState) : ComposerState := set_focused (focused_text c) cursor c.
Definition field_len (c : ComposerState) : nat := char_count (focused_text c).
Definition field_limit (c : ComposerState) : N :=
  match c_focused c with FBody => MAX_COMPOSE_BODY_CHARS | _ => MAX_COMPOSE_HEADER_CHARS end.

(** ** The body *)

Definition body_line_count (c : ComposerState) : nat := line_count (c_body_line_cache c).
Definition body_line_start (c : ComposerState) (line : nat) : nat := line_start (c_body_line_cache c) line.
Definition body_line_end (c : ComposerState) (line : nat) : nat := line_end (c_body_line_cache c) line.
Definition body_line_len (c : ComposerState) (line : nat) : nat := body_line_end c line - body_line_start c line.
Definition body_lines (c : ComposerState) : list str := text_lines (c_body_line_cache c) (c_body c).
Definition body_cursor_line_column (c : ComposerState) : nat * nat :=
  cursor_line_column (c_body_line_cache c) (c_body_cursor c).

Definition body_selected_line_range (c : ComposerState) : option (nat * nat) :=
  anchor ← c_body_selection_anchor c;
  let max_line := body_line_count c - 1 in
  Some (Nat.min (Nat.min anchor (c_body_selection_focus c)) max_line,
        Nat.min (Nat.max anchor (c_body_selection_focus c)) max_line).

(** The scroll offset that shows a line, from the current one. *)
Definition visible_scroll (scroll line_count cursor_line viewport_height : nat) : nat :=
  let viewport_height := Nat.max viewport_height 1 in
  let max_scroll := line_count - viewport_height in
  let scroll := Nat.min scroll max_scroll in
  let scroll := if cursor_line <? scroll then cursor_line
                else if scroll + viewport_height <=? cursor_line then cursor_line + 1 - viewport_height
                else scroll in
  Nat.min scroll max_scroll.
Definition body_visible_scroll (c : ComposerState) (viewport_height : nat) : nat :=
  visible_scroll (c_body_scroll c) (body_line_count c) (body_cursor_line_column c).1 viewport_height.
Definition ensure_body_cursor_visible (viewport_height : nat) (c : ComposerState) : ComposerState :=
  c <| c_body_scroll := body_visible_scroll c viewport_height |>.

Definition clear_body_selection (c : ComposerState) : bool * ComposerState :=
  (bool_decide (c_body_selection_anchor c <> None),
   c <| c_body_selection_anchor := None |> <| c_body_selection_focus := (body_cursor_line_column c).1 |>).

Definition reset_body_navigation_state (c : ComposerState) : ComposerState :=
  if decide (c_focused c = FBody)
  then (clear_body_selection (c <| c_body_preferred_column := None |>)).2 else c.

Definition after_text_edit (c : ComposerState) : ComposerState :=
  if decide (c_focused c = FBody)
  then ensure_body_cursor_visible 1
         (clear_body_selection ((refresh_body_line_cache c) <| c_body_preferred_column := None |>)).2
  else c.

(** ** Cursor movement *)

Definition move_focused_cursor_left (c : ComposerState) : bool * ComposerState :=
  if focused_cursor c =? 0 then (false, c)
  else (true, reset_body_navigation_state (set_cursor (focused_cursor c - 1) c)).

Definition move_focused_cursor_right (c : ComposerState) : bool * ComposerState :=
  let len := field_len c in
  let old := Nat.min (focused_cursor c) len in
  if len <=? old then (false, set_cursor len c)
  else (true, reset_body_navigation_state (set_cursor (old + 1) c)).

Definition set_focused_cursor (next : nat) (c : ComposerState) : bool * ComposerState :=
  let len := field_len c in
  let next := Nat.min next len in
  let old := Nat.min (focused_cursor c) len in
  let c := set_cursor next c in
  if old =? next then (false, c) else (true, reset_body_navigation_state c).

Definition move_focused_cursor_home (c : ComposerState) : bool * ComposerState :=
  set_focused_cursor
    (if decide (c_focused c = FBody) then body_line_start c (body_cursor_line_column c).1 else 0) c.
Definition move_focused_cursor_end (c : ComposerState) : bool * ComposerState :=
  set_focused_cursor
    (if decide (c_focused c = FBody) then body_line_end c (body_cursor_line_column c).1 else field_len c) c.

Definition move_body_line (delta : Z) (viewport_height : nat) (c : ComposerState) : bool * ComposerState :=
  if negb (bool_decide (c_focused c = FBody)) then (false, c)
  else
    let max_line := body_line_count c - 1 in
    let '(line, column) := body_cursor_line_column c in
    let preferred := unwrap_or column (c_body_preferred_column c) in
    let c1 := c <| c_body_preferred_column := Some preferred |> in
    let next_line := if (delta <? 0)%Z then line - Z.abs_nat delta
                     else Nat.min (line + Z.to_nat delta) max_line in
    let next_column := Nat.min preferred (body_line_len c1 next_line) in
    let c2 := c1 <| c_body_cursor := body_line_start c1 next_line + next_column |> in
    let c3 := if bool_decide (c_body_selection_anchor c2 <> None)
              then c2 <| c_body_selection_focus := next_line |> else c2 in
    let c4 := ensure_body_cursor_visible viewport_height c3 in
    (negb (c_body_cursor c4 =? c_body_cursor c) || negb (c_body_scroll c4 =? c_body_scroll c)
       || negb (c_body_selection_focus c4 =? c_body_selection_focus c), c4).

(** ** Editing *)

Definition insert_focused_char (ch : char) (c : ComposerState) : ComposerState :=
  let text := focused_text c in
  let current := Nat.min (focused_cursor c) (char_count text) in
  let byte_index := char_to_byte_index text current in
  after_text_edit (set_focused (unwrap_or text (string_insert text byte_index ch)) (current + 1) c).

Definition insert_body_newline (c : ComposerState) : ComposerState :=
  let current := Nat.min (c_body_cursor c) (char_count (c_body c)) in
  let byte_index := char_to_byte_index (c_body c) current in
  after_text_edit (c <| c_body := unwrap_or (c_body c) (string_insert (c_body c) byte_index LF) |>
                     <| c_body_cursor := current + 1 |>).

(** [replace_range] of the characters between two positions. *)
Definition remove_chars (text : str) (from to : nat) : str :=
  unwrap_or text (string_remove text (char_to_byte_index text from) (char_to_byte_index text to)).

Definition delete_before_focused_cursor (c : ComposerState) : bool * ComposerState :=
  let text := focused_text c in
  let current := Nat.min (focused_cursor c) (char_count text) in
  if current =? 0 then (false, set_cursor 0 c)
  else (true, after_text_edit (set_focused (remove_chars text (current - 1) current) (current - 1) c)).

Definition delete_at_focused_cursor (c : ComposerState) : bool * ComposerState :=
  let text := focused_text c in
  let current := Nat.min (focused_cursor c) (char_count text) in
  let len := char_count text in
  if len <=? current then (false, set_cursor len c)
  else (true, after_text_edit (set_focused (remove_chars text current (current + 1)) current c)).

(** [while n > 0 && f(chars[n - 1]) { n -= 1 }]. *)
Fixpoint skip_back (f : char -> bool) (chars : str) (n : nat) : nat :=
  match n with
  | O => O
  | S k => if f (nth k chars 0%N) then skip_back f chars k else n
  end.

Definition delete_word_before_cursor (c : ComposerState) : bool * ComposerState :=
  let text := focused_text c in
  let current := Nat.min (focused_cursor c) (char_count text) in
  if current =? 0 then (false, set_cursor 0 c)
  else
    let new_cursor := skip_back (fun ch => negb (is_whitespace ch)) text (skip_back is_whitespace text current) in
    if new_cursor =? current then (false, c)
    else (true, after_text_edit (set_focused (remove_chars text new_cursor current) new_cursor c)).

(** ** Selection of body lines *)

Definition start_selection_here (c : ComposerState) : ComposerState :=
  let line := (body_cursor_line_column c).1 in
  c <| c_body_selection_anchor := Some line |> <| c_body_selection_focus := line |>.

Definition toggle_body_line_selection (c : ComposerState) : bool * ComposerState :=
  if negb (bool_decide (c_focused c = FBody)) then (false, c)
  else if bool_decide (c_body_selection_anchor c <> None) then clear_body_selection c
  else (true, start_selection_here c).
Definition start_body_line_selection (c : ComposerState) : bool * ComposerState :=
  if negb (bool_decide (c_focused c = FBody)) || bool_decide (c_body_selection_anchor c <> None) then (false, c)
  else (true, start_selection_here c).

(** ** What the keys of compose mode do to the composer: the operations of
    [AppState] that only touch it *)

Definition mark_dirty (r : bool * ComposerState) : bool * ComposerState :=
  if r.1 then (true, r.2 <| c_dirty := true |>) else r.

Definition push_composer_char (ch : char) (c : ComposerState) : bool * ComposerState :=
  if is_control ch || at_limit (focused_text c) (field_limit c) then (false, c)
  else (true, (insert_focused_char ch c) <| c_dirty := true |>).
Definition backspace_composer (c : ComposerState) : bool * ComposerState := mark_dirty (delete_before_focused_cursor c).
Definition delete_composer (c : ComposerState) : bool * ComposerState := mark_dirty (delete_at_focused_cursor c).
Definition delete_word_before_composer_cursor (c : ComposerState) : bool * ComposerState :=
  mark_dirty (delete_word_before_cursor c).

Definition composer_enter (c : ComposerState) : bool * ComposerState :=
  if decide (c_focused c = FBody) then
    if at_limit (c_body c) MAX_COMPOSE_BODY_CHARS then (false, c)
    else (true, (insert_body_newline c) <| c_dirty := true |>)
  else (true, c <| c_focused := field_next (c_focused c) |>).

Definition next_composer_field (c : ComposerState) : ComposerState :=
  c <| c_focused := field_next (c_focused c) |> <| c_body_preferred_column := None |>.
Definition previous_composer_field (c : ComposerState) : ComposerState :=
  c <| c_focused := field_previous (c_focused c) |> <| c_body_preferred_column := None |>.

(** ** Attachments *)

Definition string_pop (s : str) : option str :=
  match s with [] => None | _ => Some (removelast s) end.

Definition push_compose_attach_char (ch : char) (c : ComposerState) : bool * ComposerState :=
  if is_control ch || at_limit (c_attach_input c) MAX_COMPOSE_PATH_CHARS then (false, c)
  else (true, c <| c_attach_input := c_attach_input c ++ [ch] |>).
Definition backspace_compose_attach (c : ComposerState) : bool * ComposerState :=
  match string_pop (c_attach_input c) with
  | Some s => (true, c <| c_attach_input := s |>)
  | None => (false, c)
  end.

Inductive AttachError : Type :=
| AENotFound (path : str)
| AENotAFile (path : str)
| AETooLarge (size : Z)
| AEAggregateTooLarge (total : Z)
| AEIo (path message : str).

(** The file system under the composer: [tokio::fs::metadata] as
    [Ok (is_file, len)] or an error with its kind and text, and the media type
    guess. *)
Class ComposeFiles := {
  file_metadata : str -> result (bool * str) (bool * Z);
  content_type_for_path : str -> str;
  (** a length is a [u64] *)
  file_metadata_u64 : forall p m, file_metadata p = Ok m -> (0 <= m.2 < 2 ^ 64)%Z;
}.

Section attach.
Context {CF : ComposeFiles}.

Definition probe_attachment (path : str) : result AttachError ComposerAttachment :=
  metadata ← map_err (fun e : bool * str => if e.1 then AENotFound path else AEIo path e.2) (file_metadata path);
  if negb metadata.1 then Err (AENotAFile path)
  else
    let size := metadata.2 in
    if (MAX_COMPOSE_ATTACHMENT_BYTES <? size)%Z then Err (AETooLarge size)
    else Ok (mkComposerAttachment path (unwrap_or (lit "attachment.bin") (file_name path)) size
               (content_type_for_path path)).

Definition confirm_compose_attach (c : ComposerState) : result AttachError str * ComposerState :=
  let raw := trim (c_attach_input c) in
  if is_empty raw then (Err (AENotFound (lit "(empty)")), c)
  else match probe_attachment raw with
       | Err e => (Err e, c)
       | Ok attachment =>
           let aggregate := sat_add64 (aggregate_attachment_size c) (ca_size_bytes attachment) in
           if (MAX_COMPOSE_ATTACHMENT_BYTES <? aggregate)%Z then (Err (AEAggregateTooLarge aggregate), c)
           else
             let attachments := c_attachments c ++ [attachment] in
             (Ok (ca_filename attachment),
              c <| c_attachments := attachments |> <| c_attach_input := [] |> <| c_dirty := true |>
                <| c_selected_attachment := List.length attachments - 1 |>)
       end.
End attach.

Definition remove_nth {A} (i : nat) (l : list A) : list A := take i l ++ drop (S i) l.

Definition remove_selected_compose_attachment (c : ComposerState) : option str * ComposerState :=
  let len := List.length (c_attachments c) in
  if len =? 0 then (None, c)
  else
    let index := Nat.min (c_selected_attachment c) (len - 1) in
    let rest := remove_nth index (c_attachments c) in
    let selected := if List.length rest =? 0 then 0
                    else if List.length rest <=? c_selected_attachment c then List.length rest - 1
                    else c_selected_attachment c in
    (ca_filename <$> c_attachments c !! index,
     c <| c_attachments := rest |> <| c_selected_attachment := selected |> <| c_dirty := true |>).

Definition move_compose_attachment_selection (delta : Z) (c : ComposerState) : bool * ComposerState :=
  if List.length (c_attachments c) =? 0 then (false, c)
  else let r := move_index (c_selected_attachment c) (List.length (c_attachments c)) delta in
       (r.1, c <| c_selected_attachment := r.2 |>).
