(* ===== verification/TuiEditing.v ===== *)
(** * Properties of the composer: editing as an editor on the text around the
    cursor, movement by line, attachments, and saving *)

From S2P Require Import Prelude RustStr MailParser DbCore TuiText TuiComposer.
#[local] Open Scope nat_scope.
#[local] Open Scope bool_scope.

(** ** Well-formed composers *)

Definition field_text (f : ComposeField) (c : ComposerState) : str :=
  match f with FTo => c_to c | FCc => c_cc c | FBcc => c_bcc c | FSubject => c_subject c | FBody => c_body c end.
Definition field_cursor (f : ComposeField) (c : ComposerState) : nat :=
  match f with
  | FTo => c_to_cursor c | FCc => c_cc_cursor c | FBcc => c_bcc_cursor c
  | FSubject => c_subject_cursor c | FBody => c_body_cursor c
  end.

Record composer_ok (c : ComposerState) : Prop := {
  ok_cursors : forall f, field_cursor f c <= List.length (field_text f c);
  ok_cache : c_body_line_cache c = from_text (c_body c);
  ok_focus : c_body_selection_focus c < body_line_count c;
  ok_anchor : forall a, c_body_selection_anchor c = Some a -> a < body_line_count c;
  ok_attachment : in_range (c_selected_attachment c) (List.length (c_attachments c));
}.

Lemma focused_field c : focused_text c = field_text (c_focused c) c /\ focused_cursor c = field_cursor (c_focused c) c.
Proof. unfold focused_text, focused_cursor, field_text, field_cursor. by destruct (c_focused c). Qed.

Lemma field_len_eq c : field_len c = List.length (focused_text c).
Proof. reflexivity. Qed.

(** What an edit leaves alone. *)
Definition same_elsewhere (f : ComposeField) (c c' : ComposerState) : Prop :=
  c_focused c' = c_focused c /\
  (forall g, g <> f -> field_text g c' = field_text g c /\ field_cursor g c' = field_cursor g c) /\
  c_attachments c' = c_attachments c /\ c_selected_attachment c' = c_selected_attachment c.

Lemma same_elsewhere_refl f c : same_elsewhere f c c.
Proof. repeat split. Qed.
Lemma same_elsewhere_trans f c c1 c2 : same_elsewhere f c c1 -> same_elsewhere f c1 c2 -> same_elsewhere f c c2.
Proof.
  intros (A1 & B1 & C1 & D1) (A2 & B2 & C2 & D2). unfold same_elsewhere. rewrite A2, C2, D2.
  split_and!; try done. intros g Hg. destruct (B1 g Hg), (B2 g Hg). split; congruence.
Qed.

Lemma set_focused_spec text cursor c :
  same_elsewhere (c_focused c) c (set_focused text cursor c) /\
  focused_text (set_focused text cursor c) = text /\ focused_cursor (set_focused text cursor c) = cursor /\
  (c_focused c <> FBody -> c_body_line_cache (set_focused text cursor c) = c_body_line_cache c /\
     c_body_selection_focus (set_focused text cursor c) = c_body_selection_focus c /\
     c_body_selection_anchor (set_focused text cursor c) = c_body_selection_anchor c).
Proof.
  unfold same_elsewhere, focused_text, focused_cursor, set_focused.
  destruct (c_focused c) eqn:Hf; split_and!; composer_simpl; rewrite ?Hf; try done; intros []; try done.
Qed.

(** The line of a cursor is a line of the text. *)
Lemma cursor_line_lt s cursor : (cursor_line_column (from_text s) cursor).1 < line_count (from_text s).
Proof.
  rewrite line_count_lines. destruct (cursor_position s cursor) as (w & Hw & _). by apply lookup_lt_Some in Hw.
Qed.
Lemma cursor_line_count c :
  c_body_line_cache c = from_text (c_body c) -> (body_cursor_line_column c).1 < body_line_count c.
Proof. intros H. unfold body_cursor_line_column, body_line_count. rewrite H. apply cursor_line_lt. Qed.

Lemma clear_body_selection_ok c :
  (forall f, field_cursor f c <= List.length (field_text f c)) -> c_body_line_cache c = from_text (c_body c) ->
  in_range (c_selected_attachment c) (List.length (c_attachments c)) ->
  composer_ok (clear_body_selection c).2 /\ same_elsewhere FBody c (clear_body_selection c).2 /\
  c_body (clear_body_selection c).2 = c_body c /\ c_body_cursor (clear_body_selection c).2 = c_body_cursor c.
Proof.
  intros Hc Hl Ha. unfold clear_body_selection. composer_simpl. split_and!; try done.
  - split; try done. exact (cursor_line_count c Hl).
Qed.

Lemma same_elsewhere_fields f c c' :
  same_elsewhere f c c' -> field_text f c' = field_text f c -> field_cursor f c' = field_cursor f c ->
  forall g, field_text g c' = field_text g c /\ field_cursor g c' = field_cursor g c.
Proof. intros (_ & H & _) H1 H2 g. destruct (decide (g = f)) as [->|Hg]; [done|auto]. Qed.

(** Moving the cursor of the focused field within its text. *)
Lemma moved_ok cursor c :
  composer_ok c -> cursor <= List.length (focused_text c) ->
  composer_ok (reset_body_navigation_state (set_cursor cursor c)) /\
  same_elsewhere (c_focused c) c (reset_body_navigation_state (set_cursor cursor c)) /\
  focused_text (reset_body_navigation_state (set_cursor cursor c)) = focused_text c /\
  focused_cursor (reset_body_navigation_state (set_cursor cursor c)) = cursor.
Proof.
  intros [Hc Hl Hf Ha Hr] Hcur.
  unfold reset_body_navigation_state, set_cursor, set_focused, clear_body_selection, focused_text, focused_cursor,
    same_elsewhere in *.
  destruct (c_focused c) eqn:E; composer_simpl; rewrite E; destruct (decide _) as [D|D];
    try discriminate D; try (by destruct D); composer_simpl; rewrite E;
    (split; [|split_and!; try done; by intros []]);
    (split; composer_simpl; try done);
    try (intros []; cbn; first [ exact Hcur | apply (Hc FTo) | apply (Hc FCc) | apply (Hc FBcc) | apply (Hc FSubject) | apply (Hc FBody) ]).
  pose proof (cursor_line_lt (c_body c) cursor) as H. rewrite <- Hl in H. exact H.
Qed.

(** Replacing the text of the focused field. *)
Lemma edited_ok text cursor c :
  composer_ok c -> cursor <= List.length text ->
  composer_ok (after_text_edit (set_focused text cursor c)) /\
  same_elsewhere (c_focused c) c (after_text_edit (set_focused text cursor c)) /\
  focused_text (after_text_edit (set_focused text cursor c)) = text /\
  focused_cursor (after_text_edit (set_focused text cursor c)) = cursor.
Proof.
  intros [Hc Hl Hf Ha Hr] Hcur.
  unfold after_text_edit, ensure_body_cursor_visible, refresh_body_line_cache, set_focused, clear_body_selection,
    focused_text, focused_cursor, same_elsewhere in *.
  destruct (c_focused c) eqn:E; composer_simpl; rewrite E; destruct (decide _) as [D|D];
    try discriminate D; try (by destruct D); composer_simpl; rewrite E;
    (split; [|split_and!; try done; by intros []]);
    (split; composer_simpl; try done);
    try (intros []; cbn; first [ exact Hcur | apply (Hc FTo) | apply (Hc FCc) | apply (Hc FBcc) | apply (Hc FSubject) | apply (Hc FBody) ]).
  exact (cursor_line_lt text cursor).
Qed.

(** ** An editor on the text before and after the cursor *)

Inductive EditKey : Type :=
| KeyChar (ch : char)
| KeyNewline
| KeyBackspace
| KeyDelete
| KeyDeleteWord
| KeyLeft
| KeyRight
| KeyHome
| KeyEnd.

(** The editing operations, by the key that usually runs them.  Which key runs
    which is the business of the handlers in [TuiKeys]: in the body "v" toggles the
    selection, outside it ":" opens the command bar and Enter moves to the next
    field ([composer_enter]), so that a line break is only typed into the body. *)
Definition run_key (k : EditKey) (c : ComposerState) : bool * ComposerState :=
  match k with
  | KeyChar ch => push_composer_char ch c
  | KeyNewline => if decide (c_focused c = FBody) then composer_enter c else (false, c)
  | KeyBackspace => backspace_composer c
  | KeyDelete => delete_composer c
  | KeyDeleteWord => delete_word_before_composer_cursor c
  | KeyLeft => move_focused_cursor_left c
  | KeyRight => move_focused_cursor_right c
  | KeyHome => move_focused_cursor_home c
  | KeyEnd => move_focused_cursor_end c
  end.

Definition around_cursor (c : ComposerState) : str * str :=
  (take (focused_cursor c) (focused_text c), drop (focused_cursor c) (focused_text c)).

(** What the key means: [(before, after)] becomes the result. *)
Definition key_spec (f : ComposeField) (k : EditKey) (limit : N) (p : str * str) : str * str :=
  let '(before, after) := p in
  match k with
  | KeyChar ch => if is_control ch || at_limit (before ++ after) limit then p else (before ++ [ch], after)
  | KeyNewline => if negb (bool_decide (f = FBody)) || at_limit (before ++ after) limit then p
                  else (before ++ [LF], after)
  | KeyBackspace => (removelast before, after)
  | KeyDelete => (before, tail after)
  | KeyDeleteWord => (trim_end_by (fun ch => negb (is_whitespace ch)) (trim_end before), after)
  | KeyLeft => match last before with Some ch => (removelast before, ch :: after) | None => p end
  | KeyRight => match after with ch :: rest => (before ++ [ch], rest) | [] => p end
  | KeyHome => let stay := if decide (f = FBody) then line_head before else [] in
               (stay, drop (List.length stay) before ++ after)
  | KeyEnd => let go := if decide (f = FBody) then take_while not_LF after else after in
              (before ++ go, drop (List.length go) after)
  end.

(** A run of a key against a change of the text around the cursor. *)
Definition edits_to (c : ComposerState) (r : bool * ComposerState) (p : str * str) : Prop :=
  composer_ok r.2 /\ same_elsewhere (c_focused c) c r.2 /\ around_cursor r.2 = p /\
  (r.1 = true <-> p <> around_cursor c).

Lemma around_app c : (around_cursor c).1 ++ (around_cursor c).2 = focused_text c.
Proof. apply take_drop. Qed.

Lemma cursor_in_text c : composer_ok c -> focused_cursor c <= List.length (focused_text c).
Proof. intros H. destruct (focused_field c) as [-> ->]. apply (ok_cursors c H). Qed.

Lemma set_cursor_same c : composer_ok c -> forall n, n = focused_cursor c -> set_cursor n c = c.
Proof. intros _ n ->. unfold set_cursor, set_focused, focused_text, focused_cursor. by destruct (c_focused c) eqn:E, c. Qed.

Lemma dirty_edits_to c c' p :
  edits_to c (true, c') p -> edits_to c (true, c' <| c_dirty := true |>) p.
Proof.
  intros ([Hc Hl Hf Ha Hr] & Hs & Hp & Hb). split_and!; done.
Qed.

(** An edit that replaces the focused text. *)
Lemma edits_to_text c before after before' after' :
  composer_ok c -> around_cursor c = (before, after) -> (before', after') <> (before, after) ->
  edits_to c (true, after_text_edit (set_focused (before' ++ after') (List.length before') c)) (before', after').
Proof.
  intros Hok Ha Hne. destruct (edited_ok (before' ++ after') (List.length before') c Hok) as (Hok' & Hs & Ht & Hc).
  { rewrite length_app. lia. }
  unfold edits_to, around_cursor in *. cbn [fst snd]. rewrite Ht, Hc, take_app_length, drop_app_length.
  split_and!; try done. by rewrite Ha.
Qed.

(** A movement of the cursor. *)
Lemma edits_to_move c n :
  composer_ok c -> n <= List.length (focused_text c) -> n <> focused_cursor c ->
  edits_to c (true, reset_body_navigation_state (set_cursor n c))
    (take n (focused_text c), drop n (focused_text c)).
Proof.
  intros Hok Hn Hne. destruct (moved_ok n c Hok Hn) as (Hok' & Hs & Ht & Hc). unfold edits_to, around_cursor.
  cbn [fst snd]. rewrite Ht, Hc. split_and!; try done. split; [|done]. intros _ [= H _].
  apply (f_equal (@List.length N)) in H. pose proof (cursor_in_text c Hok). rewrite !length_take in H. lia.
Qed.

Lemma edits_to_none c : composer_ok c -> edits_to c (false, c) (around_cursor c).
Proof. intros H. by split_and!. Qed.

(** ** Each key *)

Lemma removelast_take n (l : str) : n <= List.length l -> removelast (take n l) = take (n - 1) l.
Proof.
  intros Hn. rewrite removelast_firstn_len, length_take, take_take. f_equal. lia.
Qed.

Lemma tail_drop n (l : str) : tail (drop n l) = drop (S n) l.
Proof. revert l. induction n as [|n IH]; intros [|x l]; by cbn. Qed.

Lemma skip_back_trim f s n : n <= List.length s -> take (skip_back f s n) s = trim_end_by f (take n s).
Proof.
  induction n as [|n IH]; intros Hn; [by destruct s|]. cbn [skip_back].
  destruct (lookup_lt_is_Some_2 s n) as [x Hx]; [lia|].
  rewrite (nth_lookup_Some _ _ 0%N _ Hx), (take_S_r _ _ _ Hx). destruct (f x) eqn:Ef.
  - rewrite IH by lia. rewrite trim_end_by_app; [done|]. by repeat constructor.
  - rewrite trim_end_by_last by done. by apply take_S_r.
Qed.

Lemma skip_back_le f s n : skip_back f s n <= n.
Proof. induction n as [|n IH]; cbn; [done|]. destruct (f _); lia. Qed.

Lemma remove_chars_eq s j k : j <= k -> remove_chars s j k = take j s ++ drop k s.
Proof. intros H. unfold remove_chars. by rewrite string_remove_chars. Qed.

Section keys.
Context (c : ComposerState) (Hok : composer_ok c).

Let text := focused_text c.
Let cur := focused_cursor c.

Lemma cur_le : cur <= List.length text.
Proof. by apply cursor_in_text. Qed.

Lemma cur_min : Nat.min (focused_cursor c) (char_count (focused_text c)) = cur.
Proof. unfold char_count. apply Nat.min_l, cur_le. Qed.

Lemma insert_edits ch :
  edits_to c (true, (insert_focused_char ch c) <| c_dirty := true |>) (take cur text ++ [ch], drop cur text).
Proof.
  apply dirty_edits_to. unfold insert_focused_char. cbv zeta. rewrite cur_min, string_insert_chars. cbn [unwrap_or].
  pose proof (edits_to_text c (take cur text) (drop cur text) (take cur text ++ [ch]) (drop cur text) Hok eq_refl) as H.
  rewrite <- app_assoc, length_app, length_take, Nat.min_l in H by apply cur_le.
  apply H. intros [= Hbad]. apply (f_equal (@List.length N)) in Hbad. rewrite length_app in Hbad. cbn in Hbad. lia.
Qed.

(** Removing what stands between two positions around the cursor. *)
Lemma remove_edits j k :
  j <= cur <= k -> j < k -> k <= List.length text ->
  edits_to c (mark_dirty (true, after_text_edit (set_focused (remove_chars text j k) j c)))
    (take j text, drop k text).
Proof.
  intros Hj Hjk Hk. unfold mark_dirty. cbn [fst snd]. apply dirty_edits_to. rewrite remove_chars_eq by lia.
  pose proof (edits_to_text c (take cur text) (drop cur text) (take j text) (drop k text) Hok eq_refl) as H.
  rewrite length_take, Nat.min_l in H by lia. apply H.
  intros [= H1 H2]. apply (f_equal (@List.length N)) in H1, H2. rewrite !length_take, !length_drop in *.
  pose proof cur_le. lia.
Qed.

Lemma set_cursor_edits n :
  n <= List.length text -> edits_to c (set_focused_cursor n c) (take n text, drop n text).
Proof.
  intros Hn. unfold set_focused_cursor. cbv zeta. rewrite field_len_eq. fold text.
  rewrite (Nat.min_l n) by done. fold cur. rewrite (Nat.min_l cur) by apply cur_le.
  destruct (Nat.eqb_spec cur n) as [<-|Hne].
  - rewrite set_cursor_same by done. by apply edits_to_none.
  - by apply edits_to_move.
Qed.

Lemma char_key ch : edits_to c (push_composer_char ch c) (key_spec (c_focused c) (KeyChar ch) (field_limit c) (around_cursor c)).
Proof.
  unfold push_composer_char, key_spec. pose proof (around_app c) as Ht. unfold around_cursor in *. cbn [fst snd] in *.
  rewrite Ht. destruct (is_control ch || _); [by apply edits_to_none|]. apply insert_edits.
Qed.

Lemma newline_key : edits_to c (run_key KeyNewline c) (key_spec (c_focused c) KeyNewline (field_limit c) (around_cursor c)).
Proof.
  unfold run_key, composer_enter, key_spec. pose proof (around_app c) as Ht. pose proof (insert_edits LF) as Hi.
  unfold around_cursor in *. cbn [fst snd] in *. rewrite Ht. unfold field_limit.
  destruct (decide (c_focused c = FBody)) as [Hf|Hf].
  - assert (Hb : focused_text c = c_body c) by (unfold focused_text; by rewrite Hf).
    rewrite Hf, Hb, bool_decide_eq_true_2 by done. cbn [negb orb].
    destruct (at_limit (c_body c) MAX_COMPOSE_BODY_CHARS).
    + pose proof (edits_to_none c Hok) as H. unfold around_cursor in H. by rewrite Hb in H.
    + unfold insert_focused_char, insert_body_newline, set_focused, focused_cursor in *.
      unfold text, cur, focused_cursor in Hi. rewrite Hf, Hb in *. exact Hi.
  - rewrite bool_decide_eq_false_2 by done. by apply edits_to_none.
Qed.

Lemma backspace_key : edits_to c (backspace_composer c) (key_spec (c_focused c) KeyBackspace (field_limit c) (around_cursor c)).
Proof.
  unfold backspace_composer, delete_before_focused_cursor, key_spec, around_cursor. cbv zeta. rewrite cur_min.
  fold text cur. rewrite removelast_take by apply cur_le. destruct (Nat.eqb_spec cur 0) as [H0|H0].
  - unfold mark_dirty. cbn [fst snd]. rewrite set_cursor_same by (done || by symmetry).
    pose proof (edits_to_none c Hok) as H. unfold around_cursor in H. fold text cur in H. rewrite H0 in *. exact H.
  - pose proof cur_le. apply remove_edits; lia.
Qed.

Lemma delete_key : edits_to c (delete_composer c) (key_spec (c_focused c) KeyDelete (field_limit c) (around_cursor c)).
Proof.
  unfold delete_composer, delete_at_focused_cursor, key_spec, around_cursor. cbv zeta. rewrite cur_min.
  fold text cur. change (char_count text) with (List.length text). pose proof cur_le as Hle.
  rewrite tail_drop. destruct (Nat.leb_spec (List.length text) cur) as [H0|H0].
  - unfold mark_dirty. cbn [fst snd]. rewrite set_cursor_same by (done || (unfold cur in *; lia)).
    pose proof (edits_to_none c Hok) as H. unfold around_cursor in H. fold text cur in H.
    rewrite (drop_ge text (S cur)) by lia. rewrite (drop_ge text cur) in H by lia. exact H.
  - rewrite Nat.add_1_r. apply remove_edits; lia.
Qed.

Lemma delete_word_key :
  edits_to c (delete_word_before_composer_cursor c) (key_spec (c_focused c) KeyDeleteWord (field_limit c) (around_cursor c)).
Proof.
  unfold delete_word_before_composer_cursor, delete_word_before_cursor, key_spec, around_cursor. cbv zeta.
  rewrite cur_min. fold text cur. pose proof cur_le as Hle. unfold trim_end.
  pose proof (skip_back_le is_whitespace text cur) as H1.
  rewrite <- (skip_back_trim is_whitespace), <- skip_back_trim by lia.
  set (n := skip_back _ text (skip_back is_whitespace text cur)).
  pose proof (skip_back_le (fun ch => negb (is_whitespace ch)) text (skip_back is_whitespace text cur)) as H2.
  fold n in H2. pose proof (edits_to_none c Hok) as Hn. unfold around_cursor in Hn. fold text cur in Hn.
  destruct (Nat.eqb_spec cur 0) as [H0|H0].
  - unfold mark_dirty. cbn [fst snd]. rewrite set_cursor_same by (done || by symmetry).
    replace n with cur by lia. exact Hn.
  - destruct (Nat.eqb_spec n cur) as [->|Hne]; [exact Hn|]. apply remove_edits; lia.
Qed.

Lemma left_key : edits_to c (move_focused_cursor_left c) (key_spec (c_focused c) KeyLeft (field_limit c) (around_cursor c)).
Proof.
  unfold move_focused_cursor_left, key_spec, around_cursor. fold text cur. pose proof cur_le as Hle.
  pose proof (edits_to_none c Hok) as Hn. unfold around_cursor in Hn. fold text cur in Hn.
  destruct cur as [|n] eqn:Hc; [by rewrite take_0 in *|].
  destruct (lookup_lt_is_Some_2 text n) as [x Hx]; [lia|]. cbn [Nat.eqb Nat.sub]. rewrite Nat.sub_0_r.
  rewrite removelast_take by lia. cbn [Nat.sub]. rewrite Nat.sub_0_r.
  rewrite (take_S_r _ _ _ Hx), last_snoc, <- (drop_S _ _ _ Hx).
  apply edits_to_move; [done|fold text; lia|fold cur; lia].
Qed.

Lemma right_key : edits_to c (move_focused_cursor_right c) (key_spec (c_focused c) KeyRight (field_limit c) (around_cursor c)).
Proof.
  unfold move_focused_cursor_right, key_spec, around_cursor. cbv zeta. rewrite field_len_eq.
  change (List.length (focused_text c)) with (char_count (focused_text c)). rewrite cur_min. fold text cur.
  change (char_count text) with (List.length text). pose proof cur_le as Hle.
  pose proof (edits_to_none c Hok) as Hn. unfold around_cursor in Hn. fold text cur in Hn.
  destruct (Nat.leb_spec (List.length text) cur) as [H0|H0].
  - rewrite set_cursor_same by (done || (unfold cur in *; lia)). rewrite (drop_ge text cur) in * by lia. exact Hn.
  - destruct (lookup_lt_is_Some_2 text cur H0) as [x Hx]. rewrite (drop_S _ _ _ Hx), <- (take_S_r _ _ _ Hx).
    rewrite Nat.add_1_r. apply edits_to_move; [done|fold text; lia|fold cur; lia].
Qed.

(** The position of the cursor in the body. *)
Lemma body_position :
  c_focused c = FBody ->
  let p := body_cursor_line_column c in
  exists w, lines_of text !! p.1 = Some w /\ p.2 <= List.length w /\
    body_line_start c p.1 + p.2 = cur /\ body_line_end c p.1 = body_line_start c p.1 + List.length w /\
    body_line_start c p.1 = chars_before (lines_of text) p.1.
Proof.
  intros Hf. assert (Hb : c_body c = text) by (unfold text, focused_text; by rewrite Hf).
  assert (Hc : c_body_cursor c = cur) by (unfold cur, focused_cursor; by rewrite Hf).
  unfold body_cursor_line_column, body_line_start, body_line_end. rewrite (ok_cache c Hok), Hb, Hc.
  destruct (cursor_position text cur) as (w & Hw & Hcol & Hstart & _). cbn zeta in *.
  exists w. rewrite (line_end_lines _ _ _ Hw), line_start_lines in * by (by eapply lookup_lt_Some).
  pose proof cur_le. split_and!; try done. lia.
Qed.

Lemma home_key : edits_to c (move_focused_cursor_home c) (key_spec (c_focused c) KeyHome (field_limit c) (around_cursor c)).
Proof.
  unfold move_focused_cursor_home, key_spec, around_cursor. fold text cur. cbv zeta. pose proof cur_le as Hle.
  set (n := if decide (c_focused c = FBody) then _ else 0).
  assert (Hn : n <= cur /\ (if decide (c_focused c = FBody) then line_head (take cur text) else []) = take n text).
  { unfold n. destruct (decide (c_focused c = FBody)) as [Hf|]; [|split; [lia|by rewrite take_0]].
    destruct (body_position Hf) as (w & Hw & Hcol & Hsum & _ & Hstart). set (p := body_cursor_line_column c) in *.
    split; [lia|]. pose proof (Forall_lookup_1 _ _ _ _ (lines_of_no_LF text) Hw) as Hlf.
    pose proof (take_position _ _ _ _ Hw Hcol) as H1. pose proof (take_position _ _ _ 0 Hw (Nat.le_0_l _)) as H0.
    rewrite lines_of_join, <- Hstart in H0, H1. rewrite Hsum in H1. rewrite Nat.add_0_r, take_0 in H0.
    rewrite H0, H1. apply line_head_join. by apply Forall_take. }
  destruct Hn as [Hn ->]. pose proof (set_cursor_edits n ltac:(lia)) as H.
  rewrite length_take, Nat.min_l by lia.
  replace (drop n (take cur text) ++ drop cur text) with (drop n text); [exact H|].
  rewrite <- (take_drop cur text) at 1. rewrite drop_app_le; [done|]. rewrite length_take. lia.
Qed.

Lemma end_key : edits_to c (move_focused_cursor_end c) (key_spec (c_focused c) KeyEnd (field_limit c) (around_cursor c)).
Proof.
  unfold move_focused_cursor_end, key_spec, around_cursor. fold text cur. cbv zeta. pose proof cur_le as Hle.
  set (n := if decide (c_focused c = FBody) then _ else field_len c).
  assert (Hn : cur <= n <= List.length text /\
    (if decide (c_focused c = FBody) then take_while not_LF (drop cur text) else drop cur text) = take (n - cur) (drop cur text)).
  { unfold n. destruct (decide (c_focused c = FBody)) as [Hf|].
    - destruct (body_position Hf) as (w & Hw & Hcol & Hsum & Hend & Hstart). set (p := body_cursor_line_column c) in *.
      pose proof (position_inside _ _ _ Hw) as Hin. rewrite lines_of_join in Hin. split; [lia|].
      pose proof (Forall_lookup_1 _ _ _ _ (lines_of_no_LF text) Hw) as Hlf.
      pose proof (drop_position _ _ _ _ Hw Hcol) as Hd. rewrite lines_of_join, <- Hstart, Hsum in Hd. rewrite Hd.
      rewrite take_while_line by (by apply Forall_drop).
      replace (body_line_end c p.1 - cur) with (List.length (drop p.2 w)) by (rewrite length_drop; lia).
      destruct (drop (S p.1) (lines_of text)) as [|u us]; [by rewrite take_ge|]. by rewrite join_cons, take_app_length.
    - rewrite field_len_eq. fold text. split; [lia|]. rewrite take_ge; [done|]. by rewrite length_drop. }
  destruct Hn as [Hn ->]. pose proof (set_cursor_edits n ltac:(lia)) as H.
  rewrite length_take, length_drop, Nat.min_l, drop_drop by lia.
  replace (cur + (n - cur)) with n by lia.
  replace (take cur text ++ take (n - cur) (drop cur text)) with (take n text); [exact H|].
  rewrite <- (take_drop cur text) at 1. rewrite take_app_ge; rewrite length_take; [|lia].
  by rewrite Nat.min_l by lia.
Qed.
End keys.

Lemma key_edits k c :
  composer_ok c -> edits_to c (run_key k c) (key_spec (c_focused c) k (field_limit c) (around_cursor c)).
Proof.
  intros Hok. destruct k; [by apply char_key|by apply newline_key|by apply backspace_key|by apply delete_key
    |by apply delete_word_key|by apply left_key|by apply right_key|by apply home_key|by apply end_key].
Qed.

(** C28. Typing in the composer is editing at the cursor: for every key, on every
    well-formed composer, the text before and after the cursor of the focused
    field changes exactly as the key says, typed characters are refused when
    they are control characters or the field is full, the key reports whether
    it changed anything, and all other fields and the attachments stay. *)
Theorem composer_keys_edit_at_cursor k c :
  composer_ok c ->
  let r := run_key k c in
  composer_ok r.2 /\
  around_cursor r.2 = key_spec (c_focused c) k (field_limit c) (around_cursor c) /\
  (r.1 = true <-> around_cursor r.2 <> around_cursor c) /\
  same_elsewhere (c_focused c) c r.2.
Proof.
  intros Hok. destruct (key_edits k c Hok) as (H1 & H2 & H3 & H4). cbv zeta. rewrite H3. done.
Qed.

Lemma composer_new_ok account_id : composer_ok (composer_new account_id).
Proof. split; cbn; try done; [by intros []|apply Nat.lt_0_1|apply in_range_0]. Qed.

Lemma composer_keys_edit_at_cursor_witness :
  around_cursor (run_key (KeyChar 97%N) (composer_new 7%N)).2 = ([97%N], []) /\
  composer_ok (run_key (KeyChar 97%N) (composer_new 7%N)).2.
Proof.
  destruct (composer_keys_edit_at_cursor (KeyChar 97%N) (composer_new 7%N) (composer_new_ok 7%N)) as (H1 & H2 & _).
  split; [rewrite H2; reflexivity|exact H1].
Defined.

(** ** Movement by lines *)

Lemma visible_scroll_shows scroll count line h :
  line < count ->
  let s := visible_scroll scroll count line h in
  s <= line < s + Nat.max h 1 /\ s <= count - Nat.max h 1.
Proof.
  intros Hl. unfold visible_scroll. cbv zeta.
  destruct (Nat.ltb_spec line (Nat.min scroll (count - Nat.max h 1)));
    [|destruct (Nat.leb_spec (Nat.min scroll (count - Nat.max h 1) + Nat.max h 1) line)]; lia.
Qed.

Lemma moved_line_bounds line count delta :
  line < count ->
  (if (delta <? 0)%Z then line - Z.abs_nat delta else Nat.min (line + Z.to_nat delta) (count - 1))
  = Z.to_nat (clamp_isize (Z.of_nat line + delta) 0 (Z.of_nat (count - 1))).
Proof. intros H. unfold clamp_isize. destruct (Z.ltb_spec delta 0); lia. Qed.

(** The line reached from a line, and the column wished for. *)
Definition target_line (delta : Z) (c : ComposerState) : nat :=
  Z.to_nat (clamp_isize (Z.of_nat (body_cursor_line_column c).1 + delta) 0 (Z.of_nat (body_line_count c - 1))).
Definition wished_column (c : ComposerState) : nat :=
  unwrap_or (body_cursor_line_column c).2 (c_body_preferred_column c).

(** The composer after a line move, by its fields. *)
Lemma move_body_line_fields delta h c :
  composer_ok c -> c_focused c = FBody ->
  let c' := (move_body_line delta h c).2 in
  same_elsewhere FBody c c' /\ c_body c' = c_body c /\ c_body_line_cache c' = c_body_line_cache c /\
  c_body_preferred_column c' = Some (wished_column c) /\
  c_body_cursor c' = body_line_start c (target_line delta c)
                     + Nat.min (wished_column c) (body_line_len c (target_line delta c)) /\
  c_body_selection_anchor c' = c_body_selection_anchor c /\
  c_body_selection_focus c' = (if decide (c_body_selection_anchor c = None) then c_body_selection_focus c
                               else target_line delta c) /\
  c_body_scroll c' = visible_scroll (c_body_scroll c) (body_line_count c) (body_cursor_line_column c').1 h.
Proof.
  intros Hok Hf. pose proof (cursor_line_count c (ok_cache c Hok)) as Hline.
  unfold move_body_line. rewrite Hf, bool_decide_eq_true_2 by done. cbn [negb].
  unfold target_line, wished_column. destruct (body_cursor_line_column c) as [line col] eqn:Hp. cbn [fst snd] in *.
  cbv zeta. rewrite (moved_line_bounds line (body_line_count c) delta Hline).
  cbv [ensure_body_cursor_visible]. composer_simpl.
  destruct (c_body_selection_anchor c) as [a|] eqn:Ea;
    [rewrite bool_decide_eq_true_2 by done|rewrite bool_decide_eq_false_2 by congruence]; composer_simpl;
    unfold same_elsewhere; composer_simpl; rewrite ?Hf, ?Ea; split_and!; try done; by intros [].
Qed.

(** The line and column the cursor lands on. *)
Lemma body_line_position delta h c :
  composer_ok c -> c_focused c = FBody ->
  exists w, lines_of (c_body c) !! target_line delta c = Some w /\
    body_line_len c (target_line delta c) = List.length w /\
    body_cursor_line_column (move_body_line delta h c).2 =
      (target_line delta c, Nat.min (wished_column c) (List.length w)).
Proof.
  intros Hok Hf. destruct (move_body_line_fields delta h c Hok Hf) as (_ & _ & Hl & _ & Hcur & _).
  cbn zeta in *. pose proof (cursor_line_count c (ok_cache c Hok)) as Hline. pose proof (ok_cache c Hok) as Hcache.
  assert (Ht : target_line delta c < body_line_count c) by (unfold target_line, clamp_isize; lia).
  unfold body_line_count in Ht. rewrite Hcache, line_count_lines in Ht.
  destruct (lookup_lt_is_Some_2 _ _ Ht) as [w Hw]. exists w.
  assert (Hlen : body_line_len c (target_line delta c) = List.length w).
  { unfold body_line_len, body_line_end, body_line_start. rewrite Hcache, (line_end_lines _ _ _ Hw).
    rewrite line_start_lines by done. lia. }
  split_and!; [done|done|]. unfold body_cursor_line_column at 1. rewrite Hl, Hcur, Hlen.
  unfold body_line_start. rewrite Hcache. apply (position_cursor _ _ _ _ Hw). lia.
Qed.

Lemma body_line_moved_ok delta h c : composer_ok c -> c_focused c = FBody -> composer_ok (move_body_line delta h c).2.
Proof.
  intros Hok Hf. destruct (body_line_position delta h c Hok Hf) as (w & Hw & Hlen & _).
  destruct (move_body_line_fields delta h c Hok Hf) as (Hs & Hb & Hl & _ & Hcur & Ha & Hfo & _).
  cbn zeta in *. set (c' := (move_body_line delta h c).2) in *. pose proof (ok_cache c Hok) as Hcache.
  assert (Hcount : body_line_count c' = body_line_count c) by (unfold body_line_count; by rewrite Hl).
  assert (Ht : target_line delta c < body_line_count c).
  { pose proof (cursor_line_count c Hcache). unfold target_line, clamp_isize. lia. }
  split; rewrite ?Hl, ?Hb, ?Hcount, ?Ha, ?Hfo; try done.
  - intros f. destruct Hs as (_ & Hs & _). destruct (decide (f = FBody)) as [->|Hne].
    + cbn. rewrite Hcur, Hlen, Hb. unfold body_line_start. rewrite Hcache, line_start_lines by (by apply lookup_lt_Some in Hw).
      pose proof (position_inside _ _ _ Hw) as Hin. rewrite lines_of_join in Hin. lia.
    + destruct (Hs f Hne) as [-> ->]. apply (ok_cursors c Hok).
  - destruct (decide _); [apply (ok_focus c Hok)|done].
  - apply (ok_anchor c Hok).
  - destruct Hs as (_ & _ & -> & ->). apply (ok_attachment c Hok).
Qed.

(** Moving by lines in the composer lands on the intended line, clamped to
    the text, at the wished column or the end of the line, remembers the wished
    column, keeps the text, and leaves the cursor inside the viewport. *)
Theorem line_move_lands delta h c :
  composer_ok c -> c_focused c = FBody ->
  let c' := (move_body_line delta h c).2 in
  composer_ok c' /\ c_body c' = c_body c /\ wished_column c' = wished_column c /\
  (exists w, lines_of (c_body c) !! target_line delta c = Some w /\
     body_cursor_line_column c' = (target_line delta c, Nat.min (wished_column c) (List.length w))) /\
  c_body_scroll c' <= (body_cursor_line_column c').1 < c_body_scroll c' + Nat.max h 1.
Proof.
  intros Hok Hf. destruct (body_line_position delta h c Hok Hf) as (w & Hw & _ & Hpos).
  destruct (move_body_line_fields delta h c Hok Hf) as (_ & Hb & _ & Hp & _ & _ & _ & Hsc).
  cbn zeta in *. assert (Ht : target_line delta c < body_line_count c).
  { pose proof (cursor_line_count c (ok_cache c Hok)). unfold target_line, clamp_isize. lia. }
  split_and!; [by apply body_line_moved_ok|done| |by exists w| |].
  - unfold wished_column at 1. by rewrite Hp.
  - rewrite Hsc, Hpos. cbn [fst]. by apply visible_scroll_shows.
  - rewrite Hsc, Hpos. cbn [fst]. by apply visible_scroll_shows.
Qed.

(** ** Opening a composer *)

Lemma from_prefill_ok account_id p : composer_ok (from_prefill account_id p).
Proof.
  unfold from_prefill, with_subject, with_addresses, refresh_body_line_cache.
  destruct (pf_subject p), (pf_body p); cbv zeta; (split; composer_simpl;
    [intros []; cbn; unfold char_count; done|done| | |apply in_range_0]); try done;
    unfold body_line_count; composer_simpl; try (rewrite line_count_lines; apply lines_of_nonempty); apply Nat.lt_0_1.
Qed.

Lemma from_existing_draft_ok draft_id d focus : composer_ok (from_existing_draft draft_id d focus).
Proof.
  unfold from_existing_draft, with_subject, with_addresses, refresh_body_line_cache.
  destruct (cd_subject d), (cd_text_body d); cbv zeta; (split; composer_simpl;
    [intros []; cbn; unfold char_count; lia|done| | |apply in_range_0]); try done;
    unfold body_line_count; composer_simpl; try (rewrite line_count_lines; apply lines_of_nonempty); apply Nat.lt_0_1.
Qed.

Definition two_lines : ComposerState :=
  from_prefill 7%N (mkPrefill None [] [] [] None (Some (lit "abcd" ++ [LF] ++ lit "xy")) None None []).

Lemma line_move_lands_witness :
  c_focused two_lines = FBody /\ body_cursor_line_column (move_body_line (-1)%Z 5 two_lines).2 = (0, 2).
Proof.
  assert (Hok : composer_ok two_lines) by apply from_prefill_ok.
  split; [reflexivity|]. destruct (line_move_lands (-1)%Z 5 two_lines Hok eq_refl) as (_ & _ & _ & (w & Hw & H) & _).
  rewrite H. injection Hw as <-. reflexivity.
Defined.

(** ** Attachments *)

Definition attached_bytes (l : list ComposerAttachment) : Z := foldr (fun a n => ca_size_bytes a + n)%Z 0%Z l.
Definition attachments_fit (c : ComposerState) : Prop :=
  Forall (fun a => 0 <= ca_size_bytes a)%Z (c_attachments c) /\
  (attached_bytes (c_attachments c) <= MAX_COMPOSE_ATTACHMENT_BYTES)%Z.

Lemma attached_bytes_app l k : attached_bytes (l ++ k) = (attached_bytes l + attached_bytes k)%Z.
Proof. unfold attached_bytes. induction l as [|a l IH]; cbn; [done|]. lia. Qed.

Lemma attached_bytes_nonneg l : Forall (fun a => 0 <= ca_size_bytes a)%Z l -> (0 <= attached_bytes l)%Z.
Proof. unfold attached_bytes. induction 1; cbn; lia. Qed.

(** Below the cap the running sum never saturates. *)
Lemma aggregate_is_sum c : attachments_fit c -> aggregate_attachment_size c = attached_bytes (c_attachments c).
Proof.
  intros [Hp Hm]. unfold aggregate_attachment_size.
  assert (H : forall l acc, (0 <= acc)%Z -> Forall (fun a => 0 <= ca_size_bytes a)%Z l ->
    (acc + attached_bytes l < 2 ^ 64)%Z ->
    foldl (fun acc a => sat_add64 acc (ca_size_bytes a)) acc l = (acc + attached_bytes l)%Z).
  { induction l as [|a l IH]; intros acc Ha Hl Hs; cbn [foldl]; [unfold attached_bytes; cbn; lia|].
    inversion Hl as [|? ? Hx Hl']; subst. pose proof (attached_bytes_nonneg l Hl').
    unfold attached_bytes in Hs. cbn in Hs. fold (attached_bytes l) in Hs.
    unfold sat_add64 at 2. rewrite Z.min_l by lia. rewrite IH by (done || lia). unfold attached_bytes. cbn. lia. }
  rewrite H; [lia|done|done|]. unfold MAX_COMPOSE_ATTACHMENT_BYTES in Hm. lia.
Qed.

Lemma confirm_attach_ok {CF : ComposeFiles} c : composer_ok c -> composer_ok (confirm_compose_attach c).2.
Proof.
  intros Hok. unfold confirm_compose_attach. cbv zeta. destruct (is_empty _); [done|].
  destruct (probe_attachment _); [|done]. destruct (_ <? _)%Z; [done|]. destruct Hok as [Hc Hl Hf Ha Hr].
  split; composer_simpl; try done. unfold in_range. rewrite length_app. cbn. lia.
Qed.
Lemma remove_attachment_ok c : composer_ok c -> composer_ok (remove_selected_compose_attachment c).2.
Proof.
  intros Hok. unfold remove_selected_compose_attachment. cbv zeta.
  destruct (Nat.eqb_spec (List.length (c_attachments c)) 0); [done|]. destruct Hok as [Hc Hl Hf Ha Hr].
  split; composer_simpl; try done. unfold in_range, remove_nth. rewrite length_app, length_take, length_drop.
  case_match; brefl; [lia|]. case_match; brefl; lia.
Qed.

Lemma confirm_attach_fits {CF : ComposeFiles} c :
  composer_ok c -> attachments_fit c ->
  composer_ok (confirm_compose_attach c).2 /\ attachments_fit (confirm_compose_attach c).2.
Proof.
  intros Hok Hfit. unfold confirm_compose_attach, probe_attachment. destruct (is_empty _); [done|].
  destruct (file_metadata (trim (c_attach_input c))) as [[isf size]|e] eqn:Hm; cbn [map_err mbind result_bind]; [|done].
  apply file_metadata_u64 in Hm. cbn [fst snd] in *. destruct isf; cbn [negb]; [|done].
  destruct (Z.ltb_spec MAX_COMPOSE_ATTACHMENT_BYTES size) as [|Hsize]; [done|]. cbn [ca_size_bytes].
  rewrite (aggregate_is_sum c Hfit). destruct (Z.ltb_spec MAX_COMPOSE_ATTACHMENT_BYTES
    (sat_add64 (attached_bytes (c_attachments c)) size)) as [|Hsum]; [done|].
  destruct Hok as [Hc Hl Hf Ha Hr], Hfit as [Hp Hb]. split; (split; composer_simpl; try done).
  - unfold in_range. rewrite length_app. cbn. lia.
  - apply Forall_app. split; [done|]. repeat constructor. cbn. lia.
  - rewrite attached_bytes_app. unfold attached_bytes at 2. cbn. unfold sat_add64, MAX_COMPOSE_ATTACHMENT_BYTES in *. lia.
Qed.

Lemma remove_attachment_fits c :
  composer_ok c -> attachments_fit c ->
  composer_ok (remove_selected_compose_attachment c).2 /\ attachments_fit (remove_selected_compose_attachment c).2.
Proof.
  intros Hok Hfit. unfold remove_selected_compose_attachment. cbv zeta.
  destruct (Nat.eqb_spec (List.length (c_attachments c)) 0); [done|].
  destruct Hok as [Hc Hl Hf Ha Hr], Hfit as [Hp Hb]. composer_simpl. set (i := Nat.min _ _).
  destruct (lookup_lt_is_Some_2 (c_attachments c) i) as [x Hx]; [unfold i; lia|].
  assert (Hsplit : c_attachments c = take i (c_attachments c) ++ x :: drop (S i) (c_attachments c))
    by (symmetry; by apply take_drop_middle).
  split; (split; composer_simpl; try done).
  - unfold in_range, remove_nth. rewrite length_app, length_take, length_drop.
    case_match; brefl; [lia|]. case_match; brefl; lia.
  - unfold remove_nth. apply Forall_app. split; [by apply Forall_take|by apply Forall_drop].
  - rewrite Hsplit in Hb, Hp. rewrite attached_bytes_app in Hb. apply Forall_app in Hp as [_ Hp]. inversion Hp; subst.
    unfold remove_nth. rewrite attached_bytes_app. unfold attached_bytes in *. cbn in Hb. lia.
Qed.

(** ** Saving and reopening *)

(** An address as the composer can hold it. *)
Definition plain_address (a : str) : Prop :=
  a <> [] /\ trim a = a /\ Forall (fun c => is_separator c = false) a.

Lemma split_by_app_sep f a c s :
  Forall (fun x => f x = false) a -> f c = true -> split_by f (a ++ c :: s) = a :: split_by f s.
Proof.
  intros Ha Hc. induction Ha as [|x a Hx _ IH]; cbn [app split_by]; [by rewrite Hc|]. by rewrite Hx, IH.
Qed.

(** The pieces after a separator start with the blank of the join. *)
Lemma split_joined_addresses l :
  Forall plain_address l -> l <> [] ->
  exists first, split_by is_separator (join_addresses l) = first :: map (cons 32%N) (tail l) /\ head l = Some first.
Proof.
  intros Hl Hne. induction Hl as [|a l (Ha1 & Ha2 & Ha3) Hl IH]; [done|]. unfold join_addresses in *.
  destruct l as [|b l]; [exists a; by rewrite split_by_none|]. destruct IH as (first & IH & Hf); [done|].
  exists a. split; [|done].
  change (join (lit ", ") (a :: b :: l)) with (a ++ 44%N :: ([32%N] ++ join (lit ", ") (b :: l))).
  rewrite split_by_app_sep by done. cbn [tail map]. f_equal. cbn [app split_by].
  change (is_separator 32) with false. cbn match. rewrite IH. by injection Hf as ->.
Qed.

Lemma split_join_addresses l : Forall plain_address l -> split_addresses (join_addresses l) = l.
Proof.
  intros Hl. destruct (decide (l = [])) as [->|Hne]; [done|].
  destruct (split_joined_addresses l Hl Hne) as (first & Hs & Hf). unfold split_addresses. rewrite Hs.
  destruct l as [|a l]; [done|]. injection Hf as ->. cbn [tail map].
  assert (Hk : forall k, Forall plain_address k ->
    List.filter (fun part => negb (is_empty part)) (map trim (map (cons 32%N) k)) = k).
  { induction 1 as [|x k (Hx1 & Hx2 & _) _ IH]; [done|]. cbn [map].
    change (trim (32%N :: x)) with (trim x). rewrite Hx2. cbn [List.filter].
    apply is_empty_false in Hx1 as ->. by rewrite IH. }
  inversion Hl as [|? ? (Ha1 & Ha2 & _) Hl']; subst. cbn [List.filter]. rewrite Ha2.
  apply is_empty_false in Ha1 as ->. cbn [negb]. by rewrite Hk.
Qed.

Definition some_text (o : option str) : Prop := match o with Some s => trim s <> [] | None => True end.

(** A draft as the composer saves it. *)
Definition composable (d : ComposerDraft) : Prop :=
  Forall plain_address (cd_to_addrs d) /\ Forall plain_address (cd_cc_addrs d) /\
  Forall plain_address (cd_bcc_addrs d) /\ some_text (cd_subject d) /\ some_text (cd_text_body d) /\
  cd_html_body d = None.

Lemma non_empty_some s : trim s <> [] -> non_empty_string s = Some s.
Proof. intros H. unfold non_empty_string. by apply is_empty_false in H as ->. Qed.

(** Reopening a draft and saving it loses nothing: the composer opened on a
    draft of plain addresses and non-blank texts saves that same draft, and is
    clean until edited. *)
Theorem reopened_draft_saves_same draft_id d focus :
  composable d ->
  composer_draft_of (from_existing_draft draft_id d focus) = d /\
  c_draft_id (from_existing_draft draft_id d focus) = Some draft_id /\
  c_dirty (from_existing_draft draft_id d focus) = false.
Proof.
  intros (Hto & Hcc & Hbcc & Hs & Hb & Hh). destruct d as [acc irm to cc bcc subject body html atts irt refs].
  cbn in *. subst html. unfold from_existing_draft, with_subject, with_addresses, refresh_body_line_cache. cbn zeta.
  destruct subject as [subject|], body as [body|]; cbn [cd_subject cd_text_body] in *; split_and!; try done;
    unfold composer_draft_of; composer_simpl;
    cbn [cd_account_id cd_in_reply_to_msg cd_to_addrs cd_cc_addrs cd_bcc_addrs cd_attachments cd_in_reply_to
         cd_references_header composer_new c_account_id c_subject c_body];
    rewrite !split_join_addresses by done; try rewrite (non_empty_some subject) by done;
    try rewrite (non_empty_some body) by done; done.
Qed.

Definition small_draft : ComposerDraft :=
  mkComposerDraft 7%N None [lit "ana@x.org"; lit "bo@y.org"] [] [] (Some (lit "hi")) (Some (lit "text")) None [] None None.

Lemma reopened_draft_saves_same_witness :
  composer_draft_of (from_existing_draft 9%N small_draft FBody) = small_draft.
Proof.
  apply (reopened_draft_saves_same 9%N small_draft FBody).
  split_and!; cbn; try done; repeat (constructor; try done).
Defined.
