(* ===== verification/TuiItems.v ===== *)
(** * Rows of the terminal interface (src/tui/app.rs)

    The items the panes show, built from the daemon's rows, and their labels:
    conversations, message details, and the approval requests a user decides
    on.  Dates are printed by chrono ([format_minute] is
    [format("%Y-%m-%d %H:%M")]). *)

From stdpp Require Import gmap.
From S2P Require Import Prelude RustStr Json MailParser DbCore McpTools McpModels TuiText TuiComposer.
#[local] Open Scope nat_scope.
#[local] Open Scope bool_scope.

Class DateFormat := { format_minute : time -> str }.

Definition SEEN_FLAG : str := 92%N :: lit "Seen".
Definition FLAGGED_FLAG : str := 92%N :: lit "Flagged".
Definition MAX_APPROVAL_ARGS_CHARS : nat := 48.
Definition APPROVALS_FOLDER_NAME : str := lit "Approvals".
Definition APPROVALS_FOLDER_ROLE : str := lit "system".
Definition ELLIPSIS : char := 8230.

(** ** Sorting: [sort_by] is stable *)

Definition then_with (a b : comparison) : comparison := match a with Eq => b | _ => a end.
Definition sort_by {A} (cmp : A -> A -> comparison) : list A -> list A :=
  order_by (fun a b => match cmp a b with Gt => false | _ => true end).

(** ** Text helpers *)

Definition text_or_default (value : option str) (default : str) : str :=
  unwrap_or default (opt_filter (fun s => negb (is_empty s)) (trim <$> value)).

Definition truncate_chars (value : str) (limit : nat) : str :=
  if List.length value <=? limit then value else take (limit - 1) value ++ [ELLIPSIS].

Definition first_chars_one_line (value : str) (limit : nat) : str :=
  take limit (join (lit " ") (split_whitespace value)).

Definition addrs_label (value : list str) : str :=
  match List.filter (fun s => negb (is_empty (trim s))) value with
  | [] => lit "(no recipient)"
  | collected => join (lit ", ") collected
  end.

(** [str::lines]. *)
Definition strip_cr (s : str) : str := unwrap_or s (strip_suffix_char s CR).
Definition str_lines (s : str) : list str :=
  let parts := split_char LF s in
  map strip_cr (match last parts with Some [] => removelast parts | _ => parts end).
Definition first_line_or_default (value : option str) : str :=
  match value with
  | None => lit "(empty)"
  | Some text => unwrap_or (lit "(empty)") (List.find (fun l => negb (is_empty l)) (map trim (str_lines text)))
  end.

Definition escape_quotes (value : str) : str := replace value [DQUOTE] [92%N; DQUOTE].

(** [human_size]: one decimal of the quotient of two floats; the divisor is a
    power of two, so only the conversion of [bytes] rounds. *)
Definition round_half_even (n d : Z) : Z :=
  let q := (n / d)%Z in let r := (n mod d)%Z in
  if (2 * r <? d)%Z then q else if (d <? 2 * r)%Z then (q + 1)%Z else if Z.even q then q else (q + 1)%Z.
Definition as_f64 (n : Z) : Z :=
  let ulp := (2 ^ (Z.log2 n - 52))%Z in
  if (n <? 2 ^ 53)%Z then n else (round_half_even n ulp * ulp)%Z.
Definition show_tenths (t : Z) : str := show_Z (t / 10) ++ lit "." ++ show_Z (t mod 10).
Definition in_units (bytes unit : Z) (name : str) : str :=
  show_tenths (round_half_even (as_f64 bytes * 10) unit) ++ name.
Definition human_size (bytes : Z) : str :=
  if (2 ^ 30 <=? bytes)%Z then in_units bytes (2 ^ 30)%Z (lit " GiB")
  else if (2 ^ 20 <=? bytes)%Z then in_units bytes (2 ^ 20)%Z (lit " MiB")
  else if (2 ^ 10 <=? bytes)%Z then in_units bytes (2 ^ 10)%Z (lit " KiB")
  else show_Z bytes ++ lit " B".

(** ** Flags *)

Definition has_flag (flags : list str) (flag : str) : bool := existsb (str_eqb flag) flags.

(** The loop of [set_flag_preserving] over the flags. *)
Definition keep_flag (flag : str) (enabled : bool) (acc : list str * bool) (existing : str) : list str * bool :=
  let '(out, saw) := acc in
  if str_eqb existing flag
  then (if enabled && negb (has_flag out flag) then out ++ [existing] else out, true)
  else (out ++ [existing], saw).
Definition set_flag_preserving (flags : list str) (flag : str) (enabled : bool) : list str :=
  let '(out, saw) := foldl (keep_flag flag enabled) ([], false) flags in
  if enabled && negb saw then out ++ [flag] else out.

(** ** Accounts and folders *)

Record AccountItem : Type := mkAccountItem { ai_id : Id; ai_label : str; ai_email : str; ai_status : str }.

Definition sync_status_as_str (s : SyncStatus) : str :=
  match s with SyncIdle => lit "idle" | SyncSyncing => lit "syncing" | SyncErrorStatus => lit "error" end.
Definition account_item (a : Account) : AccountItem :=
  let label := unwrap_or (acc_email a)
                 (opt_filter (fun s => negb (is_empty s)) (trim <$> acc_display_name a)) in
  mkAccountItem (acc_id a) label (acc_email a) (sync_status_as_str (acc_sync_status a)).

Inductive FolderKind : Type := KindMail | KindApprovals.
#[global] Instance FolderKind_eq_dec : EqDecision FolderKind.
Proof. solve_decision. Defined.

Record FolderItem : Type := mkFolderItem { fi_kind : FolderKind; fi_id : Id; fi_name : str; fi_role : str }.

Definition folder_item (role_text : FolderRole -> str) (f : Folder) : FolderItem :=
  mkFolderItem KindMail (fld_id f) (fld_name f) (role_text (fld_role f)).
Definition approvals_virtual : FolderItem := mkFolderItem KindApprovals 0%N APPROVALS_FOLDER_NAME APPROVALS_FOLDER_ROLE.
Definition is_approvals_virtual (f : FolderItem) : bool := bool_decide (fi_kind f = KindApprovals).
Definition folders_with_approvals (folders : list FolderItem) : list FolderItem :=
  List.filter (fun f => negb (is_approvals_virtual f)) folders ++ [approvals_virtual].
Definition virtual_folders : list FolderItem := [approvals_virtual].

(** ** Messages, conversations and details *)

Record MessageItem : Type := mkMessageItem {
  mi_id : Id;
  mi_thread_id : option Id;
  mi_subject : str;
  mi_from : str;
  mi_date : str;
  mi_snippet : str;
  mi_flags : list str;
}.

Record MessageDetail : Type := mkDetail {
  md_id : Id;
  md_subject : str;
  md_from : str;
  md_snippet : str;
  md_body : str;
  md_flags : list str;
}.

Record SearchHit : Type := mkHit {
  sh_message_id : Id;
  sh_account_id : Id;
  sh_folder_id : Id;
  sh_subject : str;
  sh_from : str;
  sh_snippet : str;
  sh_date : str;
}.

Record DraftItem : Type := mkDraftItem {
  di_id : Id;
  di_account_id : Id;
  di_subject : str;
  di_to : str;
  di_date : str;
  di_snippet : str;
}.

Section rows.
Context {DF : DateFormat}.

(** From a message or its summary: the conversions are the same. *)
Definition message_item (m : Message) : MessageItem :=
  let c := msg_cols m in
  mkMessageItem (msg_id m) (nm_thread_id c) (text_or_default (nm_subject c) (lit "(no subject)"))
    (nm_from_addr c) (format_minute (nm_internal_date c)) (text_or_default (nm_snippet c) []) (nm_flags c).
Definition search_hit (m : Message) : SearchHit :=
  let c := msg_cols m in
  mkHit (msg_id m) (nm_account_id c) (nm_folder_id c) (text_or_default (nm_subject c) (lit "(no subject)"))
    (nm_from_addr c) (text_or_default (nm_snippet c) []) (format_minute (nm_internal_date c)).
Definition message_detail (m : Message) : MessageDetail :=
  let c := msg_cols m in
  let body := match nm_text_body c with
              | Some b => b
              | None => match nm_html_body c with Some b => b | None => unwrap_or [] (nm_snippet c) end
              end in
  mkDetail (msg_id m) (text_or_default (nm_subject c) (lit "(no subject)")) (nm_from_addr c)
    (text_or_default (nm_snippet c) []) body (nm_flags c).
Definition draft_item (d : Draft) : DraftItem :=
  let c := dr_cols d in
  mkDraftItem (dr_id d) (nd_account_id c) (text_or_default (nd_subject c) (lit "(no subject)"))
    (addrs_label (nd_to_addrs c)) (format_minute (dr_updated_at d)) (first_line_or_default (nd_text_body c)).
End rows.

Definition item_has_flag (m : MessageItem) (flag : str) : bool := has_flag (mi_flags m) flag.
Definition with_flag (m : MessageItem) (flag : str) (enabled : bool) : list str :=
  set_flag_preserving (mi_flags m) flag enabled.
Definition set_item_flags (flags : list str) (m : MessageItem) : MessageItem :=
  mkMessageItem (mi_id m) (mi_thread_id m) (mi_subject m) (mi_from m) (mi_date m) (mi_snippet m) flags.

Record ThreadItem : Type := mkThreadItem {
  ti_key : Id;
  ti_thread_id : option Id;
  ti_subject : str;
  ti_message_count : nat;
  ti_latest_date : str;
  ti_latest_from : str;
  ti_unread : bool;
  ti_flagged : bool;
}.

Definition message_thread_key (m : MessageItem) : Id := unwrap_or (mi_id m) (mi_thread_id m).

Definition new_thread (m : MessageItem) : ThreadItem :=
  mkThreadItem (message_thread_key m) (mi_thread_id m) (text_or_default (Some (mi_subject m)) (lit "(no subject)")) 1
    (mi_date m) (mi_from m) (negb (item_has_flag m SEEN_FLAG)) (item_has_flag m FLAGGED_FLAG).
Definition add_to_thread (t : ThreadItem) (m : MessageItem) : ThreadItem :=
  let later := match str_compare (mi_date m) (ti_latest_date t) with Gt => true | _ => false end in
  mkThreadItem (ti_key t) (ti_thread_id t)
    (if later then text_or_default (Some (mi_subject m)) (lit "(no subject)") else ti_subject t)
    (ti_message_count t + 1)
    (if later then mi_date m else ti_latest_date t)
    (if later then mi_from m else ti_latest_from t)
    (ti_unread t || negb (item_has_flag m SEEN_FLAG)) (ti_flagged t || item_has_flag m FLAGGED_FLAG).

(** One message of the loop: into the first thread of its key, or a new one. *)
Fixpoint upsert_thread (threads : list ThreadItem) (m : MessageItem) : list ThreadItem :=
  match threads with
  | [] => [new_thread m]
  | t :: r => if (ti_key t =? message_thread_key m)%N then add_to_thread t m :: r else t :: upsert_thread r m
  end.

Definition thread_cmp (l r : ThreadItem) : comparison :=
  then_with (str_compare (ti_latest_date r) (ti_latest_date l))
    (then_with (str_compare (ti_subject l) (ti_subject r)) (ti_key l ?= ti_key r)%N).
Definition build_threads (messages : list MessageItem) : list ThreadItem :=
  sort_by thread_cmp (foldl upsert_thread [] messages).

Definition oldest_cmp (l r : MessageItem) : comparison :=
  then_with (str_compare (mi_date l) (mi_date r)) (mi_id l ?= mi_id r)%N.
Definition sort_messages_oldest_first : list MessageItem -> list MessageItem := sort_by oldest_cmp.

(** The text of the detail pane. *)
Definition detail_text (d : MessageDetail) : str :=
  lit "Subject: " ++ md_subject d ++ LF :: lit "From: " ++ md_from d ++ LF :: lit "Snippet: " ++ md_snippet d
    ++ LF :: LF :: md_body d.
Definition stack_detail_text (d : MessageDetail) : str :=
  lit "Subject: " ++ md_subject d ++ LF :: lit "Snippet: " ++ md_snippet d ++ LF :: LF :: md_body d.
Definition message_summary_detail_text (m : MessageItem) : str :=
  lit "Subject: " ++ mi_subject m ++ LF :: lit "Snippet: " ++ mi_snippet m ++ LF :: LF :: mi_snippet m.

Definition focus_prefix (focused : bool) : str := if focused then [9654%N; 32%N] else [].
Definition MIDDLE_DOT : str := [32%N; 183%N; 32%N].
Definition expanded_message_header (m : MessageItem) (focused : bool) : str :=
  focus_prefix focused ++ lit "[-] " ++ mi_from m ++ MIDDLE_DOT ++ mi_date m.
Definition collapsed_message_header (m : MessageItem) (focused : bool) : str :=
  let snippet := first_chars_one_line (mi_snippet m) 72 in
  focus_prefix focused ++ lit "[+] " ++ mi_from m ++ MIDDLE_DOT ++ mi_date m
    ++ (if is_empty snippet then [] else MIDDLE_DOT ++ snippet).

Definition stack_text (detail : option MessageDetail) (m : MessageItem) : str :=
  match detail with Some d => stack_detail_text d | None => message_summary_detail_text m end.
Definition stack_message_body_line_count (detail : option MessageDetail) (m : MessageItem) : nat :=
  line_count (from_text (stack_text detail m)).

(** ** Attachments *)

Record AttachmentItem : Type := mkAttachmentItem {
  at_id : Id;
  at_message_id : Id;
  at_filename : str;
  at_content_type : str;
  at_size_bytes : Z;
  at_disposition : str;
  at_storage_path : str;
}.
Definition disposition_as_str (d : Disposition) : str :=
  match d with Inline => lit "inline" | Attachment => lit "attachment" end.
Definition attachment_item (a : AttachmentRow) : AttachmentItem :=
  let c := att_cols a in
  mkAttachmentItem (att_id a) (na_message_id c) (na_filename c) (na_content_type c) (na_size_bytes c)
    (disposition_as_str (na_disposition c)) (na_storage_path c).

Record AttachmentPreviewItem : Type := mkPreviewItem {
  pi_attachment_id : Id;
  pi_text : option str;
  pi_message : str;
  pi_truncated : bool;
  pi_preview_bytes : N;
}.
