(* ===== verification/TuiApprovals.v ===== *)
(** * Approval requests in the terminal interface (src/tui/app.rs)

    The rows a user decides on: built from a stored approval or from a live
    event, labelled by tool, target and arguments, and kept newest first. *)

From S2P Require Import Prelude RustStr Json MailParser DbCore McpTools McpModels TuiText TuiComposer TuiItems.
#[local] Open Scope nat_scope.
#[local] Open Scope bool_scope.

Definition MAX_LIVE_APPROVALS : nat := 100.

(** ** Shortened identifiers *)

Definition is_hexdigit (b : N) : bool :=
  (is_ascii_digit b || ((65 <=? b) && (b <=? 70)) || ((97 <=? b) && (b <=? 102)))%N.
Definition hyphen_slot (i : nat) : bool := (i =? 8) || (i =? 13) || (i =? 18) || (i =? 23).

(** The check of one byte of the loop. *)
Definition uuid_byte_ok (i : nat) (b : N) : bool := if hyphen_slot i then (b =? 45)%N else is_hexdigit b.
Definition shorten_uuid_like (value : str) : option str :=
  let bytes := as_bytes value in
  if negb (List.length bytes =? 36) then None
  else if forallb id (imap uuid_byte_ok bytes)
  then Some (ELLIPSIS :: drop (List.length value - 4) value) else None.

(** The scan of [shorten_uuid_like_in_text]: [skip] characters belong to an
    identifier already shortened. *)
Fixpoint shorten_go (skip : nat) (s : str) : str :=
  match s with
  | [] => []
  | c :: r =>
      match skip with
      | S k => shorten_go k r
      | O => match str_get s 0%N 36%N ≫= shorten_uuid_like with
             | Some short => short ++ shorten_go 35 r
             | None => c :: shorten_go 0 r
             end
      end
  end.
Definition shorten_uuid_like_in_text (value : str) : str := shorten_go 0 value.

Section labels.
Context {JC : JsonCodec} {UC : UnicodeCase}.

(** ** Arguments *)

Definition compact_arg_label (key : str) : str :=
  if str_eqb key (lit "to_addrs") then lit "to"
  else if str_eqb key (lit "message_id") then lit "message"
  else if str_eqb key (lit "draft_id") then lit "draft"
  else if str_eqb key (lit "attachment_id") then lit "attachment"
  else key.

Definition compact_scalar (v : value) : str :=
  match v with VString s => unwrap_or s (shorten_uuid_like s) | other => to_string other end.
Definition compact_arg_value (v : value) : str :=
  match v with
  | VString s => unwrap_or s (shorten_uuid_like s)
  | VArray values => join (lit ", ") (map compact_scalar values)
  | VNull => lit "null"
  | other => to_string other
  end.

Definition PREFERRED_KEYS : list str :=
  [lit "to"; lit "to_addrs"; lit "subject"; lit "folder"; lit "folder_name"; lit "message_id"; lit "draft_id";
   lit "attachment_id"; lit "id"].

Definition raw_summary (args : value) : str :=
  truncate_chars (shorten_uuid_like_in_text (to_string args)) MAX_APPROVAL_ARGS_CHARS.
Definition compact_args_summary (args : value) : str :=
  match args with
  | VObject [] => []
  | VObject m =>
      match omap (fun key => (fun v => compact_arg_label key ++ lit "=" ++ compact_arg_value v) <$> map_get m key)
              PREFERRED_KEYS with
      | [] => raw_summary args
      | parts => truncate_chars (join (lit ", ") parts) MAX_APPROVAL_ARGS_CHARS
      end
  | _ => raw_summary args
  end.

Definition approval_args_json (args : value) : str := to_string_pretty args.

Definition arg_item (v : value) : option str :=
  match v with VString s => non_empty_string s | VNull => None | other => Some (to_string other) end.
Definition arg_text (args : value) (key : str) : option str :=
  v ← vget args key;
  match v with
  | VArray values =>
      match omap arg_item values with [] => None | parts => Some (join (lit ", ") parts) end
  | _ => arg_item v
  end.

(** ** Targets *)

Record ApprovalTargetContext : Type := mkTarget {
  tc_target : option str;
  tc_from : option str;
  tc_to : option str;
  tc_snippet : option str;
  tc_attachment : option str;
}.

Definition or_else {A} (a b : option A) : option A := match a with Some _ => a | None => b end.

Definition target_non_empty (t : ApprovalTargetContext) : option ApprovalTargetContext :=
  match tc_target t, tc_from t, tc_to t, tc_snippet t, tc_attachment t with
  | None, None, None, None, None => None
  | _, _, _, _, _ => Some t
  end.

Definition target_from_args (args : value) : option ApprovalTargetContext :=
  let subject := arg_text args (lit "subject") in
  let folder := or_else (arg_text args (lit "folder")) (arg_text args (lit "folder_name")) in
  let filename := arg_text args (lit "filename") in
  let target := or_else (or_else subject filename) ((fun name => lit "folder " ++ name) <$> folder) in
  let from := or_else (arg_text args (lit "from")) (arg_text args (lit "from_addr")) in
  let to := or_else (arg_text args (lit "to")) (arg_text args (lit "to_addrs")) in
  let snippet := (fun v => first_chars_one_line v 96) <$>
    or_else (or_else (arg_text args (lit "snippet")) (arg_text args (lit "body"))) (arg_text args (lit "text_body")) in
  let attachment := (fun name => match arg_text args (lit "content_type") with
                                 | Some content_type => name ++ lit " (" ++ content_type ++ lit ")"
                                 | None => name
                                 end) <$> filename in
  target_non_empty (mkTarget target from to snippet attachment).

Definition target_from_message (m : Message) : ApprovalTargetContext :=
  let c := msg_cols m in
  mkTarget (Some (text_or_default (nm_subject c) (lit "(no subject)"))) (Some (nm_from_addr c))
    (Some (addrs_label (nm_to_addrs c)))
    (opt_filter (fun s => negb (is_empty s)) ((fun s => first_chars_one_line s 96) <$> nm_snippet c)) None.
Definition target_from_draft (d : Draft) : ApprovalTargetContext :=
  let c := dr_cols d in
  mkTarget (Some (text_or_default (nd_subject c) (lit "(no subject)"))) None (Some (addrs_label (nd_to_addrs c)))
    (opt_filter (fun s => negb (is_empty s)) ((fun b => first_line_or_default (Some b)) <$> nd_text_body c)) None.
Definition target_from_attachment (a : AttachmentItem) : ApprovalTargetContext :=
  mkTarget (Some (at_filename a)) None None None
    (Some (at_filename a ++ lit " (" ++ at_content_type a ++ lit ")")).

Definition quoted_text (s : str) : str := DQUOTE :: escape_quotes s ++ [DQUOTE].
Definition target_row_summary (t : ApprovalTargetContext) : option str :=
  match tc_attachment t with
  | Some attachment => Some (lit "attachment=" ++ quoted_text attachment)
  | None =>
      match tc_target t, tc_from t, tc_to t with
      | Some target, Some from, _ => Some (quoted_text target ++ lit " from " ++ from)
      | Some target, _, Some to => Some (lit "to=" ++ to ++ lit " subject=" ++ quoted_text target)
      | Some target, _, _ => Some (quoted_text target)
      | None, _, Some to => Some (lit "to=" ++ to)
      | _, _, _ => None
      end
  end.

(** ** Tools *)

Definition capitalize_first_word (word : str) : str :=
  match to_lowercase word with
  | [] => []
  | first :: rest => char_to_uppercase first ++ rest
  end.
Definition strip_prefix_or (s prefix : str) : str :=
  if starts_with s prefix then drop (List.length prefix) s else s.
Definition fallback_tool_label (tool : str) : str :=
  match List.filter (fun w => negb (is_empty w)) (split_char 95%N (strip_prefix_or tool (lit "postblox_"))) with
  | [] => lit "Tool request"
  | first :: words => foldl (fun out w => out ++ lit " " ++ to_lowercase w) (capitalize_first_word first) words
  end.
Definition tool_label (tool : str) : str :=
  if str_eqb tool (lit "postblox_message_delete") then lit "Delete message"
  else if str_eqb tool (lit "postblox_message_send") then lit "Send message"
  else if str_eqb tool (lit "postblox_draft_create") then lit "Create draft"
  else fallback_tool_label tool.

Definition optional_summary_label (summary : str) : option str :=
  let summary := trim summary in if is_empty summary then None else Some summary.

Definition age_label (created_at now : time) : str :=
  let seconds := Z.max (Z.quot (now - created_at) 1000000000) 0 in
  if (seconds <? 60)%Z then show_Z seconds ++ lit "s ago"
  else let minutes := (seconds / 60)%Z in
       if (minutes <? 60)%Z then show_Z minutes ++ lit "m ago"
       else let hours := (minutes / 60)%Z in
            if (hours <? 24)%Z then show_Z hours ++ lit "h ago"
            else show_Z (hours / 24) ++ lit "d ago".

(** ** Rows *)

Record ApprovalItem : Type := mkApprovalItem {
  ap_id : Id;
  ap_tool : str;
  ap_args_summary : str;
  ap_args_json : str;
  ap_summary : option str;
  ap_target : option ApprovalTargetContext;
  ap_created_at : time;
}.

Definition approval_item (a : McpApproval) : ApprovalItem :=
  mkApprovalItem (approval_id a) (approval_tool a) (compact_args_summary (approval_args a))
    (approval_args_json (approval_args a)) (optional_summary_label (approval_summary_text a))
    (target_from_args (approval_args a)) (approval_created_at a).

Definition args_value (a : ApprovalItem) : option value := from_str (ap_args_json a).

Definition combine_target_and_summary (target : option str) (summary : option str) : option str :=
  let summary := opt_filter (fun v => negb (is_empty v)) (trim <$> summary) in
  match target, summary with
  | Some t, Some s => if is_empty (trim t) then Some s else Some (trim t ++ [32%N; 8226%N; 32%N] ++ s)
  | Some t, None => if is_empty (trim t) then None else Some (trim t)
  | None, Some s => Some s
  | None, None => None
  end.
Definition approval_row_summary (a : ApprovalItem) : option str :=
  let args := trim (ap_args_summary a) in
  combine_target_and_summary
    (or_else (ap_target a ≫= target_row_summary) (if is_empty args then None else Some args)) (ap_summary a).

Definition set_target_context (t : ApprovalTargetContext) (a : ApprovalItem) : ApprovalItem :=
  mkApprovalItem (ap_id a) (ap_tool a) (ap_args_summary a) (ap_args_json a) (ap_summary a) (Some t) (ap_created_at a).

(** A row from a [mcp.approval_requested] event. *)
Definition from_requested_event {TP : TextParsers} (data : value) (now : time) : option ApprovalItem :=
  if (match vget data (lit "state") ≫= as_str with Some state => negb (str_eqb state (lit "pending")) | None => false end)
  then None
  else
    id ← ((or_else (vget data (lit "approval_id")) (vget data (lit "id")) ≫= as_str) ≫= uuid_parse_str);
    tool ← (vget data (lit "tool") ≫= as_str);
    let args := unwrap_or (VObject []) (vget data (lit "args")) in
    let summary := (vget data (lit "summary") ≫= as_str) ≫= optional_summary_label in
    Some (mkApprovalItem id tool (compact_args_summary args) (approval_args_json args) summary
            (target_from_args args) now).
End labels.

(** ** The list *)

Definition approval_cmp (l r : ApprovalItem) : comparison :=
  then_with (ap_created_at r ?= ap_created_at l)%Z
    (then_with (str_compare (ap_tool l) (ap_tool r)) (ap_id l ?= ap_id r)%N).
Definition sorted_approvals : list ApprovalItem -> list ApprovalItem := sort_by approval_cmp.

Record ApprovalsState : Type := mkApprovals { as_items : list ApprovalItem; as_selected : nat; as_pending : bool }.

Definition apply_approvals_state (items : list ApprovalItem) (s : ApprovalsState) : ApprovalsState :=
  let items := sorted_approvals items in
  mkApprovals items (clamp_index (as_selected s) (List.length items)) false.

Definition move_approvals_state (delta : Z) (s : ApprovalsState) : bool * ApprovalsState :=
  match as_items s with
  | [] => (false, mkApprovals [] 0 (as_pending s))
  | items => let r := move_index (as_selected s) (List.length items) delta in
             (r.1, mkApprovals items r.2 (as_pending s))
  end.

Definition remove_selected_state (s : ApprovalsState) : option ApprovalItem * ApprovalsState :=
  match as_items s with
  | [] => (None, mkApprovals [] 0 (as_pending s))
  | items =>
      let index := Nat.min (as_selected s) (List.length items - 1) in
      let rest := remove_nth index items in
      (items !! index, mkApprovals rest (clamp_index (as_selected s) (List.length rest)) (as_pending s))
  end.

Definition remove_by_id_state (id : Id) (s : ApprovalsState) : bool * ApprovalsState :=
  let rest := List.filter (fun a => negb (ap_id a =? id)%N) (as_items s) in
  if List.length rest =? List.length (as_items s) then (false, s)
  else (true, mkApprovals rest (clamp_index (as_selected s) (List.length rest)) (as_pending s)).

(** Replace the first row of the same id, or append. *)
Fixpoint replace_or_push (items : list ApprovalItem) (a : ApprovalItem) : list ApprovalItem :=
  match items with
  | [] => [a]
  | x :: r => if (ap_id x =? ap_id a)%N then a :: r else x :: replace_or_push r a
  end.
Definition merge_approval_state (a : ApprovalItem) (s : ApprovalsState) : ApprovalsState :=
  let items := take MAX_LIVE_APPROVALS (sorted_approvals (replace_or_push (as_items s) a)) in
  mkApprovals items (clamp_index (as_selected s) (List.length items)) (as_pending s).
