(* ===== verification/TuiApp.v ===== *)
(** * The state of the terminal interface (src/tui/app.rs, [AppState])

    One record holds what the panes show; every operation of [AppState] is a
    function on it.  Times are nanoseconds; the operations that read the
    monotonic clock take its value.  Message lists, conversations, details,
    previews, the folder cache, toasts, prompts and the composer are all here;
    what the keys and the daemon's answers do with them is a sequence of these
    operations. *)

From stdpp Require Import gmap.
From S2P Require Import Prelude RustStr Json MailParser DbCore McpTools McpModels Config TuiText TuiComposer TuiItems TuiApprovals.
#[local] Open Scope nat_scope.
#[local] Open Scope bool_scope.

Definition MAX_COMMAND_CHARS : N := 128.
Definition MAX_SEARCH_CHARS : N := 256.
Definition MAX_TOASTS : nat := 3.
Definition FOLDER_CACHE_CAPACITY : nat := 6.
Definition ui_seconds (n : Z) : Z := (n * 1000000000)%Z.
Definition FOLDER_CACHE_TTL : Z := ui_seconds 60.
Definition TOAST_TTL_INFO : Z := ui_seconds 3.
Definition TOAST_TTL_ERROR : Z := ui_seconds 6.
Definition COALESCE_ACCOUNT_SYNCED : Z := ui_seconds 5.
Definition COALESCE_SYNC_ERROR : Z := ui_seconds 10.
Definition COALESCE_PANE_REFUSAL : Z := ui_seconds 3.

Inductive ActivePane : Type := PAccounts | PFolders | PConversations | PDetails | PAttachments | PSearch.
#[global] Instance ActivePane_eq_dec : EqDecision ActivePane.
Proof. solve_decision. Defined.

Definition pane_next (p : ActivePane) : ActivePane :=
  match p with
  | PAccounts => PFolders | PFolders => PConversations | PConversations => PDetails
  | PDetails => PAttachments | PAttachments => PSearch | PSearch => PAccounts
  end.
Definition pane_previous (p : ActivePane) : ActivePane :=
  match p with
  | PAccounts => PSearch | PFolders => PAccounts | PConversations => PFolders
  | PDetails => PConversations | PAttachments => PDetails | PSearch => PAttachments
  end.

Inductive InputMode : Type :=
| MNormal | MCommand | MCompose | MComposeAttachPath | MConfirmDiscard | MConfirmDelete | MQuickSearch.
#[global] Instance InputMode_eq_dec : EqDecision InputMode.
Proof. solve_decision. Defined.

Record SearchState : Type := mkSearch {
  se_query : str;
  se_scope_account : option Id;
  se_hits : list SearchHit;
  se_selected : nat;
  se_pending : bool;
  se_previous_pane : ActivePane;
}.

(** ** The conversation stack *)

Record ConversationDetailState : Type := mkStack {
  st_focused : option Id;
  st_expanded : gset N;
  st_details : gmap N MessageDetail;
}.

Definition stack_reset (messages : list MessageItem) (selected : nat) : ConversationDetailState :=
  let focused := mi_id <$> messages !! Nat.min selected (List.length messages - 1) in
  mkStack focused (match focused with Some id => {[ id ]} | None => ∅ end) ∅.
Definition stack_is_expanded (id : Id) (count : nat) (st : ConversationDetailState) : bool :=
  (count =? 1) || bool_decide (id ∈ st_expanded st).
Definition stack_toggle_focused (count : nat) (st : ConversationDetailState) : option (bool * ConversationDetailState) :=
  if count =? 0 then None
  else if count =? 1 then Some (true, st)
  else id ← st_focused st;
       if bool_decide (id ∈ st_expanded st)
       then Some (false, mkStack (st_focused st) (st_expanded st ∖ {[ id ]}) (st_details st))
       else Some (true, mkStack (st_focused st) (st_expanded st ∪ {[ id ]}) (st_details st)).
Definition stack_expand_all (messages : list MessageItem) (st : ConversationDetailState) : ConversationDetailState :=
  mkStack (st_focused st) (st_expanded st ∪ list_to_set (map mi_id messages)) (st_details st).
Definition stack_cache_detail (d : MessageDetail) (st : ConversationDetailState) : ConversationDetailState :=
  mkStack (st_focused st) (st_expanded st) (<[md_id d := d]> (st_details st)).
Definition stack_set_focused (id : option Id) (st : ConversationDetailState) : ConversationDetailState :=
  mkStack id (st_expanded st) (st_details st).

(** ** The folder cache *)

Record FolderSnapshot : Type := mkFolderSnapshot {
  fs_folder_messages : list MessageItem;
  fs_selected_thread_key : option Id;
  fs_selected_message_id : option Id;
}.
Record FolderCacheEntry : Type := mkCacheEntry {
  ce_account_id : Id;
  ce_folder_id : Id;
  ce_snapshot : FolderSnapshot;
  ce_stored_at : Z;
}.
Record FolderMessageCache : Type := mkFolderCache {
  fc_capacity : nat;
  fc_ttl : Z;
  fc_entries : list FolderCacheEntry;
}.
Definition default_cache : FolderMessageCache := mkFolderCache FOLDER_CACHE_CAPACITY FOLDER_CACHE_TTL [].

Definition entry_for (account folder : Id) (e : FolderCacheEntry) : bool :=
  (ce_account_id e =? account)%N && (ce_folder_id e =? folder)%N.
Fixpoint position {A} (f : A -> bool) (l : list A) : option nat :=
  match l with
  | [] => None
  | x :: r => if f x then Some 0 else S <$> position f r
  end.
Definition entry_index (account folder : Id) (c : FolderMessageCache) : option nat :=
  position (entry_for account folder) (fc_entries c).
Definition with_entries (entries : list FolderCacheEntry) (c : FolderMessageCache) : FolderMessageCache :=
  mkFolderCache (fc_capacity c) (fc_ttl c) entries.

(** [Instant::saturating_duration_since]. *)
Definition since (now earlier : Z) : Z := Z.max 0 (now - earlier).

Definition cache_lookup (account folder : Id) (now : Z) (c : FolderMessageCache)
    : option FolderSnapshot * FolderMessageCache :=
  match entry_index account folder c with
  | None => (None, c)
  | Some index =>
      match fc_entries c !! index with
      | None => (None, c)
      | Some entry =>
          let c' := with_entries (remove_nth index (fc_entries c)) c in
          if (fc_ttl c <? since now (ce_stored_at entry))%Z then (None, c')
          else (Some (ce_snapshot entry), with_entries (fc_entries c' ++ [entry]) c')
      end
  end.

(** [while len >= capacity { pop_front }]: at most [len] rounds. *)
Definition pop_to_capacity (capacity : nat) (entries : list FolderCacheEntry) : list FolderCacheEntry :=
  drop (S (List.length entries) - capacity) entries.
Definition cache_store (account folder : Id) (snapshot : FolderSnapshot) (now : Z) (c : FolderMessageCache)
    : FolderMessageCache :=
  let c := match entry_index account folder c with
           | Some index => with_entries (remove_nth index (fc_entries c)) c
           | None => c
           end in
  if fc_capacity c =? 0 then c
  else with_entries (pop_to_capacity (fc_capacity c) (fc_entries c) ++ [mkCacheEntry account folder snapshot now]) c.
Definition cache_invalidate_folder (account folder : Id) (c : FolderMessageCache) : FolderMessageCache :=
  with_entries (List.filter (fun e => negb (ce_account_id e =? account)%N || negb (ce_folder_id e =? folder)%N)
                  (fc_entries c)) c.
Definition cache_invalidate_account (account : Id) (c : FolderMessageCache) : FolderMessageCache :=
  with_entries (List.filter (fun e => negb (ce_account_id e =? account)%N) (fc_entries c)) c.
Definition cache_retain_accounts (ids : list Id) (c : FolderMessageCache) : FolderMessageCache :=
  with_entries (List.filter (fun e => existsb (N.eqb (ce_account_id e)) ids) (fc_entries c)) c.

(** ** Toasts *)

Inductive ToastKind : Type := TInfo | TSuccess | TWarn | TError.
#[global] Instance ToastKind_eq_dec : EqDecision ToastKind.
Proof. solve_decision. Defined.
Definition toast_ttl (k : ToastKind) : Z := match k with TError => TOAST_TTL_ERROR | _ => TOAST_TTL_INFO end.
Record Toast : Type := mkToast { to_id : Z; to_kind : ToastKind; to_text : str; to_expires_at : Z }.

Inductive SyncStateUi : Type := UiIdle | UiPolling | UiSyncing | UiError.
#[global] Instance SyncStateUi_eq_dec : EqDecision SyncStateUi.
Proof. solve_decision. Defined.
Record AccountStatus : Type := mkAccountStatus { as_state : SyncStateUi; as_last_error : option str }.

(** ** The state *)

Record AppState : Type := mkApp {
  s_active : ActivePane;
  s_mode : InputMode;
  s_accounts : list AccountItem;
  s_folders : list FolderItem;
  s_folder_messages : list MessageItem;
  s_folder_cache : FolderMessageCache;
  s_threads : list ThreadItem;
  s_messages : list MessageItem;
  s_detail : option MessageDetail;
  s_conversation_detail : ConversationDetailState;
  s_detail_text_cache : option TextLineCache;
  s_detail_cursor : nat;
  s_detail_scroll : nat;
  s_detail_selection_anchor : option nat;
  s_detail_selection_focus : nat;
  s_detail_preferred_column : option nat;
  s_attachments : list AttachmentItem;
  s_attachment_preview : option AttachmentPreviewItem;
  s_preview_focused : bool;
  s_preview_scroll : nat;
  s_preview_selection : option (nat * nat);
  s_selected_account : nat;
  s_selected_folder : nat;
  s_selected_thread : nat;
  s_selected_message : nat;
  s_selected_attachment : nat;
  s_pending_open_attachment : option AttachmentItem;
  s_pending_delete_message : option Id;
  s_command_input : str;
  s_status : str;
  s_error : option str;
  s_theme : ThemeName;
  s_composer : option ComposerState;
  s_toasts : list Toast;
  s_next_toast_id : Z;
  s_account_states : gmap N AccountStatus;
  s_search : option SearchState;
  s_approvals : ApprovalsState;
  s_search_input : str;
  s_search_input_previous_pane : ActivePane;
  s_drafts : list DraftItem;
  s_selected_draft : nat;
  s_pending_delete_draft : option Id;
  s_help_open : bool;
  s_help_scroll : Z;
}.

#[export] Instance app_fields : Fields AppState := fun s =>
  mkApp (s_active s) (s_mode s) (s_accounts s) (s_folders s) (s_folder_messages s) (s_folder_cache s) (s_threads s)
    (s_messages s) (s_detail s) (s_conversation_detail s) (s_detail_text_cache s) (s_detail_cursor s)
    (s_detail_scroll s) (s_detail_selection_anchor s) (s_detail_selection_focus s) (s_detail_preferred_column s)
    (s_attachments s) (s_attachment_preview s) (s_preview_focused s) (s_preview_scroll s) (s_preview_selection s)
    (s_selected_account s) (s_selected_folder s) (s_selected_thread s) (s_selected_message s)
    (s_selected_attachment s) (s_pending_open_attachment s) (s_pending_delete_message s) (s_command_input s)
    (s_status s) (s_error s) (s_theme s) (s_composer s) (s_toasts s) (s_next_toast_id s) (s_account_states s)
    (s_search s) (s_approvals s) (s_search_input s) (s_search_input_previous_pane s) (s_drafts s)
    (s_selected_draft s) (s_pending_delete_draft s) (s_help_open s) (s_help_scroll s).

Definition default_app : AppState :=
  mkApp PAccounts MNormal [] [] [] default_cache [] [] None (mkStack None ∅ ∅) None 0 0 None 0 None [] None false 0 None
    0 0 0 0 0 None None [] (lit "Connecting") None Dark None [] 0%Z ∅ None (mkApprovals [] 0 false) [] PAccounts
    [] 0 None false 0%Z.

(** ** Selections and visibility *)

Definition selected_account_id (s : AppState) : option Id := ai_id <$> s_accounts s !! s_selected_account s.
Definition selected_folder (s : AppState) : option FolderItem := s_folders s !! s_selected_folder s.
Definition selected_folder_id (s : AppState) : option Id :=
  f ← selected_folder s; match fi_kind f with KindMail => Some (fi_id f) | KindApprovals => None end.
Definition selected_folder_name (s : AppState) : option str := fi_name <$> selected_folder s.
Definition selected_folder_role (s : AppState) : option str := fi_role <$> selected_folder s.
Definition drafts_pane_active (s : AppState) : bool := bool_decide (selected_folder_role s = Some (lit "drafts")).
Definition approvals_folder_selected (s : AppState) : bool :=
  match selected_folder s with Some f => is_approvals_virtual f | None => false end.
Definition approvals_folder_index (s : AppState) : option nat := position is_approvals_virtual (s_folders s).
Definition selected_thread (s : AppState) : option ThreadItem := s_threads s !! s_selected_thread s.
Definition selected_thread_key (s : AppState) : option Id := ti_key <$> selected_thread s.
Definition selected_message (s : AppState) : option MessageItem :=
  if approvals_folder_selected s then None else s_messages s !! s_selected_message s.
Definition selected_message_id (s : AppState) : option Id := mi_id <$> selected_message s.
Definition message_index (id : Id) (s : AppState) : option nat :=
  position (fun m => (mi_id m =? id)%N) (s_messages s).
Definition selected_draft_id (s : AppState) : option Id := di_id <$> s_drafts s !! s_selected_draft s.
Definition selected_attachment (s : AppState) : option AttachmentItem := s_attachments s !! s_selected_attachment s.
Definition selected_attachment_id (s : AppState) : option Id := at_id <$> selected_attachment s.

Definition attachments_pane_visible (s : AppState) : bool :=
  negb (approvals_folder_selected s) && bool_decide (s_detail s <> None) && negb (bool_decide (s_attachments s = [])).
Definition detail_pane_visible (s : AppState) : bool := approvals_folder_selected s || bool_decide (s_detail s <> None).
Definition search_pane_visible (s : AppState) : bool := bool_decide (s_search s <> None).
Definition pane_visible (s : AppState) (p : ActivePane) : bool :=
  match p with
  | PDetails => detail_pane_visible s
  | PAttachments => attachments_pane_visible s
  | PSearch => search_pane_visible s
  | PAccounts | PFolders | PConversations => true
  end.

(** ** Panes *)

(** The three tests of [normalize_active_pane], in order. *)
Definition leave_details (s : AppState) : AppState :=
  if bool_decide (s_active s = PDetails) && negb (detail_pane_visible s) then s <| s_active := PConversations |> else s.
Definition leave_attachments (s : AppState) : AppState :=
  if bool_decide (s_active s = PAttachments) && negb (attachments_pane_visible s)
  then s <| s_active := if detail_pane_visible s then PDetails else PConversations |> else s.
Definition leave_search (s : AppState) : AppState :=
  if bool_decide (s_active s = PSearch) && negb (search_pane_visible s) then s <| s_active := PConversations |> else s.
Definition normalize_active_pane (s : AppState) : AppState := leave_search (leave_attachments (leave_details s)).

(** The loop over at most six panes. *)
Fixpoint visible_from (step : ActivePane -> ActivePane) (s : AppState) (rounds : nat) (pane : ActivePane) : ActivePane :=
  match rounds with
  | O => s_active s
  | S k => let pane := step pane in if pane_visible s pane then pane else visible_from step s k pane
  end.
Definition next_visible_pane (s : AppState) : ActivePane := visible_from pane_next s 6 (s_active s).
Definition previous_visible_pane (s : AppState) : ActivePane := visible_from pane_previous s 6 (s_active s).
Definition cycle_active_pane (s : AppState) : AppState := s <| s_active := next_visible_pane s |>.
Definition cycle_active_pane_reverse (s : AppState) : AppState := s <| s_active := previous_visible_pane s |>.

(** ** Clearing *)

Definition reset_preview_navigation_state (s : AppState) : AppState :=
  s <| s_preview_focused := false |> <| s_preview_scroll := 0 |> <| s_preview_selection := None |>.
Definition clear_attachments (s : AppState) : AppState :=
  normalize_active_pane (reset_preview_navigation_state
    (s <| s_attachments := [] |> <| s_attachment_preview := None |> <| s_selected_attachment := 0 |>
       <| s_pending_open_attachment := None |>)).
Definition reset_detail_navigation_state (s : AppState) : AppState :=
  s <| s_detail_cursor := 0 |> <| s_detail_scroll := 0 |> <| s_detail_selection_anchor := None |>
    <| s_detail_selection_focus := 0 |> <| s_detail_preferred_column := None |>.
Definition clear_detail_state (s : AppState) : AppState :=
  clear_attachments (reset_detail_navigation_state
    (s <| s_detail := None |> <| s_detail_text_cache := None |>
       <| s_conversation_detail := stack_reset (s_messages s) (s_selected_message s) |>)).
Definition clear_drafts (s : AppState) : AppState := s <| s_drafts := [] |> <| s_selected_draft := 0 |>.

(** What a change of account or folder empties, in the order of the code. *)
Definition clear_messages (s : AppState) : AppState :=
  clear_detail_state (clear_drafts
    (s <| s_folder_messages := [] |> <| s_threads := [] |> <| s_messages := [] |>)).
Definition clear_folder_view (s : AppState) : AppState :=
  (clear_messages s) <| s_selected_thread := 0 |> <| s_selected_message := 0 |>.
Definition clear_account_view (s : AppState) : AppState :=
  (clear_messages (s <| s_folders := virtual_folders |>))
    <| s_selected_folder := 0 |> <| s_selected_thread := 0 |> <| s_selected_message := 0 |>.

Definition set_status (status : str) (s : AppState) : AppState := s <| s_status := status |>.
Definition set_error (error : str) (s : AppState) : AppState := s <| s_error := Some error |>.
Definition clear_error (s : AppState) : AppState := s <| s_error := None |>.

(** ** Conversations *)

Definition rebuild_threads (selected_key : option Id) (s : AppState) : AppState :=
  let s := s <| s_threads := build_threads (s_folder_messages s) |> in
  match selected_key ≫= fun key => position (fun t => (ti_key t =? key)%N) (s_threads s) with
  | Some index => s <| s_selected_thread := index |>
  | None => s <| s_selected_thread := clamp_index (s_selected_thread s) (List.length (s_threads s)) |>
  end.

Definition visible_messages (s : AppState) : list MessageItem :=
  match selected_thread_key s with
  | Some key =>
      sort_messages_oldest_first
        (List.filter (fun m => (message_thread_key m =? key)%N) (s_folder_messages s))
  | None => []
  end.
Definition refresh_visible_messages (s : AppState) : AppState :=
  let previous := selected_message_id s in
  let s := s <| s_messages := visible_messages s |> in
  if bool_decide (s_messages s = []) then s <| s_selected_message := 0 |>
  else match previous ≫= fun id => message_index id s with
       | Some index => s <| s_selected_message := index |>
       | None => s <| s_selected_message := List.length (s_messages s) - 1 |>
       end.

(** ** The folder cache *)

Definition folder_cache_lookup (account folder : Id) (now : Z) (s : AppState) : option FolderSnapshot * AppState :=
  let r := cache_lookup account folder now (s_folder_cache s) in (r.1, s <| s_folder_cache := r.2 |>).
Definition folder_snapshot (s : AppState) : FolderSnapshot :=
  mkFolderSnapshot (s_folder_messages s) (selected_thread_key s) (selected_message_id s).
Definition folder_cache_store (account folder : Id) (now : Z) (s : AppState) : AppState :=
  if approvals_folder_selected s then s
  else s <| s_folder_cache := cache_store account folder (folder_snapshot s) now (s_folder_cache s) |>.
Definition store_selected_folder_cache (account folder : option Id) (now : Z) (s : AppState) : AppState :=
  match account, folder with
  | Some account, Some folder => folder_cache_store account folder now s
  | _, _ => s
  end.
Definition folder_cache_invalidate_folder (account folder : Id) (s : AppState) : AppState :=
  s <| s_folder_cache := cache_invalidate_folder account folder (s_folder_cache s) |>.
Definition folder_cache_invalidate_account (account : Id) (s : AppState) : AppState :=
  s <| s_folder_cache := cache_invalidate_account account (s_folder_cache s) |>.

(** ** Approvals *)

Definition lift_approvals {A} (f : ApprovalsState -> A * ApprovalsState) (s : AppState) : A * AppState :=
  let r := f (s_approvals s) in (r.1, s <| s_approvals := r.2 |>).
Definition apply_approvals (items : list ApprovalItem) (s : AppState) : AppState :=
  s <| s_approvals := apply_approvals_state items (s_approvals s) |>.
Definition move_approval_selection (delta : Z) : AppState -> bool * AppState := lift_approvals (move_approvals_state delta).
Definition selected_approval (s : AppState) : option ApprovalItem :=
  as_items (s_approvals s) !! as_selected (s_approvals s).
Definition remove_selected_approval : AppState -> option ApprovalItem * AppState := lift_approvals remove_selected_state.
Definition remove_approval_by_id (id : Id) : AppState -> bool * AppState := lift_approvals (remove_by_id_state id).
Definition merge_approval_request (a : ApprovalItem) (s : AppState) : AppState :=
  s <| s_approvals := merge_approval_state a (s_approvals s) |>.
Definition approvals_pending_count (s : AppState) : nat := List.length (as_items (s_approvals s)).

(** ** Search *)

Definition move_search_selection (delta : Z) (s : AppState) : bool * AppState :=
  match s_search s with
  | None => (false, s)
  | Some st =>
      let with_selected n := s <| s_search := Some (mkSearch (se_query st) (se_scope_account st) (se_hits st) n
                                                      (se_pending st) (se_previous_pane st)) |> in
      match se_hits st with
      | [] => (false, with_selected 0)
      | hits => let r := move_index (se_selected st) (List.length hits) delta in (r.1, with_selected r.2)
      end
  end.
Definition begin_search (query : str) (scope_account : option Id) (s : AppState) : AppState :=
  let previous := match s_search s with Some st => se_previous_pane st | None => s_active s end in
  clear_error (s <| s_search := Some (mkSearch query scope_account [] 0 true previous) |> <| s_active := PSearch |>).
Definition apply_search_hits (hits : list SearchHit) (s : AppState) : AppState :=
  match s_search s with
  | Some st => s <| s_search := Some (mkSearch (se_query st) (se_scope_account st) hits
                                        (clamp_index (se_selected st) (List.length hits)) false (se_previous_pane st)) |>
  | None => s
  end.
Definition close_search (s : AppState) : AppState :=
  normalize_active_pane
    (match s_search s with
     | Some st => s <| s_search := None |> <| s_active := se_previous_pane st |>
     | None => s
     end).
Definition selected_search_hit (s : AppState) : option SearchHit := st ← s_search s; se_hits st !! se_selected st.

Definition enter_quick_search (s : AppState) : AppState :=
  set_status (lit "Search /") (clear_error
    (s <| s_search_input_previous_pane := s_active s |> <| s_search_input := [] |> <| s_mode := MQuickSearch |>)).
Definition cancel_quick_search (s : AppState) : AppState :=
  let s := clear_error (s <| s_mode := MNormal |> <| s_search_input := [] |>) in
  set_status (lit "Search cancelled") (s <| s_active := s_search_input_previous_pane s |>).
Definition push_search_char (ch : char) (s : AppState) : bool * AppState :=
  if is_control ch || at_limit (s_search_input s) MAX_SEARCH_CHARS then (false, s)
  else (true, s <| s_search_input := s_search_input s ++ [ch] |>).
Definition backspace_search (s : AppState) : bool * AppState :=
  match string_pop (s_search_input s) with
  | Some v => (true, s <| s_search_input := v |>)
  | None => (false, s)
  end.
Definition finish_quick_search (s : AppState) : str * AppState :=
  (s_search_input s, s <| s_mode := MNormal |> <| s_search_input := [] |>).

(** ** Lists from the daemon *)

Definition apply_accounts (accounts : list AccountItem) (s : AppState) : AppState :=
  let ids := map ai_id accounts in
  let s := s <| s_folder_cache := cache_retain_accounts ids (s_folder_cache s) |>
             <| s_account_states := filter (fun p => p.1 ∈ ids) (s_account_states s) |>
             <| s_accounts := accounts |>
             <| s_selected_account := clamp_index (s_selected_account s) (List.length accounts) |> in
  normalize_active_pane ((clear_account_view s) <| s_search := None |>).

Definition has_mail_folder (s : AppState) : bool := existsb (fun f => negb (is_approvals_virtual f)) (s_folders s).

Definition apply_folders (folders : list FolderItem) (s : AppState) : AppState :=
  let first_load := negb (has_mail_folder s) in
  let keep_approvals_selected :=
    approvals_folder_selected s && match s_active s with PFolders | PConversations | PDetails => true | _ => false end in
  let s := s <| s_folders := folders_with_approvals folders |> in
  let s := s <| s_selected_folder :=
    if keep_approvals_selected then unwrap_or 0 (approvals_folder_index s)
    else if first_load then unwrap_or 0 (position (fun f => str_eqb (fi_role f) (lit "inbox")) (s_folders s))
    else clamp_index (s_selected_folder s) (List.length (s_folders s)) |> in
  normalize_active_pane (clear_folder_view s).

Definition apply_messages (messages : list MessageItem) (s : AppState) : AppState :=
  clear_detail_state
    (s <| s_messages := messages |>
       <| s_selected_message := clamp_index (s_selected_message s) (List.length messages) |>).

Definition apply_folder_messages (messages : list MessageItem) (now : Z) (s : AppState) : AppState :=
  let account := selected_account_id s in
  let folder := selected_folder_id s in
  let previous_key := selected_thread_key s in
  let s := rebuild_threads previous_key (s <| s_folder_messages := messages |>) in
  let s := clear_detail_state (normalize_active_pane (refresh_visible_messages s)) in
  store_selected_folder_cache account folder now s.

Definition apply_drafts (drafts : list DraftItem) (s : AppState) : AppState :=
  s <| s_drafts := drafts |> <| s_selected_draft := clamp_index (s_selected_draft s) (List.length drafts) |>.
Definition remove_draft_locally (id : Id) (s : AppState) : bool * AppState :=
  let drafts := List.filter (fun d => negb (di_id d =? id)%N) (s_drafts s) in
  if List.length drafts =? List.length (s_drafts s) then (false, s)
  else (true, s <| s_drafts := drafts |> <| s_selected_draft := clamp_index (s_selected_draft s) (List.length drafts) |>).

(** ** Deletion, confirmed by the user *)

Definition begin_draft_delete (id : Id) (s : AppState) : AppState :=
  s <| s_pending_delete_message := None |> <| s_pending_delete_draft := Some id |> <| s_mode := MConfirmDelete |>.
Definition cancel_pending_delete_draft (s : AppState) : AppState :=
  let s := s <| s_pending_delete_draft := None |> in
  if decide (s_mode s = MConfirmDelete) then s <| s_mode := MNormal |> else s.
Definition take_pending_delete_draft (s : AppState) : option Id * AppState :=
  let id := s_pending_delete_draft s in
  let s := s <| s_pending_delete_draft := None |> in
  (id, if bool_decide (id <> None) && bool_decide (s_mode s = MConfirmDelete) then s <| s_mode := MNormal |> else s).
Definition begin_delete_confirmation (id : Id) (s : AppState) : AppState :=
  set_status (lit "Delete? y/n")
    (s <| s_pending_delete_draft := None |> <| s_pending_delete_message := Some id |> <| s_mode := MConfirmDelete |>).
Definition cancel_delete_confirmation (s : AppState) : AppState :=
  set_status (lit "Delete cancelled") (s <| s_pending_delete_message := None |> <| s_mode := MNormal |>).
Definition take_pending_delete_message (s : AppState) : option Id * AppState :=
  let id := s_pending_delete_message s in
  let s := s <| s_pending_delete_message := None |> in
  (id, if bool_decide (id <> None) then s <| s_mode := MNormal |> else s).

(** ** Flags and optimistic removal *)

Fixpoint set_flags_of (id : Id) (flags : list str) (l : list MessageItem) : list MessageItem :=
  match l with
  | [] => []
  | m :: r => if (mi_id m =? id)%N then set_item_flags flags m :: r else m :: set_flags_of id flags r
  end.
Definition has_message (id : Id) (l : list MessageItem) : bool := existsb (fun m => (mi_id m =? id)%N) l.

(** The part [apply_message_flags] and [update_message_flags_from_detail] share. *)
Definition flag_lists (id : Id) (flags : list str) (s : AppState) : AppState :=
  s <| s_folder_messages := set_flags_of id flags (s_folder_messages s) |>
    <| s_messages := set_flags_of id flags (s_messages s) |>.
Definition refresh_threads (key : option Id) (s : AppState) : AppState :=
  if bool_decide (s_folder_messages s = []) then s else refresh_visible_messages (rebuild_threads key s).
Definition store_if (changed : bool) (now : Z) (s : AppState) : AppState :=
  if changed then store_selected_folder_cache (selected_account_id s) (selected_folder_id s) now s else s.

Definition update_message_flags_from_detail (d : MessageDetail) (now : Z) (s : AppState) : AppState :=
  let key := selected_thread_key s in
  let changed := has_message (md_id d) (s_folder_messages s) in
  store_if changed now (refresh_threads key (flag_lists (md_id d) (md_flags d) s)).

Definition set_detail_flags (id : Id) (flags : list str) (d : MessageDetail) : MessageDetail :=
  if (md_id d =? id)%N then mkDetail (md_id d) (md_subject d) (md_from d) (md_snippet d) (md_body d) flags else d.
Definition apply_message_flags (id : Id) (flags : list str) (now : Z) (s : AppState) : AppState :=
  let key := selected_thread_key s in
  let changed := has_message id (s_folder_messages s) in
  let s := flag_lists id flags s in
  let s := s <| s_detail := set_detail_flags id flags <$> s_detail s |> in
  store_if changed now (refresh_threads key s).

Definition selected_message_has_flag (flag : str) (s : AppState) : option bool :=
  (fun m => item_has_flag m flag) <$> selected_message s.
Definition selected_message_flag_update (flag : str) (enabled : bool) (s : AppState) : option (Id * list str) :=
  (fun m => (mi_id m, with_flag m flag enabled)) <$> selected_message s.

Record MessageListSnapshot : Type := mkListSnapshot {
  ls_folder_messages : list MessageItem;
  ls_selected_thread : nat;
  ls_selected_message : nat;
}.
Definition snapshot_message_list (s : AppState) : MessageListSnapshot :=
  mkListSnapshot (s_folder_messages s) (s_selected_thread s) (s_selected_message s).

Definition remove_message_locally (id : Id) (now : Z) (s : AppState) : bool * AppState :=
  let key := selected_thread_key s in
  let rest := List.filter (fun m => negb (mi_id m =? id)%N) (s_folder_messages s) in
  if List.length rest =? List.length (s_folder_messages s)
  then (false, s <| s_folder_messages := rest |>)
  else
    let s := refresh_visible_messages (rebuild_threads key (s <| s_folder_messages := rest |>)) in
    let s := match s_detail s with
             | Some d => if (md_id d =? id)%N then clear_detail_state s else s
             | None => s
             end in
    let s := normalize_active_pane s in
    (true, store_selected_folder_cache (selected_account_id s) (selected_folder_id s) now s).

Definition restore_message_list_snapshot (snap : MessageListSnapshot) (now : Z) (s : AppState) : AppState :=
  let s := rebuild_threads None (s <| s_folder_messages := ls_folder_messages snap |>) in
  let s := s <| s_selected_thread := clamp_index (ls_selected_thread snap) (List.length (s_threads s)) |> in
  let s := refresh_visible_messages s in
  let s := s <| s_selected_message := clamp_index (ls_selected_message snap) (List.length (s_messages s)) |> in
  let s := normalize_active_pane s in
  store_selected_folder_cache (selected_account_id s) (selected_folder_id s) now s.

Definition restore_folder_snapshot (snap : FolderSnapshot) (s : AppState) : AppState :=
  let s := rebuild_threads (fs_selected_thread_key snap) (s <| s_folder_messages := fs_folder_messages snap |>) in
  let s := refresh_visible_messages s in
  let s := match fs_selected_message_id snap ≫= fun id => message_index id s with
           | Some index => s <| s_selected_message := index |>
           | None => s
           end in
  let s := s <| s_selected_message := clamp_index (s_selected_message s) (List.length (s_messages s)) |> in
  clear_detail_state (normalize_active_pane s).

(** ** Selecting by name *)

Section names.
Context {UC : UnicodeCase}.

Definition account_named (lowered : str) (a : AccountItem) : bool :=
  str_eqb (to_lowercase (ai_label a)) lowered || str_eqb (to_lowercase (ai_email a)) lowered.
Definition select_account_by_name (name : str) (s : AppState) : bool * AppState :=
  let needle := trim name in
  if is_empty needle then (false, s)
  else match position (account_named (to_lowercase needle)) (s_accounts s) with
       | None => (false, s)
       | Some index =>
           if s_selected_account s =? index then (true, s)
           else (true, normalize_active_pane (clear_account_view
                         (s <| s_selected_account := index |> <| s_active := PAccounts |>)))
       end.
Definition account_id_by_name (name : str) (s : AppState) : option Id :=
  let lowered := to_lowercase (trim name) in
  if is_empty lowered then None else ai_id <$> List.find (account_named lowered) (s_accounts s).
End names.

Definition folder_index_by_name (needle : str) (s : AppState) : option nat :=
  or_else (position (fun f => str_eqb (fi_name f) needle) (s_folders s))
          (position (fun f => eq_ignore_ascii_case (fi_name f) needle) (s_folders s)).
Definition select_folder_by_name (name : str) (s : AppState) : bool * AppState :=
  let needle := trim name in
  if is_empty needle then (false, s)
  else match folder_index_by_name needle s with
       | None => (false, s)
       | Some index =>
           if s_selected_folder s =? index then (true, s)
           else (true, normalize_active_pane (clear_folder_view
                         (s <| s_selected_folder := index |> <| s_active := PFolders |>)))
       end.

Definition select_approvals_folder (s : AppState) : bool * AppState :=
  let s := if existsb is_approvals_virtual (s_folders s) then s
           else s <| s_folders := s_folders s ++ [approvals_virtual] |> in
  match approvals_folder_index s with
  | None => (false, s)
  | Some index =>
      (true, clear_error (clear_folder_view (s <| s_selected_folder := index |> <| s_active := PConversations |>)))
  end.
Definition begin_approvals (s : AppState) : AppState :=
  let a := s_approvals s in
  clear_error (select_approvals_folder
    (s <| s_approvals := mkApprovals (as_items a) (as_selected a) true |>)).2.

Definition jump_to_hit (hit : SearchHit) (s : AppState) : bool * AppState :=
  match position (fun a => (ai_id a =? sh_account_id hit)%N) (s_accounts s) with
  | None => (false, s)
  | Some index =>
      let s := if s_selected_account s =? index then s
               else (clear_detail_state (s <| s_selected_account := index |> <| s_folders := [] |>
                       <| s_folder_messages := [] |> <| s_threads := [] |> <| s_messages := [] |>))
                    <| s_selected_folder := 0 |> <| s_selected_thread := 0 |> in
      let s := match position (fun f => (fi_id f =? sh_folder_id hit)%N) (s_folders s) with
               | Some i => s <| s_selected_folder := i |>
               | None => s
               end in
      let s := match message_index (sh_message_id hit) s with
               | Some i => s <| s_selected_message := i |>
               | None => s
               end in
      (true, normalize_active_pane (s <| s_search := None |> <| s_active := PConversations |>))
  end.

(** ** The detail pane *)

Definition focused_conversation_message_id (s : AppState) : option Id :=
  or_else (st_focused (s_conversation_detail s)) (selected_message_id s).
Definition is_conversation_message_expanded (id : Id) (s : AppState) : bool :=
  stack_is_expanded id (List.length (s_messages s)) (s_conversation_detail s).
(** The body to show for a message: fetched into the stack, or the detail. *)
Definition detail_for (s : AppState) (m : MessageItem) : option MessageDetail :=
  or_else (st_details (s_conversation_detail s) !! mi_id m)
          (opt_filter (fun d => (md_id d =? mi_id m)%N) (s_detail s)).

Definition stack_entry (s : AppState) (focused_id : option Id) (m : MessageItem) : str :=
  let focused := bool_decide (focused_id = Some (mi_id m)) in
  if is_conversation_message_expanded (mi_id m) s
  then expanded_message_header m focused ++ LF :: stack_text (detail_for s m) m
  else collapsed_message_header m focused.
(** The entries of the stack, one after the other with a line feed between. *)
Definition conversation_detail_text (s : AppState) : option str :=
  match s_messages s with
  | [] => detail_text <$> s_detail s
  | [m] => Some (match detail_for s m with Some d => detail_text d | None => message_summary_detail_text m end)
  | messages => Some (join [LF] (map (stack_entry s (focused_conversation_message_id s)) messages))
  end.
Definition rebuild_detail_text_cache (s : AppState) : AppState :=
  s <| s_detail_text_cache := text_line_cache <$> conversation_detail_text s |>.

(** The loop over the messages up to the focused one. *)
Fixpoint header_line (s : AppState) (focused : Id) (messages : list MessageItem) (line : nat) : nat :=
  match messages with
  | [] => 0
  | m :: r =>
      if (mi_id m =? focused)%N then line
      else
        let line := line + 1 in
        header_line s focused r
          (if is_conversation_message_expanded (mi_id m) s
           then line + stack_message_body_line_count (detail_for s m) m else line)
  end.
Definition focused_message_header_line (s : AppState) : nat :=
  match focused_conversation_message_id s with
  | None => 0
  | Some focused => if List.length (s_messages s) <=? 1 then 0 else header_line s focused (s_messages s) 0
  end.

Definition detail_cache (s : AppState) : LineCache :=
  match s_detail_text_cache s with Some c => tlc_lines c | None => mkLineCache [] 0 end.
Definition detail_lines (s : AppState) : list str :=
  match s_detail_text_cache s with Some c => text_lines (tlc_lines c) (tlc_text c) | None => [] end.
Definition detail_line_text (line : nat) (s : AppState) : option str :=
  c ← s_detail_text_cache s; line_text (tlc_lines c) (tlc_text c) line.
Definition detail_len (s : AppState) : nat := char_len (detail_cache s).
Definition detail_line_count (s : AppState) : nat := line_count (detail_cache s).
Definition detail_line_start (line : nat) (s : AppState) : nat := line_start (detail_cache s) line.
Definition detail_line_end (line : nat) (s : AppState) : nat := line_end (detail_cache s) line.
Definition detail_line_len (line : nat) (s : AppState) : nat := detail_line_end line s - detail_line_start line s.
Definition detail_cursor_line_column (s : AppState) : nat * nat :=
  match s_detail_text_cache s with
  | Some c => cursor_line_column (tlc_lines c) (s_detail_cursor s)
  | None => (0, 0)
  end.
Definition detail_selected_line_range (s : AppState) : option (nat * nat) :=
  anchor ← s_detail_selection_anchor s;
  let max_line := detail_line_count s - 1 in
  Some (Nat.min (Nat.min anchor (s_detail_selection_focus s)) max_line,
        Nat.min (Nat.max anchor (s_detail_selection_focus s)) max_line).
Definition detail_visible_scroll (viewport_height : nat) (s : AppState) : nat :=
  visible_scroll (s_detail_scroll s) (detail_line_count s) (detail_cursor_line_column s).1 viewport_height.

Definition place_detail_cursor_at_focused_message (s : AppState) : AppState :=
  let line := focused_message_header_line s in
  s <| s_detail_cursor := detail_line_start line s |> <| s_detail_selection_focus := line |>.
(** Rebuild the text and put the cursor on the focused header. *)
Definition show_stack (s : AppState) : AppState :=
  place_detail_cursor_at_focused_message (reset_detail_navigation_state (rebuild_detail_text_cache s)).

Definition apply_detail (detail : option MessageDetail) (now : Z) (s : AppState) : AppState :=
  let was_detail_focused := bool_decide (s_active s = PDetails) in
  let s := if bool_decide (md_id <$> s_detail s = md_id <$> detail) then s else clear_attachments s in
  let s := match detail with
           | Some d =>
               let s := update_message_flags_from_detail d now s in
               s <| s_conversation_detail := stack_cache_detail d (s_conversation_detail s) |>
           | None => s
           end in
  let s := show_stack (s <| s_detail := detail |>) in
  let s := if was_detail_focused && bool_decide (s_detail s <> None) then s <| s_active := PDetails |> else s in
  let s := if bool_decide (s_detail s = None) then clear_attachments s else s in
  normalize_active_pane s.

Definition toggle_focused_message_expansion (s : AppState) : option bool * AppState :=
  match stack_toggle_focused (List.length (s_messages s)) (s_conversation_detail s) with
  | None => (None, s)
  | Some (expanded, st) => (Some expanded, show_stack (s <| s_conversation_detail := st |>))
  end.
Definition expand_all_conversation_messages (s : AppState) : bool * AppState :=
  if bool_decide (s_messages s = []) then (false, s)
  else (true, show_stack (s <| s_conversation_detail := stack_expand_all (s_messages s) (s_conversation_detail s) |>)).
Definition move_conversation_detail_focus (delta : Z) (s : AppState) : bool * AppState :=
  let len := List.length (s_messages s) in
  if len <=? 1 then (false, s)
  else
    let current := unwrap_or (Nat.min (s_selected_message s) (len - 1))
                     (focused_conversation_message_id s ≫= fun id => message_index id s) in
    let next := Z.to_nat (clamp_isize (Z.of_nat current + delta) 0 (Z.of_nat (len - 1))) in
    if next =? current then (false, s)
    else match s_messages s !! next with
         | None => (false, s)
         | Some m =>
             let s := s <| s_selected_message := next |>
                        <| s_conversation_detail := stack_set_focused (Some (mi_id m)) (s_conversation_detail s) |> in
             let s := match st_details (s_conversation_detail s) !! mi_id m with
                      | Some d => s <| s_detail := Some d |>
                      | None => s
                      end in
             (true, show_stack (clear_attachments s))
         end.
Definition expanded_message_ids_without_detail (s : AppState) : list Id :=
  map mi_id (List.filter (fun m => bool_decide (st_details (s_conversation_detail s) !! mi_id m = None))
    (List.filter (fun m => is_conversation_message_expanded (mi_id m) s) (s_messages s))).
Definition cache_conversation_detail (d : MessageDetail) (now : Z) (s : AppState) : AppState :=
  let s := update_message_flags_from_detail d now s in
  let s := s <| s_conversation_detail := stack_cache_detail d (s_conversation_detail s) |> in
  let s := if bool_decide (focused_conversation_message_id s = Some (md_id d)) then s <| s_detail := Some d |> else s in
  rebuild_detail_text_cache s.

(** Movement within the text. *)
Definition set_detail_cursor (next : nat) (s : AppState) : bool * AppState :=
  let len := detail_len s in
  let next := Nat.min next len in
  let old := Nat.min (s_detail_cursor s) len in
  (negb (old =? next), s <| s_detail_cursor := next |> <| s_detail_preferred_column := None |>).
Definition move_detail_cursor_left (s : AppState) : bool * AppState :=
  if negb (detail_pane_visible s) then (false, s)
  else if (detail_cursor_line_column s).2 =? 0 then (false, s)
  else (true, s <| s_detail_cursor := Nat.min (s_detail_cursor s) (detail_len s) - 1 |>
                <| s_detail_preferred_column := None |>).
Definition move_detail_cursor_right (s : AppState) : bool * AppState :=
  if negb (detail_pane_visible s) then (false, s)
  else let '(line, column) := detail_cursor_line_column s in
       if detail_line_len line s <=? column then (false, s)
       else (true, s <| s_detail_cursor := detail_line_start line s + column + 1 |>
                     <| s_detail_preferred_column := None |>).
Definition detail_home (s : AppState) : bool * AppState :=
  if negb (detail_pane_visible s) then (false, s)
  else set_detail_cursor (detail_line_start (detail_cursor_line_column s).1 s) s.
Definition detail_end (s : AppState) : bool * AppState :=
  if negb (detail_pane_visible s) then (false, s)
  else set_detail_cursor (detail_line_end (detail_cursor_line_column s).1 s) s.
Definition detail_active (s : AppState) : bool := bool_decide (s_active s = PDetails) && detail_pane_visible s.
Definition move_detail_line (delta : Z) (viewport_height : nat) (s : AppState) : bool * AppState :=
  if negb (detail_active s) then (false, s)
  else if detail_line_count s =? 0 then (false, s)
  else
    let max_line := detail_line_count s - 1 in
    let '(line, column) := detail_cursor_line_column s in
    let preferred := unwrap_or column (s_detail_preferred_column s) in
    let s1 := s <| s_detail_preferred_column := Some preferred |> in
    let next_line := if (delta <? 0)%Z then line - Z.abs_nat delta
                     else Nat.min (line + Z.to_nat delta) max_line in
    let next_column := Nat.min preferred (detail_line_len next_line s1) in
    let s2 := s1 <| s_detail_cursor := detail_line_start next_line s1 + next_column |> in
    let s3 := if bool_decide (s_detail_selection_anchor s2 <> None)
              then s2 <| s_detail_selection_focus := next_line |> else s2 in
    let s4 := s3 <| s_detail_scroll := detail_visible_scroll viewport_height s3 |> in
    (negb (s_detail_cursor s4 =? s_detail_cursor s) || negb (s_detail_scroll s4 =? s_detail_scroll s)
       || negb (s_detail_selection_focus s4 =? s_detail_selection_focus s), s4).
Definition clear_detail_selection (s : AppState) : bool * AppState :=
  (bool_decide (s_detail_selection_anchor s <> None),
   s <| s_detail_selection_anchor := None |> <| s_detail_selection_focus := (detail_cursor_line_column s).1 |>).
Definition start_detail_selection_here (s : AppState) : AppState :=
  let line := (detail_cursor_line_column s).1 in
  s <| s_detail_selection_anchor := Some line |> <| s_detail_selection_focus := line |>.
Definition toggle_detail_line_selection (s : AppState) : bool * AppState :=
  if negb (detail_active s) then (false, s)
  else if bool_decide (s_detail_selection_anchor s <> None) then clear_detail_selection s
  else (true, start_detail_selection_here s).
Definition start_detail_line_selection (s : AppState) : bool * AppState :=
  if negb (detail_active s) || bool_decide (s_detail_selection_anchor s <> None) then (false, s)
  else (true, start_detail_selection_here s).

(** ** Attachments and their preview *)

Definition apply_attachments (attachments : list AttachmentItem) (s : AppState) : AppState :=
  let s := s <| s_attachments := attachments |>
             <| s_selected_attachment := clamp_index (s_selected_attachment s) (List.length attachments) |> in
  let s := match s_attachment_preview s with
           | Some p => if bool_decide (Some (pi_attachment_id p) <> selected_attachment_id s)
                       then reset_preview_navigation_state (s <| s_attachment_preview := None |>) else s
           | None => s
           end in
  let s := if bool_decide (s_attachments s = [])
           then reset_preview_navigation_state
                  (s <| s_attachment_preview := None |> <| s_pending_open_attachment := None |>)
           else s in
  normalize_active_pane s.
Definition apply_attachment_preview (p : AttachmentPreviewItem) (s : AppState) : AppState :=
  let same := bool_decide (pi_attachment_id <$> s_attachment_preview s = Some (pi_attachment_id p)) in
  let s := s <| s_attachment_preview := Some p |> in
  if same then s else reset_preview_navigation_state s.

Definition preview_text (s : AppState) : option str :=
  (fun p => pi_message p ++ (match pi_text p with Some body => LF :: LF :: body | None => [] end)
              ++ (if pi_truncated p then LF :: LF :: lit "[truncated]" else [])) <$> s_attachment_preview s.
Definition preview_lines (s : AppState) : list str :=
  match preview_text s with Some t => split_char LF t | None => [] end.
Definition preview_line_count (s : AppState) : nat := List.length (preview_lines s).
Definition preview_max_scroll (viewport_height : nat) (s : AppState) : nat :=
  preview_line_count s - Nat.max viewport_height 1.
Definition preview_visible_scroll (viewport_height : nat) (s : AppState) : nat :=
  Nat.min (s_preview_scroll s) (preview_max_scroll viewport_height s).
Definition is_preview_focus_active (s : AppState) : bool :=
  s_preview_focused s && bool_decide (s_attachment_preview s <> None) && bool_decide (s_active s = PAttachments).
Definition scroll_preview (delta : Z) (viewport_height : nat) (s : AppState) : bool * AppState :=
  if negb (is_preview_focus_active s) then (false, s)
  else
    let max := preview_max_scroll viewport_height s in
    let old := Nat.min (s_preview_scroll s) max in
    let next := if (delta <? 0)%Z then old - Z.abs_nat delta else Nat.min (old + Z.to_nat delta) max in
    (negb (next =? old), s <| s_preview_scroll := next |>).
Definition scroll_preview_to_top (s : AppState) : bool * AppState :=
  if negb (is_preview_focus_active s) then (false, s)
  else (negb (s_preview_scroll s =? 0), s <| s_preview_scroll := 0 |>).
Definition scroll_preview_to_bottom (viewport_height : nat) (s : AppState) : bool * AppState :=
  if negb (is_preview_focus_active s) then (false, s)
  else let max := preview_max_scroll viewport_height s in
       (negb (s_preview_scroll s =? max), s <| s_preview_scroll := max |>).
Definition move_preview_line (delta : Z) (s : AppState) : bool * AppState :=
  if negb (is_preview_focus_active s) then (false, s)
  else match s_preview_selection s with
       | Some (anchor, focus) =>
           let max_line := preview_line_count s - 1 in
           let next := Z.to_nat (clamp_isize (Z.of_nat focus + delta) 0 (Z.of_nat max_line)) in
           if next =? focus then (false, s) else (true, s <| s_preview_selection := Some (anchor, next) |>)
       | None => scroll_preview delta 1 s
       end.
Definition preview_selected_line_range (s : AppState) : option (nat * nat) :=
  '(anchor, focus) ← s_preview_selection s;
  let max_line := preview_line_count s - 1 in
  if (max_line =? 0) && (preview_line_count s =? 0) then None
  else Some (Nat.min (Nat.min anchor focus) max_line, Nat.min (Nat.max anchor focus) max_line).
Definition toggle_preview_selection (s : AppState) : bool * AppState :=
  if negb (is_preview_focus_active s) then (false, s)
  else if bool_decide (s_preview_selection s <> None) then (true, s <| s_preview_selection := None |>)
  else let line := Nat.min (s_preview_scroll s) (preview_line_count s - 1) in
       (true, s <| s_preview_selection := Some (line, line) |>).
Definition clear_preview_selection (s : AppState) : bool * AppState :=
  (bool_decide (s_preview_selection s <> None), s <| s_preview_selection := None |>).
(** The selected lines, joined. *)
Definition preview_yank_text (s : AppState) : option str :=
  '(first, last) ← preview_selected_line_range s;
  let lines := preview_lines s in
  if List.length lines <=? first then None
  else let last := Nat.min last (List.length lines - 1) in
       Some (join [LF] (take (last + 1 - first) (drop first lines))).
Definition focus_preview (s : AppState) : bool * AppState :=
  if bool_decide (s_attachment_preview s = None) then (false, s)
  else if s_preview_focused s then (false, s) else (true, s <| s_preview_focused := true |>).
Definition defocus_preview (s : AppState) : bool * AppState :=
  if negb (s_preview_focused s) then (false, s)
  else (true, s <| s_preview_focused := false |> <| s_preview_selection := None |>).
Definition toggle_attachment_focus (s : AppState) : bool * AppState :=
  if negb (attachments_pane_visible s) then (false, normalize_active_pane s)
  else (true, if decide (s_active s = PAttachments)
              then s <| s_preview_focused := false |> <| s_preview_selection := None |> <| s_active := PConversations |>
              else s <| s_active := PAttachments |>).
Definition begin_open_attachment_confirmation (s : AppState) : bool * AppState :=
  match selected_attachment s with
  | Some a => (true, s <| s_pending_open_attachment := Some a |>)
  | None => (false, s)
  end.
Definition cancel_open_attachment_confirmation (s : AppState) : AppState := s <| s_pending_open_attachment := None |>.
Definition take_pending_open_attachment (s : AppState) : option AttachmentItem * AppState :=
  (s_pending_open_attachment s, s <| s_pending_open_attachment := None |>).

(** ** Moving the selection of the active pane *)

Definition move_selection (delta : Z) (s : AppState) : bool * AppState :=
  match s_active s with
  | PAccounts =>
      let r := move_index (s_selected_account s) (List.length (s_accounts s)) delta in
      let s := s <| s_selected_account := r.2 |> in
      (r.1, if r.1 then clear_account_view s else s)
  | PFolders =>
      let r := move_index (s_selected_folder s) (List.length (s_folders s)) delta in
      let s := s <| s_selected_folder := r.2 |> in
      (r.1, if r.1 then clear_folder_view s else s)
  | PConversations =>
      if approvals_folder_selected s then move_approval_selection delta s
      else if drafts_pane_active s then
        let r := move_index (s_selected_draft s) (List.length (s_drafts s)) delta in
        let s := s <| s_selected_draft := r.2 |> in
        (r.1, if r.1 then clear_detail_state s else s)
      else
        let r := move_index (s_selected_thread s) (List.length (s_threads s)) delta in
        let s := s <| s_selected_thread := r.2 |> in
        (r.1, if r.1 then clear_detail_state (refresh_visible_messages (s <| s_selected_message := 0 |>)) else s)
  | PDetails => if approvals_folder_selected s then move_approval_selection delta s else (false, s)
  | PAttachments =>
      if negb (attachments_pane_visible s) then (false, normalize_active_pane s)
      else if s_preview_focused s then move_preview_line delta s
      else
        let r := move_index (s_selected_attachment s) (List.length (s_attachments s)) delta in
        let s := s <| s_selected_attachment := r.2 |> in
        (r.1, if r.1 then reset_preview_navigation_state (s <| s_attachment_preview := None |>) else s)
  | PSearch => move_search_selection delta s
  end.

(** ** Toasts *)

Definition push_toast (kind : ToastKind) (text : str) (now : Z) (s : AppState) : Z * AppState :=
  let id := s_next_toast_id s in
  let toast := mkToast id kind text (now + toast_ttl kind)%Z in
  let toasts := if MAX_TOASTS <=? List.length (s_toasts s) then tail (s_toasts s) else s_toasts s in
  (id, s <| s_next_toast_id := ((id + 1) mod 2 ^ 64)%Z |> <| s_toasts := toasts ++ [toast] |>).

Definition coalesces (kind : ToastKind) (text : str) (now window : Z) (t : Toast) : bool :=
  bool_decide (to_kind t = kind) && str_eqb (to_text t) text
  && (now + toast_ttl kind <=? to_expires_at t + window)%Z.
(** Refresh the expiry of the last matching toast. *)
Fixpoint refresh_first (f : Toast -> bool) (expires_at : Z) (l : list Toast) : option (list Toast) :=
  match l with
  | [] => None
  | t :: r => if f t then Some (mkToast (to_id t) (to_kind t) (to_text t) expires_at :: r)
              else (fun r => t :: r) <$> refresh_first f expires_at r
  end.
Definition coalesce_toast (kind : ToastKind) (text : str) (now window : Z) (s : AppState) : bool * AppState :=
  match refresh_first (coalesces kind text now window) (now + toast_ttl kind)%Z (rev (s_toasts s)) with
  | Some l => (true, s <| s_toasts := rev l |>)
  | None => (false, s)
  end.
(** Push unless an equal recent toast was refreshed. *)
Definition toast_once (kind : ToastKind) (text : str) (now window : Z) (s : AppState) : AppState :=
  let r := coalesce_toast kind text now window s in
  if r.1 then r.2 else (push_toast kind text now r.2).2.

Definition dismiss_newest_toast (s : AppState) : bool * AppState :=
  (negb (bool_decide (s_toasts s = [])), s <| s_toasts := removelast (s_toasts s) |>).
Definition clear_toasts (s : AppState) : bool * AppState :=
  (negb (bool_decide (s_toasts s = [])), s <| s_toasts := [] |>).
Definition tick_toasts (now : Z) (s : AppState) : AppState :=
  s <| s_toasts := List.filter (fun t => now <? to_expires_at t)%Z (s_toasts s) |>.

(** [Uuid::simple]: 32 lowercase hexadecimal digits. *)
Definition hex_digit (d : N) : char := (if d <? 10 then 48 + d else 87 + d)%N.
Definition uuid_simple (id : N) : str :=
  map (fun i => hex_digit (N.land (N.shiftr id (4 * N.of_nat (31 - i))) 15)) (seq 0 32).
Definition short_id (id : Id) : str := take 8 (uuid_simple id).

Definition account_label_for_toast (account : Id) (s : AppState) : str :=
  match List.find (fun a => (ai_id a =? account)%N) (s_accounts s) with
  | Some a => ai_label a
  | None => short_id account
  end.

Definition apply_sync_state (account : Id) (state : SyncStateUi) (last_error : option str) (now : Z) (s : AppState)
    : AppState :=
  let s := if decide (state = UiError) then
             let message := unwrap_or (lit "sync error") last_error in
             toast_once TError (account_label_for_toast account s ++ lit ": " ++ message) now COALESCE_SYNC_ERROR s
           else s in
  s <| s_account_states :=
    <[account := mkAccountStatus state
        (if decide (state = UiError) then or_else last_error (Some (lit "sync error")) else None)]> (s_account_states s) |>.

Definition push_mail_new_toast (account : Id) (folder : option Id) (now : Z) (s : AppState) : AppState :=
  let name := match folder ≫= fun id => List.find (fun f => (fi_id f =? id)%N) (s_folders s) with
              | Some f => fi_name f
              | None => lit "folder"
              end in
  (push_toast TInfo (lit "New mail in " ++ name ++ lit " (" ++ account_label_for_toast account s ++ lit ")") now s).2.
Definition push_account_synced_toast (account : Id) (now : Z) (s : AppState) : AppState :=
  toast_once TInfo (lit "Synced " ++ account_label_for_toast account s) now COALESCE_ACCOUNT_SYNCED s.
Definition push_pane_refusal_toast (text : str) (now : Z) (s : AppState) : AppState :=
  set_status text (toast_once TInfo text now COALESCE_PANE_REFUSAL s).

(** ** Help, theme, command bar *)

Definition open_help (s : AppState) : bool * AppState :=
  if bool_decide (s_composer s <> None) || negb (bool_decide (s_mode s = MNormal)) then (false, s)
  else (true, s <| s_help_open := true |> <| s_help_scroll := 0%Z |>).
Definition close_help (s : AppState) : AppState := s <| s_help_open := false |> <| s_help_scroll := 0%Z |>.
Definition toggle_help (s : AppState) : bool * AppState :=
  if s_help_open s then (false, close_help s) else open_help s.
(** The offset is a [usize]: the End key sets it to the greatest one. *)
Definition USIZE_MAX : Z := 2 ^ 64 - 1.
Definition scroll_help_down (lines : nat) (s : AppState) : AppState :=
  s <| s_help_scroll := sat_add64 (s_help_scroll s) (Z.of_nat lines) |>.
Definition scroll_help_up (lines : nat) (s : AppState) : AppState :=
  s <| s_help_scroll := Z.max 0 (s_help_scroll s - Z.of_nat lines) |>.
Definition scroll_help_home (s : AppState) : AppState := s <| s_help_scroll := 0%Z |>.
Definition scroll_help_end (max : Z) (s : AppState) : AppState := s <| s_help_scroll := max |>.

Definition cycle_theme (s : AppState) : AppState := s <| s_theme := theme_next (s_theme s) |>.
Definition set_theme (t : ThemeName) (s : AppState) : AppState := s <| s_theme := t |>.

Definition enter_command_mode (s : AppState) : AppState :=
  set_status (lit "Command mode") (clear_error (s <| s_mode := MCommand |> <| s_command_input := [] |>)).
Definition mode_under_prompt (s : AppState) : InputMode :=
  if bool_decide (s_composer s <> None) then MCompose else MNormal.
Definition cancel_command_mode (s : AppState) : AppState :=
  set_status (lit "Command cancelled")
    (clear_error (s <| s_mode := mode_under_prompt s |> <| s_command_input := [] |>)).
Definition push_command_char (ch : char) (s : AppState) : bool * AppState :=
  if is_control ch || at_limit (s_command_input s) MAX_COMMAND_CHARS then (false, s)
  else (true, s <| s_command_input := s_command_input s ++ [ch] |>).
Definition backspace_command (s : AppState) : bool * AppState :=
  match string_pop (s_command_input s) with
  | Some v => (true, s <| s_command_input := v |>)
  | None => (false, s)
  end.
Definition finish_command (s : AppState) : str * AppState :=
  (s_command_input s, s <| s_mode := mode_under_prompt s |> <| s_command_input := [] |>).

(** ** The composer *)

Definition open_composer (c : ComposerState) (s : AppState) : AppState :=
  set_status (lit "Compose") (clear_error (s <| s_composer := Some c |> <| s_mode := MCompose |>)).
Definition enter_composer (account : Id) : AppState -> AppState := open_composer (composer_new account).
Definition enter_composer_with_prefill (account : Id) (p : ComposerPrefill) : AppState -> AppState :=
  open_composer (from_prefill account p).
Definition enter_composer_for_existing_draft (id : Id) (d : ComposerDraft) (focus : ComposeField) : AppState -> AppState :=
  open_composer (from_existing_draft id d focus).
Definition composer_draft (s : AppState) : option ComposerDraft := composer_draft_of <$> s_composer s.
Definition composer_draft_id (s : AppState) : option Id := s_composer s ≫= c_draft_id.
Definition composer_account_id (s : AppState) : option Id := c_account_id <$> s_composer s.
Definition composer_is_dirty (s : AppState) : bool := match s_composer s with Some c => c_dirty c | None => false end.
Definition mark_composer_saved (id : Id) (s : AppState) : AppState :=
  match s_composer s with
  | Some c => s <| s_composer := Some (c <| c_draft_id := Some id |> <| c_dirty := false |>) |>
  | None => s
  end.
Definition exit_composer (s : AppState) : AppState := s <| s_composer := None |> <| s_mode := MNormal |>.
Definition discard_composer (s : AppState) : AppState :=
  set_status (lit "Composer discarded") (clear_error (exit_composer s)).
Definition composer_needs_discard_confirmation (s : AppState) : bool :=
  match s_composer s with Some c => c_dirty c && has_content c | None => false end.
Definition begin_discard_composer_confirmation (s : AppState) : AppState :=
  set_status (lit "Discard unsaved compose? y/n") (s <| s_mode := MConfirmDiscard |>).
Definition cancel_discard_composer_confirmation (s : AppState) : AppState :=
  set_status (lit "Compose") (s <| s_mode := MCompose |>).

(** Operations on the open composer; without one they report no change. *)
Definition with_composer (f : ComposerState -> bool * ComposerState) (s : AppState) : bool * AppState :=
  match s_composer s with
  | Some c => let r := f c in (r.1, s <| s_composer := Some r.2 |>)
  | None => (false, s)
  end.
Definition map_composer (f : ComposerState -> ComposerState) (s : AppState) : AppState :=
  match s_composer s with Some c => s <| s_composer := Some (f c) |> | None => s end.

Definition clear_attach_input (c : ComposerState) : ComposerState := c <| c_attach_input := [] |>.
Definition begin_compose_attach (s : AppState) : bool * AppState :=
  if bool_decide (s_composer s = None) then (false, s)
  else (true, (map_composer clear_attach_input s) <| s_mode := MComposeAttachPath |>).
Definition cancel_compose_attach (s : AppState) : AppState :=
  (map_composer clear_attach_input s) <| s_mode := MCompose |>.
Definition compose_attach_input (s : AppState) : option str := c_attach_input <$> s_composer s.
Definition app_confirm_compose_attach {CF : ComposeFiles} (s : AppState) : result AttachError str * AppState :=
  match s_composer s with
  | None => (Err (AEIo [] (lit "no composer")), s)
  | Some c =>
      let r := confirm_compose_attach c in
      let s := s <| s_composer := Some r.2 |> in
      (r.1, if is_ok r.1 then s <| s_mode := MCompose |> else s)
  end.
Definition app_remove_selected_compose_attachment (s : AppState) : option str * AppState :=
  match s_composer s with
  | None => (None, s)
  | Some c => let r := remove_selected_compose_attachment c in (r.1, s <| s_composer := Some r.2 |>)
  end.
