(* ===== verification/TuiConversations.v ===== *)
(** * Conversations: grouping, the visible messages and the detail text *)

From Stdlib Require Import Sorting.Sorted.
From stdpp Require Import gmap.
From S2P Require Import Prelude RustStr Json MailParser DbCore McpTools McpModels Config TuiText TuiComposer TuiItems TuiApprovals TuiApp.
#[local] Open Scope nat_scope.
#[local] Open Scope bool_scope.

(** ** Sorting *)

Lemma str_compare_antisym a b : str_compare b a = CompOpp (str_compare a b).
Proof.
  revert b. induction a as [|x a IH]; intros [|y b]; cbn; try done.
  rewrite (N.compare_antisym x y). destruct (x ?= y)%N; cbn; [apply IH|done..].
Qed.

Definition not_after {A} (cmp : A -> A -> comparison) (a b : A) : Prop := cmp a b <> Gt.

Lemma sort_by_sorted {A} (cmp : A -> A -> comparison) l :
  (forall a b, cmp b a = CompOpp (cmp a b)) -> Sorted (not_after cmp) (sort_by cmp l).
Proof.
  intros Hanti. unfold sort_by, order_by. induction l as [|x l IH]; cbn [foldr]; [constructor|].
  set (r := foldr _ _ l) in *. clearbody r. induction IH as [|y r Hr IH Hhd]; cbn [insert_by]; [by repeat constructor|].
  destruct (cmp x y) eqn:E.
  - constructor; [by constructor|]. constructor. unfold not_after. congruence.
  - constructor; [by constructor|]. constructor. unfold not_after. congruence.
  - constructor; [done|]. assert (Hy : not_after cmp y x) by (unfold not_after; rewrite Hanti, E; done).
    destruct r as [|z r]; cbn [insert_by] in *; [by constructor|].
    inversion Hhd; subst. destruct (cmp x z); by constructor.
Qed.

Lemma sort_by_perm {A} (cmp : A -> A -> comparison) l : sort_by cmp l ≡ₚ l.
Proof. apply order_by_perm. Qed.

Lemma then_with_antisym a a' b b' : a' = CompOpp a -> b' = CompOpp b -> then_with a' b' = CompOpp (then_with a b).
Proof. intros -> ->. by destruct a, b. Qed.

Lemma thread_cmp_antisym a b : thread_cmp b a = CompOpp (thread_cmp a b).
Proof.
  unfold thread_cmp. repeat apply then_with_antisym; [apply str_compare_antisym..|apply N.compare_antisym].
Qed.
Lemma oldest_cmp_antisym a b : oldest_cmp b a = CompOpp (oldest_cmp a b).
Proof. unfold oldest_cmp. apply then_with_antisym; [apply str_compare_antisym|apply N.compare_antisym]. Qed.
Lemma approval_cmp_antisym a b : approval_cmp b a = CompOpp (approval_cmp a b).
Proof.
  unfold approval_cmp. repeat apply then_with_antisym;
    [apply Z.compare_antisym|apply str_compare_antisym|apply N.compare_antisym].
Qed.

Lemma str_compare_trans a b c : str_compare a b = Lt -> str_compare b c = Lt -> str_compare a c = Lt.
Proof.
  revert b c. induction a as [|x a IH]; intros [|y b] [|z c]; cbn; try done.
  destruct (N.compare_spec x y) as [->|Hxy|Hxy]; [|intros _|done]; destruct (N.compare_spec y z) as [->|Hyz|Hyz]; try done.
  - apply IH.
  - intros _. by rewrite (proj2 (N.compare_lt_iff _ _) Hxy).
  - intros _. rewrite (proj2 (N.compare_lt_iff _ _)); [done|]. by etrans.
Qed.

(** Newest first, then by tool and id. *)
Lemma approval_order a b :
  not_after approval_cmp a b <->
  (ap_created_at b < ap_created_at a)%Z \/
  (ap_created_at a = ap_created_at b /\
   (str_compare (ap_tool a) (ap_tool b) = Lt \/ (ap_tool a = ap_tool b /\ (ap_id a <= ap_id b)%N))).
Proof.
  unfold not_after, approval_cmp.
  destruct (Z.compare_spec (ap_created_at b) (ap_created_at a)) as [Hz|Hz|Hz]; cbn [then_with].
  - destruct (str_compare (ap_tool a) (ap_tool b)) eqn:E; cbn [then_with].
    + apply str_compare_eq in E. rewrite N.compare_le_iff. split; [by right; auto|]. intros [?|(_ & [?|[_ ?]])]; [lia|congruence|done].
    + split; [by right; auto|done].
    + split; [done|]. intros [?|(_ & [?|[Ht _]])]; [lia|done|]. apply str_compare_eq in Ht. congruence.
  - split; [by left|done].
  - split; [done|]. lia.
Qed.
#[global] Instance approval_order_trans : Transitive (not_after approval_cmp).
Proof.
  intros a b c. rewrite !approval_order. intros [H1|(E1 & H1)] [H2|(E2 & H2)]; [left; lia..|].
  right. split; [lia|]. destruct H1 as [H1|[T1 H1]], H2 as [H2|[T2 H2]].
  - left. by eapply str_compare_trans.
  - left. by rewrite <- T2.
  - left. by rewrite T1.
  - right. split; [congruence|lia].
Qed.

Lemma sorted_sublist {A} (R : A -> A -> Prop) `{!Transitive R} l k : sublist k l -> Sorted R l -> Sorted R k.
Proof.
  intros Hs Hl. apply Sorted_StronglySorted in Hl; [|done]. apply StronglySorted_Sorted.
  induction Hs as [|x k l Hs IH|x k l Hs IH]; [constructor| |]; apply StronglySorted_inv in Hl as [Hl Hx]; [|by apply IH].
  constructor; [by apply IH|]. apply Forall_forall. intros y Hy. rewrite Forall_forall in Hx. apply Hx.
  by eapply elem_of_sublist.
Qed.

(** ** Grouping *)

Definition of_thread (key : Id) (ms : list MessageItem) : list MessageItem :=
  List.filter (fun m => (message_thread_key m =? key)%N) ms.

(** A row that tells the truth about its messages. *)
Definition summarises (t : ThreadItem) (g : list MessageItem) : Prop :=
  ti_message_count t = List.length g /\
  ti_unread t = existsb (fun m => negb (item_has_flag m SEEN_FLAG)) g /\
  ti_flagged t = existsb (fun m => item_has_flag m FLAGGED_FLAG) g /\
  exists m, m ∈ g /\ ti_latest_date t = mi_date m /\ ti_latest_from t = mi_from m /\
    ti_subject t = text_or_default (Some (mi_subject m)) (lit "(no subject)") /\
    Forall (fun m' => str_compare (mi_date m') (mi_date m) <> Gt) g.

Definition groups (ts : list ThreadItem) (ms : list MessageItem) : Prop :=
  NoDup (map ti_key ts) /\
  Forall (fun t => summarises t (of_thread (ti_key t) ms)) ts /\
  Forall (fun m => message_thread_key m ∈ map ti_key ts) ms.

Lemma str_compare_refl a : str_compare a a = Eq.
Proof. by apply str_compare_eq. Qed.

Lemma new_thread_summarises m : summarises (new_thread m) [m].
Proof.
  unfold summarises, new_thread. cbn. rewrite !orb_false_r. split_and!; try done.
  exists m. split_and!; try done; [by constructor|]. constructor; [by rewrite str_compare_refl|constructor].
Qed.

Lemma str_compare_le_trans a b c : str_compare a b <> Gt -> str_compare b c <> Gt -> str_compare a c <> Gt.
Proof.
  revert b c. induction a as [|x a IH]; intros [|y b] [|z c]; cbn; try done.
  destruct (N.compare_spec x y), (N.compare_spec y z), (N.compare_spec x z); try done; subst; try lia. apply IH.
Qed.

Lemma add_to_thread_summarises t g m : summarises t g -> summarises (add_to_thread t m) (g ++ [m]).
Proof.
  intros (Hc & Hu & Hf & m0 & Hin & Hd & Hfr & Hs & Hmax). unfold summarises, add_to_thread.
  cbn [ti_message_count ti_unread ti_flagged ti_latest_date ti_latest_from ti_subject].
  rewrite length_app, !existsb_app, Hc, Hu, Hf. cbn [existsb List.length]. rewrite !orb_false_r, Hd.
  split_and!; try done. destruct (str_compare (mi_date m) (mi_date m0)) eqn:E;
    [exists m0|exists m0|exists m]; rewrite ?Hfr, ?Hs; split_and!; try done; try set_solver;
    apply Forall_app; split; try done; try (constructor; [congruence|constructor]).
  - eapply Forall_impl; [exact Hmax|]. intros m' Hm'. eapply str_compare_le_trans; [exact Hm'|].
    rewrite str_compare_antisym, E. done.
  - constructor; [by rewrite str_compare_refl|constructor].
Qed.

Lemma of_thread_snoc key ms m :
  of_thread key (ms ++ [m]) = of_thread key ms ++ (if (message_thread_key m =? key)%N then [m] else []).
Proof. unfold of_thread. rewrite List.filter_app. cbn. by destruct (_ =? _)%N. Qed.

Lemma upsert_keys ts m :
  map ti_key (upsert_thread ts m) =
  if decide (message_thread_key m ∈ map ti_key ts) then map ti_key ts else map ti_key ts ++ [message_thread_key m].
Proof.
  induction ts as [|t ts IH]; cbn [upsert_thread map]; [by rewrite decide_False by set_solver|].
  destruct (N.eqb_spec (ti_key t) (message_thread_key m)) as [E|E].
  - rewrite decide_True by (rewrite <- E; set_solver). done.
  - cbn [map]. rewrite IH. destruct (decide (message_thread_key m ∈ map ti_key ts)) as [H|H].
    + rewrite decide_True by set_solver. done.
    + rewrite decide_False by set_solver. done.
Qed.

Lemma upsert_elem ts m t' :
  NoDup (map ti_key ts) -> t' ∈ upsert_thread ts m ->
  (t' ∈ ts /\ ti_key t' <> message_thread_key m) \/
  (exists t, t ∈ ts /\ ti_key t = message_thread_key m /\ t' = add_to_thread t m) \/
  (message_thread_key m ∉ map ti_key ts /\ t' = new_thread m).
Proof.
  induction ts as [|t ts IH]; cbn [upsert_thread map]; intros Hnd Hin.
  - right; right. set_solver.
  - apply NoDup_cons in Hnd as [Hni Hnd]. destruct (N.eqb_spec (ti_key t) (message_thread_key m)) as [E|E].
    + apply list_elem_of_In in Hin as [<-|Hin]; [right; left; exists t; set_solver|]. left. apply list_elem_of_In in Hin.
      split; [set_solver|]. intros Hk. apply Hni. rewrite E, <- Hk. by apply list_elem_of_fmap_2.
    + apply list_elem_of_In in Hin as [<-|Hin]; [left; set_solver|]. apply list_elem_of_In in Hin.
      destruct (IH Hnd Hin) as [[? ?]|[(t0 & ? & ? & ?)|[? ?]]]; [left; set_solver|right; left; exists t0; set_solver|].
      right; right. set_solver.
Qed.

Lemma of_thread_absent key ms : Forall (fun m => message_thread_key m <> key) ms -> of_thread key ms = [].
Proof.
  unfold of_thread. induction 1 as [|m ms Hm _ IH]; [done|]. cbn. by rewrite (proj2 (N.eqb_neq _ _) Hm).
Qed.

Lemma upsert_groups ts ms m : groups ts ms -> groups (upsert_thread ts m) (ms ++ [m]).
Proof.
  intros (Hnd & Hs & Hk). rewrite Forall_forall in Hs. split_and!.
  - rewrite upsert_keys. destruct (decide _) as [|Hni]; [done|]. apply NoDup_app. split_and!; [done| |by apply NoDup_singleton].
    intros x Hx Hx'. set_solver.
  - apply Forall_forall. intros t' Hin. rewrite of_thread_snoc.
    destruct (upsert_elem _ _ _ Hnd Hin) as [[Ht Hne]|[(t & Ht & He & ->)|[Hni ->]]].
    + rewrite (proj2 (N.eqb_neq _ _)) by congruence. rewrite app_nil_r. auto.
    + cbn [ti_key add_to_thread]. rewrite (proj2 (N.eqb_eq _ _)) by congruence. by apply add_to_thread_summarises, Hs.
    + cbn [ti_key new_thread]. rewrite N.eqb_refl, of_thread_absent; [apply new_thread_summarises|].
      eapply Forall_impl; [exact Hk|]. intros m' Hm' E. apply Hni. by rewrite <- E.
  - rewrite upsert_keys. apply Forall_app. split.
    + eapply Forall_impl; [exact Hk|]. intros m' Hm'. destruct (decide _); set_solver.
    + constructor; [|constructor]. destruct (decide _); set_solver.
Qed.

Lemma fold_groups ms : groups (foldl upsert_thread [] ms) ms.
Proof.
  induction ms as [|m ms IH] using rev_ind; [by repeat constructor|]. rewrite foldl_snoc. by apply upsert_groups.
Qed.

Lemma groups_perm ts ts' ms : ts' ≡ₚ ts -> groups ts ms -> groups ts' ms.
Proof.
  intros Hp (Hnd & Hs & Hk). split_and!.
  - by rewrite (Permutation_map ti_key Hp).
  - by rewrite Hp.
  - eapply Forall_impl; [exact Hk|]. cbn. intros m Hm. by rewrite (Permutation_map ti_key Hp).
Qed.

Lemma build_threads_groups ms : groups (build_threads ms) ms.
Proof. eapply groups_perm; [apply sort_by_perm|]. apply fold_groups. Qed.

Lemma rebuild_threads_threads key s : s_threads (rebuild_threads key s) = build_threads (s_folder_messages s).
Proof. unfold rebuild_threads. by destruct (_ ≫= _). Qed.

(** The conversation list shows the folder truthfully: one row per thread of
    its messages and no other, the rows newest first, each with the number of
    its messages, the sender, subject and date of its latest message, unread
    and flagged exactly when one of them is; and the messages listed for the
    selected row are exactly those of its thread, oldest first. *)
Theorem conversations_show_the_folder s :
  let ms := s_folder_messages s in
  let ts := s_threads (rebuild_threads (selected_thread_key s) s) in
  NoDup (map ti_key ts) /\ Sorted (not_after thread_cmp) ts /\
  (forall k, k ∈ map ti_key ts <-> exists m, m ∈ ms /\ message_thread_key m = k) /\
  Forall (fun t => summarises t (of_thread (ti_key t) ms)) ts /\
  match selected_thread_key s with
  | Some key => visible_messages s ≡ₚ of_thread key ms /\ Sorted (not_after oldest_cmp) (visible_messages s)
  | None => visible_messages s = []
  end.
Proof.
  cbv zeta. rewrite rebuild_threads_threads. destruct (build_threads_groups (s_folder_messages s)) as (Hnd & Hs & Hk).
  rewrite Forall_forall in Hk. split_and!; try done.
  - apply sort_by_sorted, thread_cmp_antisym.
  - intros k. split; [|intros (m & Hm & <-); by apply Hk]. intros (t & -> & Ht)%list_elem_of_fmap.
    rewrite Forall_forall in Hs. destruct (Hs t Ht) as (_ & _ & _ & m & Hm & _). unfold of_thread in Hm.
    apply list_elem_of_In, List.filter_In in Hm as [Hm He]. exists m. split; [by apply list_elem_of_In|]. by apply N.eqb_eq.
  - unfold visible_messages. destruct (selected_thread_key s) as [key|]; [|done]. split.
    + apply sort_by_perm.
    + apply sort_by_sorted, oldest_cmp_antisym.
Qed.

(** ** The text of the detail pane *)

Definition one_line (s : str) : Prop := Forall (fun c => c <> LF) s.

Lemma lines_of_one s : one_line s -> lines_of s = [s].
Proof.
  intros H. unfold lines_of, split_char. induction H as [|c s Hc _ IH]; [done|]. cbn [split_by].
  rewrite (proj2 (N.eqb_neq LF c)) by congruence. by rewrite IH.
Qed.

Lemma lines_of_app a b : lines_of (a ++ LF :: b) = lines_of a ++ lines_of b.
Proof.
  unfold lines_of, split_char. induction a as [|c a IH]; [done|]. cbn [app split_by].
  destruct (LF =? c)%N; [by rewrite IH|]. rewrite IH.
  destruct (lines_of_cons a) as (w & ws & Hw). unfold lines_of, split_char in Hw. by rewrite Hw.
Qed.

Lemma lines_of_joined es : es <> [] -> lines_of (join [LF] es) = concat (map lines_of es).
Proof.
  induction es as [|e [|f es] IH]; intros Hne; [done|cbn; by rewrite app_nil_r|].
  rewrite join_cons, lines_of_app, IH by done. done.
Qed.

Lemma filter_In_word w s : w ∈ split_whitespace s -> one_line w.
Proof.
  unfold split_whitespace. intros [Hw _]%list_elem_of_In%List.filter_In. revert w Hw.
  induction s as [|c s IH]; intros w Hw; cbn [split_by] in Hw; [destruct Hw as [<-|[]]; constructor|].
  destruct (is_whitespace c) eqn:E; [destruct Hw as [<-|Hw]; [constructor|auto]|].
  assert (Hc : c <> LF) by (intros ->; done).
  destruct (split_by is_whitespace s) as [|v vs]; cbn in Hw.
  - destruct Hw as [<-|[]]. by repeat constructor.
  - destruct Hw as [<-|Hw]; [constructor; [done|apply IH; by left]|apply IH; by right].
Qed.

Lemma one_line_label s n : one_line (first_chars_one_line s n).
Proof.
  unfold first_chars_one_line. apply Forall_take.
  assert (H : Forall one_line (split_whitespace s)) by (apply Forall_forall; intros w; apply filter_In_word).
  induction H as [|w [|v ws] Hw Hws IH]; [constructor|done|].
  change (join (lit " ") (w :: v :: ws)) with (w ++ 32%N :: join (lit " ") (v :: ws)).
  apply Forall_app. split; [done|]. by constructor.
Qed.

Definition plain_header (m : MessageItem) : Prop := one_line (mi_from m) /\ one_line (mi_date m).

Lemma headers_one_line m focused :
  plain_header m -> one_line (expanded_message_header m focused) /\ one_line (collapsed_message_header m focused).
Proof.
  intros [Hf Hd]. pose proof (one_line_label (mi_snippet m) 72) as Hs.
  unfold expanded_message_header, collapsed_message_header, focus_prefix, MIDDLE_DOT, one_line in *.
  split; repeat (apply Forall_app; split); try done; try (destruct focused; by repeat constructor);
    try (by repeat constructor).
  destruct (is_empty _); [constructor|]. apply Forall_app. split; [by repeat constructor|done].
Qed.

Definition header_of (s : AppState) (focused : bool) (m : MessageItem) : str :=
  if is_conversation_message_expanded (mi_id m) s then expanded_message_header m focused
  else collapsed_message_header m focused.

(** The lines of an entry: its header, then its body when it is expanded. *)
Lemma stack_entry_lines s fid m :
  plain_header m ->
  exists body, lines_of (stack_entry s fid m) = header_of s (bool_decide (fid = Some (mi_id m))) m :: body /\
    List.length body = if is_conversation_message_expanded (mi_id m) s
                       then stack_message_body_line_count (detail_for s m) m else 0.
Proof.
  intros Hm. unfold stack_entry, header_of. set (f := bool_decide _).
  destruct (headers_one_line m f Hm) as [He Hc]. destruct (is_conversation_message_expanded (mi_id m) s).
  - exists (lines_of (stack_text (detail_for s m) m)). rewrite lines_of_app, (lines_of_one _ He).
    unfold stack_message_body_line_count. by rewrite line_count_lines.
  - exists []. by rewrite (lines_of_one _ Hc).
Qed.

(** The counted line is where the focused entry starts. *)
Lemma header_line_lookup s id m0 ms line :
  Forall plain_header ms -> List.find (fun m => (mi_id m =? id)%N) ms = Some m0 ->
  exists k, header_line s id ms line = line + k /\
    concat (map lines_of (map (stack_entry s (Some id)) ms)) !! k = Some (header_of s true m0).
Proof.
  intros Hms. revert line. induction Hms as [|m ms Hm Hms IH]; intros line Hf; [done|]. cbn [List.find] in Hf.
  destruct (stack_entry_lines s (Some id) m Hm) as (body & Hl & Hn).
  cbn [header_line map concat]. rewrite Hl. destruct (N.eqb_spec (mi_id m) id) as [E|E].
  - injection Hf as <-. exists 0. rewrite Nat.add_0_r. split; [done|].
    rewrite bool_decide_eq_true_2 by congruence. done.
  - set (line' := if is_conversation_message_expanded _ _ then _ else _).
    destruct (IH line' Hf) as (k & Hk & Hlook). exists (1 + List.length body + k). split.
    + rewrite Hk. unfold line'. rewrite Hn. destruct (is_conversation_message_expanded (mi_id m) s); lia.
    + rewrite lookup_app_r by (cbn [List.length]; lia). cbn [List.length].
      by replace (1 + List.length body + k - S (List.length body)) with k by lia.
Qed.

Lemma header_line_ext s s' id ms line :
  s_messages s' = s_messages s -> s_conversation_detail s' = s_conversation_detail s -> s_detail s' = s_detail s ->
  header_line s' id ms line = header_line s id ms line.
Proof.
  intros H1 H2 H3. revert line. induction ms as [|m ms IH]; intros line; [done|]. cbn [header_line].
  unfold is_conversation_message_expanded, detail_for. rewrite H1, H2, H3. destruct (_ =? _)%N; [done|]. by rewrite IH.
Qed.

(** The detail pane follows the focused message: in a conversation of several
    messages, after the text is rebuilt the cursor stands at the beginning of
    the line with the header of the focused message, marked as focused. *)
Theorem detail_cursor_on_focused_header s id m :
  2 <= List.length (s_messages s) -> Forall plain_header (s_messages s) ->
  focused_conversation_message_id s = Some id ->
  List.find (fun m => (mi_id m =? id)%N) (s_messages s) = Some m ->
  let s' := show_stack s in
  detail_cursor_line_column s' = (focused_message_header_line s, 0) /\
  detail_line_text (focused_message_header_line s) s' = Some (header_of s true m).
Proof.
  intros Hlen Hplain Hfoc Hfind s'.
  assert (Htext : exists text, conversation_detail_text s = Some text /\
                               lines_of text = concat (map lines_of (map (stack_entry s (Some id)) (s_messages s)))).
  { unfold conversation_detail_text. rewrite Hfoc.
    destruct (s_messages s) as [|m1 [|m2 r]] eqn:Hm; [cbn in Hlen; lia..|].
    eexists. split; [reflexivity|]. by rewrite lines_of_joined. }
  destruct Htext as (text & Htext & Hlines).
  destruct (header_line_lookup s id m (s_messages s) 0 Hplain Hfind) as (k & Hk & Hlook).
  assert (Hh : focused_message_header_line s = k).
  { unfold focused_message_header_line. rewrite Hfoc. destruct (Nat.leb_spec (List.length (s_messages s)) 1); [lia|done]. }
  rewrite <- Hlines in Hlook.
  assert (Hcache : s_detail_text_cache s' = Some (text_line_cache text)).
  { change (s_detail_text_cache s') with (text_line_cache <$> conversation_detail_text s). by rewrite Htext. }
  assert (Hcur : s_detail_cursor s' = line_start (from_text text) k).
  { unfold s', show_stack, place_detail_cursor_at_focused_message. set (s1 := reset_detail_navigation_state _).
    assert (Hh1 : focused_message_header_line s1 = k).
    { rewrite <- Hh. unfold focused_message_header_line.
      change (focused_conversation_message_id s1) with (focused_conversation_message_id s).
      change (s_messages s1) with (s_messages s). destruct (focused_conversation_message_id s); [|done].
      destruct (_ <=? 1); [done|]. by apply header_line_ext. }
    cbv zeta. rewrite Hh1. change (detail_line_start k s1 = line_start (from_text text) k).
    unfold detail_line_start, detail_cache.
    change (s_detail_text_cache s1) with (text_line_cache <$> conversation_detail_text s). by rewrite Htext. }
  rewrite Hh. split.
  - unfold detail_cursor_line_column. rewrite Hcache, Hcur. cbn [tlc_lines text_line_cache].
    rewrite <- (Nat.add_0_r (line_start _ _)). apply (position_cursor _ _ _ _ Hlook). lia.
  - unfold detail_line_text. rewrite Hcache. cbn. by rewrite line_text_lookup.
Qed.

Definition message_from (id : Id) (from : str) : MessageItem :=
  mkMessageItem id (Some 5%N) (lit "hi") from (lit "2024-01-01 10:00") (lit "text") [].
Definition two_messages : AppState :=
  default_app <| s_messages := [message_from 1%N (lit "ana"); message_from 2%N (lit "bo")] |>
              <| s_selected_message := 1 |>.

Lemma detail_cursor_on_focused_header_witness :
  detail_cursor_line_column (show_stack two_messages) = (1, 0) /\
  detail_line_text 1 (show_stack two_messages) =
    Some ([9654%N; 32%N] ++ lit "[+] bo" ++ [32%N; 183%N; 32%N] ++ lit "2024-01-01 10:00" ++ [32%N; 183%N; 32%N] ++ lit "text").
Proof.
  assert (Hh : focused_message_header_line two_messages = 1) by (vm_compute; reflexivity).
  pose proof (detail_cursor_on_focused_header two_messages 2%N (message_from 2%N (lit "bo"))) as H.
  rewrite Hh in H. apply H; [cbn; lia| |vm_compute; reflexivity..].
  repeat constructor; discriminate.
Defined.
