(* ===== verification/TuiInvariant.v ===== *)
(** * What holds of the terminal interface in every state it reaches

    Every operation of [AppState] is a step; the invariant says that selections
    point at rows, the focus is on a pane that is shown, the conversation list
    is the grouping of the folder, queues and caches are bounded, and at most
    one deletion awaits confirmation.  The operations are first brought to a
    form that shows which fields they set. *)

From Stdlib Require Import Sorting.Sorted.
From stdpp Require Import gmap.
From S2P Require Import Prelude RustStr Json MailParser DbCore McpTools McpModels Config TuiText TuiComposer TuiEditing TuiItems TuiApprovals TuiApp TuiConversations.
#[local] Open Scope nat_scope.
#[local] Open Scope bool_scope.

(** ** The invariant *)

Definition cache_ok (c : FolderMessageCache) : Prop :=
  fc_capacity c = FOLDER_CACHE_CAPACITY /\ List.length (fc_entries c) <= FOLDER_CACHE_CAPACITY /\
  NoDup (map (fun e => (ce_account_id e, ce_folder_id e)) (fc_entries c)).

Definition approvals_ok (a : ApprovalsState) : Prop :=
  in_range (as_selected a) (List.length (as_items a)) /\ Sorted (not_after approval_cmp) (as_items a).

(** All but the focus. *)
Record body_ok (s : AppState) : Prop := {
  ui_threads : s_threads s = build_threads (s_folder_messages s);
  ui_account : in_range (s_selected_account s) (List.length (s_accounts s));
  ui_folder : in_range (s_selected_folder s) (List.length (s_folders s));
  ui_thread : in_range (s_selected_thread s) (List.length (s_threads s));
  ui_message : s_messages s = [] \/ s_selected_message s < List.length (s_messages s);
  ui_draft : in_range (s_selected_draft s) (List.length (s_drafts s));
  ui_attachment : in_range (s_selected_attachment s) (List.length (s_attachments s));
  ui_search : forall st, s_search s = Some st -> in_range (se_selected st) (List.length (se_hits st));
  ui_approvals : approvals_ok (s_approvals s);
  ui_toasts : List.length (s_toasts s) <= MAX_TOASTS;
  ui_cache : cache_ok (s_folder_cache s);
  ui_deletes : s_pending_delete_message s = None \/ s_pending_delete_draft s = None;
  ui_preview : s_preview_focused s = true -> s_attachment_preview s <> None;
  ui_previewed : s_attachment_preview s <> None -> s_attachments s <> [];
  ui_command : (N.of_nat (List.length (s_command_input s)) <= MAX_COMMAND_CHARS)%N;
  ui_query : (N.of_nat (List.length (s_search_input s)) <= MAX_SEARCH_CHARS)%N;
  ui_composer : forall c, s_composer s = Some c -> composer_ok c;
}.
Definition ui_ok (s : AppState) : Prop := body_ok s /\ pane_visible s (s_active s) = true.

(** ** Forms *)

Lemma set_same_active s : s <| s_active := s_active s |> = s.
Proof. by destruct s. Qed.

(** The pane the focus settles on. *)
Definition settled (s : AppState) (p : ActivePane) : ActivePane :=
  match p with
  | PDetails => if detail_pane_visible s then PDetails else PConversations
  | PAttachments => if attachments_pane_visible s then PAttachments
                    else if detail_pane_visible s then PDetails else PConversations
  | PSearch => if search_pane_visible s then PSearch else PConversations
  | _ => p
  end.

Lemma leave_details_form s p :
  leave_details (s <| s_active := p |>) =
  s <| s_active := match p with PDetails => settled s PDetails | _ => p end |>.
Proof.
  unfold leave_details. change (detail_pane_visible (s <| s_active := p |>)) with (detail_pane_visible s).
  change (s_active (s <| s_active := p |>)) with p. destruct p; try reflexivity. cbn [settled].
  by destruct (detail_pane_visible s).
Qed.
Lemma leave_attachments_form s p :
  leave_attachments (s <| s_active := p |>) =
  s <| s_active := match p with PAttachments => settled s PAttachments | _ => p end |>.
Proof.
  unfold leave_attachments. change (attachments_pane_visible (s <| s_active := p |>)) with (attachments_pane_visible s).
  change (s_active (s <| s_active := p |>)) with p. destruct p; try reflexivity. cbn [settled].
  by destruct (attachments_pane_visible s).
Qed.
Lemma leave_search_form s p :
  leave_search (s <| s_active := p |>) = s <| s_active := match p with PSearch => settled s PSearch | _ => p end |>.
Proof.
  unfold leave_search. change (search_pane_visible (s <| s_active := p |>)) with (search_pane_visible s).
  change (s_active (s <| s_active := p |>)) with p. destruct p; try reflexivity. cbn [settled].
  by destruct (search_pane_visible s).
Qed.

Lemma settled_visible s p : pane_visible s (settled s p) = true.
Proof.
  destruct p; cbn [settled]; try done.
  - destruct (detail_pane_visible s) eqn:V; done.
  - destruct (attachments_pane_visible s) eqn:V; [done|]. destruct (detail_pane_visible s) eqn:W; done.
  - destruct (search_pane_visible s) eqn:V; done.
Qed.

Lemma normalize_settles s : normalize_active_pane s = s <| s_active := settled s (s_active s) |>.
Proof.
  unfold normalize_active_pane. rewrite <- (set_same_active s) at 1.
  rewrite leave_details_form, leave_attachments_form, leave_search_form.
  assert (Hc : forall p q, p = q -> s <| s_active := p |> = s <| s_active := q |>) by (by intros ? ? ->).
  apply Hc. destruct (s_active s); cbn [settled]; try done.
  - by destruct (detail_pane_visible s).
  - destruct (attachments_pane_visible s); [done|]. by destruct (detail_pane_visible s).
Qed.

Lemma normalize_form s :
  exists p, normalize_active_pane s = s <| s_active := p |> /\ pane_visible s p = true.
Proof. exists (settled s (s_active s)). split; [apply normalize_settles|apply settled_visible]. Qed.

Definition without_attachments (s : AppState) : AppState :=
  reset_preview_navigation_state
    (s <| s_attachments := [] |> <| s_attachment_preview := None |> <| s_selected_attachment := 0 |>
       <| s_pending_open_attachment := None |>).
Lemma clear_attachments_form s :
  exists p, clear_attachments s = (without_attachments s) <| s_active := p |> /\
            pane_visible (without_attachments s) p = true.
Proof. apply normalize_form. Qed.

Definition without_detail (s : AppState) : AppState :=
  without_attachments (reset_detail_navigation_state
    (s <| s_detail := None |> <| s_detail_text_cache := None |>
       <| s_conversation_detail := stack_reset (s_messages s) (s_selected_message s) |>)).
Lemma clear_detail_form s :
  exists p, clear_detail_state s = (without_detail s) <| s_active := p |> /\ pane_visible (without_detail s) p = true.
Proof. apply normalize_form. Qed.

Lemma position_lt {A} (f : A -> bool) l i : position f l = Some i -> i < List.length l.
Proof.
  revert i. induction l as [|x l IH]; intros i; cbn; [done|]. destruct (f x); [intros [= <-]; lia|].
  destruct (position f l) as [j|]; intros [= <-]. specialize (IH j eq_refl). lia.
Qed.

Lemma rebuild_threads_form key s :
  exists i, rebuild_threads key s = s <| s_threads := build_threads (s_folder_messages s) |> <| s_selected_thread := i |> /\
            in_range i (List.length (build_threads (s_folder_messages s))).
Proof.
  unfold rebuild_threads. cbv zeta. destruct (key ≫= _) as [i|] eqn:E; eexists; (split; [reflexivity|]).
  - destruct key as [k|]; [|done]. apply position_lt in E. by left.
  - apply clamp_in_range.
Qed.

Lemma refresh_form s :
  exists i, refresh_visible_messages s = s <| s_messages := visible_messages s |> <| s_selected_message := i |> /\
            (visible_messages s = [] \/ i < List.length (visible_messages s)).
Proof.
  unfold refresh_visible_messages. cbv zeta. change (s_messages (s <| s_messages := visible_messages s |>)) with (visible_messages s).
  destruct (bool_decide (visible_messages s = [])) eqn:E; brefl; [eexists; split; [reflexivity|by left]|].
  destruct (_ ≫= _) as [i|] eqn:P; eexists; (split; [reflexivity|right]).
  - destruct (selected_message_id s) as [id|]; [|done]. by apply position_lt in P.
  - destruct (visible_messages s); [done|]. cbn. lia.
Qed.

(** ** The folder cache *)

Lemma remove_nth_sub {A} i (l : list A) : sublist (remove_nth i l) l.
Proof.
  unfold remove_nth. rewrite <- (take_drop i l) at 3. apply sublist_app; [done|].
  rewrite <- Nat.add_1_r, <- drop_drop. apply sublist_drop.
Qed.

Lemma map_sublist {A B} (f : A -> B) l k : sublist l k -> sublist (map f l) (map f k).
Proof. induction 1; cbn; by constructor. Qed.

Lemma cache_sub_ok entries c : cache_ok c -> sublist entries (fc_entries c) -> cache_ok (with_entries entries c).
Proof.
  intros (Hc & Hl & Hn) Hs. split_and!; [done| |].
  - etrans; [by apply sublist_length|done].
  - eapply sublist_NoDup; [exact Hn|]. by apply map_sublist.
Qed.

Lemma position_none {A} (f : A -> bool) l : position f l = None -> Forall (fun x => f x = false) l.
Proof.
  induction l as [|x l IH]; cbn; intros H; [constructor|]. destruct (f x) eqn:E; [done|].
  constructor; [done|]. apply IH. by destruct (position f l).
Qed.
Lemma position_some {A} (f : A -> bool) l i :
  position f l = Some i -> exists x, l !! i = Some x /\ f x = true /\ Forall (fun y => f y = false) (take i l).
Proof.
  revert i. induction l as [|x l IH]; cbn; intros i H; [done|]. destruct (f x) eqn:E.
  - injection H as <-. by exists x.
  - destruct (position f l) as [j|] eqn:Hp; [|done]. injection H as <-. destruct (IH j eq_refl) as (y & Hy & Hf & Ht).
    exists y. split_and!; [done|done|]. cbn. by constructor.
Qed.

(** With distinct keys, removing an entry leaves none of its key. *)
Lemma removed_absent account folder c i :
  cache_ok c -> entry_index account folder c = Some i ->
  Forall (fun e => entry_for account folder e = false) (remove_nth i (fc_entries c)).
Proof.
  intros (_ & _ & Hn) Hi. destruct (position_some _ _ _ Hi) as (x & Hx & Hf & Ht). unfold remove_nth.
  apply Forall_app. split; [done|]. rewrite <- (take_drop_middle _ _ _ Hx), map_app in Hn. cbn in Hn.
  apply NoDup_app in Hn as (_ & _ & Hn). apply NoDup_cons in Hn as [Hn _].
  apply Forall_forall. intros e He. destruct (entry_for account folder e) eqn:Ee; [|done]. exfalso.
  unfold entry_for in *. brefl. apply Hn. apply list_elem_of_fmap. exists e. split; [|done]. congruence.
Qed.

Lemma push_entry_ok entries account folder snapshot now c :
  cache_ok c -> sublist entries (fc_entries c) -> List.length entries < FOLDER_CACHE_CAPACITY ->
  Forall (fun e => entry_for account folder e = false) entries ->
  cache_ok (with_entries (entries ++ [mkCacheEntry account folder snapshot now]) c).
Proof.
  intros Hok Hs Hl Hf. destruct (cache_sub_ok entries c Hok Hs) as (Hc & _ & Hn). split_and!; [done| |].
  - cbn. rewrite length_app. cbn. lia.
  - cbn [fc_entries with_entries] in *. rewrite map_app. cbn. apply NoDup_app. split_and!; [done| |apply NoDup_singleton].
    intros k (e & -> & He)%list_elem_of_fmap Hk. apply list_elem_of_singleton in Hk.
    rewrite Forall_forall in Hf. specialize (Hf e He). unfold entry_for in Hf. injection Hk as Ha Hb.
    by rewrite Ha, Hb, !N.eqb_refl in Hf.
Qed.

Lemma cache_store_ok account folder snapshot now c : cache_ok c -> cache_ok (cache_store account folder snapshot now c).
Proof.
  intros Hok. unfold cache_store. cbv zeta.
  set (c1 := match entry_index account folder c with Some _ => _ | None => c end).
  assert (H1 : cache_ok c1 /\ Forall (fun e => entry_for account folder e = false) (fc_entries c1)).
  { unfold c1. destruct (entry_index account folder c) as [i|] eqn:Hi.
    - split; [apply cache_sub_ok; [done|apply remove_nth_sub]|by apply removed_absent].
    - split; [done|]. by apply position_none. }
  destruct H1 as [H1 Hf]. pose proof H1 as (Hcap & Hlen & _). rewrite Hcap. cbn [Nat.eqb FOLDER_CACHE_CAPACITY].
  apply push_entry_ok; [done| | |].
  - unfold pop_to_capacity. apply sublist_drop.
  - unfold pop_to_capacity. rewrite length_drop. unfold FOLDER_CACHE_CAPACITY. lia.
  - unfold pop_to_capacity. by apply Forall_drop.
Qed.

Lemma cache_lookup_ok account folder now c : cache_ok c -> cache_ok (cache_lookup account folder now c).2.
Proof.
  intros Hok. unfold cache_lookup. destruct (entry_index account folder c) as [i|] eqn:Hi; [|done].
  destruct (fc_entries c !! i) as [e|] eqn:He; [|done]. cbv zeta. pose proof (remove_nth_sub i (fc_entries c)) as Hs.
  destruct (_ <? _)%Z; cbn [snd]; [by apply cache_sub_ok|].
  destruct (position_some _ _ _ Hi) as (x & Hx & Hf & _). rewrite He in Hx. injection Hx as <-.
  unfold entry_for in Hf. brefl. destruct e as [a f snap t]. cbn in *. subst a f.
  apply (push_entry_ok _ account folder snap t c Hok Hs); [|by apply removed_absent].
  unfold remove_nth. rewrite length_app, length_take, length_drop. apply lookup_lt_Some in He.
  destruct Hok as (_ & Hl & _). lia.
Qed.

Lemma store_form account folder now s :
  exists c, store_selected_folder_cache account folder now s = s <| s_folder_cache := c |> /\
            (cache_ok (s_folder_cache s) -> cache_ok c).
Proof.
  assert (Hsame : exists c, s = s <| s_folder_cache := c |> /\ (cache_ok (s_folder_cache s) -> cache_ok c))
    by (exists (s_folder_cache s); split; [by destruct s|done]).
  unfold store_selected_folder_cache, folder_cache_store. destruct account, folder; try exact Hsame.
  destruct (approvals_folder_selected s); [exact Hsame|]. eexists. split; [reflexivity|]. apply cache_store_ok.
Qed.

(** ** Toasts *)

Lemma refresh_first_length f e l l' : refresh_first f e l = Some l' -> List.length l' = List.length l.
Proof.
  revert l'. induction l as [|t l IH]; intros l'; cbn; [done|]. destruct (f t); [by intros [= <-]|].
  destruct (refresh_first f e l) as [r|]; intros [= <-]. cbn. by rewrite IH.
Qed.

Lemma push_toast_form kind text now s :
  exists l n, (push_toast kind text now s).2 = s <| s_next_toast_id := n |> <| s_toasts := l |> /\
              (List.length (s_toasts s) <= MAX_TOASTS -> List.length l <= MAX_TOASTS).
Proof.
  unfold push_toast. eexists _, _. split; [reflexivity|]. intros H. rewrite length_app. cbn [List.length].
  destruct (Nat.leb_spec MAX_TOASTS (List.length (s_toasts s))); [|lia].
  unfold MAX_TOASTS in *. destruct (s_toasts s); cbn [List.length tail] in *; lia.
Qed.

Lemma toast_once_form kind text now window s :
  exists l n, toast_once kind text now window s = s <| s_next_toast_id := n |> <| s_toasts := l |> /\
              (List.length (s_toasts s) <= MAX_TOASTS -> List.length l <= MAX_TOASTS).
Proof.
  unfold toast_once, coalesce_toast. destruct (refresh_first _ _ _) as [l|] eqn:E; cbn [fst snd].
  - exists (rev l), (s_next_toast_id s). split; [by destruct s|]. rewrite length_rev.
    apply refresh_first_length in E. rewrite length_rev in E. by rewrite E.
  - apply push_toast_form.
Qed.

(** ** Keeping the invariant *)

Lemma pane_frame s s' p :
  s_folders s' = s_folders s -> s_selected_folder s' = s_selected_folder s -> s_detail s' = s_detail s ->
  s_attachments s' = s_attachments s -> s_search s' = s_search s -> pane_visible s' p = pane_visible s p.
Proof.
  intros H1 H2 H3 H4 H5. unfold pane_visible, detail_pane_visible, attachments_pane_visible, search_pane_visible,
    approvals_folder_selected, selected_folder. by rewrite H1, H2, H3, H4, H5.
Qed.
Lemma pane_carry s s' p :
  pane_visible s p = true -> s_folders s' = s_folders s -> s_selected_folder s' = s_selected_folder s ->
  s_detail s' = s_detail s -> s_attachments s' = s_attachments s -> s_search s' = s_search s ->
  pane_visible s' p = true.
Proof. intros Hp H1 H2 H3 H4 H5. by rewrite (pane_frame s). Qed.

(** With only the approvals folder left and nothing shown, the detail pane is
    there whichever folder was selected before. *)
Lemma virtual_pane s s' p :
  s_folders s' = virtual_folders -> s_selected_folder s' = 0 -> s_attachments s = [] ->
  s_search s' = s_search s -> pane_visible s p = true -> pane_visible s' p = true.
Proof.
  intros Hf Hs Ha Hq Hp. destruct p; try done; cbn in *.
  - unfold detail_pane_visible, approvals_folder_selected, selected_folder. by rewrite Hf, Hs.
  - unfold attachments_pane_visible in Hp. rewrite Ha in Hp. cbn in Hp. by rewrite andb_false_r in Hp.
  - unfold search_pane_visible in *. by rewrite Hq.
Qed.

Lemma default_ok : ui_ok default_app.
Proof.
  split; [|done]. split; try apply in_range_0; try done; cbn; try lia.
  - by left.
  - split; [apply in_range_0|constructor].
  - split_and!; cbn; [done|lia|constructor].
  - by left.
Qed.

#[local] Opaque build_threads pane_visible cache_ok approvals_ok in_range.

(** Split the invariant of an updated state, closing the parts it shares with
    the state of which [H] is the invariant. *)
Ltac body_frame H :=
  split;
  [ try exact (ui_threads _ H) | try exact (ui_account _ H) | try exact (ui_folder _ H) | try exact (ui_thread _ H)
  | try exact (ui_message _ H) | try exact (ui_draft _ H) | try exact (ui_attachment _ H) | try exact (ui_search _ H)
  | try exact (ui_approvals _ H) | try exact (ui_toasts _ H) | try exact (ui_cache _ H)
  | try exact (ui_deletes _ H) | try exact (ui_preview _ H) | try exact (ui_previewed _ H) | try exact (ui_command _ H) | try exact (ui_query _ H)
  | try exact (ui_composer _ H) ].

Lemma focus_body s p : body_ok s -> body_ok (s <| s_active := p |>).
Proof. intros H. body_frame H. Qed.

Lemma focus_ok s p : body_ok s -> pane_visible s p = true -> ui_ok (s <| s_active := p |>).
Proof. intros H Hp. split; [by apply focus_body|]. by rewrite (pane_frame s). Qed.

Lemma normalize_pane_ok s : body_ok s -> ui_ok (normalize_active_pane s).
Proof. intros H. destruct (normalize_form s) as (p & -> & Hp). by apply focus_ok. Qed.
Lemma normalize_body s : body_ok s -> body_ok (normalize_active_pane s).
Proof. intros H. by apply normalize_pane_ok. Qed.

Lemma without_attachments_body s : body_ok s -> body_ok (without_attachments s).
Proof. intros H. body_frame H; [apply in_range_0|done|done]. Qed.
Lemma clear_attachments_ok s : body_ok s -> ui_ok (clear_attachments s).
Proof. intros H. by apply normalize_pane_ok, without_attachments_body. Qed.

Lemma without_detail_body s : body_ok s -> body_ok (without_detail s).
Proof. intros H. unfold without_detail. apply without_attachments_body. body_frame H. Qed.
Lemma clear_detail_ok s : body_ok s -> ui_ok (clear_detail_state s).
Proof. intros H. destruct (clear_detail_form s) as (p & -> & Hp). apply focus_ok; [by apply without_detail_body|done]. Qed.

Ltac ui_frame H := split; [ body_frame (proj1 H) | try exact (pane_carry _ _ _ (proj2 H) eq_refl eq_refl eq_refl eq_refl eq_refl) ].

(** ** Emptying a view *)

Lemma clear_messages_form s :
  exists p, clear_messages s =
    (without_detail (clear_drafts (s <| s_folder_messages := [] |> <| s_threads := [] |> <| s_messages := [] |>)))
      <| s_active := p |> /\
    pane_visible (without_detail (clear_drafts (s <| s_folder_messages := [] |> <| s_threads := [] |> <| s_messages := [] |>)))
      p = true.
Proof. apply clear_detail_form. Qed.

Lemma emptied_pane t p :
  pane_visible t p = true ->
  let t' := t <| s_active := p |> <| s_selected_thread := 0 |> <| s_selected_message := 0 |> in
  pane_visible t' (s_active t') = true.
Proof. intros Hp. by apply (pane_carry _ _ _ Hp). Qed.

Lemma clear_folder_view_ok s : body_ok s -> ui_ok (clear_folder_view s).
Proof.
  intros H. unfold clear_folder_view. destruct (clear_messages_form s) as (p & -> & Hp).
  split; [body_frame H; first [apply in_range_0 | by left | done]|].
  exact (emptied_pane _ _ Hp).
Qed.

Lemma virtual_emptied_pane t p :
  s_folders t = virtual_folders -> s_attachments t = [] -> pane_visible t p = true ->
  let t' := t <| s_active := p |> <| s_selected_folder := 0 |> <| s_selected_thread := 0 |> <| s_selected_message := 0 |> in
  pane_visible t' (s_active t') = true.
Proof. intros Hf Ha Hp. by apply (virtual_pane t). Qed.

Lemma clear_account_view_ok s : body_ok s -> ui_ok (clear_account_view s).
Proof.
  intros H. unfold clear_account_view.
  destruct (clear_messages_form (s <| s_folders := virtual_folders |>)) as (p & -> & Hp).
  split; [body_frame H; first [apply in_range_0 | by left | done]|].
  refine (virtual_emptied_pane _ _ _ _ Hp); reflexivity.
Qed.

Lemma search_none_body s : body_ok s -> body_ok (s <| s_search := None |>).
Proof. intros H. body_frame H. done. Qed.

(** ** Conversations and lists *)

Lemma rebuild_body key ms s : body_ok s -> body_ok (rebuild_threads key (s <| s_folder_messages := ms |>)).
Proof.
  intros H. destruct (rebuild_threads_form key (s <| s_folder_messages := ms |>)) as (i & -> & Hi).
  body_frame H; [reflexivity|exact Hi].
Qed.
Lemma refresh_body s : body_ok s -> body_ok (refresh_visible_messages s).
Proof. intros H. destruct (refresh_form s) as (i & -> & Hi). body_frame H. exact Hi. Qed.
Lemma store_body account folder now s : body_ok s -> body_ok (store_selected_folder_cache account folder now s).
Proof. intros H. destruct (store_form account folder now s) as (c & -> & Hc). body_frame H. exact (Hc (ui_cache s H)). Qed.
Lemma store_ok account folder now s : ui_ok s -> ui_ok (store_selected_folder_cache account folder now s).
Proof.
  intros H. destruct (store_form account folder now s) as (c & -> & Hc). ui_frame H. exact (Hc (ui_cache s (proj1 H))).
Qed.

(** Selecting a message that is listed. *)
Lemma select_message_body i s : in_range i (List.length (s_messages s)) -> body_ok s -> body_ok (s <| s_selected_message := i |>).
Proof.
  intros Hi H. body_frame H. change (s_messages s = [] \/ i < List.length (s_messages s)).
  destruct Hi as [?|[_ Hl]]; [by right|]. left. by apply length_zero_iff_nil.
Qed.
Lemma select_thread_body i s : in_range i (List.length (s_threads s)) -> body_ok s -> body_ok (s <| s_selected_thread := i |>).
Proof. intros Hi H. body_frame H. exact Hi. Qed.

Lemma accounts_ok accounts s : ui_ok s -> ui_ok (apply_accounts accounts s).
Proof.
  intros [H _]. unfold apply_accounts. cbv zeta. apply normalize_pane_ok, search_none_body, clear_account_view_ok.
  body_frame H; [apply clamp_in_range|]. apply cache_sub_ok; [exact (ui_cache s H)|apply filter_sublist].
Qed.

Lemma unwrap_position_in_range {A} (f : A -> bool) l : in_range (unwrap_or 0 (position f l)) (List.length l).
Proof. destruct (position f l) as [i|] eqn:E; cbn; [left; by apply (position_lt f)|apply in_range_0]. Qed.

Lemma folders_ok folders s : ui_ok s -> ui_ok (apply_folders folders s).
Proof.
  intros [H _]. unfold apply_folders. cbv zeta. apply normalize_pane_ok, clear_folder_view_ok.
  body_frame H.
  destruct (_ && _); [apply unwrap_position_in_range|]. destruct (negb _); [apply unwrap_position_in_range|apply clamp_in_range].
Qed.

Lemma messages_ok messages s : ui_ok s -> ui_ok (apply_messages messages s).
Proof.
  intros [H _]. apply clear_detail_ok. body_frame H. pose proof (clamp_in_range (s_selected_message s) (List.length messages)) as Hc.
  destruct Hc as [?|[_ Hl]]; [by right|]. left. by apply length_zero_iff_nil.
Qed.

Lemma folder_messages_ok messages now s : ui_ok s -> ui_ok (apply_folder_messages messages now s).
Proof.
  intros [H _]. unfold apply_folder_messages. cbv zeta.
  apply store_ok, clear_detail_ok, normalize_body, refresh_body, rebuild_body, H.
Qed.

Lemma drafts_ok drafts s : ui_ok s -> ui_ok (apply_drafts drafts s).
Proof. intros H. ui_frame H. apply clamp_in_range. Qed.
Lemma remove_draft_ok id s : ui_ok s -> ui_ok (remove_draft_locally id s).2.
Proof. intros H. unfold remove_draft_locally. cbv zeta. destruct (_ =? _); [exact H|]. ui_frame H. apply clamp_in_range. Qed.

Lemma set_flags_length id flags l : List.length (set_flags_of id flags l) = List.length l.
Proof. induction l as [|m l IH]; cbn; [done|]. destruct (_ =? _)%N; cbn; by rewrite ?IH. Qed.

(** Flags change no row but its flags; a grouping that is not rebuilt is empty. *)
Lemma flagged_body id flags key s : body_ok s -> body_ok (refresh_threads key (flag_lists id flags s)).
Proof.
  intros H. unfold refresh_threads.
  assert (Hm : set_flags_of id flags (s_messages s) = [] \/ s_selected_message s < List.length (set_flags_of id flags (s_messages s))).
  { rewrite set_flags_length. destruct (ui_message s H) as [->|?]; [by left|by right]. }
  destruct (bool_decide _) eqn:E; brefl.
  - change (set_flags_of id flags (s_folder_messages s) = []) in E. body_frame H; [|exact Hm].
    change (s_threads s = build_threads (set_flags_of id flags (s_folder_messages s))). rewrite (ui_threads s H), E.
    apply (f_equal (@List.length _)) in E. rewrite set_flags_length in E. by apply length_zero_iff_nil in E as ->.
  - unfold flag_lists. apply refresh_body.
    destruct (rebuild_threads_form key (flag_lists id flags s)) as (i & Heq & Hi). unfold flag_lists in Heq. rewrite Heq.
    body_frame H; [reflexivity|exact Hi|exact Hm].
Qed.


(** ** What an operation that moves no pane leaves alone *)

Definition same_view (s s' : AppState) : Prop :=
  s_active s' = s_active s /\ s_folders s' = s_folders s /\ s_selected_folder s' = s_selected_folder s /\
  s_detail s' = s_detail s /\ s_attachments s' = s_attachments s /\ s_search s' = s_search s.
#[local] Instance same_view_preorder : PreOrder same_view.
Proof.
  split; [by repeat split|]. intros s1 s2 s3 (?&?&?&?&?&?) (?&?&?&?&?&?). repeat split; congruence.
Qed.

Lemma same_view_ok s s' : ui_ok s -> body_ok s' -> same_view s s' -> ui_ok s'.
Proof. intros [_ Hp] Hb (Ha & H1 & H2 & H3 & H4 & H5). split; [done|]. rewrite Ha. by apply (pane_carry s). Qed.

Lemma rebuild_view key s : same_view s (rebuild_threads key s).
Proof. destruct (rebuild_threads_form key s) as (i & -> & _). by repeat split. Qed.
Lemma refresh_view s : same_view s (refresh_visible_messages s).
Proof. destruct (refresh_form s) as (i & -> & _). by repeat split. Qed.
Lemma store_view account folder now s : same_view s (store_selected_folder_cache account folder now s).
Proof. destruct (store_form account folder now s) as (c & -> & _). by repeat split. Qed.
Lemma flagged_view id flags key s : same_view s (refresh_threads key (flag_lists id flags s)).
Proof.
  assert (Hv : same_view s (flag_lists id flags s)) by (by repeat split). unfold refresh_threads.
  destruct (bool_decide _); [done|]. etrans; [exact Hv|]. etrans; [|apply refresh_view]. apply rebuild_view.
Qed.

Lemma store_if_body changed now s : body_ok s -> body_ok (store_if changed now s).
Proof. intros H. unfold store_if. destruct changed; [by apply store_body|done]. Qed.
Lemma store_if_view changed now s : same_view s (store_if changed now s).
Proof. unfold store_if. destruct changed; [apply store_view|done]. Qed.

Lemma update_flags_body d now s : body_ok s -> body_ok (update_message_flags_from_detail d now s).
Proof. intros H. apply store_if_body, flagged_body, H. Qed.
Lemma update_flags_view d now s : same_view s (update_message_flags_from_detail d now s).
Proof. etrans; [apply flagged_view|apply store_if_view]. Qed.

Lemma message_flags_ok id flags now s : ui_ok s -> ui_ok (apply_message_flags id flags now s).
Proof.
  intros [H Hp]. set (t := s <| s_detail := set_detail_flags id flags <$> s_detail s |>).
  assert (Ht : ui_ok t).
  { split; [body_frame H|]. rewrite <- Hp. with_strategy transparent [pane_visible] (unfold pane_visible).
    unfold detail_pane_visible, attachments_pane_visible. cbn. by destruct (s_detail s). }
  change (apply_message_flags id flags now s)
    with (store_if (has_message id (s_folder_messages s)) now (refresh_threads (selected_thread_key s) (flag_lists id flags t))).
  apply (same_view_ok t); [done|apply store_if_body, flagged_body, Ht|].
  etrans; [apply flagged_view|apply store_if_view].
Qed.

(** ** Optimistic removal and rollback *)

Lemma filter_all {A} (f : A -> bool) l : List.length (List.filter f l) = List.length l -> List.filter f l = l.
Proof.
  induction l as [|x l IH]; cbn; [done|]. destruct (f x); cbn; intros H; [f_equal; apply IH; lia|].
  pose proof (filter_length_le f l). lia.
Qed.

Lemma remove_message_ok id now s : ui_ok s -> ui_ok (remove_message_locally id now s).2.
Proof.
  intros H. unfold remove_message_locally. cbv zeta. set (rest := List.filter _ (s_folder_messages s)).
  destruct (Nat.eqb_spec (List.length rest) (List.length (s_folder_messages s))) as [E|E]; cbn [snd].
  - unfold rest in *. rewrite (filter_all _ _ E). ui_frame H.
  - apply store_ok, normalize_pane_ok. pose proof (refresh_body _ (rebuild_body (selected_thread_key s) rest s (proj1 H))) as Hb.
    destruct (s_detail _); [|done]. destruct (_ =? _)%N; [by apply clear_detail_ok|done].
Qed.

Lemma restore_list_ok snap now s : ui_ok s -> ui_ok (restore_message_list_snapshot snap now s).
Proof.
  intros [H _]. unfold restore_message_list_snapshot. cbv zeta.
  apply store_ok, normalize_pane_ok, select_message_body; [apply clamp_in_range|].
  apply refresh_body, select_thread_body; [apply clamp_in_range|]. by apply rebuild_body.
Qed.

Lemma restore_folder_ok snap s : ui_ok s -> ui_ok (restore_folder_snapshot snap s).
Proof.
  intros [H _]. unfold restore_folder_snapshot. cbv zeta. apply clear_detail_ok, normalize_body.
  apply select_message_body; [apply clamp_in_range|].
  pose proof (refresh_body _ (rebuild_body (fs_selected_thread_key snap) (fs_folder_messages snap) s H)) as Hb.
  destruct (fs_selected_message_id snap) as [id|]; cbn [mbind option_bind]; [|done].
  destruct (message_index id _) as [i|] eqn:E; [|done]. apply select_message_body; [|done].
  left. by apply (position_lt (fun m => mi_id m =? id)%N).
Qed.

(** ** Choosing an account, a folder, a hit *)

Lemma select_account_ok {UC : UnicodeCase} name s : ui_ok s -> ui_ok (select_account_by_name name s).2.
Proof.
  intros H. unfold select_account_by_name. cbv zeta. destruct (is_empty _); [exact H|].
  destruct (position _ _) as [i|] eqn:E; [|exact H]. destruct (_ =? _); [exact H|].
  cbn [snd]. apply normalize_pane_ok, clear_account_view_ok. body_frame (proj1 H). left. exact (position_lt _ _ _ E).
Qed.

Lemma folder_index_range needle s i : folder_index_by_name needle s = Some i -> in_range i (List.length (s_folders s)).
Proof.
  unfold folder_index_by_name. intros E. left. destruct (position _ _) as [j|] eqn:F; cbn in E.
  - injection E as <-. exact (position_lt _ _ _ F).
  - exact (position_lt _ _ _ E).
Qed.
Lemma select_folder_ok name s : ui_ok s -> ui_ok (select_folder_by_name name s).2.
Proof.
  intros H. unfold select_folder_by_name. cbv zeta. destruct (is_empty _); [exact H|].
  destruct (folder_index_by_name _ _) as [i|] eqn:E; [|exact H]. destruct (_ =? _); [exact H|].
  cbn [snd]. apply normalize_pane_ok, clear_folder_view_ok. body_frame (proj1 H). exact (folder_index_range _ _ _ E).
Qed.

Lemma error_ok e s : ui_ok s -> ui_ok (s <| s_error := e |>).
Proof. intros H. ui_frame H. Qed.

Lemma in_range_grow i n k : in_range i n -> n <= k -> 0 < k -> in_range i k.
Proof. with_strategy transparent [in_range] (unfold in_range). lia. Qed.

(** The listed folders, with the approvals folder among them. *)
Definition with_approvals (s : AppState) : AppState :=
  if existsb is_approvals_virtual (s_folders s) then s else s <| s_folders := s_folders s ++ [approvals_virtual] |>.
Lemma with_approvals_body s : body_ok s -> body_ok (with_approvals s).
Proof.
  intros H. unfold with_approvals. destruct (existsb _ _); [done|]. body_frame H.
  apply (in_range_grow _ _ _ (ui_folder s H)); cbn; rewrite length_app; cbn; lia.
Qed.
Lemma position_exists {A} (f : A -> bool) l : existsb f l = true -> exists i, position f l = Some i.
Proof.
  induction l as [|x l IH]; cbn; [done|]. destruct (f x); [by exists 0|]. cbn. intros H.
  destruct (IH H) as [i ->]. by exists (S i).
Qed.
Lemma with_approvals_index s : exists i, approvals_folder_index (with_approvals s) = Some i.
Proof.
  apply position_exists. unfold with_approvals. destruct (existsb _ (s_folders s)) eqn:E; [done|].
  cbn. by rewrite existsb_app, orb_true_r.
Qed.
Lemma approvals_folder_ok s : body_ok s -> ui_ok (select_approvals_folder s).2.
Proof.
  intros H. change (select_approvals_folder s) with
    (match approvals_folder_index (with_approvals s) with
     | None => (false, with_approvals s)
     | Some index => (true, clear_error (clear_folder_view
                              ((with_approvals s) <| s_selected_folder := index |> <| s_active := PConversations |>)))
     end).
  destruct (with_approvals_index s) as [i E]. rewrite E. cbn [snd]. apply error_ok, clear_folder_view_ok.
  pose proof (with_approvals_body s H) as Hb. apply position_lt in E. revert Hb E. generalize (with_approvals s). intros t Hb E.
  body_frame Hb. by left.
Qed.
Lemma begin_approvals_ok s : ui_ok s -> ui_ok (begin_approvals s).
Proof. intros [H _]. apply error_ok, approvals_folder_ok. body_frame H. Qed.

Lemma switched_body index s :
  in_range index (List.length (s_accounts s)) -> body_ok s ->
  body_ok ((clear_detail_state (s <| s_selected_account := index |> <| s_folders := [] |> <| s_folder_messages := [] |>
             <| s_threads := [] |> <| s_messages := [] |>)) <| s_selected_folder := 0 |> <| s_selected_thread := 0 |>).
Proof.
  intros Hi H. edestruct clear_detail_form as (p & -> & _). body_frame H; first [exact Hi | apply in_range_0 | by left | done].
Qed.
Lemma select_folder_body i s : in_range i (List.length (s_folders s)) -> body_ok s -> body_ok (s <| s_selected_folder := i |>).
Proof. intros Hi H. body_frame H. exact Hi. Qed.

Lemma jump_ok hit s : ui_ok s -> ui_ok (jump_to_hit hit s).2.
Proof.
  intros H. unfold jump_to_hit. destruct (position _ (s_accounts s)) as [i|] eqn:E; [|exact H]. cbv zeta. cbn [snd].
  set (s1 := if _ =? i then s else _).
  assert (H1 : body_ok s1).
  { unfold s1. destruct (_ =? i); [exact (proj1 H)|]. apply switched_body; [left; exact (position_lt _ _ _ E)|exact (proj1 H)]. }
  clearbody s1. set (s2 := match position _ (s_folders s1) with Some _ => _ | None => s1 end).
  assert (H2 : body_ok s2).
  { unfold s2. destruct (position _ (s_folders s1)) as [j|] eqn:F; [|done]. apply select_folder_body; [left; exact (position_lt _ _ _ F)|done]. }
  clearbody s2. set (s3 := match message_index _ s2 with Some _ => _ | None => s2 end).
  assert (H3 : body_ok s3).
  { unfold s3. destruct (message_index _ _) as [j|] eqn:F; [|done]. apply select_message_body; [left; exact (position_lt _ _ _ F)|done]. }
  clearbody s3. apply normalize_pane_ok, focus_body, search_none_body, H3.
Qed.

(** ** Approvals *)

Lemma approvals_changed a s : approvals_ok a -> ui_ok s -> ui_ok (s <| s_approvals := a |>).
Proof. intros Ha H. ui_frame H. exact Ha. Qed.

Lemma approvals_sub items n pending a :
  approvals_ok a -> sublist items (as_items a) -> in_range n (List.length items) -> approvals_ok (mkApprovals items n pending).
Proof.
  with_strategy transparent [approvals_ok] (intros [_ Hs] Hl Hn; split; [exact Hn|]).
  exact (sorted_sublist _ _ _ Hl Hs).
Qed.
Lemma approvals_sorted items n pending : in_range n (List.length (sorted_approvals items)) ->
  approvals_ok (mkApprovals (sorted_approvals items) n pending).
Proof.
  with_strategy transparent [approvals_ok] (intros Hn; split; [exact Hn|]). apply sort_by_sorted, approval_cmp_antisym.
Qed.

Lemma apply_approvals_ok items s : ui_ok s -> ui_ok (apply_approvals items s).
Proof. apply approvals_changed, approvals_sorted, clamp_in_range. Qed.
Lemma merge_approval_ok a s : ui_ok s -> ui_ok (merge_approval_request a s).
Proof.
  apply approvals_changed. eapply (approvals_sub _ _ _ (mkApprovals (sorted_approvals _) _ false)).
  - apply approvals_sorted, clamp_in_range.
  - apply sublist_take.
  - apply clamp_in_range.
  Unshelve. exact 0.
Qed.
Lemma move_approval_ok delta s : ui_ok s -> ui_ok (move_approval_selection delta s).2.
Proof.
  intros H. apply approvals_changed; [|done]. pose proof (ui_approvals s (proj1 H)) as Ha. unfold move_approvals_state.
  destruct (as_items (s_approvals s)) as [|x l] eqn:E; cbn [snd]; (eapply approvals_sub; [exact Ha|by rewrite E|]).
  - apply in_range_0.
  - apply move_in_range.
Qed.
Lemma remove_selected_approval_ok s : ui_ok s -> ui_ok (remove_selected_approval s).2.
Proof.
  intros H. apply approvals_changed; [|done]. pose proof (ui_approvals s (proj1 H)) as Ha. unfold remove_selected_state.
  destruct (as_items (s_approvals s)) as [|x l] eqn:E; cbn [snd]; (eapply approvals_sub; [exact Ha| |]).
  - by rewrite E.
  - apply in_range_0.
  - rewrite E. apply remove_nth_sub.
  - apply clamp_in_range.
Qed.
Lemma remove_approval_ok id s : ui_ok s -> ui_ok (remove_approval_by_id id s).2.
Proof.
  intros H. apply approvals_changed; [|done]. pose proof (ui_approvals s (proj1 H)) as Ha. unfold remove_by_id_state.
  cbv zeta. destruct (_ =? _); [done|]. cbn [snd]. eapply approvals_sub; [exact Ha|apply filter_sublist|apply clamp_in_range].
Qed.

(** ** Search *)

(** A search that stays open, or opens, keeps every pane shown. *)
Lemma search_changed st s :
  in_range (se_selected st) (List.length (se_hits st)) -> s_search s <> None -> ui_ok s -> ui_ok (s <| s_search := Some st |>).
Proof.
  intros Hr Ho [H Hp]. split; [body_frame H; by intros ? [= <-]|]. rewrite <- Hp.
  with_strategy transparent [pane_visible] (unfold pane_visible).
  change (search_pane_visible (s <| s_search := Some st |>)) with true.
  assert (search_pane_visible s = true) as -> by (by unfold search_pane_visible; apply bool_decide_eq_true).
  reflexivity.
Qed.
Lemma move_search_ok delta s : ui_ok s -> ui_ok (move_search_selection delta s).2.
Proof.
  intros H. unfold move_search_selection. destruct (s_search s) as [st|] eqn:E; [|exact H]. cbv zeta.
  destruct (se_hits st) eqn:Eh; cbn [snd]; (apply search_changed; [|congruence|exact H]); cbn [se_selected se_hits].
  - apply in_range_0.
  - apply move_in_range.
Qed.
Lemma begin_search_ok query scope s : ui_ok s -> ui_ok (begin_search query scope s).
Proof. intros [H _]. apply error_ok. split; [body_frame H; by intros ? [= <-]; apply in_range_0|reflexivity]. Qed.
Lemma apply_hits_ok hits s : ui_ok s -> ui_ok (apply_search_hits hits s).
Proof.
  intros H. unfold apply_search_hits. destruct (s_search s) as [st|] eqn:E; [|exact H].
  apply search_changed; [apply clamp_in_range|congruence|exact H].
Qed.
Lemma close_search_ok s : ui_ok s -> ui_ok (close_search s).
Proof.
  intros [H _]. unfold close_search. apply normalize_pane_ok. destruct (s_search s); [|exact H]. by apply focus_body, search_none_body.
Qed.

(** ** Cycling through the panes *)

Lemma visible_from_visible step s rounds p : pane_visible s (s_active s) = true -> pane_visible s (visible_from step s rounds p) = true.
Proof.
  intros Hp. revert p. induction rounds as [|k IH]; intros p; cbn [visible_from]; [done|].
  destruct (pane_visible s (step p)) eqn:E; [done|apply IH].
Qed.
Lemma cycle_ok s : ui_ok s -> ui_ok (cycle_active_pane s).
Proof. intros [H Hp]. apply focus_ok; [done|by apply visible_from_visible]. Qed.
Lemma cycle_reverse_ok s : ui_ok s -> ui_ok (cycle_active_pane_reverse s).
Proof. intros [H Hp]. apply focus_ok; [done|by apply visible_from_visible]. Qed.

(** ** Details *)

Lemma show_stack_form s :
  exists cache cursor line,
    show_stack s = (reset_detail_navigation_state (s <| s_detail_text_cache := cache |>))
                     <| s_detail_cursor := cursor |> <| s_detail_selection_focus := line |>.
Proof. do 3 eexists. unfold show_stack, place_detail_cursor_at_focused_message, rebuild_detail_text_cache. reflexivity. Qed.
Lemma show_stack_body s : body_ok s -> body_ok (show_stack s).
Proof. intros H. destruct (show_stack_form s) as (? & ? & ? & ->). body_frame H. Qed.
Lemma show_stack_ok s : ui_ok s -> ui_ok (show_stack s).
Proof. intros H. destruct (show_stack_form s) as (? & ? & ? & ->). ui_frame H. Qed.
Lemma show_stack_detail s : s_detail (show_stack s) = s_detail s.
Proof. destruct (show_stack_form s) as (? & ? & ? & ->). reflexivity. Qed.

Lemma set_detail_body d s : body_ok s -> body_ok (s <| s_detail := d |>).
Proof. intros H. body_frame H. Qed.
Lemma set_stack_body st s : body_ok s -> body_ok (s <| s_conversation_detail := st |>).
Proof. intros H. body_frame H. Qed.
Lemma set_stack_ok st s : ui_ok s -> ui_ok (s <| s_conversation_detail := st |>).
Proof. intros H. ui_frame H. Qed.
(** A detail hides no pane. *)
Lemma set_detail_ok d s : ui_ok s -> ui_ok (s <| s_detail := Some d |>).
Proof.
  intros [H Hp]. split; [by apply set_detail_body|]. revert Hp. with_strategy transparent [pane_visible] (unfold pane_visible).
  unfold detail_pane_visible, attachments_pane_visible.
  change (s_active (s <| s_detail := Some d |>)) with (s_active s).
  change (approvals_folder_selected (s <| s_detail := Some d |>)) with (approvals_folder_selected s).
  change (s_attachments (s <| s_detail := Some d |>)) with (s_attachments s).
  change (search_pane_visible (s <| s_detail := Some d |>)) with (search_pane_visible s).
  cbn [s_detail]. destruct (s_active s); try done; rewrite ?(bool_decide_eq_true_2 (Some d <> None)) by done.
  - by rewrite orb_true_r.
  - destruct (approvals_folder_selected s), (bool_decide (s_detail s <> None)); done.
Qed.

Lemma apply_detail_ok detail now s : ui_ok s -> ui_ok (apply_detail detail now s).
Proof.
  intros [H _]. unfold apply_detail. cbv zeta. set (s1 := if bool_decide (md_id <$> _ = _) then s else _).
  assert (H1 : body_ok s1) by (unfold s1; destruct (bool_decide _); [done|by apply clear_attachments_ok]). clearbody s1.
  set (s2 := match detail with Some _ => _ | None => s1 end).
  assert (H2 : body_ok s2) by (unfold s2; destruct detail; [by apply set_stack_body, update_flags_body|done]). clearbody s2.
  pose proof (show_stack_body _ (set_detail_body detail _ H2)) as H3. apply normalize_pane_ok.
  set (s4 := if _ && _ then _ else _).
  assert (H4 : body_ok s4) by (unfold s4; destruct (_ && _); [by apply focus_body|done]).
  clearbody s4. destruct (bool_decide (s_detail s4 = None)); [by apply clear_attachments_ok|done].
Qed.

Lemma toggle_expansion_ok s : ui_ok s -> ui_ok (toggle_focused_message_expansion s).2.
Proof.
  intros H. unfold toggle_focused_message_expansion. destruct (stack_toggle_focused _ _) as [[b st]|]; [|exact H].
  by apply show_stack_ok, set_stack_ok.
Qed.
Lemma expand_all_ok s : ui_ok s -> ui_ok (expand_all_conversation_messages s).2.
Proof.
  intros H. unfold expand_all_conversation_messages. destruct (bool_decide _); [exact H|]. by apply show_stack_ok, set_stack_ok.
Qed.
Lemma move_conversation_ok delta s : ui_ok s -> ui_ok (move_conversation_detail_focus delta s).2.
Proof.
  intros H. unfold move_conversation_detail_focus. cbv zeta. destruct (_ <=? 1); [exact H|]. destruct (_ =? _); [exact H|].
  destruct (s_messages s !! _) as [m|] eqn:E; [|exact H]. cbn [snd]. apply show_stack_ok, clear_attachments_ok.
  apply lookup_lt_Some in E.
  set (t := (s <| s_selected_message := _ |>) <| s_conversation_detail := _ |>).
  assert (Ht : body_ok t) by (apply set_stack_body, select_message_body; [by left|exact (proj1 H)]). clearbody t.
  destruct (st_details (s_conversation_detail t) !! mi_id m); [by apply set_detail_body|done].
Qed.
Lemma cache_detail_ok d now s : ui_ok s -> ui_ok (cache_conversation_detail d now s).
Proof.
  intros H. unfold cache_conversation_detail. cbv zeta.
  assert (H1 : ui_ok (update_message_flags_from_detail d now s)).
  { apply (same_view_ok s); [done|by apply update_flags_body, H|apply update_flags_view]. }
  apply (set_stack_ok (stack_cache_detail d (s_conversation_detail (update_message_flags_from_detail d now s)))) in H1.
  revert H1. generalize ((update_message_flags_from_detail d now s) <| s_conversation_detail :=
    stack_cache_detail d (s_conversation_detail (update_message_flags_from_detail d now s)) |>). intros t Ht.
  assert (Hu : ui_ok (if bool_decide (focused_conversation_message_id t = Some (md_id d)) then t <| s_detail := Some d |> else t))
    by (destruct (bool_decide _); [by apply set_detail_ok|done]).
  revert Hu. generalize (if bool_decide (focused_conversation_message_id t = Some (md_id d)) then t <| s_detail := Some d |> else t).
  intros u Hu. ui_frame Hu.
Qed.

(** A choice between leaving the state alone and an update that touches no part
    of the invariant. *)
Ltac ui_cases H :=
  repeat match goal with
         | |- ui_ok (snd (if ?b then _ else _)) => destruct b
         | |- ui_ok (snd (let '(_, _) := ?p in _)) => destruct p
         | |- ui_ok (if ?b then _ else _) => destruct b
         | |- ui_ok (snd (match ?o with Some _ => _ | None => _ end)) => destruct o eqn:?
         end; cbn [snd]; first [ exact H | ui_frame H ].

Lemma set_detail_cursor_ok next s : ui_ok s -> ui_ok (set_detail_cursor next s).2.
Proof. intros H. unfold set_detail_cursor. cbv zeta. ui_cases H. Qed.
Lemma detail_left_ok s : ui_ok s -> ui_ok (move_detail_cursor_left s).2.
Proof. intros H. unfold move_detail_cursor_left. ui_cases H. Qed.
Lemma detail_right_ok s : ui_ok s -> ui_ok (move_detail_cursor_right s).2.
Proof. intros H. unfold move_detail_cursor_right. ui_cases H. Qed.
Lemma detail_home_ok s : ui_ok s -> ui_ok (detail_home s).2.
Proof. intros H. unfold detail_home. destruct (negb _); [exact H|by apply set_detail_cursor_ok]. Qed.
Lemma detail_end_ok s : ui_ok s -> ui_ok (detail_end s).2.
Proof. intros H. unfold detail_end. destruct (negb _); [exact H|by apply set_detail_cursor_ok]. Qed.

Lemma set_column_ok n s : ui_ok s -> ui_ok (s <| s_detail_preferred_column := n |>).
Proof. intros H. ui_frame H. Qed.
Lemma set_cursor_ok n s : ui_ok s -> ui_ok (s <| s_detail_cursor := n |>).
Proof. intros H. ui_frame H. Qed.
Lemma set_line_focus_ok n s : ui_ok s -> ui_ok (s <| s_detail_selection_focus := n |>).
Proof. intros H. ui_frame H. Qed.
Lemma set_scroll_ok n s : ui_ok s -> ui_ok (s <| s_detail_scroll := n |>).
Proof. intros H. ui_frame H. Qed.
Lemma detail_line_ok delta h s : ui_ok s -> ui_ok (move_detail_line delta h s).2.
Proof.
  intros H. unfold move_detail_line. destruct (negb _); [exact H|]. destruct (_ =? 0); [exact H|]. cbv zeta.
  destruct (detail_cursor_line_column s) as [line column]. cbn [snd]. apply set_scroll_ok.
  apply (set_column_ok (Some (unwrap_or column (s_detail_preferred_column s)))) in H. revert H.
  generalize (s <| s_detail_preferred_column := Some (unwrap_or column (s_detail_preferred_column s)) |>). intros t Ht.
  destruct (bool_decide _); [apply set_line_focus_ok|]; by apply set_cursor_ok.
Qed.
Lemma clear_selection_ok s : ui_ok s -> ui_ok (clear_detail_selection s).2.
Proof. intros H. unfold clear_detail_selection. cbn [snd]. ui_frame H. Qed.
Lemma start_here_ok s : ui_ok s -> ui_ok (start_detail_selection_here s).
Proof. intros H. unfold start_detail_selection_here. cbv zeta. ui_frame H. Qed.
Lemma toggle_selection_ok s : ui_ok s -> ui_ok (toggle_detail_line_selection s).2.
Proof.
  intros H. unfold toggle_detail_line_selection. destruct (negb _); [exact H|].
  destruct (bool_decide _); [by apply clear_selection_ok|by apply start_here_ok].
Qed.
Lemma start_selection_ok s : ui_ok s -> ui_ok (start_detail_line_selection s).2.
Proof. intros H. unfold start_detail_line_selection. destruct (_ || _); [exact H|by apply start_here_ok]. Qed.

(** ** Attachments and their preview *)

Lemma reset_preview_body s : body_ok s -> body_ok (reset_preview_navigation_state (s <| s_attachment_preview := None |>)).
Proof. intros H. by body_frame H. Qed.
Lemma no_pending_open_body s : body_ok s -> body_ok (s <| s_pending_open_attachment := None |>).
Proof. intros H. body_frame H. Qed.

(** With none left nothing is previewed. *)
Lemma no_attachments_body i p s :
  in_range i 0 -> body_ok s ->
  body_ok (reset_preview_navigation_state
    (((s <| s_attachments := [] |>) <| s_selected_attachment := i |>) <| s_attachment_preview := None |>
       <| s_pending_open_attachment := p |>)).
Proof. intros Hi H. by body_frame H. Qed.
Lemma attachments_ok l s : ui_ok s -> ui_ok (apply_attachments l s).
Proof.
  intros [H _]. unfold apply_attachments. cbv zeta. apply normalize_pane_ok. destruct l as [|a l].
  - pose proof (no_attachments_body _ None s (clamp_in_range (s_selected_attachment s) 0) H) as H1.
    change (s_attachment_preview (_ <| s_selected_attachment := _ |>)) with (s_attachment_preview s).
    destruct (s_attachment_preview s) as [p|]; [|exact H1].
    destruct (bool_decide (Some (pi_attachment_id p) <> _)); exact H1.
  - set (s1 := (s <| s_attachments := a :: l |>) <| s_selected_attachment := _ |>).
    assert (H1 : body_ok s1) by (body_frame H; [apply clamp_in_range|done]).
    set (s2 := match s_attachment_preview s1 with Some _ => _ | None => s1 end).
    assert (H2 : body_ok s2 /\ s_attachments s2 = a :: l).
    { unfold s2. destruct (s_attachment_preview s1); [|done]. destruct (bool_decide _); [|done].
      split; [by apply reset_preview_body|done]. }
    destruct H2 as [H2 E]. clearbody s2. rewrite E. exact H2.
Qed.
Lemma preview_ok p s : selected_attachment_id s <> None -> ui_ok s -> ui_ok (apply_attachment_preview p s).
Proof.
  intros Hs H. assert (Ha : s_attachments s <> []).
  { intros E. apply Hs. unfold selected_attachment_id, selected_attachment. by rewrite E. }
  unfold apply_attachment_preview. cbv zeta. destruct (bool_decide _); ui_frame H; done.
Qed.
(** Without a selected attachment there is no preview to drop. *)
Lemma no_preview_ok s : selected_attachment_id s = None -> ui_ok s -> ui_ok (s <| s_attachment_preview := None |>).
Proof.
  intros Hs H. assert (E : s_attachment_preview s = None).
  { destruct (s_attachment_preview s) eqn:E; [|done]. exfalso.
    assert (Ha : s_attachments s <> []) by (apply (ui_previewed s (proj1 H)); by rewrite E).
    destruct (in_range_lookup _ _ (ui_attachment s (proj1 H)) Ha) as [x Hl].
    unfold selected_attachment_id, selected_attachment in Hs. by rewrite Hl in Hs. }
  assert (Hf : s_preview_focused s = false).
  { destruct (s_preview_focused s) eqn:F; [|done]. by destruct (ui_preview s (proj1 H) F). }
  ui_frame H; [|done]. intros F. change (s_preview_focused s = true) in F. by rewrite Hf in F.
Qed.

Lemma scroll_preview_ok delta h s : ui_ok s -> ui_ok (scroll_preview delta h s).2.
Proof. intros H. unfold scroll_preview. cbv zeta. ui_cases H. Qed.
Lemma preview_top_ok s : ui_ok s -> ui_ok (scroll_preview_to_top s).2.
Proof. intros H. unfold scroll_preview_to_top. ui_cases H. Qed.
Lemma preview_bottom_ok h s : ui_ok s -> ui_ok (scroll_preview_to_bottom h s).2.
Proof. intros H. unfold scroll_preview_to_bottom. cbv zeta. ui_cases H. Qed.
Lemma preview_line_ok delta s : ui_ok s -> ui_ok (move_preview_line delta s).2.
Proof.
  intros H. unfold move_preview_line. destruct (negb _); [exact H|].
  destruct (s_preview_selection s) as [[a f]|]; [cbv zeta; ui_cases H|by apply scroll_preview_ok].
Qed.
Lemma toggle_preview_ok s : ui_ok s -> ui_ok (toggle_preview_selection s).2.
Proof. intros H. unfold toggle_preview_selection. cbv zeta. ui_cases H. Qed.
Lemma clear_preview_ok s : ui_ok s -> ui_ok (clear_preview_selection s).2.
Proof. intros H. unfold clear_preview_selection. ui_cases H. Qed.
Lemma focus_preview_ok s : ui_ok s -> ui_ok (focus_preview s).2.
Proof.
  intros H. unfold focus_preview. destruct (bool_decide _) eqn:E; [exact H|]. destruct (s_preview_focused s); [exact H|].
  brefl. ui_frame H. intros _. exact E.
Qed.
Lemma defocus_preview_ok s : ui_ok s -> ui_ok (defocus_preview s).2.
Proof. intros H. unfold defocus_preview. destruct (negb _); [exact H|]. ui_frame H. done. Qed.
Lemma toggle_attachments_ok s : ui_ok s -> ui_ok (toggle_attachment_focus s).2.
Proof.
  intros H. unfold toggle_attachment_focus. destruct (attachments_pane_visible s) eqn:E; cbn [negb snd]; [|by apply normalize_pane_ok, H].
  destruct (decide _); [|by apply focus_ok; [apply H|]]. split; [body_frame (proj1 H); done|reflexivity].
Qed.

(** ** The selection of the active pane *)

Lemma select_draft_body i s : in_range i (List.length (s_drafts s)) -> body_ok s -> body_ok (s <| s_selected_draft := i |>).
Proof. intros Hi H. body_frame H. exact Hi. Qed.
Lemma select_account_body i s : in_range i (List.length (s_accounts s)) -> body_ok s -> body_ok (s <| s_selected_account := i |>).
Proof. intros Hi H. body_frame H. exact Hi. Qed.
Lemma select_attachment_body i s :
  in_range i (List.length (s_attachments s)) -> body_ok s -> body_ok (s <| s_selected_attachment := i |>).
Proof. intros Hi H. body_frame H. exact Hi. Qed.
Lemma selected_view s s' : body_ok s' -> ui_ok s -> same_view s s' -> ui_ok s'.
Proof. intros Hb H Hv. by apply (same_view_ok s). Qed.

Lemma move_selection_ok delta s : ui_ok s -> ui_ok (move_selection delta s).2.
Proof.
  intros H. pose proof (proj1 H) as Hb. unfold move_selection. destruct (s_active s) eqn:Ea; cbv zeta; cbn [snd].
  - pose proof (select_account_body _ s (move_in_range (s_selected_account s) _ delta) Hb) as Hs.
    destruct (_.1); [by apply clear_account_view_ok|]. by apply (selected_view s).
  - pose proof (select_folder_body _ s (move_in_range (s_selected_folder s) _ delta) Hb) as Hs.
    destruct (_.1); [by apply clear_folder_view_ok|]. split; [exact Hs|].
    change (pane_visible (s <| s_selected_folder := (move_index (s_selected_folder s) (List.length (s_folders s)) delta).2 |>) (s_active s) = true).
    by rewrite Ea.
  - destruct (approvals_folder_selected s); [by apply move_approval_ok|]. destruct (drafts_pane_active s).
    + pose proof (select_draft_body _ s (move_in_range (s_selected_draft s) _ delta) Hb) as Hs.
      cbn [snd]. destruct (_.1); [by apply clear_detail_ok|by apply (selected_view s)].
    + pose proof (select_thread_body _ s (move_in_range (s_selected_thread s) _ delta) Hb) as Hs.
      cbn [snd]. destruct (_.1); [|by apply (selected_view s)]. apply clear_detail_ok, refresh_body.
      set (t := s <| s_selected_thread := _ |>) in *. clearbody t. apply select_message_body; [apply in_range_0|done].
  - destruct (approvals_folder_selected s); [by apply move_approval_ok|exact H].
  - destruct (negb _); [by apply normalize_pane_ok|]. destruct (s_preview_focused s); [by apply preview_line_ok|].
    pose proof (select_attachment_body _ s (move_in_range (s_selected_attachment s) _ delta) Hb) as Hs.
    set (t := s <| s_selected_attachment := _ |>) in *. assert (Hv : ui_ok t) by (by apply (selected_view s)). clearbody t.
    cbn [snd]. destruct (_.1); [|done]. apply (selected_view t); [by apply reset_preview_body|done|by repeat split].
  - by apply move_search_ok.
Qed.

(** ** Toasts, prompts and the composer *)

Lemma toasts_changed n l s : List.length l <= MAX_TOASTS -> ui_ok s -> ui_ok (s <| s_next_toast_id := n |> <| s_toasts := l |>).
Proof. intros Hl H. ui_frame H. exact Hl. Qed.
Lemma push_toast_ok kind text now s : ui_ok s -> ui_ok (push_toast kind text now s).2.
Proof.
  intros H. destruct (push_toast_form kind text now s) as (l & n & -> & Hl). apply toasts_changed; [|done]. apply Hl, H.
Qed.
Lemma toast_once_ok kind text now window s : ui_ok s -> ui_ok (toast_once kind text now window s).
Proof.
  intros H. destruct (toast_once_form kind text now window s) as (l & n & -> & Hl). apply toasts_changed; [|done]. apply Hl, H.
Qed.
Lemma fewer_toasts_ok l s : List.length l <= List.length (s_toasts s) -> ui_ok s -> ui_ok (s <| s_toasts := l |>).
Proof. intros Hl H. ui_frame H. etrans; [exact Hl|apply H]. Qed.
Lemma sync_state_ok account state err now s : ui_ok s -> ui_ok (apply_sync_state account state err now s).
Proof.
  intros H. unfold apply_sync_state. cbv zeta. set (t := if decide _ then toast_once _ _ _ _ s else s).
  assert (Ht : ui_ok t) by (unfold t; destruct (decide _); [by apply toast_once_ok|done]). clearbody t. ui_frame Ht.
Qed.
Lemma status_ok text s : ui_ok s -> ui_ok (set_status text s).
Proof. intros H. ui_frame H. Qed.
Lemma mode_ok mode s : ui_ok s -> ui_ok (s <| s_mode := mode |>).
Proof. intros H. ui_frame H. Qed.
Lemma theme_ok t s : ui_ok s -> ui_ok (set_theme t s).
Proof. intros H. ui_frame H. Qed.
Lemma help_ok b n s : ui_ok s -> ui_ok (s <| s_help_open := b |> <| s_help_scroll := n |>).
Proof. intros H. ui_frame H. Qed.
Lemma help_scroll_ok n s : ui_ok s -> ui_ok (s <| s_help_scroll := n |>).
Proof. intros H. ui_frame H. Qed.

Lemma command_input_ok v s : (N.of_nat (List.length v) <= MAX_COMMAND_CHARS)%N -> ui_ok s -> ui_ok (s <| s_command_input := v |>).
Proof. intros Hv H. ui_frame H. exact Hv. Qed.
Lemma search_input_ok v s : (N.of_nat (List.length v) <= MAX_SEARCH_CHARS)%N -> ui_ok s -> ui_ok (s <| s_search_input := v |>).
Proof. intros Hv H. ui_frame H. exact Hv. Qed.
Lemma previous_pane_ok p s : ui_ok s -> ui_ok (s <| s_search_input_previous_pane := p |>).
Proof. intros H. ui_frame H. Qed.
