(* ===== verification/TuiSteps.v ===== *)
(** * Every state the terminal interface reaches

    The operations of [AppState] and of its composer as a step relation; every
    state reached from the initial one satisfies the invariant.  Then what the
    steps mean together: a removal that is taken back, and the panes the Tab key
    visits. *)

From stdpp Require Import gmap relations.
From S2P Require Import Prelude RustStr Json MailParser DbCore McpTools McpModels Config TuiText TuiComposer TuiEditing TuiItems TuiApprovals TuiApp TuiConversations TuiInvariant.
#[local] Open Scope nat_scope.
#[local] Open Scope bool_scope.

Create HintDb ui.

Section steps.
Context {UC : UnicodeCase} {CF : ComposeFiles}.

(** ** The steps *)

Inductive compose_step : ComposerState -> ComposerState -> Prop :=
| compose_key k c : compose_step c (run_key k c).2
| compose_enter c : compose_step c (composer_enter c).2
| compose_next c : compose_step c (next_composer_field c)
| compose_previous c : compose_step c (previous_composer_field c)
| compose_line delta h c : compose_step c (move_body_line delta h c).2
| compose_select c : compose_step c (toggle_body_line_selection c).2
| compose_start_select c : compose_step c (start_body_line_selection c).2
| compose_clear_select c : compose_step c (clear_body_selection c).2
| compose_path_char ch c : compose_step c (push_compose_attach_char ch c).2
| compose_path_backspace c : compose_step c (backspace_compose_attach c).2
| compose_remove c : compose_step c (remove_selected_compose_attachment c).2
| compose_attachment delta c : compose_step c (move_compose_attachment_selection delta c).2.

(** What a prompt, a message from the daemon or a key can do to the state.  The
    Escape of quick search returns to the pane recorded when it was opened; a
    preview arrives for the selected attachment. *)
Inductive ui_step : AppState -> AppState -> Prop :=
| step_status t s : ui_step s (set_status t s)
| step_error e s : ui_step s (set_error e s)
| step_clear_error s : ui_step s (clear_error s)
| step_accounts l s : ui_step s (apply_accounts l s)
| step_folders l s : ui_step s (apply_folders l s)
| step_messages l s : ui_step s (apply_messages l s)
| step_folder_messages l now s : ui_step s (apply_folder_messages l now s)
| step_drafts l s : ui_step s (apply_drafts l s)
| step_remove_draft id s : ui_step s (remove_draft_locally id s).2
| step_lookup account folder now s : ui_step s (folder_cache_lookup account folder now s).2
| step_store account folder now s : ui_step s (folder_cache_store account folder now s)
| step_invalidate_folder account folder s : ui_step s (folder_cache_invalidate_folder account folder s)
| step_invalidate_account account s : ui_step s (folder_cache_invalidate_account account s)
| step_restore snap s : ui_step s (restore_folder_snapshot snap s)
| step_flags id flags now s : ui_step s (apply_message_flags id flags now s)
| step_remove id now s : ui_step s (remove_message_locally id now s).2
| step_rollback snap now s : ui_step s (restore_message_list_snapshot snap now s)
| step_select_account name s : ui_step s (select_account_by_name name s).2
| step_select_folder name s : ui_step s (select_folder_by_name name s).2
| step_approvals_folder s : ui_step s (begin_approvals s)
| step_jump hit s : ui_step s (jump_to_hit hit s).2
| step_approvals l s : ui_step s (apply_approvals l s)
| step_approvals_pending b s : ui_step s (s <| s_approvals := mkApprovals (as_items (s_approvals s)) (as_selected (s_approvals s)) b |>)
| step_merge_approval a s : ui_step s (merge_approval_request a s)
| step_move_approval delta s : ui_step s (move_approval_selection delta s).2
| step_remove_approval s : ui_step s (remove_selected_approval s).2
| step_approval_decided id s : ui_step s (remove_approval_by_id id s).2
| step_search query scope s : ui_step s (begin_search query scope s)
| step_hits hits s : ui_step s (apply_search_hits hits s)
| step_move_search delta s : ui_step s (move_search_selection delta s).2
| step_close_search s : ui_step s (close_search s)
| step_quick_search s : ui_step s (enter_quick_search s)
| step_search_char ch s : ui_step s (push_search_char ch s).2
| step_search_backspace s : ui_step s (backspace_search s).2
| step_search_finish s : ui_step s (finish_quick_search s).2
| step_search_cancel s : pane_visible s (s_search_input_previous_pane s) = true -> ui_step s (cancel_quick_search s)
| step_detail d now s : ui_step s (apply_detail d now s)
| step_cache_detail d now s : ui_step s (cache_conversation_detail d now s)
| step_toggle_expansion s : ui_step s (toggle_focused_message_expansion s).2
| step_expand_all s : ui_step s (expand_all_conversation_messages s).2
| step_conversation delta s : ui_step s (move_conversation_detail_focus delta s).2
| step_detail_left s : ui_step s (move_detail_cursor_left s).2
| step_detail_right s : ui_step s (move_detail_cursor_right s).2
| step_detail_home s : ui_step s (detail_home s).2
| step_detail_end s : ui_step s (detail_end s).2
| step_detail_line delta h s : ui_step s (move_detail_line delta h s).2
| step_detail_select s : ui_step s (toggle_detail_line_selection s).2
| step_detail_start_select s : ui_step s (start_detail_line_selection s).2
| step_detail_clear_select s : ui_step s (clear_detail_selection s).2
| step_attachments l s : ui_step s (apply_attachments l s)
| step_preview p s : selected_attachment_id s <> None -> ui_step s (apply_attachment_preview p s)
| step_no_preview s : selected_attachment_id s = None -> ui_step s (s <| s_attachment_preview := None |>)
| step_preview_scroll delta h s : ui_step s (scroll_preview delta h s).2
| step_preview_top s : ui_step s (scroll_preview_to_top s).2
| step_preview_bottom h s : ui_step s (scroll_preview_to_bottom h s).2
| step_preview_line delta s : ui_step s (move_preview_line delta s).2
| step_preview_select s : ui_step s (toggle_preview_selection s).2
| step_preview_clear s : ui_step s (clear_preview_selection s).2
| step_focus_preview s : ui_step s (focus_preview s).2
| step_defocus_preview s : ui_step s (defocus_preview s).2
| step_toggle_attachments s : ui_step s (toggle_attachment_focus s).2
| step_open_attachment s : ui_step s (begin_open_attachment_confirmation s).2
| step_keep_closed s : ui_step s (cancel_open_attachment_confirmation s)
| step_opened s : ui_step s (take_pending_open_attachment s).2
| step_move delta s : ui_step s (move_selection delta s).2
| step_cycle s : ui_step s (cycle_active_pane s)
| step_cycle_reverse s : ui_step s (cycle_active_pane_reverse s)
| step_draft_delete id s : ui_step s (begin_draft_delete id s)
| step_keep_draft s : ui_step s (cancel_pending_delete_draft s)
| step_draft_deleted s : ui_step s (take_pending_delete_draft s).2
| step_delete id s : ui_step s (begin_delete_confirmation id s)
| step_keep_message s : ui_step s (cancel_delete_confirmation s)
| step_deleted s : ui_step s (take_pending_delete_message s).2
| step_toast kind text now s : ui_step s (push_toast kind text now s).2
| step_sync account state err now s : ui_step s (apply_sync_state account state err now s)
| step_mail_new account folder now s : ui_step s (push_mail_new_toast account folder now s)
| step_synced account now s : ui_step s (push_account_synced_toast account now s)
| step_refused text now s : ui_step s (push_pane_refusal_toast text now s)
| step_dismiss s : ui_step s (dismiss_newest_toast s).2
| step_clear_toasts s : ui_step s (clear_toasts s).2
| step_tick now s : ui_step s (tick_toasts now s)
| step_help s : ui_step s (toggle_help s).2
| step_open_help s : ui_step s (open_help s).2
| step_close_help s : ui_step s (close_help s)
| step_help_down n s : ui_step s (scroll_help_down n s)
| step_help_up n s : ui_step s (scroll_help_up n s)
| step_help_home s : ui_step s (scroll_help_home s)
| step_help_end n s : ui_step s (scroll_help_end n s)
| step_cycle_theme s : ui_step s (cycle_theme s)
| step_theme t s : ui_step s (set_theme t s)
| step_command s : ui_step s (enter_command_mode s)
| step_command_char ch s : ui_step s (push_command_char ch s).2
| step_command_text t s : (N.of_nat (List.length t) <= MAX_COMMAND_CHARS)%N -> ui_step s (s <| s_command_input := t |>)
| step_command_backspace s : ui_step s (backspace_command s).2
| step_command_cancel s : ui_step s (cancel_command_mode s)
| step_command_finish s : ui_step s (finish_command s).2
| step_compose_new account s : ui_step s (enter_composer account s)
| step_compose_prefill account p s : ui_step s (enter_composer_with_prefill account p s)
| step_compose_draft id d focus s : ui_step s (enter_composer_for_existing_draft id d focus s)
| step_compose c c' s : s_composer s = Some c -> compose_step c c' -> ui_step s (s <| s_composer := Some c' |>)
| step_compose_attach s : ui_step s (begin_compose_attach s).2
| step_compose_no_attach s : ui_step s (cancel_compose_attach s)
| step_compose_attached s : ui_step s (app_confirm_compose_attach s).2
| step_compose_saved id s : ui_step s (mark_composer_saved id s)
| step_compose_exit s : ui_step s (exit_composer s)
| step_compose_discard s : ui_step s (discard_composer s)
| step_compose_ask s : ui_step s (begin_discard_composer_confirmation s)
| step_compose_keep s : ui_step s (cancel_discard_composer_confirmation s).

Definition ui_reachable : AppState -> Prop := rtc ui_step default_app.

(** ** The invariant is kept *)

Lemma refocus_ok f c :
  composer_ok c -> composer_ok (c <| c_focused := f |>) /\ composer_ok (c <| c_focused := f |> <| c_body_preferred_column := None |>).
Proof. intros [Hc Hl Hf Ha Hr]. by split; split. Qed.
Lemma start_selection_here_ok c : composer_ok c -> composer_ok (start_selection_here c).
Proof.
  intros [Hc Hl Hf Ha Hr]. pose proof (cursor_line_count c Hl) as Hlt. unfold start_selection_here. cbv zeta.
  split; try done. by intros a [= <-].
Qed.
Lemma clear_selection_composer_ok c : composer_ok c -> composer_ok (clear_body_selection c).2.
Proof. intros [Hc Hl Hf Ha Hr]. by apply clear_body_selection_ok. Qed.
Lemma attach_input_ok v c : composer_ok c -> composer_ok (c <| c_attach_input := v |>).
Proof. intros [Hc Hl Hf Ha Hr]. by split. Qed.

Lemma compose_step_ok c c' : compose_step c c' -> composer_ok c -> composer_ok c'.
Proof.
  intros Hs H. destruct Hs.
  - by apply key_edits.
  - pose proof (proj1 (key_edits KeyNewline c H)) as Hn. unfold run_key in Hn.
    destruct (decide (c_focused c = FBody)) as [E|E]; [done|]. unfold composer_enter.
    destruct (decide _); [done|]. by apply refocus_ok.
  - by apply refocus_ok.
  - by apply refocus_ok.
  - destruct (decide (c_focused c = FBody)); [by apply body_line_moved_ok|].
    unfold move_body_line. by rewrite bool_decide_eq_false_2.
  - unfold toggle_body_line_selection. destruct (negb _); [done|].
    destruct (bool_decide _); [by apply clear_selection_composer_ok|by apply start_selection_here_ok].
  - unfold start_body_line_selection. destruct (_ || _); [done|by apply start_selection_here_ok].
  - by apply clear_selection_composer_ok.
  - unfold push_compose_attach_char. destruct (_ || _); [done|by apply attach_input_ok].
  - unfold backspace_compose_attach. destruct (string_pop _); [by apply attach_input_ok|done].
  - by apply remove_attachment_ok.
  - unfold move_compose_attachment_selection. destruct (_ =? 0); [done|]. destruct H as [Hc Hl Hf Ha Hr].
    split; try done. apply move_in_range.
Qed.

(** ** Operations of a line or two *)

Lemma cache_changed c s : cache_ok c -> ui_ok s -> ui_ok (s <| s_folder_cache := c |>).
Proof. intros Hc H. ui_frame H. exact Hc. Qed.
Lemma lookup_ok account folder now s : ui_ok s -> ui_ok (folder_cache_lookup account folder now s).2.
Proof. intros H. apply cache_changed; [apply cache_lookup_ok, H|done]. Qed.
Lemma folder_store_ok account folder now s : ui_ok s -> ui_ok (folder_cache_store account folder now s).
Proof. apply (store_ok (Some account) (Some folder)). Qed.
Lemma invalidate_folder_ok account folder s : ui_ok s -> ui_ok (folder_cache_invalidate_folder account folder s).
Proof. intros H. apply cache_changed; [apply cache_sub_ok; [apply H|apply filter_sublist]|done]. Qed.
Lemma invalidate_account_ok account s : ui_ok s -> ui_ok (folder_cache_invalidate_account account s).
Proof. intros H. apply cache_changed; [apply cache_sub_ok; [apply H|apply filter_sublist]|done]. Qed.

Lemma push_limit v ch limit :
  is_control ch || at_limit v limit = false -> (N.of_nat (List.length (v ++ [ch])) <= limit)%N.
Proof. intros [_ E]%orb_false_iff. unfold at_limit, char_count in E. brefl. rewrite length_app. cbn. lia. Qed.
Lemma removelast_length {A} (l : list A) : List.length (removelast l) = List.length l - 1.
Proof. induction l as [|x [|y l] IH]; [done|done|]. cbn [removelast List.length] in *. lia. Qed.
Lemma pop_limit v w limit :
  string_pop v = Some w -> (N.of_nat (List.length v) <= limit -> N.of_nat (List.length w) <= limit)%N.
Proof.
  unfold string_pop. destruct v as [|x v]; [done|]. intros E.
  assert (w = removelast (x :: v)) as -> by congruence. rewrite removelast_length. lia.
Qed.

Lemma quick_search_ok s : ui_ok s -> ui_ok (enter_quick_search s).
Proof.
  intros H. unfold enter_quick_search. apply status_ok, error_ok, mode_ok, search_input_ok; [cbn; lia|]. by apply previous_pane_ok.
Qed.
Lemma search_char_ok ch s : ui_ok s -> ui_ok (push_search_char ch s).2.
Proof.
  intros H. unfold push_search_char. destruct (_ || _) eqn:E; [exact H|]. by apply search_input_ok; [apply push_limit|].
Qed.
Lemma search_backspace_ok s : ui_ok s -> ui_ok (backspace_search s).2.
Proof.
  intros H. unfold backspace_search. destruct (string_pop _) as [v|] eqn:E; [|exact H].
  apply search_input_ok; [|done]. eapply pop_limit; [exact E|apply H].
Qed.
Lemma search_finish_ok s : ui_ok s -> ui_ok (finish_quick_search s).2.
Proof. intros H. apply search_input_ok; [cbn; lia|by apply mode_ok]. Qed.
Lemma search_cancel_ok s :
  pane_visible s (s_search_input_previous_pane s) = true -> ui_ok s -> ui_ok (cancel_quick_search s).
Proof.
  intros Hp H. unfold cancel_quick_search. cbv zeta. apply status_ok.
  set (t := clear_error _). assert (Ht : ui_ok t) by (apply error_ok, search_input_ok; [cbn; lia|by apply mode_ok]).
  assert (Hv : pane_visible t (s_search_input_previous_pane t) = true) by (by apply (pane_carry _ _ _ Hp)).
  clearbody t. apply focus_ok; [apply Ht|done].
Qed.

Lemma command_ok s : ui_ok s -> ui_ok (enter_command_mode s).
Proof. intros H. apply status_ok, error_ok, command_input_ok; [cbn; lia|by apply mode_ok]. Qed.
Lemma command_cancel_ok s : ui_ok s -> ui_ok (cancel_command_mode s).
Proof. intros H. apply status_ok, error_ok, command_input_ok; [cbn; lia|by apply mode_ok]. Qed.
Lemma command_finish_ok s : ui_ok s -> ui_ok (finish_command s).2.
Proof. intros H. apply command_input_ok; [cbn; lia|by apply mode_ok]. Qed.
Lemma command_char_ok ch s : ui_ok s -> ui_ok (push_command_char ch s).2.
Proof.
  intros H. unfold push_command_char. destruct (_ || _) eqn:E; [exact H|]. by apply command_input_ok; [apply push_limit|].
Qed.
Lemma command_backspace_ok s : ui_ok s -> ui_ok (backspace_command s).2.
Proof.
  intros H. unfold backspace_command. destruct (string_pop _) as [v|] eqn:E; [|exact H].
  apply command_input_ok; [|done]. eapply pop_limit; [exact E|apply H].
Qed.

Lemma pending_ok m d s : m = None \/ d = None -> ui_ok s ->
  ui_ok (s <| s_pending_delete_message := m |> <| s_pending_delete_draft := d |>).
Proof. intros Hd H. ui_frame H. exact Hd. Qed.
Lemma draft_delete_ok id s : ui_ok s -> ui_ok (begin_draft_delete id s).
Proof. intros H. apply mode_ok, pending_ok; [by left|done]. Qed.
Lemma no_draft_delete_ok s : ui_ok s -> ui_ok (s <| s_pending_delete_draft := None |>).
Proof. intros H. ui_frame H. by right. Qed.
Lemma no_message_delete_ok s : ui_ok s -> ui_ok (s <| s_pending_delete_message := None |>).
Proof. intros H. ui_frame H. by left. Qed.
Lemma keep_draft_ok s : ui_ok s -> ui_ok (cancel_pending_delete_draft s).
Proof.
  intros H. unfold cancel_pending_delete_draft. cbv zeta. apply no_draft_delete_ok in H. revert H.
  generalize (s <| s_pending_delete_draft := None |>). intros t H. destruct (decide _); [by apply mode_ok|done].
Qed.
Lemma draft_deleted_ok s : ui_ok s -> ui_ok (take_pending_delete_draft s).2.
Proof.
  intros H. unfold take_pending_delete_draft. cbv zeta. cbn [snd]. apply no_draft_delete_ok in H. revert H.
  generalize (s <| s_pending_delete_draft := None |>). intros t H. destruct (_ && _); [by apply mode_ok|done].
Qed.
Lemma delete_ok id s : ui_ok s -> ui_ok (begin_delete_confirmation id s).
Proof. intros H. apply status_ok, mode_ok. ui_frame H. by right. Qed.
Lemma keep_message_ok s : ui_ok s -> ui_ok (cancel_delete_confirmation s).
Proof. intros H. by apply status_ok, mode_ok, no_message_delete_ok. Qed.
Lemma deleted_ok s : ui_ok s -> ui_ok (take_pending_delete_message s).2.
Proof.
  intros H. unfold take_pending_delete_message. cbv zeta. cbn [snd]. apply no_message_delete_ok in H.
  destruct (bool_decide _); [by apply mode_ok|done].
Qed.

Lemma pending_open_ok a s : ui_ok s -> ui_ok (s <| s_pending_open_attachment := a |>).
Proof. intros H. ui_frame H. Qed.
Lemma open_attachment_ok s : ui_ok s -> ui_ok (begin_open_attachment_confirmation s).2.
Proof.
  intros H. unfold begin_open_attachment_confirmation. destruct (selected_attachment s); [by apply pending_open_ok|exact H].
Qed.
Lemma help_opened_ok s : ui_ok s -> ui_ok (open_help s).2.
Proof. intros H. unfold open_help. destruct (_ || _); [exact H|by apply help_ok]. Qed.
Lemma help_closed_ok s : ui_ok s -> ui_ok (close_help s).
Proof. apply help_ok. Qed.
Lemma help_toggle_ok s : ui_ok s -> ui_ok (toggle_help s).2.
Proof.
  intros H. unfold toggle_help. destruct (s_help_open s); [by apply help_closed_ok|by apply help_opened_ok].
Qed.

Lemma composer_changed c s : (forall d, c = Some d -> composer_ok d) -> ui_ok s -> ui_ok (s <| s_composer := c |>).
Proof. intros Hc H. ui_frame H. exact Hc. Qed.
Lemma open_composer_ok c s : composer_ok c -> ui_ok s -> ui_ok (open_composer c s).
Proof. intros Hc H. apply status_ok, error_ok, mode_ok, composer_changed; [|done]. by intros d [= <-]. Qed.
Lemma map_composer_ok f s : (forall c, composer_ok c -> composer_ok (f c)) -> ui_ok s -> ui_ok (map_composer f s).
Proof.
  intros Hf H. unfold map_composer. destruct (s_composer s) as [c|] eqn:E; [|done]. apply composer_changed; [|done].
  intros d [= <-]. apply Hf, (ui_composer s (proj1 H) c E).
Qed.
Lemma compose_attach_ok s : ui_ok s -> ui_ok (begin_compose_attach s).2.
Proof.
  intros H. unfold begin_compose_attach. destruct (bool_decide _); [exact H|]. cbn [snd].
  apply mode_ok, map_composer_ok; [apply attach_input_ok|done].
Qed.
Lemma no_attach_ok s : ui_ok s -> ui_ok (cancel_compose_attach s).
Proof. intros H. apply mode_ok, map_composer_ok; [apply attach_input_ok|done]. Qed.
Lemma attached_ok s : ui_ok s -> ui_ok (app_confirm_compose_attach s).2.
Proof.
  intros H. unfold app_confirm_compose_attach. destruct (s_composer s) as [c|] eqn:E; [|exact H]. cbv zeta. cbn [snd].
  assert (Ht : ui_ok (s <| s_composer := Some (confirm_compose_attach c).2 |>)).
  { apply composer_changed; [|done]. intros d [= <-]. apply confirm_attach_ok, (ui_composer s (proj1 H) c E). }
  destruct (is_ok _); [by apply mode_ok|done].
Qed.
Lemma saved_ok id s : ui_ok s -> ui_ok (mark_composer_saved id s).
Proof.
  intros H. apply (map_composer_ok (fun c => c <| c_draft_id := Some id |> <| c_dirty := false |>)); [|done].
  intros c [Hc Hl Hf Ha Hr]. by split.
Qed.
Lemma exit_ok s : ui_ok s -> ui_ok (exit_composer s).
Proof. intros H. by apply mode_ok, composer_changed. Qed.
Lemma approvals_pending_ok b s :
  ui_ok s -> ui_ok (s <| s_approvals := mkApprovals (as_items (s_approvals s)) (as_selected (s_approvals s)) b |>).
Proof. intros H. ui_frame H. Qed.
Lemma removed_toast_ok s : ui_ok s -> ui_ok (dismiss_newest_toast s).2.
Proof. apply fewer_toasts_ok. rewrite removelast_length. lia. Qed.
Lemma tick_ok now s : ui_ok s -> ui_ok (tick_toasts now s).
Proof. apply fewer_toasts_ok, filter_length_le. Qed.
Lemma cleared_toasts_ok s : ui_ok s -> ui_ok (clear_toasts s).2.
Proof. apply fewer_toasts_ok. cbn. lia. Qed.
Lemma refused_ok text now s : ui_ok s -> ui_ok (push_pane_refusal_toast text now s).
Proof. intros H. by apply status_ok, toast_once_ok. Qed.

(** ** Every step, every reachable state *)

#[local] Hint Resolve status_ok error_ok accounts_ok folders_ok messages_ok folder_messages_ok drafts_ok remove_draft_ok
  lookup_ok folder_store_ok invalidate_folder_ok invalidate_account_ok restore_folder_ok message_flags_ok
  remove_message_ok restore_list_ok select_account_ok select_folder_ok begin_approvals_ok jump_ok apply_approvals_ok
  merge_approval_ok move_approval_ok remove_selected_approval_ok remove_approval_ok begin_search_ok apply_hits_ok
  move_search_ok close_search_ok quick_search_ok search_char_ok search_backspace_ok search_finish_ok search_cancel_ok
  apply_detail_ok cache_detail_ok toggle_expansion_ok expand_all_ok move_conversation_ok detail_left_ok detail_right_ok
  detail_home_ok detail_end_ok detail_line_ok toggle_selection_ok start_selection_ok clear_selection_ok attachments_ok
  preview_ok no_preview_ok scroll_preview_ok preview_top_ok preview_bottom_ok preview_line_ok toggle_preview_ok clear_preview_ok
  focus_preview_ok defocus_preview_ok toggle_attachments_ok open_attachment_ok pending_open_ok move_selection_ok
  cycle_ok cycle_reverse_ok draft_delete_ok keep_draft_ok draft_deleted_ok delete_ok keep_message_ok deleted_ok
  push_toast_ok toast_once_ok sync_state_ok refused_ok removed_toast_ok cleared_toasts_ok tick_ok help_toggle_ok help_opened_ok help_closed_ok
  help_scroll_ok theme_ok command_ok approvals_pending_ok command_input_ok command_char_ok command_backspace_ok command_cancel_ok command_finish_ok
  open_composer_ok composer_new_ok from_prefill_ok from_existing_draft_ok compose_attach_ok no_attach_ok attached_ok
  saved_ok exit_ok mode_ok : ui.

Lemma ui_step_ok s s' : ui_step s s' -> ui_ok s -> ui_ok s'.
Proof.
  intros Hs H. destruct Hs; try solve [ auto with ui ].
  - by apply error_ok.
  - by apply error_ok.
  - by apply pending_open_ok.
  - by apply pending_open_ok.
  - by apply push_toast_ok.
  - by apply toast_once_ok.
  - by apply help_scroll_ok.
  - by apply help_scroll_ok.
  - by apply help_scroll_ok.
  - by apply help_scroll_ok.
  - by apply theme_ok.
  - by apply open_composer_ok, H; apply composer_new_ok.
  - by apply open_composer_ok, H; apply from_prefill_ok.
  - by apply open_composer_ok, H; apply from_existing_draft_ok.
  - apply composer_changed; [|done]. intros d [= <-]. eapply compose_step_ok; [done|]. by apply (ui_composer s (proj1 H)).
  - by apply status_ok, error_ok, exit_ok.
  - by apply status_ok, mode_ok.
  - by apply status_ok, mode_ok.
Qed.

Lemma steps_ok s s' : ui_ok s -> rtc ui_step s s' -> ui_ok s'.
Proof. intros H Hr. induction Hr as [|s1 s2 s3 Hs Hr IH]; [done|]. apply IH. by eapply ui_step_ok. Qed.

(** Whatever the user does and the daemon answers, the terminal interface
    is consistent: every selection points at a row of its list, the focus is on
    a pane that is shown, the conversations are the grouping of the folder's
    messages, the approvals are newest first, prompts, toasts and the folder
    cache stay within their bounds, the cache holds one snapshot for a folder,
    at most one deletion awaits confirmation, the preview has the keys only
    while there is one, and the composer's cursors lie in its texts. *)
Theorem reachable_interface_consistent s : ui_reachable s -> ui_ok s.
Proof.
  intros Hr. by eapply steps_ok; [apply default_ok|].
Qed.
End steps.

(** ** Rolling back an optimistic removal *)

(** The message rows are those of the selected conversation. *)
Definition shows_selected_thread (s : AppState) : Prop := s_messages s = visible_messages s.

Lemma normalize_lists s :
  exists p, normalize_active_pane s = s <| s_active := p |>.
Proof. eexists. apply normalize_settles. Qed.

Definition same_folder_view (s s' : AppState) : Prop :=
  s_folders s' = s_folders s /\ s_selected_folder s' = s_selected_folder s.

(** What a removal does to the folder shown: nothing. *)
Lemma remove_message_folder id now s : same_folder_view s (remove_message_locally id now s).2.
Proof.
  unfold remove_message_locally. cbv zeta. destruct (_ =? _); [done|]. cbn [snd].
  set (t := refresh_visible_messages _).
  assert (Ht : same_folder_view s t).
  { unfold t. destruct (refresh_view (rebuild_threads (selected_thread_key s)
      (s <| s_folder_messages := List.filter (fun m => negb (mi_id m =? id)%N) (s_folder_messages s) |>))) as (_ & H1 & H2 & _).
    destruct (rebuild_view (selected_thread_key s)
      (s <| s_folder_messages := List.filter (fun m => negb (mi_id m =? id)%N) (s_folder_messages s) |>)) as (_ & H3 & H4 & _).
    split; [by rewrite H1, H3|by rewrite H2, H4]. }
  clearbody t. set (u := match s_detail t with Some _ => _ | None => t end).
  assert (Hu : same_folder_view s u).
  { unfold u. destruct (s_detail t); [|done]. destruct (_ =? _)%N; [|done].
    destruct (clear_detail_form t) as (p & -> & _). exact Ht. }
  clearbody u. destruct (normalize_lists u) as [p ->].
  match goal with |- same_folder_view s (store_selected_folder_cache ?a ?f now ?w) =>
    destruct (store_view a f now w) as (_ & H1 & H2 & _) end.
  split; [rewrite H1|rewrite H2]; apply Hu.
Qed.

(** The rows of the thread a key names. *)
Definition rows_of (key : option Id) (ms : list MessageItem) : list MessageItem :=
  match key with
  | Some key => sort_messages_oldest_first (List.filter (fun m => (message_thread_key m =? key)%N) ms)
  | None => []
  end.

Lemma restore_lists snap now s :
  let s' := restore_message_list_snapshot snap now s in
  let threads := build_threads (ls_folder_messages snap) in
  let thread := clamp_index (ls_selected_thread snap) (List.length threads) in
  let rows := rows_of (ti_key <$> threads !! thread) (ls_folder_messages snap) in
  s_folder_messages s' = ls_folder_messages snap /\ s_threads s' = threads /\ s_selected_thread s' = thread /\
  s_messages s' = rows /\ s_selected_message s' = clamp_index (ls_selected_message snap) (List.length rows) /\
  same_folder_view s s'.
Proof.
  cbv zeta. unfold restore_message_list_snapshot. cbv zeta.
  destruct (rebuild_threads_form None (s <| s_folder_messages := ls_folder_messages snap |>)) as (i & -> & _).
  set (t := (s <| s_folder_messages := _ |>) <| s_threads := _ |> <| s_selected_thread := i |> <| s_selected_thread := _ |>).
  destruct (refresh_form t) as (j & -> & _).
  set (u := t <| s_messages := _ |> <| s_selected_message := j |> <| s_selected_message := _ |>).
  destruct (normalize_lists u) as [p ->].
  match goal with |- context [ store_selected_folder_cache ?a ?f now ?w ] =>
    destruct (store_form a f now w) as (c & -> & _) end.
  split_and!; try reflexivity. by split.
Qed.

(** A removal shown before the daemon confirmed it can be taken back: restoring
    the snapshot taken before it, over any state that
    shows the same folder, returns the messages, the conversations, the rows and
    the selection. *)
Lemma restored_view now s t :
  ui_ok s -> shows_selected_thread s -> ui_ok t -> same_folder_view s t ->
  let s' := restore_message_list_snapshot (snapshot_message_list s) now t in
  s_folder_messages s' = s_folder_messages s /\ s_threads s' = s_threads s /\
  s_selected_thread s' = s_selected_thread s /\ s_messages s' = s_messages s /\
  selected_message_id s' = selected_message_id s /\ ui_ok s'.
Proof.
  intros H Hv Hr [F1 F2]. cbv zeta.
  destruct (restore_lists (snapshot_message_list s) now t) as (H1 & H2 & H3 & H4 & H5 & F3 & F4).
  cbn [snapshot_message_list ls_folder_messages ls_selected_thread ls_selected_message] in *.
  pose proof (restore_list_ok (snapshot_message_list s) now t Hr) as Hok.
  set (s' := restore_message_list_snapshot _ now t) in *. clearbody s'.
  rewrite <- (ui_threads s (proj1 H)) in *.
  rewrite (clamp_of_range _ _ (ui_thread s (proj1 H))) in *.
  assert (Hm : s_messages s' = s_messages s) by (rewrite H4, Hv; reflexivity).
  split_and!; try done. unfold selected_message_id, selected_message, approvals_folder_selected, selected_folder.
  rewrite F3, F4, F1, F2, Hm, H5, <- H4, Hm. repeat f_equal.
  destruct (ui_message s (proj1 H)) as [E|Hlt]; [by rewrite E|]. by rewrite clamp_of_range by (by left).
Qed.

(** ** The Tab key *)

(** The next pane of those that [v] shows, from [a]. *)
Fixpoint next_shown (v : ActivePane -> bool) (step : ActivePane -> ActivePane) (a : ActivePane) (rounds : nat)
    (p : ActivePane) : ActivePane :=
  match rounds with
  | O => a
  | S k => if v (step p) then step p else next_shown v step a k (step p)
  end.
(** Three of the six are always shown. *)
Definition shown (details attachments search : bool) (p : ActivePane) : bool :=
  match p with
  | PDetails => details
  | PAttachments => attachments
  | PSearch => search
  | PAccounts | PFolders | PConversations => true
  end.
Definition shown_in (s : AppState) : ActivePane -> bool :=
  shown (detail_pane_visible s) (attachments_pane_visible s) (search_pane_visible s).
Lemma visible_shown s p : pane_visible s p = shown_in s p.
Proof. by destruct p. Qed.
Lemma visible_from_shown step s a rounds p :
  visible_from step (s <| s_active := a |>) rounds p = next_shown (shown_in s) step a rounds p.
Proof.
  revert p. induction rounds as [|k IH]; intros p; cbn [visible_from next_shown]; [done|].
  rewrite (pane_frame s), visible_shown by done. destruct (shown_in s (step p)); [done|apply IH].
Qed.
Lemma cycle_shown s a :
  cycle_active_pane (s <| s_active := a |>) = s <| s_active := next_shown (shown_in s) pane_next a 6 a |>.
Proof. unfold cycle_active_pane, next_visible_pane. by rewrite visible_from_shown. Qed.
Lemma cycle_reverse_shown s a :
  cycle_active_pane_reverse (s <| s_active := a |>) = s <| s_active := next_shown (shown_in s) pane_previous a 6 a |>.
Proof. unfold cycle_active_pane_reverse, previous_visible_pane. by rewrite visible_from_shown. Qed.
Lemma iter_cycle_shown s n a :
  Nat.iter n cycle_active_pane (s <| s_active := a |>) =
  s <| s_active := Nat.iter n (fun a => next_shown (shown_in s) pane_next a 6 a) a |>.
Proof. induction n as [|n IH]; [done|]. by rewrite !Nat.iter_succ, IH, cycle_shown. Qed.

(** Going around the ring. *)
Definition reached_in (v : ActivePane -> bool) (a p : ActivePane) : option nat :=
  List.find (fun n => bool_decide (Nat.iter n (fun a => next_shown v pane_next a 6 a) a = p)) (seq 0 6).
Lemma ring_of_panes d t q a (v := shown d t q) :
  v a = true ->
  next_shown v pane_previous (next_shown v pane_next a 6 a) 6 (next_shown v pane_next a 6 a) = a /\
  next_shown v pane_next (next_shown v pane_previous a 6 a) 6 (next_shown v pane_previous a 6 a) = a /\
  forall p, v p = true -> exists n, n <= 5 /\ Nat.iter n (fun a => next_shown v pane_next a 6 a) a = p.
Proof.
  intros Ha. split_and!; [by destruct d, t, q, a..|]. intros p Hp.
  destruct (reached_in v a p) as [n|] eqn:E; [|by destruct d, t, q, a, p].
  apply find_some in E as [Hn E]. apply in_seq in Hn. brefl. exists n. split; [lia|done].
Qed.

(** Tab and Shift-Tab go around the panes that are shown: each undoes the
    other, and pressing Tab at most five times reaches every pane that is
    shown. *)
Theorem tab_visits_shown_panes s :
  pane_visible s (s_active s) = true ->
  cycle_active_pane_reverse (cycle_active_pane s) = s /\ cycle_active_pane (cycle_active_pane_reverse s) = s /\
  forall p, pane_visible s p = true -> exists n, n <= 5 /\ Nat.iter n cycle_active_pane s = s <| s_active := p |>.
Proof.
  intros Hs. rewrite visible_shown in Hs. destruct (ring_of_panes _ _ _ _ Hs) as (H1 & H2 & H3). fold (shown_in s) in H1, H2, H3.
  split_and!.
  - rewrite <- (set_same_active s) at 1. by rewrite cycle_shown, cycle_reverse_shown, H1, set_same_active.
  - rewrite <- (set_same_active s) at 1. by rewrite cycle_reverse_shown, cycle_shown, H2, set_same_active.
  - intros p Hp. rewrite visible_shown in Hp. destruct (H3 p Hp) as (n & Hn & E). exists n. split; [done|].
    rewrite <- (set_same_active s) at 1. by rewrite iter_cycle_shown, E.
Qed.
