(* ===== verification/TuiCache.v ===== *)
(** * The folder cache of the terminal interface as a map

    A cache of at most six snapshots, least recently used first, with a time
    to live.  Against the map from folders to the snapshot last stored and not
    invalidated since: what the cache answers is in the map and recent, and a
    snapshot is found again while fewer than six other folders were visited. *)

From stdpp Require Import gmap.
From S2P Require Import Prelude RustStr Json MailParser DbCore McpTools McpModels Config TuiText TuiComposer TuiItems TuiApprovals TuiApp TuiConversations TuiInvariant.
#[local] Open Scope nat_scope.
#[local] Open Scope bool_scope.

(** ** Operations *)

Inductive cache_op : Type :=
| OpStore (account folder : Id) (snapshot : FolderSnapshot) (now : Z)
| OpLookup (account folder : Id) (now : Z)
| OpInvalidateFolder (account folder : Id)
| OpInvalidateAccount (account : Id)
| OpRetain (accounts : list Id).

Definition run_op (c : FolderMessageCache) (o : cache_op) : FolderMessageCache :=
  match o with
  | OpStore account folder snapshot now => cache_store account folder snapshot now c
  | OpLookup account folder now => (cache_lookup account folder now c).2
  | OpInvalidateFolder account folder => cache_invalidate_folder account folder c
  | OpInvalidateAccount account => cache_invalidate_account account c
  | OpRetain accounts => cache_retain_accounts accounts c
  end.
Definition run_ops : list cache_op -> FolderMessageCache -> FolderMessageCache := flip (foldl run_op).

(** ** The map *)

Notation SnapshotMap := (gmap (N * N) (FolderSnapshot * Z)).
Definition map_op (m : SnapshotMap) (o : cache_op) : SnapshotMap :=
  match o with
  | OpStore account folder snapshot now => <[(account, folder) := (snapshot, now)]> m
  | OpLookup _ _ _ => m
  | OpInvalidateFolder account folder => delete (account, folder) m
  | OpInvalidateAccount account => filter (fun e => e.1.1 <> account) m
  | OpRetain accounts => filter (fun e => e.1.1 ∈ accounts) m
  end.
Definition map_ops : list cache_op -> SnapshotMap -> SnapshotMap := flip (foldl map_op).

Definition entry_key (e : FolderCacheEntry) : N * N := (ce_account_id e, ce_folder_id e).
Definition entry_in (m : SnapshotMap) (e : FolderCacheEntry) : Prop :=
  m !! entry_key e = Some (ce_snapshot e, ce_stored_at e).

(** The cache holds only what the map holds. *)
Definition cache_of (c : FolderMessageCache) (m : SnapshotMap) : Prop :=
  cache_ok c /\ fc_ttl c = FOLDER_CACHE_TTL /\ Forall (entry_in m) (fc_entries c).

Lemma forall_sublist {A} (P : A -> Prop) k l : sublist k l -> Forall P l -> Forall P k.
Proof. intros Hs Hl. apply Forall_forall. intros x Hx. rewrite Forall_forall in Hl. eapply Hl, elem_of_sublist; done. Qed.

Lemma entry_for_key account folder e : entry_for account folder e = bool_decide (entry_key e = (account, folder)).
Proof.
  unfold entry_for, entry_key. destruct (N.eqb_spec (ce_account_id e) account), (N.eqb_spec (ce_folder_id e) folder); cbn;
    symmetry; first [ apply bool_decide_eq_true_2; congruence | apply bool_decide_eq_false_2; congruence ].
Qed.

(** The entries left after the one of a folder is taken out. *)
Definition others (account folder : Id) (c : FolderMessageCache) : list FolderCacheEntry :=
  match entry_index account folder c with
  | Some index => remove_nth index (fc_entries c)
  | None => fc_entries c
  end.
Lemma others_sub account folder c : sublist (others account folder c) (fc_entries c).
Proof. unfold others. destruct (entry_index _ _ _); [apply remove_nth_sub|done]. Qed.
Lemma others_differ account folder c :
  cache_ok c -> Forall (fun e => entry_key e <> (account, folder)) (others account folder c).
Proof.
  intros Hok. assert (H : Forall (fun e => entry_for account folder e = false) (others account folder c)).
  { unfold others. destruct (entry_index account folder c) as [i|] eqn:Hi; [by apply removed_absent|by apply position_none]. }
  eapply Forall_impl; [exact H|]. intros e He. cbn beta in He. rewrite entry_for_key in He. by brefl.
Qed.

Lemma store_entries account folder snapshot now c :
  cache_ok c -> fc_entries (cache_store account folder snapshot now c) =
    drop (S (List.length (others account folder c)) - FOLDER_CACHE_CAPACITY) (others account folder c)
      ++ [mkCacheEntry account folder snapshot now].
Proof.
  intros (Hc & _). unfold cache_store, others, pop_to_capacity. cbv zeta.
  destruct (entry_index account folder c); cbn [fc_capacity with_entries]; by rewrite Hc.
Qed.
Lemma store_ttl account folder snapshot now c : fc_ttl (cache_store account folder snapshot now c) = fc_ttl c.
Proof. unfold cache_store. cbv zeta. destruct (entry_index _ _ _); cbn; by case_match. Qed.

(** A lookup: nothing there, an expired entry dropped, or a hit moved to the end. *)
Lemma lookup_cases account folder now c :
  cache_ok c ->
  (cache_lookup account folder now c = (None, c) /\ Forall (fun e => entry_key e <> (account, folder)) (fc_entries c)) \/
  (exists e, e ∈ fc_entries c /\ entry_key e = (account, folder) /\
     if decide (fc_ttl c < since now (ce_stored_at e))%Z
     then cache_lookup account folder now c = (None, with_entries (others account folder c) c)
     else cache_lookup account folder now c =
            (Some (ce_snapshot e), with_entries (others account folder c ++ [e]) c)).
Proof.
  intros Hok. unfold cache_lookup. pose proof (others_differ account folder c Hok) as Ho. unfold others in *.
  destruct (entry_index account folder c) as [i|] eqn:Hi; [|by left].
  destruct (position_some _ _ _ Hi) as (e & He & Hf & _). rewrite He. right. exists e.
  rewrite entry_for_key in Hf. brefl. split_and!; [by eapply list_elem_of_lookup_2|done|]. cbv zeta.
  destruct (decide _) as [Hl|Hl].
  - by rewrite (proj2 (Z.ltb_lt _ _) Hl).
  - by rewrite (proj2 (Z.ltb_ge _ _)) by lia.
Qed.

Lemma others_filter account folder c :
  cache_ok c -> others account folder c = List.filter (fun e => negb (entry_for account folder e)) (fc_entries c).
Proof.
  intros Hok. assert (Hall : forall l, Forall (fun e => entry_for account folder e = false) l ->
    List.filter (fun e => negb (entry_for account folder e)) l = l).
  { induction 1 as [|x l Hx Hl IH]; cbn; [done|]. by rewrite Hx, IH. }
  unfold others. destruct (entry_index account folder c) as [i|] eqn:Hi; [|symmetry; by apply Hall, position_none].
  pose proof (removed_absent account folder c i Hok Hi) as Hr. unfold remove_nth in *.
  destruct (position_some _ _ _ Hi) as (x & Hx & Hf & Ht). apply Forall_app in Hr as [Hr1 Hr2].
  rewrite <- (take_drop_middle _ _ _ Hx) at 3. rewrite List.filter_app. cbn [List.filter]. rewrite Hf. cbn [negb].
  by rewrite !Hall.
Qed.

(** ** Nothing stale *)

Lemma entry_in_insert m k v e : entry_key e <> k -> entry_in m e -> entry_in (<[k := v]> m) e.
Proof. intros Hk He. unfold entry_in. by rewrite lookup_insert_ne. Qed.

Lemma cache_of_sub entries c m m' :
  cache_of c m -> sublist entries (fc_entries c) -> Forall (entry_in m') entries -> cache_of (with_entries entries c) m'.
Proof. intros (Hok & Ht & _) Hs He. split_and!; [by apply cache_sub_ok|done|done]. Qed.

(** Entries that pass the test survive in both. *)
Lemma cache_of_filter (f : FolderCacheEntry -> bool) c m m' :
  cache_of c m -> (forall e, f e = true -> entry_in m e -> entry_in m' e) ->
  cache_of (with_entries (List.filter f (fc_entries c)) c) m'.
Proof.
  intros Hc Hf. apply (cache_of_sub _ c m); [done|apply filter_sublist|]. destruct Hc as (_ & _ & He).
  rewrite Forall_forall in He |- *. intros e (Hin & Hp)%list_elem_of_In%List.filter_In. apply Hf; [done|].
  by apply He, list_elem_of_In.
Qed.

Lemma run_op_of c m o : cache_of c m -> cache_of (run_op c o) (map_op m o).
Proof.
  intros Hc. pose proof Hc as (Hok & Ht & He). destruct o as [a f snap now|a f now|a f|a|ids]; cbn [run_op map_op].
  - split_and!; [by apply cache_store_ok|by rewrite store_ttl|]. rewrite store_entries by done. apply Forall_app.
    split; [|constructor; [apply lookup_insert_eq|constructor]]. apply Forall_drop.
    pose proof (others_differ a f c Hok) as Hd. pose proof (forall_sublist _ _ _ (others_sub a f c) He) as Hm.
    rewrite Forall_forall in Hd, Hm |- *. intros e Hin. apply entry_in_insert; [by apply Hd|by apply Hm].
  - split_and!; [by apply cache_lookup_ok| |].
    + destruct (lookup_cases a f now c Hok) as [[-> _]|(e & _ & _ & Hl)]; [done|]. destruct (decide _); by rewrite Hl.
    + pose proof (forall_sublist _ _ _ (others_sub a f c) He) as Hm.
      destruct (lookup_cases a f now c Hok) as [[-> _]|(e & Hin & _ & Hl)]; [done|]. destruct (decide _); rewrite Hl; [done|].
      apply Forall_app. split; [done|]. constructor; [|constructor]. rewrite Forall_forall in He. by apply He.
  - apply (cache_of_filter _ c m); [done|]. intros e Hf Hm. unfold entry_in in *. rewrite lookup_delete_ne; [done|].
    unfold entry_key. intros [= Ha Hb]. by rewrite <- Ha, <- Hb, !N.eqb_refl in Hf.
  - apply (cache_of_filter _ c m); [done|]. intros e Hf Hm. unfold entry_in in *. apply map_lookup_filter_Some. split; [done|].
    cbn. intros Ha. by rewrite Ha, N.eqb_refl in Hf.
  - apply (cache_of_filter _ c m); [done|]. intros e Hf Hm. unfold entry_in in *. apply map_lookup_filter_Some. split; [done|].
    cbn. apply existsb_exists in Hf as (x & Hx & Hf). apply N.eqb_eq in Hf. rewrite Hf. by apply list_elem_of_In.
Qed.

Lemma run_ops_of ops c m : cache_of c m -> cache_of (run_ops ops c) (map_ops ops m).
Proof.
  revert c m. induction ops as [|o ops IH]; intros c m Hc; [done|]. apply (IH (run_op c o) (map_op m o)), run_op_of, Hc.
Qed.
Lemma default_cache_of : cache_of default_cache ∅.
Proof. repeat split; cbn; [lia|constructor|constructor]. Qed.

(** ** Recently used snapshots are kept *)

(** The folders an operation visits, and whether it leaves an entry alone. *)
Definition visits (o : cache_op) : list (N * N) :=
  match o with
  | OpStore account folder _ _ | OpLookup account folder _ => [(account, folder)]
  | _ => []
  end.
Definition spares (key : N * N) (stored_at : Z) (o : cache_op) : Prop :=
  match o with
  | OpStore account folder _ _ => (account, folder) <> key
  | OpLookup account folder now => (account, folder) = key -> (since now stored_at <= FOLDER_CACHE_TTL)%Z
  | OpInvalidateFolder account folder => (account, folder) <> key
  | OpInvalidateAccount account => account <> key.1
  | OpRetain accounts => key.1 ∈ accounts
  end.

(** [e] is cached, and whatever was used after it is in [seen]. *)
Definition kept (e : FolderCacheEntry) (seen : gset (N * N)) (l : list FolderCacheEntry) : Prop :=
  exists before after, l = before ++ e :: after /\ Forall (fun x => entry_key x ∈ seen) after.

Lemma kept_filter (f : FolderCacheEntry -> bool) e seen l : kept e seen l -> f e = true -> kept e seen (List.filter f l).
Proof.
  intros (before & after & -> & Ha) Hf. exists (List.filter f before), (List.filter f after). split.
  - rewrite List.filter_app. cbn. by rewrite Hf.
  - eapply forall_sublist; [apply filter_sublist|done].
Qed.
Lemma kept_more e seen seen' l : seen ⊆ seen' -> kept e seen l -> kept e seen' l.
Proof. intros Hs (before & after & -> & Ha). exists before, after. split; [done|]. eapply Forall_impl; [exact Ha|]. set_solver. Qed.
Lemma kept_snoc e x seen l : kept e seen l -> entry_key x ∈ seen -> kept e seen (l ++ [x]).
Proof.
  intros (before & after & -> & Ha) Hx. exists before, (after ++ [x]). rewrite <- app_assoc. split; [done|].
  apply Forall_app. by split; [|constructor].
Qed.
Lemma kept_last e seen l : kept e seen (l ++ [e]).
Proof. by exists l, []. Qed.

Lemma others_kept account folder e seen c :
  cache_ok c -> (account, folder) <> entry_key e -> kept e seen (fc_entries c) -> kept e seen (others account folder c).
Proof.
  intros Hok Hne Hk. rewrite others_filter by done. apply kept_filter; [done|]. rewrite entry_for_key.
  by rewrite bool_decide_eq_false_2 by congruence.
Qed.

Lemma NoDup_keys_inj {A B} (f : A -> B) l x y : NoDup (map f l) -> x ∈ l -> y ∈ l -> f x = f y -> x = y.
Proof.
  induction l as [|z l IH]; intros Hn Hx Hy E; [by apply not_elem_of_nil in Hx|]. cbn in Hn. apply NoDup_cons in Hn as [Hz Hn].
  assert (H : forall w, w ∈ l -> f w <> f z) by (intros w Hw Ew; apply Hz; rewrite <- Ew; by apply list_elem_of_fmap_2).
  apply elem_of_cons in Hx as [->|Hx], Hy as [->|Hy]; [done| | |by apply IH]; by edestruct H.
Qed.

(** Distinct keys among fewer than six. *)
Lemma few_keys (l : list FolderCacheEntry) (seen : gset (N * N)) :
  NoDup (map entry_key l) -> Forall (fun x => entry_key x ∈ seen) l -> List.length l <= size seen.
Proof.
  intros Hn Hl. rewrite <- (length_map entry_key), <- (size_list_to_set (C := gset (N * N)) (map entry_key l)) by done.
  apply subseteq_size. intros k (x & -> & Hx)%elem_of_list_to_set%list_elem_of_fmap. rewrite Forall_forall in Hl. by apply Hl.
Qed.

(** Making room spares an entry with few others after it. *)
Lemma kept_drop e seen key (l : list FolderCacheEntry) :
  kept e seen l -> NoDup (map entry_key l) -> Forall (fun x => entry_key x <> key) l -> List.length l <= FOLDER_CACHE_CAPACITY ->
  key ∈ seen -> size seen < FOLDER_CACHE_CAPACITY ->
  kept e seen (drop (S (List.length l) - FOLDER_CACHE_CAPACITY) l).
Proof.
  intros (before & after & -> & Ha) Hn Hd Hl Hk Hs. rewrite length_app in *. cbn [List.length] in *.
  assert (Hfew : S (List.length after) <= size seen).
  { rewrite map_app in Hn. apply NoDup_app in Hn as (_ & _ & Hn). cbn in Hn. apply NoDup_cons in Hn as [_ Hn].
    apply Forall_app in Hd as [_ Hd]. apply Forall_cons in Hd as [_ Hd].
    pose proof (few_keys after (seen ∖ {[ key ]}) Hn) as Hf. rewrite size_difference in Hf by set_solver.
    assert (Hpos : size ({[ key ]} : gset (N * N)) <= size seen) by (apply subseteq_size; set_solver).
    rewrite size_singleton in Hf, Hpos.
    cut (List.length after <= size seen - 1); [lia|]. apply Hf. rewrite Forall_forall in Ha, Hd |- *. intros x Hx. apply elem_of_difference.
    split; [by apply Ha|]. rewrite elem_of_singleton. by apply Hd. }
  exists (drop (S (List.length before + S (List.length after)) - FOLDER_CACHE_CAPACITY) before), after. split; [|done].
  rewrite drop_app_le; [done|]. unfold FOLDER_CACHE_CAPACITY in *. lia.
Qed.

Definition seen_by (ops : list cache_op) : gset (N * N) := list_to_set (ops ≫= visits).

Lemma run_op_kept e seen o c :
  cache_ok c -> fc_ttl c = FOLDER_CACHE_TTL -> spares (entry_key e) (ce_stored_at e) o ->
  kept e seen (fc_entries c) -> size (list_to_set (visits o) ∪ seen) < FOLDER_CACHE_CAPACITY ->
  kept e (list_to_set (visits o) ∪ seen) (fc_entries (run_op c o)).
Proof.
  intros Hok Ht Hsp Hk Hsize. pose proof Hok as (_ & Hlen & Hn).
  assert (Hk' : kept e (list_to_set (visits o) ∪ seen) (fc_entries c)) by (eapply kept_more; [|exact Hk]; set_solver).
  destruct o as [a f snap now|a f now|a f|a|ids]; cbn [run_op spares visits] in *.
  - rewrite store_entries by done. apply kept_snoc; [|set_solver]. pose proof (others_sub a f c) as Hs.
    apply (kept_drop _ _ (a, f)); [by apply others_kept| |by apply others_differ| |set_solver|done].
    + eapply sublist_NoDup; [exact Hn|]. by apply map_sublist.
    + etrans; [by apply sublist_length|done].
  - destruct (lookup_cases a f now c Hok) as [[-> _]|(x & Hx & Hkx & Hl)]; [done|].
    destruct (decide ((a, f) = entry_key e)) as [He|He].
    + assert (x = e) as ->.
      { destruct Hk as (before & after & E & _). rewrite E in Hx, Hn. eapply (NoDup_keys_inj entry_key); [exact Hn|done| |congruence].
        set_solver. }
      destruct (decide _) as [Hd|Hd]; [rewrite Ht in Hd; specialize (Hsp He); lia|]. rewrite Hl. apply kept_last.
    + destruct (decide _); rewrite Hl; cbn [snd fc_entries with_entries]; [by apply others_kept|].
      apply kept_snoc; [by apply others_kept|]. rewrite Hkx. set_solver.
  - apply kept_filter; [done|]. unfold entry_key in Hsp.
    destruct (N.eqb_spec (ce_account_id e) a), (N.eqb_spec (ce_folder_id e) f); cbn; congruence.
  - apply kept_filter; [done|]. apply negb_true_iff, N.eqb_neq. by intros Ha.
  - apply kept_filter; [done|]. apply existsb_exists. exists (ce_account_id e). split; [by apply list_elem_of_In|apply N.eqb_refl].
Qed.

Lemma run_ops_kept e seen ops c m :
  cache_of c m -> Forall (spares (entry_key e) (ce_stored_at e)) ops -> kept e seen (fc_entries c) ->
  size (seen_by ops ∪ seen) < FOLDER_CACHE_CAPACITY -> kept e (seen_by ops ∪ seen) (fc_entries (run_ops ops c)).
Proof.
  revert seen c m. induction ops as [|o ops IH]; intros seen c m Hc Hsp Hk Hsize.
  - by eapply kept_more; [|exact Hk]; set_solver.
  - inversion Hsp as [|? ? Ho Hops]; subst. destruct Hc as (Hok & Ht & He).
    assert (Hsub : (list_to_set (visits o) ∪ seen : gset (N * N)) ⊆ seen_by (o :: ops) ∪ seen)
      by (unfold seen_by; cbn; rewrite list_to_set_app; set_solver).
    assert (Heq : seen_by (o :: ops) ∪ seen = seen_by ops ∪ (list_to_set (visits o) ∪ seen)) by
      (apply leibniz_equiv; unfold seen_by; cbn; rewrite list_to_set_app; set_solver).
    rewrite Heq in *. eapply (IH _ (run_op c o)); [by apply (run_op_of _ m)|done| |done].
    apply run_op_kept; try done. eapply Nat.le_lt_trans; [apply subseteq_size, Hsub|done].
Qed.

Lemma kept_found e seen now c :
  cache_ok c -> fc_ttl c = FOLDER_CACHE_TTL -> kept e seen (fc_entries c) -> (since now (ce_stored_at e) <= FOLDER_CACHE_TTL)%Z ->
  (cache_lookup (ce_account_id e) (ce_folder_id e) now c).1 = Some (ce_snapshot e).
Proof.
  intros Hok Ht (before & after & E & _) Hl. destruct (lookup_cases (ce_account_id e) (ce_folder_id e) now c Hok) as [[_ Hd]|(x & Hx & Hkx & Hr)].
  - rewrite E, Forall_app, Forall_cons in Hd. destruct Hd as (_ & Hd & _). by destruct Hd.
  - assert (x = e) as ->.
    { eapply (NoDup_keys_inj entry_key (fc_entries c)); [apply Hok|done| |done]. rewrite E. set_solver. }
    destruct (decide _); [lia|]. by rewrite Hr.
Qed.

(** C27. The folder cache is a map of recent snapshots.  After any sequence of
    stores, lookups and invalidations, a snapshot it returns is the one last
    stored for that folder, not invalidated since and no older than its time to
    live; and a snapshot stored is returned, within its time to live, as long as
    it was neither replaced nor invalidated and fewer than six other folders
    were visited since. *)
Theorem folder_cache_refines_map pre post account folder snapshot stored_at now :
  let c := run_ops pre default_cache in
  (forall snap, (cache_lookup account folder now c).1 = Some snap ->
     exists t, map_ops pre ∅ !! (account, folder) = Some (snap, t) /\ (since now t <= FOLDER_CACHE_TTL)%Z) /\
  (Forall (spares (account, folder) stored_at) post ->
   size (seen_by post) < FOLDER_CACHE_CAPACITY -> (since now stored_at <= FOLDER_CACHE_TTL)%Z ->
   (cache_lookup account folder now (run_ops post (cache_store account folder snapshot stored_at c))).1 = Some snapshot).
Proof.
  cbv zeta. pose proof (run_ops_of pre _ _ default_cache_of) as Hc. split.
  - intros snap Hs. destruct Hc as (Hok & Ht & He).
    destruct (lookup_cases account folder now _ Hok) as [[Hl _]|(x & Hx & Hkx & Hl)]; [by rewrite Hl in Hs|].
    destruct (decide _) as [Hd|Hd]; rewrite Hl in Hs; [done|]. injection Hs as <-. exists (ce_stored_at x).
    rewrite Forall_forall in He. specialize (He x Hx). unfold entry_in in He. rewrite Hkx in He. split; [done|]. lia.
  - intros Hsp Hsize Hl. set (e := mkCacheEntry account folder snapshot stored_at).
    pose proof (run_op_of _ _ (OpStore account folder snapshot stored_at) Hc) as Hc'. cbn [run_op] in Hc'.
    assert (Hk : kept e ∅ (fc_entries (cache_store account folder snapshot stored_at (run_ops pre default_cache)))).
    { rewrite store_entries by apply Hc. apply kept_last. }
    assert (Heq : seen_by post ∪ ∅ = seen_by post) by (apply leibniz_equiv; set_solver).
    pose proof (run_ops_kept e ∅ post _ _ Hc' Hsp Hk) as Hp. rewrite Heq in Hp.
    destruct (run_ops_of post _ _ Hc') as (Hok & Ht & _). exact (kept_found e _ now _ Hok Ht (Hp Hsize) Hl).
Qed.
