(* ===== verification/TuiEvents.v ===== *)
(** * What the daemon's events do to the terminal interface (src/tui/mod.rs)

    [on_daemon_event] with its parsing of the payload.  An event shows toasts,
    updates the sync states, drops cached folders and maintains the approval
    list; the rest of the state is the user's. *)

From stdpp Require Import gmap relations.
From S2P Require Import Prelude RustStr Json MailParser DbCore McpTools McpModels IpcProtocol Config TuiText TuiComposer TuiEditing TuiItems TuiApprovals TuiApp TuiConversations TuiInvariant TuiSteps TuiCache.
#[local] Open Scope nat_scope.
#[local] Open Scope bool_scope.

Definition parse_sync_state_str (state : str) : option SyncStateUi :=
  if str_eqb state (lit "idle") then Some UiIdle
  else if str_eqb state (lit "polling") then Some UiPolling
  else if str_eqb state (lit "syncing") then Some UiSyncing
  else if str_eqb state (lit "error") then Some UiError
  else None.

Definition invalidate_event_folder_cache (account : Id) (folder : option Id) (s : AppState) : AppState :=
  match folder with
  | Some folder => folder_cache_invalidate_folder account folder s
  | None => folder_cache_invalidate_account account s
  end.

Section events.
Context {TP : TextParsers} {JC : JsonCodec} {UC : UnicodeCase} {CF : ComposeFiles}.

Definition parse_uuid_value (v : value) : option Id := as_str v ≫= uuid_parse_str.
Definition event_account (data : value) : option Id := vget data (lit "account_id") ≫= parse_uuid_value.
Definition event_folder (data : value) : option Id := vget data (lit "folder_id") ≫= parse_uuid_value.

(** [now] is the monotonic clock, [utc] the wall clock. *)
Definition on_daemon_event (e : Event) (now : Z) (utc : time) (s : AppState) : AppState :=
  let data := ev_data e in
  if str_eqb (ev_topic e) (lit "mail.new") then
    match event_account data with
    | Some account =>
        let folder := event_folder data in
        invalidate_event_folder_cache account folder (push_mail_new_toast account folder now s)
    | None => s
    end
  else if str_eqb (ev_topic e) (lit "mail.updated") then
    match event_account data with
    | Some account => invalidate_event_folder_cache account (event_folder data) s
    | None => s
    end
  else if str_eqb (ev_topic e) (lit "account.synced") then
    match event_account data with
    | Some account => folder_cache_invalidate_account account (push_account_synced_toast account now s)
    | None => s
    end
  else if str_eqb (ev_topic e) (lit "sync.state") then
    match event_account data with
    | None => s
    | Some account =>
        match (vget data (lit "state") ≫= as_str) ≫= parse_sync_state_str with
        | None => s
        | Some state => apply_sync_state account state (vget data (lit "last_error") ≫= as_str) now s
        end
    end
  else if str_eqb (ev_topic e) (lit "mcp.approval_requested") then
    match from_requested_event data utc with
    | Some approval => merge_approval_request approval s
    | None => s
    end
  else if str_eqb (ev_topic e) (lit "mcp.approval_decided") then
    match or_else (vget data (lit "approval_id")) (vget data (lit "id")) ≫= parse_uuid_value with
    | Some id => (remove_approval_by_id id s).2
    | None => s
    end
  else s.

(** ** The frame *)

(** Only toasts, sync states, the folder cache and the approvals differ. *)
Definition touches_notices (s s' : AppState) : Prop :=
  s' = s <| s_toasts := s_toasts s' |> <| s_next_toast_id := s_next_toast_id s' |>
         <| s_account_states := s_account_states s' |> <| s_folder_cache := s_folder_cache s' |>
         <| s_approvals := s_approvals s' |>.
Lemma touches_refl s : touches_notices s s.
Proof. by destruct s. Qed.
Lemma touches_trans s1 s2 s3 : touches_notices s1 s2 -> touches_notices s2 s3 -> touches_notices s1 s3.
Proof. unfold touches_notices. intros -> H. exact H. Qed.

Lemma touches_toast kind text now s : touches_notices s (push_toast kind text now s).2.
Proof. destruct (push_toast_form kind text now s) as (l & n & -> & _). by destruct s. Qed.
Lemma touches_toast_once kind text now window s : touches_notices s (toast_once kind text now window s).
Proof. destruct (toast_once_form kind text now window s) as (l & n & -> & _). by destruct s. Qed.
Lemma touches_cache c s : touches_notices s (s <| s_folder_cache := c |>).
Proof. by destruct s. Qed.
Lemma touches_approvals a s : touches_notices s (s <| s_approvals := a |>).
Proof. by destruct s. Qed.
Lemma touches_states m s : touches_notices s (s <| s_account_states := m |>).
Proof. by destruct s. Qed.
Lemma touches_invalidate account folder s : touches_notices s (invalidate_event_folder_cache account folder s).
Proof. destruct folder; apply touches_cache. Qed.
Lemma touches_sync account state err now s : touches_notices s (apply_sync_state account state err now s).
Proof.
  unfold apply_sync_state. cbv zeta. eapply touches_trans; [|apply touches_states].
  destruct (decide _); [apply touches_toast_once|apply touches_refl].
Qed.

Lemma event_touches e now utc s : touches_notices s (on_daemon_event e now utc s).
Proof.
  unfold on_daemon_event. cbv zeta. destruct (str_eqb _ _).
  { destruct (event_account _); [|apply touches_refl]. eapply touches_trans; [apply touches_toast|apply touches_invalidate]. }
  destruct (str_eqb _ _). { destruct (event_account _); [apply touches_invalidate|apply touches_refl]. }
  destruct (str_eqb _ _).
  { destruct (event_account _); [|apply touches_refl]. eapply touches_trans; [apply touches_toast_once|apply touches_cache]. }
  destruct (str_eqb _ _).
  { destruct (event_account _); [|apply touches_refl]. destruct (_ ≫= _); [apply touches_sync|apply touches_refl]. }
  destruct (str_eqb _ _). { destruct (from_requested_event _ _); [apply touches_approvals|apply touches_refl]. }
  destruct (str_eqb _ _); [|apply touches_refl]. destruct (_ ≫= _); [apply touches_approvals|apply touches_refl].
Qed.

(** ** An event is a few steps *)

Lemma event_steps e now utc s : rtc ui_step s (on_daemon_event e now utc s).
Proof.
  assert (Hi : forall account folder s, ui_step s (invalidate_event_folder_cache account folder s))
    by (intros ? [] ?; [apply step_invalidate_folder|apply step_invalidate_account]).
  unfold on_daemon_event. cbv zeta. destruct (str_eqb _ _).
  { destruct (event_account _); [|done]. eapply rtc_l; [apply step_mail_new|apply rtc_once, Hi]. }
  destruct (str_eqb _ _). { destruct (event_account _); [apply rtc_once, Hi|done]. }
  destruct (str_eqb _ _). { destruct (event_account _); [|done]. eapply rtc_l; [apply step_synced|apply rtc_once, step_invalidate_account]. }
  destruct (str_eqb _ _). { destruct (event_account _); [|done]. destruct (_ ≫= _); [|done]. apply rtc_once, step_sync. }
  destruct (str_eqb _ _). { destruct (from_requested_event _ _); [|done]. apply rtc_once, step_merge_approval. }
  destruct (str_eqb _ _); [|done]. destruct (_ ≫= _); [|done]. apply rtc_once, step_approval_decided.
Qed.

(** ** Changed folders are fetched again *)

Lemma absent_misses account folder now c :
  Forall (fun e => entry_for account folder e = false) (fc_entries c) -> (cache_lookup account folder now c).1 = None.
Proof.
  intros H. unfold cache_lookup, entry_index. destruct (position _ _) as [i|] eqn:E; [|done].
  destruct (position_some _ _ _ E) as (x & Hx & Hf & _). rewrite Forall_forall in H.
  specialize (H x (list_elem_of_lookup_2 _ _ _ Hx)). congruence.
Qed.
Lemma filtered_misses (f : FolderCacheEntry -> bool) account folder now c :
  (forall e, f e = true -> entry_for account folder e = false) ->
  (cache_lookup account folder now (with_entries (List.filter f (fc_entries c)) c)).1 = None.
Proof.
  intros Hf. apply absent_misses. apply Forall_forall. intros e (_ & He)%list_elem_of_In%List.filter_In. by apply Hf.
Qed.

(** The folder an event is about: the one it names, or any of the account. *)
Definition concerns (event : option Id) (folder : Id) : Prop := forall f, event = Some f -> f = folder.

Lemma invalidated_misses account event folder now s :
  concerns event folder -> (folder_cache_lookup account folder now (invalidate_event_folder_cache account event s)).1 = None.
Proof.
  intros Hc. destruct event as [f|]; cbn.
  - rewrite (Hc f eq_refl). apply filtered_misses. intros e He. unfold entry_for.
    by destruct (ce_account_id e =? account)%N, (ce_folder_id e =? folder)%N.
  - apply filtered_misses. intros e He. unfold entry_for. by destruct (ce_account_id e =? account)%N.
Qed.

(** An event of the daemon never takes the user's place away: it is a few
    steps of the interface that change only toasts, sync states, the folder
    cache and the approvals, so panes, selections, lists, prompts and the
    composer are untouched; and after an event that mail of a folder is new or
    was updated the cache has no snapshot of that folder. *)
Theorem events_keep_the_users_place e now utc s :
  let s' := on_daemon_event e now utc s in
  touches_notices s s' /\ rtc ui_step s s' /\
  (ui_reachable s -> ui_ok s') /\
  forall account folder later,
    ev_topic e = topic_as_str MailNew \/ ev_topic e = topic_as_str MailUpdated ->
    event_account (ev_data e) = Some account -> concerns (event_folder (ev_data e)) folder ->
    (folder_cache_lookup account folder later s').1 = None.
Proof.
  cbv zeta. split_and!; [apply event_touches|apply event_steps| |].
  - intros Hr. eapply steps_ok; [|apply event_steps]. by eapply steps_ok; [apply default_ok|].
  - intros account folder later Ht Ha Hc. unfold on_daemon_event. cbv zeta.
    destruct Ht as [-> | ->]; cbn [topic_as_str]; rewrite Ha.
    + rewrite (proj2 (str_eqb_eq _ _) eq_refl). by apply invalidated_misses.
    + rewrite (proj2 (str_eqb_neq (lit "mail.updated") (lit "mail.new"))) by done.
      rewrite (proj2 (str_eqb_eq _ _) eq_refl). by apply invalidated_misses.
Qed.

(** The cursor of the approval list is an index: a request that arrives while
    an older one is selected takes its place, and the older one is still
    listed. *)
Lemma new_request_takes_the_cursor (old new : ApprovalItem) s :
  as_items (s_approvals s) = [old] -> as_selected (s_approvals s) = 0 -> ap_id new <> ap_id old ->
  (ap_created_at old < ap_created_at new)%Z ->
  selected_approval s = Some old /\ selected_approval (merge_approval_request new s) = Some new /\
  old ∈ as_items (s_approvals (merge_approval_request new s)).
Proof.
  intros Hi Hs Hn Ht. unfold selected_approval, merge_approval_request, merge_approval_state. cbv zeta. rewrite Hi, Hs.
  cbn [replace_or_push]. rewrite (proj2 (N.eqb_neq _ _)) by done.
  assert (E : sorted_approvals [old; new] = [new; old]).
  { unfold sorted_approvals, sort_by, order_by. cbn. unfold approval_cmp.
    by rewrite (proj2 (Z.compare_gt_iff _ _) Ht). }
  rewrite E. cbn. split_and!; [done|done|]. set_solver.
Qed.
End events.
