(* ===== verification/TuiModes.v ===== *)
(** * Prompts and modes of the terminal interface

    Fetching and showing never touches the prompts: mode, composer and pending
    deletions are the same afterwards.  With that the modes stay meaningful: a
    compose mode has a composer, a delete confirmation has something to delete.
    [busy_ok] is what every operation outside quick search keeps. *)

From stdpp Require Import gmap relations.
From S2P Require Import Prelude RustStr Json McpTools McpModels MailParser DbCore Config TuiText TuiComposer TuiEditing TuiItems TuiApprovals TuiApp TuiConversations TuiInvariant TuiSteps TuiCache TuiEvents.
#[local] Open Scope nat_scope.
#[local] Open Scope bool_scope.

(** ** What fetching leaves alone *)

Definition prompt (s : AppState) : InputMode * option ComposerState * option Id * option Id :=
  (s_mode s, s_composer s, s_pending_delete_message s, s_pending_delete_draft s).

(** An update that leaves the prompts of every state alone does so inside a
    chain: no two chains of updates are compared. *)
Lemma update_prompt {E} (field : AppState -> E) `{!Update field} g x :
  (forall y, prompt (update field g y) = prompt y) -> prompt (update field g x) = prompt x.
Proof. auto. Qed.

(** The operations known to leave the prompts alone; extended below. *)
Ltac known_prompt := fail.

(** Go through the updates of a state that are not of its prompts. *)
Ltac prompt_tac :=
  repeat first
    [ known_prompt
    | match goal with
      | |- prompt (update _ _ ?x) = _ => transitivity (prompt x); [apply update_prompt; reflexivity|]
      | |- prompt (snd (_, ?x)) = ?r => change (prompt x = r)
      | |- prompt (if ?b then _ else _) = _ => destruct b
      | |- prompt (match ?o with Some _ => _ | None => _ end) = _ => destruct o
      | |- prompt (snd (if ?b then _ else _)) = _ => destruct b
      | |- prompt (snd (match ?o with Some _ => _ | None => _ end)) = _ => destruct o
      | |- prompt (snd (let '(_, _) := ?p in _)) = _ => destruct p
      | |- prompt (snd (match ?l with [] => _ | _ :: _ => _ end)) = _ => destruct l
      | |- prompt (snd (match ?a with PAccounts => _ | _ => _ end)) = _ => destruct a
      end ];
  try match goal with |- prompt ?x = prompt ?x => reflexivity end.

Section frames.
Context {UC : UnicodeCase} {CF : ComposeFiles}.

Lemma normalize_prompt s : prompt (normalize_active_pane s) = prompt s.
Proof. by rewrite normalize_settles. Qed.
Lemma rebuild_prompt key s : prompt (rebuild_threads key s) = prompt s.
Proof. unfold rebuild_threads. cbv zeta. prompt_tac. Qed.
Lemma refresh_prompt s : prompt (refresh_visible_messages s) = prompt s.
Proof. unfold refresh_visible_messages. cbv zeta. prompt_tac. Qed.
Lemma store_prompt account folder now s : prompt (store_selected_folder_cache account folder now s) = prompt s.
Proof. destruct (store_form account folder now s) as (c & -> & _). done. Qed.
#[local] Opaque normalize_active_pane rebuild_threads refresh_visible_messages store_selected_folder_cache.
Ltac known_prompt ::=
  match goal with
  | |- prompt (normalize_active_pane _) = _ => etransitivity; [apply normalize_prompt|]
  | |- prompt (rebuild_threads _ _) = _ => etransitivity; [apply rebuild_prompt|]
  | |- prompt (refresh_visible_messages _) = _ => etransitivity; [apply refresh_prompt|]
  | |- prompt (store_selected_folder_cache _ _ _ _) = _ => etransitivity; [apply store_prompt|]
  end.

Lemma clear_attachments_prompt s : prompt (clear_attachments s) = prompt s.
Proof. unfold clear_attachments, reset_preview_navigation_state. prompt_tac. Qed.
#[local] Opaque clear_attachments.
Lemma clear_detail_prompt s : prompt (clear_detail_state s) = prompt s.
Proof. unfold clear_detail_state, reset_detail_navigation_state. etransitivity; [apply clear_attachments_prompt|]. prompt_tac. Qed.
#[local] Opaque clear_detail_state.
Lemma clear_folder_prompt s : prompt (clear_folder_view s) = prompt s.
Proof. unfold clear_folder_view, clear_messages, clear_drafts. prompt_tac. etransitivity; [apply clear_detail_prompt|]. prompt_tac. Qed.
Lemma clear_account_prompt s : prompt (clear_account_view s) = prompt s.
Proof. unfold clear_account_view, clear_messages, clear_drafts. prompt_tac. etransitivity; [apply clear_detail_prompt|]. prompt_tac. Qed.
Lemma show_stack_prompt s : prompt (show_stack s) = prompt s.
Proof. unfold show_stack, place_detail_cursor_at_focused_message, reset_detail_navigation_state, rebuild_detail_text_cache. cbv zeta. prompt_tac. Qed.
Lemma flags_from_detail_prompt d now s : prompt (update_message_flags_from_detail d now s) = prompt s.
Proof. unfold update_message_flags_from_detail, store_if, refresh_threads, flag_lists. cbv zeta. prompt_tac. Qed.
Lemma toast_prompt kind text now s : prompt (push_toast kind text now s).2 = prompt s.
Proof. done. Qed.
Lemma toast_once_prompt kind text now window s : prompt (toast_once kind text now window s) = prompt s.
Proof. destruct (toast_once_form kind text now window s) as (l & n & -> & _). done. Qed.
#[local] Opaque clear_folder_view clear_account_view show_stack update_message_flags_from_detail push_toast toast_once.
Ltac known_prompt ::=
  match goal with
  | |- prompt (normalize_active_pane _) = _ => etransitivity; [apply normalize_prompt|]
  | |- prompt (rebuild_threads _ _) = _ => etransitivity; [apply rebuild_prompt|]
  | |- prompt (refresh_visible_messages _) = _ => etransitivity; [apply refresh_prompt|]
  | |- prompt (store_selected_folder_cache _ _ _ _) = _ => etransitivity; [apply store_prompt|]
  | |- prompt (clear_attachments _) = _ => etransitivity; [apply clear_attachments_prompt|]
  | |- prompt (clear_detail_state _) = _ => etransitivity; [apply clear_detail_prompt|]
  | |- prompt (clear_folder_view _) = _ => etransitivity; [apply clear_folder_prompt|]
  | |- prompt (clear_account_view _) = _ => etransitivity; [apply clear_account_prompt|]
  | |- prompt (show_stack _) = _ => etransitivity; [apply show_stack_prompt|]
  | |- prompt (update_message_flags_from_detail _ _ _) = _ => etransitivity; [apply flags_from_detail_prompt|]
  | |- prompt (snd (push_toast _ _ _ _)) = _ => etransitivity; [apply toast_prompt|]
  | |- prompt (toast_once _ _ _ _ _) = _ => etransitivity; [apply toast_once_prompt|]
  end.

(** ** The modes *)

Definition mode_means (s : AppState) : Prop :=
  match s_mode s with
  | MCompose | MComposeAttachPath | MConfirmDiscard => s_composer s <> None
  | MConfirmDelete => s_pending_delete_message s <> None \/ s_pending_delete_draft s <> None
  | MQuickSearch => pane_visible s (s_search_input_previous_pane s) = true
  | MNormal | MCommand => True
  end.
Definition loop_ok (s : AppState) : Prop := ui_ok s /\ mode_means s.
Definition busy_ok (s : AppState) : Prop := loop_ok s /\ s_mode s <> MQuickSearch.

Lemma busy_quiet s s' : ui_step s s' -> prompt s' = prompt s -> busy_ok s -> busy_ok s'.
Proof.
  intros Hs Hp ((H & Hm) & Hn). injection Hp as P1 P2 P3 P4. split; [split|].
  - by apply (ui_step_ok s).
  - unfold mode_means in *. rewrite P1, P2, P3, P4. destruct (s_mode s); try done.
  - by rewrite P1.
Qed.
(** A step into a mode that is not quick search. *)
Lemma busy_turn s s' : ui_step s s' -> s_mode s' <> MQuickSearch -> mode_means s' -> busy_ok s -> busy_ok s'.
Proof. intros Hs Hn Hm ((H & _) & _). split; [split|]; [by apply (ui_step_ok s)|done|done]. Qed.

(** ** Quiet operations *)

Ltac quiet step := intros; eapply busy_quiet; [by apply step| |done].

Lemma busy_status t s : busy_ok s -> busy_ok (set_status t s).
Proof. quiet step_status. done. Qed.
Lemma busy_error e s : busy_ok s -> busy_ok (set_error e s).
Proof. quiet step_error. done. Qed.
Lemma busy_clear_error s : busy_ok s -> busy_ok (clear_error s).
Proof. quiet step_clear_error. done. Qed.
Lemma busy_accounts l s : busy_ok s -> busy_ok (apply_accounts l s).
Proof. quiet step_accounts. unfold apply_accounts. cbv zeta. prompt_tac. Qed.
Lemma busy_folders l s : busy_ok s -> busy_ok (apply_folders l s).
Proof. quiet step_folders. unfold apply_folders. cbv zeta. prompt_tac. Qed.
Lemma busy_folder_messages l now s : busy_ok s -> busy_ok (apply_folder_messages l now s).
Proof. quiet step_folder_messages. unfold apply_folder_messages. cbv zeta. prompt_tac. Qed.
Lemma busy_drafts l s : busy_ok s -> busy_ok (apply_drafts l s).
Proof. quiet step_drafts. done. Qed.
Lemma busy_remove_draft id s : busy_ok s -> busy_ok (remove_draft_locally id s).2.
Proof. quiet step_remove_draft. unfold remove_draft_locally. cbv zeta. prompt_tac. Qed.
Lemma busy_lookup account folder now s : busy_ok s -> busy_ok (folder_cache_lookup account folder now s).2.
Proof. quiet step_lookup. done. Qed.
Lemma busy_invalidate account folder s : busy_ok s -> busy_ok (folder_cache_invalidate_folder account folder s).
Proof. quiet step_invalidate_folder. done. Qed.
Lemma busy_restore snap s : busy_ok s -> busy_ok (restore_folder_snapshot snap s).
Proof. quiet step_restore. unfold restore_folder_snapshot. cbv zeta. prompt_tac. Qed.
Lemma busy_flags id flags now s : busy_ok s -> busy_ok (apply_message_flags id flags now s).
Proof. quiet step_flags. unfold apply_message_flags, store_if, refresh_threads, flag_lists. cbv zeta. prompt_tac. Qed.
Lemma busy_remove id now s : busy_ok s -> busy_ok (remove_message_locally id now s).2.
Proof. quiet step_remove. unfold remove_message_locally. cbv zeta. prompt_tac. Qed.
Lemma busy_rollback snap now s : busy_ok s -> busy_ok (restore_message_list_snapshot snap now s).
Proof. quiet step_rollback. unfold restore_message_list_snapshot. cbv zeta. prompt_tac. Qed.
Lemma busy_select_account name s : busy_ok s -> busy_ok (select_account_by_name name s).2.
Proof. quiet step_select_account. unfold select_account_by_name. cbv zeta. prompt_tac. Qed.
Lemma busy_select_folder name s : busy_ok s -> busy_ok (select_folder_by_name name s).2.
Proof. quiet step_select_folder. unfold select_folder_by_name. cbv zeta. prompt_tac. Qed.
Lemma busy_approvals_folder s : busy_ok s -> busy_ok (begin_approvals s).
Proof. quiet step_approvals_folder. unfold begin_approvals, select_approvals_folder, clear_error. cbv zeta. prompt_tac. Qed.
Lemma busy_jump hit s : busy_ok s -> busy_ok (jump_to_hit hit s).2.
Proof. quiet step_jump. unfold jump_to_hit. cbv zeta. prompt_tac. Qed.
Lemma busy_approvals l s : busy_ok s -> busy_ok (apply_approvals l s).
Proof. quiet step_approvals. done. Qed.
Lemma busy_merge_approval a s : busy_ok s -> busy_ok (merge_approval_request a s).
Proof. quiet step_merge_approval. done. Qed.
Lemma busy_remove_approval s : busy_ok s -> busy_ok (remove_selected_approval s).2.
Proof. quiet step_remove_approval. done. Qed.
Lemma busy_search query scope s : busy_ok s -> busy_ok (begin_search query scope s).
Proof. quiet step_search. done. Qed.
Lemma busy_hits hits s : busy_ok s -> busy_ok (apply_search_hits hits s).
Proof. quiet step_hits. unfold apply_search_hits. prompt_tac. Qed.
Lemma busy_move_search delta s : busy_ok s -> busy_ok (move_search_selection delta s).2.
Proof. quiet step_move_search. unfold move_search_selection. cbv zeta. prompt_tac. Qed.
Lemma busy_close_search s : busy_ok s -> busy_ok (close_search s).
Proof. quiet step_close_search. unfold close_search. prompt_tac. Qed.
Lemma busy_detail d now s : busy_ok s -> busy_ok (apply_detail d now s).
Proof. quiet step_detail. unfold apply_detail. cbv zeta. prompt_tac. Qed.
Lemma busy_cache_detail d now s : busy_ok s -> busy_ok (cache_conversation_detail d now s).
Proof. quiet step_cache_detail. unfold cache_conversation_detail, rebuild_detail_text_cache. cbv zeta. prompt_tac. Qed.
Lemma busy_toggle_expansion s : busy_ok s -> busy_ok (toggle_focused_message_expansion s).2.
Proof.
  quiet step_toggle_expansion. unfold toggle_focused_message_expansion. destruct (stack_toggle_focused _ _) as [[e st]|]; prompt_tac.
Qed.
Lemma busy_expand_all s : busy_ok s -> busy_ok (expand_all_conversation_messages s).2.
Proof. quiet step_expand_all. unfold expand_all_conversation_messages. prompt_tac. Qed.
Lemma busy_conversation delta s : busy_ok s -> busy_ok (move_conversation_detail_focus delta s).2.
Proof. quiet step_conversation. unfold move_conversation_detail_focus. cbv zeta. prompt_tac. Qed.
Lemma busy_detail_left s : busy_ok s -> busy_ok (move_detail_cursor_left s).2.
Proof. quiet step_detail_left. unfold move_detail_cursor_left. prompt_tac. Qed.
Lemma busy_detail_right s : busy_ok s -> busy_ok (move_detail_cursor_right s).2.
Proof. quiet step_detail_right. unfold move_detail_cursor_right. prompt_tac. Qed.
Lemma busy_detail_home s : busy_ok s -> busy_ok (detail_home s).2.
Proof. quiet step_detail_home. unfold detail_home, set_detail_cursor. cbv zeta. prompt_tac. Qed.
Lemma busy_detail_end s : busy_ok s -> busy_ok (detail_end s).2.
Proof. quiet step_detail_end. unfold detail_end, set_detail_cursor. cbv zeta. prompt_tac. Qed.
Lemma busy_detail_line delta h s : busy_ok s -> busy_ok (move_detail_line delta h s).2.
Proof. quiet step_detail_line. unfold move_detail_line. cbv zeta. prompt_tac. Qed.
Lemma busy_detail_select s : busy_ok s -> busy_ok (toggle_detail_line_selection s).2.
Proof. quiet step_detail_select. unfold toggle_detail_line_selection, clear_detail_selection, start_detail_selection_here. cbv zeta. prompt_tac. Qed.
Lemma busy_detail_start_select s : busy_ok s -> busy_ok (start_detail_line_selection s).2.
Proof. quiet step_detail_start_select. unfold start_detail_line_selection, start_detail_selection_here. cbv zeta. prompt_tac. Qed.
Lemma busy_detail_clear_select s : busy_ok s -> busy_ok (clear_detail_selection s).2.
Proof. quiet step_detail_clear_select. done. Qed.
Lemma busy_attachments l s : busy_ok s -> busy_ok (apply_attachments l s).
Proof. quiet step_attachments. unfold apply_attachments, reset_preview_navigation_state. cbv zeta. prompt_tac. Qed.
Lemma busy_preview p s : selected_attachment_id s <> None -> busy_ok s -> busy_ok (apply_attachment_preview p s).
Proof. quiet step_preview. unfold apply_attachment_preview, reset_preview_navigation_state. cbv zeta. prompt_tac. Qed.
Lemma busy_no_preview s : selected_attachment_id s = None -> busy_ok s -> busy_ok (s <| s_attachment_preview := None |>).
Proof. quiet step_no_preview. done. Qed.
Lemma busy_preview_scroll delta h s : busy_ok s -> busy_ok (scroll_preview delta h s).2.
Proof. quiet step_preview_scroll. unfold scroll_preview. cbv zeta. prompt_tac. Qed.
Lemma busy_preview_top s : busy_ok s -> busy_ok (scroll_preview_to_top s).2.
Proof. quiet step_preview_top. unfold scroll_preview_to_top. prompt_tac. Qed.
Lemma busy_preview_bottom h s : busy_ok s -> busy_ok (scroll_preview_to_bottom h s).2.
Proof. quiet step_preview_bottom. unfold scroll_preview_to_bottom. cbv zeta. prompt_tac. Qed.
Lemma busy_preview_line delta s : busy_ok s -> busy_ok (move_preview_line delta s).2.
Proof.
  quiet step_preview_line. unfold move_preview_line, scroll_preview. cbv zeta. destruct (negb _); [done|].
  destruct (s_preview_selection s) as [[a f]|]; prompt_tac.
Qed.
Lemma busy_preview_select s : busy_ok s -> busy_ok (toggle_preview_selection s).2.
Proof. quiet step_preview_select. unfold toggle_preview_selection. cbv zeta. prompt_tac. Qed.
Lemma busy_preview_clear s : busy_ok s -> busy_ok (clear_preview_selection s).2.
Proof. quiet step_preview_clear. done. Qed.
Lemma busy_focus_preview s : busy_ok s -> busy_ok (focus_preview s).2.
Proof. quiet step_focus_preview. unfold focus_preview. prompt_tac. Qed.
Lemma busy_defocus_preview s : busy_ok s -> busy_ok (defocus_preview s).2.
Proof. quiet step_defocus_preview. unfold defocus_preview. prompt_tac. Qed.
Lemma busy_toggle_attachments s : busy_ok s -> busy_ok (toggle_attachment_focus s).2.
Proof. quiet step_toggle_attachments. unfold toggle_attachment_focus. prompt_tac. Qed.
Lemma busy_open_attachment s : busy_ok s -> busy_ok (begin_open_attachment_confirmation s).2.
Proof. quiet step_open_attachment. unfold begin_open_attachment_confirmation. prompt_tac. Qed.
Lemma busy_keep_closed s : busy_ok s -> busy_ok (cancel_open_attachment_confirmation s).
Proof. quiet step_keep_closed. done. Qed.
Lemma busy_opened s : busy_ok s -> busy_ok (take_pending_open_attachment s).2.
Proof. quiet step_opened. done. Qed.
Lemma busy_move_approval delta s : busy_ok s -> busy_ok (move_approval_selection delta s).2.
Proof. quiet step_move_approval. done. Qed.
Lemma busy_move delta s : busy_ok s -> busy_ok (move_selection delta s).2.
Proof.
  quiet step_move. unfold move_selection. cbv zeta.
  destruct (s_active s); prompt_tac;
    unfold move_approval_selection, lift_approvals, move_search_selection, move_preview_line, scroll_preview,
      reset_preview_navigation_state; cbv zeta; prompt_tac.
Qed.
Lemma busy_cycle s : busy_ok s -> busy_ok (cycle_active_pane s).
Proof. quiet step_cycle. done. Qed.
Lemma busy_cycle_reverse s : busy_ok s -> busy_ok (cycle_active_pane_reverse s).
Proof. quiet step_cycle_reverse. done. Qed.
Lemma busy_toast kind text now s : busy_ok s -> busy_ok (push_toast kind text now s).2.
Proof. quiet step_toast. prompt_tac. Qed.
Lemma busy_refused text now s : busy_ok s -> busy_ok (push_pane_refusal_toast text now s).
Proof. quiet step_refused. unfold push_pane_refusal_toast, set_status. prompt_tac. Qed.
Lemma busy_dismiss s : busy_ok s -> busy_ok (dismiss_newest_toast s).2.
Proof. quiet step_dismiss. done. Qed.
Lemma busy_clear_toasts s : busy_ok s -> busy_ok (clear_toasts s).2.
Proof. quiet step_clear_toasts. done. Qed.
Lemma busy_help s : busy_ok s -> busy_ok (toggle_help s).2.
Proof. quiet step_help. unfold toggle_help, open_help, close_help. prompt_tac. Qed.
Lemma busy_open_help s : busy_ok s -> busy_ok (open_help s).2.
Proof. quiet step_open_help. unfold open_help. prompt_tac. Qed.
Lemma busy_close_help s : busy_ok s -> busy_ok (close_help s).
Proof. quiet step_close_help. done. Qed.
Lemma busy_help_down n s : busy_ok s -> busy_ok (scroll_help_down n s).
Proof. quiet step_help_down. done. Qed.
Lemma busy_help_up n s : busy_ok s -> busy_ok (scroll_help_up n s).
Proof. quiet step_help_up. done. Qed.
Lemma busy_help_home s : busy_ok s -> busy_ok (scroll_help_home s).
Proof. quiet step_help_home. done. Qed.
Lemma busy_help_end n s : busy_ok s -> busy_ok (scroll_help_end n s).
Proof. quiet step_help_end. done. Qed.
Lemma busy_cycle_theme s : busy_ok s -> busy_ok (cycle_theme s).
Proof. quiet step_cycle_theme. done. Qed.
Lemma busy_theme t s : busy_ok s -> busy_ok (set_theme t s).
Proof. quiet step_theme. done. Qed.
Lemma busy_approvals_pending b s :
  busy_ok s -> busy_ok (s <| s_approvals := mkApprovals (as_items (s_approvals s)) (as_selected (s_approvals s)) b |>).
Proof. quiet step_approvals_pending. done. Qed.

(** ** Prompts *)

Lemma busy_command s : busy_ok s -> busy_ok (enter_command_mode s).
Proof. apply busy_turn; [apply step_command|done|done]. Qed.
Lemma busy_command_char c s : busy_ok s -> busy_ok (push_command_char c s).2.
Proof. quiet step_command_char. unfold push_command_char. prompt_tac. Qed.
Lemma busy_command_text t s :
  (N.of_nat (List.length t) <= MAX_COMMAND_CHARS)%N -> busy_ok s -> busy_ok (s <| s_command_input := t |>).
Proof. quiet step_command_text. done. Qed.
Lemma busy_command_backspace s : busy_ok s -> busy_ok (backspace_command s).2.
Proof. quiet step_command_backspace. unfold backspace_command. prompt_tac. Qed.
(** The mode under the command bar. *)
Lemma under_prompt_means s s' : s_mode s' = mode_under_prompt s -> s_composer s' = s_composer s -> s_mode s' <> MQuickSearch /\ mode_means s'.
Proof.
  unfold mode_under_prompt, mode_means. intros -> ->. destruct (bool_decide _) eqn:E; [|done]. brefl. done.
Qed.
Lemma busy_command_cancel s : busy_ok s -> busy_ok (cancel_command_mode s).
Proof.
  intros H. destruct (under_prompt_means s (cancel_command_mode s)) as [Hn Hm]; [done|done|].
  by apply (busy_turn s); [apply step_command_cancel|..].
Qed.
Lemma busy_command_finish s : busy_ok s -> busy_ok (finish_command s).2.
Proof.
  intros H. destruct (under_prompt_means s (finish_command s).2) as [Hn Hm]; [done|done|].
  by apply (busy_turn s); [apply step_command_finish|..].
Qed.

Lemma busy_draft_delete id s : busy_ok s -> busy_ok (begin_draft_delete id s).
Proof. apply busy_turn; [apply step_draft_delete|done|by right]. Qed.
Lemma busy_delete id s : busy_ok s -> busy_ok (begin_delete_confirmation id s).
Proof. apply busy_turn; [apply step_delete|done|by left]. Qed.
Lemma busy_keep_message s : busy_ok s -> busy_ok (cancel_delete_confirmation s).
Proof. apply busy_turn; [apply step_keep_message|done|done]. Qed.
Lemma busy_keep_draft s : busy_ok s -> busy_ok (cancel_pending_delete_draft s).
Proof.
  intros H. pose proof H as ((_ & Hm) & Hn). apply (busy_turn s); [apply step_keep_draft| | |done]; unfold cancel_pending_delete_draft; cbv zeta;
    change (s_mode (s <| s_pending_delete_draft := None |>)) with (s_mode s); destruct (decide _) as [E|E]; try done.
  unfold mode_means in *. change (s_mode (s <| s_pending_delete_draft := None |>)) with (s_mode s).
  destruct (s_mode s); done.
Qed.
Lemma busy_draft_deleted s : busy_ok s -> busy_ok (take_pending_delete_draft s).2.
Proof.
  intros H. pose proof H as ((_ & Hm) & Hn). apply (busy_turn s); [apply step_draft_deleted| | |done];
    unfold take_pending_delete_draft; cbv zeta; cbn [snd];
    change (s_mode (s <| s_pending_delete_draft := None |>)) with (s_mode s);
    destruct (bool_decide (s_pending_delete_draft s <> None)) eqn:E, (bool_decide (s_mode s = MConfirmDelete)) eqn:F;
    cbn [andb]; brefl; try done; unfold mode_means in *;
    change (s_mode (s <| s_pending_delete_draft := None |>)) with (s_mode s).
  - destruct (s_mode s); done.
  - rewrite F in *. destruct Hm as [Hm|Hm]; [by left|]. destruct (s_pending_delete_draft s); [by destruct E|done].
  - destruct (s_mode s); done.
Qed.
(** With no draft awaiting it, the confirmation is for a message. *)
Lemma busy_deleted s : s_pending_delete_draft s = None -> busy_ok s -> busy_ok (take_pending_delete_message s).2.
Proof.
  intros Hd H. pose proof H as ((_ & Hm) & Hn). unfold mode_means in Hm. apply (busy_turn s); [apply step_deleted| | |done];
    unfold take_pending_delete_message; cbv zeta; cbn [snd];
    destruct (bool_decide (s_pending_delete_message s <> None)) eqn:E; brefl; try done; unfold mode_means;
    change (s_mode (s <| s_pending_delete_message := None |>)) with (s_mode s).
  destruct (s_mode s); try done. destruct Hm as [Hm|Hm]; [by destruct E|by rewrite Hd in Hm].
Qed.

(** ** The composer *)

Lemma busy_open_composer c s : composer_ok c -> busy_ok s -> busy_ok (open_composer c s).
Proof. intros Hc ((H & _) & _). split; [split|]; [by apply open_composer_ok|done|done]. Qed.
Lemma busy_compose_new account s : busy_ok s -> busy_ok (enter_composer account s).
Proof. apply busy_open_composer, composer_new_ok. Qed.
Lemma busy_compose_prefill account p s : busy_ok s -> busy_ok (enter_composer_with_prefill account p s).
Proof. apply busy_open_composer, from_prefill_ok. Qed.
Lemma busy_compose_draft id d focus s : busy_ok s -> busy_ok (enter_composer_for_existing_draft id d focus s).
Proof. apply busy_open_composer, from_existing_draft_ok. Qed.
Lemma busy_exit s : busy_ok s -> busy_ok (exit_composer s).
Proof. apply busy_turn; [apply step_compose_exit|done|done]. Qed.
Lemma busy_discard s : busy_ok s -> busy_ok (discard_composer s).
Proof. apply busy_turn; [apply step_compose_discard|done|done]. Qed.
Lemma busy_ask_discard s : composer_needs_discard_confirmation s = true -> busy_ok s -> busy_ok (begin_discard_composer_confirmation s).
Proof.
  intros Hc. apply busy_turn; [apply step_compose_ask|done|]. unfold composer_needs_discard_confirmation in Hc.
  unfold mode_means. cbn. destruct (s_composer s); done.
Qed.
Lemma busy_keep_composing s : s_composer s <> None -> busy_ok s -> busy_ok (cancel_discard_composer_confirmation s).
Proof. intros Hc. apply busy_turn; [apply step_compose_keep|done|exact Hc]. Qed.

(** Replacing the composer by another one changes no mode. *)
Lemma busy_composer c c' s :
  s_composer s = Some c -> composer_ok c' -> busy_ok s -> busy_ok (s <| s_composer := Some c' |>).
Proof.
  intros Hc Hc' ((H & Hm) & Hn). split; [split|done].
  - apply composer_changed; [|done]. by intros d [= <-].
  - unfold mode_means in *. change (s_mode (s <| s_composer := Some c' |>)) with (s_mode s).
    destruct (s_mode s); try done; by rewrite Hc in Hm.
Qed.
Lemma busy_with_composer f s : (forall c, composer_ok c -> composer_ok (f c).2) -> busy_ok s -> busy_ok (with_composer f s).2.
Proof.
  intros Hf H. unfold with_composer. destruct (s_composer s) as [c|] eqn:E; [|done]. cbv zeta. cbn [snd].
  apply (busy_composer c); [done|apply Hf, (ui_composer s (proj1 (proj1 (proj1 H))) c E)|done].
Qed.
Lemma busy_map_composer f s : (forall c, composer_ok c -> composer_ok (f c)) -> busy_ok s -> busy_ok (map_composer f s).
Proof.
  intros Hf H. unfold map_composer. destruct (s_composer s) as [c|] eqn:E; [|done].
  apply (busy_composer c); [done|apply Hf, (ui_composer s (proj1 (proj1 (proj1 H))) c E)|done].
Qed.
Lemma busy_compose_step f s : (forall c, compose_step c (f c).2) -> busy_ok s -> busy_ok (with_composer f s).2.
Proof. intros Hf. apply busy_with_composer. intros c. by apply compose_step_ok. Qed.
Lemma busy_saved id s : busy_ok s -> busy_ok (mark_composer_saved id s).
Proof.
  apply (busy_map_composer (fun c => c <| c_draft_id := Some id |> <| c_dirty := false |>)).
  intros c [Hc Hl Hf Ha Hr]. by split.
Qed.
Lemma busy_remove_attachment s : busy_ok s -> busy_ok (app_remove_selected_compose_attachment s).2.
Proof.
  intros H. unfold app_remove_selected_compose_attachment. destruct (s_composer s) as [c|] eqn:E; [|done]. cbv zeta. cbn [snd].
  apply (busy_composer c); [done|apply remove_attachment_ok, (ui_composer s (proj1 (proj1 (proj1 H))) c E)|done].
Qed.
Lemma map_composer_some f s : s_composer s <> None -> s_composer (map_composer f s) <> None.
Proof. unfold map_composer. by destruct (s_composer s) eqn:E; [intros _|rewrite E]. Qed.
Lemma busy_attach s : busy_ok s -> busy_ok (begin_compose_attach s).2.
Proof.
  intros H. unfold begin_compose_attach. destruct (bool_decide _) eqn:E; [done|]. brefl. cbn [snd].
  split; [split|done]; [apply mode_ok, map_composer_ok; [apply attach_input_ok|apply H]|].
  exact (map_composer_some _ _ E).
Qed.
Lemma busy_no_attach s : s_composer s <> None -> busy_ok s -> busy_ok (cancel_compose_attach s).
Proof.
  intros Hc. apply busy_turn; [apply step_compose_no_attach|done|]. exact (map_composer_some _ _ Hc).
Qed.
Lemma busy_attached s : s_composer s <> None -> busy_ok s ->
  busy_ok (app_confirm_compose_attach s).2 /\ s_composer (app_confirm_compose_attach s).2 <> None.
Proof.
  intros Hc H. unfold app_confirm_compose_attach. destruct (s_composer s) as [c|] eqn:E; [|done]. cbv zeta. cbn [snd].
  assert (Hb : busy_ok (s <| s_composer := Some (confirm_compose_attach c).2 |>))
    by (apply (busy_composer c); [done|apply confirm_attach_ok, (ui_composer s (proj1 (proj1 (proj1 H))) c E)|done]).
  destruct (is_ok _); [|by split]. split; [|done].
  split; [split|done]; [apply mode_ok, Hb|done].
Qed.
End frames.

Create HintDb busy discriminated.
#[export] Hint Resolve
  busy_status busy_error busy_clear_error busy_accounts busy_folders busy_folder_messages busy_drafts
  busy_remove_draft busy_lookup busy_invalidate busy_restore busy_flags busy_remove busy_rollback
  busy_select_account busy_select_folder busy_approvals_folder busy_jump busy_approvals busy_merge_approval
  busy_remove_approval busy_search busy_hits busy_move_search busy_close_search busy_detail busy_cache_detail
  busy_toggle_expansion busy_expand_all busy_conversation busy_detail_left busy_detail_right busy_detail_home
  busy_detail_end busy_detail_line busy_detail_select busy_detail_start_select busy_detail_clear_select
  busy_attachments busy_preview busy_no_preview busy_preview_scroll busy_preview_top busy_preview_bottom
  busy_preview_line busy_preview_select busy_preview_clear busy_focus_preview busy_defocus_preview
  busy_toggle_attachments busy_open_attachment busy_keep_closed busy_opened busy_move_approval busy_move
  busy_cycle busy_cycle_reverse busy_toast busy_refused busy_dismiss busy_clear_toasts busy_help
  busy_open_help busy_close_help busy_help_down busy_help_up busy_help_home busy_help_end busy_cycle_theme
  busy_theme busy_approvals_pending busy_command busy_command_char busy_command_text busy_command_backspace
  busy_command_cancel busy_command_finish busy_draft_delete busy_delete busy_keep_message busy_keep_draft
  busy_draft_deleted busy_deleted busy_open_composer busy_compose_new busy_compose_prefill busy_compose_draft
  busy_exit busy_discard busy_ask_discard busy_keep_composing busy_map_composer busy_saved
  busy_remove_attachment busy_attach busy_no_attach : busy.
#[export] Hint Constants Opaque : busy.
