(* ===== verification/TuiIpc.v ===== *)
(** * The terminal's typed requests (src/tui/ipc.rs)

    [MailboxClient] wraps the socket client: each method sends one operation
    with its arguments and decodes the answer.  The client below is the class
    [RpcClient]: one call is one exchange that may fail.  What serde derives for
    the rows is [FromValue], one instance for a type that crosses the socket. *)

From S2P Require Import Prelude RustStr Json Op IpcProtocol IpcClient McpTools McpModels MailParser DbCore AttachmentFiles Dispatcher Config TuiText TuiComposer TuiItems TuiApprovals.
#[local] Open Scope bool_scope.

(** ** What comes back *)

Record ReplyPrepared : Type := mkReplyPrepared {
  rp_message_id : Id;
  rp_account_id : Id;
  rp_to : list str;
  rp_cc : list str;
  rp_subject : str;
  rp_in_reply_to : str;
  rp_references : str;
  rp_quoted_body : str;
}.

Record ForwardAttachmentMeta : Type := mkForwardMeta {
  fm_attachment_id : Id;
  fm_filename : str;
  fm_size_bytes : Z;
}.
Record ForwardPrepared : Type := mkForwardPrepared {
  fp_message_id : Id;
  fp_account_id : Id;
  fp_subject : str;
  fp_forwarded_body : str;
  fp_forwarded_attachments : list ForwardAttachmentMeta;
}.

Record ForwardAttachmentBytes : Type := mkForwardBytes {
  fb_filename : str;
  fb_content_type : str;
  fb_content_base64 : str;
}.
Record ForwardAttachmentFailure : Type := mkForwardFailure {
  ff_attachment_id : Id;
  ff_filename : str;
  ff_code : str;
  ff_message : str;
}.
Record ForwardAttachmentBatch : Type := mkForwardBatch {
  fx_attachments : list ForwardAttachmentBytes;
  fx_failed : list ForwardAttachmentFailure;
}.

Record AttachmentExportResult : Type := mkExportResult { er_destination_path : str }.
Record SendResult : Type := mkSendResult { sr_message_id : str }.
Record ApprovalDecisionResult : Type := mkDecisionResult { dr_decided : bool }.

Record DraftAttachmentPayload : Type := mkDraftPayload {
  dp_filename : str;
  dp_content_type : str;
  dp_size_bytes : Z;
  dp_content_base64 : str;
}.
Record DraftGetResult : Type := mkDraftGetResult {
  dg_draft : Draft;
  dg_attachments : list DraftAttachmentPayload;
}.

(** The standard base64 engine: the bytes, or the text of the error. *)
Class Base64 := { base64_decode : str -> result str (list N) }.

Record DraftAttachmentBytes : Type := mkDraftBytes {
  db_filename : str;
  db_content_type : str;
  db_size_bytes : Z;
  db_bytes : option (list N);
  db_decode_error : option str;
}.
Record DraftSummary : Type := mkDraftSummary {
  ds_draft : Draft;
  ds_attachments : list DraftAttachmentBytes;
}.

Section payloads.
Context {B64 : Base64}.
Definition forward_decoded_bytes (b : ForwardAttachmentBytes) : result str (list N) :=
  base64_decode (fb_content_base64 b).
Definition draft_decoded_bytes (p : DraftAttachmentPayload) : result str (list N) :=
  base64_decode (dp_content_base64 p).
Definition draft_attachment_bytes (p : DraftAttachmentPayload) : DraftAttachmentBytes :=
  match draft_decoded_bytes p with
  | Ok bytes => mkDraftBytes (dp_filename p) (dp_content_type p) (dp_size_bytes p) (Some bytes) None
  | Err e => mkDraftBytes (dp_filename p) (dp_content_type p) (dp_size_bytes p) None (Some e)
  end.
Definition draft_summary (p : DraftGetResult) : DraftSummary :=
  mkDraftSummary (dg_draft p) (map draft_attachment_bytes (dg_attachments p)).
End payloads.

Definition preview_item (p : AttachmentPreview) : AttachmentPreviewItem :=
  mkPreviewItem (att_id (pv_attachment p)) (pv_inline_text p) (pv_message p) (pv_truncated p) (pv_preview_bytes p).

(** ** Errors *)

Inductive MailboxError : Type :=
| MConnect (source : ClientError)
| MRequest (op : str) (source : ClientError)
| MServer (op code message : str)
| MDecode (op source : str).

(** How the socket client's errors print. *)
Class ClientTexts := { client_error_text : ClientError -> str }.

Definition mailbox_error_text {CT : ClientTexts} (e : MailboxError) : str :=
  match e with
  | MConnect source => lit "connect failed: " ++ client_error_text source
  | MRequest op source => op ++ lit " request failed: " ++ client_error_text source
  | MServer op code message => op ++ lit " failed: " ++ code ++ lit ": " ++ message
  | MDecode op source => op ++ lit " returned malformed data: " ++ source
  end.

Class FromValue (A : Type) := from_value : value -> result str A.
#[global] Instance value_from_value : FromValue value := fun v => Ok v.

Definition decode_response {A} `{FromValue A} (op : str) (response : Response) : result MailboxError A :=
  if negb (resp_ok response) then
    let error := unwrap_or (mkRpcError (lit "unknown") (lit "daemon returned ok=false without an error"))
                   (resp_error response) in
    Err (MServer op (err_code error) (err_message error))
  else map_err (MDecode op) (from_value (resp_data response)).

(** ** Arguments *)

Section args.
Context {TP : TextParsers}.

Definition id_value (id : Id) : value := VString (uuid_to_string id).
Definition opt_value {A} (f : A -> value) (o : option A) : value := match o with Some a => f a | None => VNull end.
Definition strings_value (l : list str) : value := VArray (map VString l).

Definition account_folder_args (account_id : Id) (folder_name : str) : value :=
  json [(lit "account_id", id_value account_id); (lit "folder_name", VString folder_name)].
Definition set_flags_args (message_id : Id) (flags : list str) : value :=
  json [(lit "id", id_value message_id); (lit "flags", strings_value flags)].
Definition attachment_list_args (message_id : Id) : value := json [(lit "message_id", id_value message_id)].
Definition attachment_preview_args (attachment_id : Id) : value := json [(lit "id", id_value attachment_id)].
Definition attachment_export_args (attachment_id : Id) (destination_path : str) : value :=
  json [(lit "id", id_value attachment_id); (lit "destination_path", VString destination_path)].

Definition draft_attachment_specs (draft : ComposerDraft) : value :=
  VArray (map (fun a => json [(lit "path", VString (ca_path a)); (lit "filename", VString (ca_filename a));
                              (lit "content_type", VString (ca_content_type a))]) (cd_attachments draft)).
Definition draft_create_args (draft : ComposerDraft) : value :=
  json [(lit "account_id", id_value (cd_account_id draft));
        (lit "in_reply_to_msg", opt_value id_value (cd_in_reply_to_msg draft));
        (lit "to_addrs", strings_value (cd_to_addrs draft));
        (lit "cc_addrs", strings_value (cd_cc_addrs draft));
        (lit "bcc_addrs", strings_value (cd_bcc_addrs draft));
        (lit "subject", opt_value VString (cd_subject draft));
        (lit "text_body", opt_value VString (cd_text_body draft));
        (lit "html_body", opt_value VString (cd_html_body draft));
        (lit "in_reply_to", opt_value VString (cd_in_reply_to draft));
        (lit "references_header", opt_value VString (cd_references_header draft));
        (lit "attachments", draft_attachment_specs draft)].
Definition draft_update_args (draft_id : Id) (draft : ComposerDraft) : value :=
  json [(lit "id", id_value draft_id);
        (lit "to_addrs", strings_value (cd_to_addrs draft));
        (lit "cc_addrs", strings_value (cd_cc_addrs draft));
        (lit "bcc_addrs", strings_value (cd_bcc_addrs draft));
        (lit "subject", opt_value VString (cd_subject draft));
        (lit "text_body", opt_value VString (cd_text_body draft));
        (lit "html_body", opt_value VString (cd_html_body draft));
        (lit "attachments", draft_attachment_specs draft)].
Definition message_send_args (account_id draft_id : Id) : value :=
  json [(lit "account_id", id_value account_id); (lit "draft_id", id_value draft_id)].
Definition search_args (query : str) (account_id : option Id) : value :=
  match account_id with
  | Some account_id => json [(lit "q", VString query); (lit "account_id", id_value account_id);
                             (lit "limit", VNumber (NInt 50))]
  | None => json [(lit "q", VString query); (lit "limit", VNumber (NInt 50))]
  end.
Definition approval_decide_args (approval_id : Id) (state : ApprovalState) : value :=
  json [(lit "id", id_value approval_id); (lit "state", VString (approval_state_as_str state));
        (lit "decided_by", VString (lit "tui"))].
(** Of [fetch_attachments_for_forward]. *)
Definition forward_batch_args (message_id : Id) (attachment_ids : list Id) : value :=
  json [(lit "message_id", id_value message_id); (lit "attachment_ids", VArray (map id_value attachment_ids))].
End args.

(** ** The methods *)

Class RpcClient (C : Type) := {
  client_request : str -> value -> C -> result ClientError Response * C;
}.

Section client.
Context {TP : TextParsers} {B64 : Base64} {DF : DateFormat} {JC : JsonCodec}.
Context {C : Type} {RPC : RpcClient C}.
Context {FAccounts : FromValue (list Account)} {FFolders : FromValue (list Folder)} {FMessages : FromValue (list Message)}
  {FMessage : FromValue (option Message)} {FAttachments : FromValue (list AttachmentRow)}
  {FPreview : FromValue AttachmentPreview} {FExport : FromValue AttachmentExportResult} {FDraft : FromValue Draft}
  {FDraftOpt : FromValue (option Draft)} {FDrafts : FromValue (list Draft)} {FSend : FromValue SendResult}
  {FDraftGet : FromValue (option DraftGetResult)} {FApprovals : FromValue (list McpApproval)}
  {FDecision : FromValue ApprovalDecisionResult} {FReply : FromValue ReplyPrepared} {FForward : FromValue ForwardPrepared}
  {FBytes : FromValue ForwardAttachmentBytes} {FBatch : FromValue ForwardAttachmentBatch}.

Abbreviation call A := (M C MailboxError A).

(** [MailboxClient::request]. *)
Definition mailbox_request (op : str) (args : value) : call Response :=
  mmap_err (MRequest op) (client_request op args).

(** The request and the decoding of its answer that every method performs. *)
Definition exchange {A} `{FromValue A} (op : str) (args : value) : call A :=
  let! response := mailbox_request op args in mlift (decode_response op response).

Definition client_list_accounts : call (list AccountItem) :=
  let! accounts := exchange (A := list Account) (lit "account.list") (json []) in
  mret_M (map account_item accounts).
Definition client_list_folders (account_id : Id) : call (list FolderItem) :=
  let! folders := exchange (A := list Folder) (lit "folder.list") (json [(lit "account_id", id_value account_id)]) in
  mret_M (map (folder_item folder_role_as_str) folders).
Definition client_list_messages (folder_id : Id) : call (list MessageItem) :=
  let! messages := exchange (A := list Message) (lit "message.list_by_folder")
    (json [(lit "folder_id", id_value folder_id); (lit "limit", VNumber (NInt 100)); (lit "offset", VNumber (NInt 0))]) in
  mret_M (map message_item messages).
Definition client_get_message (message_id : Id) : call (option MessageDetail) :=
  let! message := exchange (A := option Message) (lit "message.get") (json [(lit "id", id_value message_id)]) in
  mret_M (message_detail <$> message).
Definition client_get_message_approval_context (message_id : Id) : call (option ApprovalTargetContext) :=
  let! message := exchange (A := option Message) (lit "message.get") (json [(lit "id", id_value message_id)]) in
  mret_M (target_from_message <$> message).
Definition client_sync_folder (account_id : Id) (folder_name : str) : call value :=
  exchange (lit "account.sync_folder") (account_folder_args account_id folder_name).
Definition client_start_sync (account_id : Id) (folder_name : str) : call value :=
  exchange (lit "account.start_sync") (account_folder_args account_id folder_name).
Definition client_stop_sync (account_id : Id) (folder_name : str) : call value :=
  exchange (lit "account.stop_sync") (account_folder_args account_id folder_name).
Definition client_set_flags (message_id : Id) (flags : list str) : call unit :=
  let! _ := exchange (A := value) (lit "message.set_flags") (set_flags_args message_id flags) in mret_M tt.
Definition client_archive_message (message_id : Id) : call unit :=
  let! _ := exchange (A := value) (lit "message.archive") (json [(lit "id", id_value message_id)]) in mret_M tt.
Definition client_delete_message (message_id : Id) : call unit :=
  let! _ := exchange (A := value) (lit "message.delete") (json [(lit "id", id_value message_id)]) in mret_M tt.
Definition client_move_message (message_id : Id) (folder_name : str) : call unit :=
  let! _ := exchange (A := value) (lit "message.move")
    (json [(lit "id", id_value message_id); (lit "folder_name", VString folder_name)]) in
  mret_M tt.
Definition client_list_attachments (message_id : Id) : call (list AttachmentItem) :=
  let! attachments := exchange (A := list AttachmentRow) (lit "attachment.list") (attachment_list_args message_id) in
  mret_M (map attachment_item attachments).
Definition client_preview_attachment (attachment_id : Id) : call AttachmentPreviewItem :=
  let! preview := exchange (A := AttachmentPreview) (lit "attachment.preview") (attachment_preview_args attachment_id) in
  mret_M (preview_item preview).
Definition client_export_attachment (attachment_id : Id) (destination_path : str) : call AttachmentExportResult :=
  exchange (lit "attachment.export") (attachment_export_args attachment_id destination_path).
Definition client_create_draft (draft : ComposerDraft) : call Id :=
  let! draft := exchange (A := Draft) (lit "draft.create") (draft_create_args draft) in
  mret_M (dr_id draft).
Definition client_update_draft (draft_id : Id) (draft : ComposerDraft) : call Id :=
  let! draft := exchange (A := option Draft) (lit "draft.update") (draft_update_args draft_id draft) in
  mlift (ok_or (dr_id <$> draft) (MServer (lit "draft.update") (lit "not_found") (lit "draft no longer exists"))).
Definition client_send_draft (account_id draft_id : Id) : call str :=
  let! sent := exchange (A := SendResult) (lit "message.send") (message_send_args account_id draft_id) in
  mret_M (sr_message_id sent).
Definition client_list_drafts (account_id : Id) : call (list DraftItem) :=
  let! drafts := exchange (A := list Draft) (lit "draft.list") (json [(lit "account_id", id_value account_id)]) in
  mret_M (map draft_item drafts).
Definition client_get_draft (draft_id : Id) : call (option DraftSummary) :=
  let! payload := exchange (A := option DraftGetResult) (lit "draft.get") (json [(lit "id", id_value draft_id)]) in
  mret_M (draft_summary <$> payload).
Definition client_get_draft_approval_context (draft_id : Id) : call (option ApprovalTargetContext) :=
  let! payload := exchange (A := option DraftGetResult) (lit "draft.get") (json [(lit "id", id_value draft_id)]) in
  mret_M ((fun p => target_from_draft (dg_draft p)) <$> payload).
Definition client_delete_draft (draft_id : Id) : call unit :=
  let! _ := exchange (A := value) (lit "draft.delete") (json [(lit "id", id_value draft_id)]) in mret_M tt.
Definition client_search (query : str) (account_id : option Id) : call (list SearchHit) :=
  let! hits := exchange (A := list Message) (lit "search") (search_args query account_id) in
  mret_M (map search_hit hits).
Definition client_list_pending_approvals : call (list ApprovalItem) :=
  let! approvals := exchange (A := list McpApproval) (lit "mcp.approval.list")
    (json [(lit "state", VString (lit "pending")); (lit "limit", VNumber (NInt 100)); (lit "offset", VNumber (NInt 0))]) in
  mret_M (map approval_item (List.filter (fun a => bool_decide (approval_state a = Pending)) approvals)).
Definition client_decide_approval (approval_id : Id) (state : ApprovalState) : call bool :=
  let! result := exchange (A := ApprovalDecisionResult) (lit "mcp.approval.decide") (approval_decide_args approval_id state) in
  mret_M (dr_decided result).
Definition client_prepare_reply (message_id : Id) (reply_all : bool) : call ReplyPrepared :=
  exchange (lit "message.prepare_reply") (json [(lit "message_id", id_value message_id); (lit "reply_all", VBool reply_all)]).
Definition client_prepare_forward (message_id : Id) : call ForwardPrepared :=
  exchange (lit "message.prepare_forward") (json [(lit "message_id", id_value message_id)]).
Definition client_fetch_attachment_for_forward (attachment_id : Id) : call ForwardAttachmentBytes :=
  exchange (lit "attachment.fetch_for_forward") (json [(lit "attachment_id", id_value attachment_id)]).
Definition client_fetch_attachments_for_forward (message_id : Id) (attachment_ids : list Id) : call ForwardAttachmentBatch :=
  exchange (lit "attachment.fetch_for_forward_batch") (forward_batch_args message_id attachment_ids).
End client.
