(* ===== verification/TuiMailbox.v ===== *)
(** * The terminal and its mailbox (src/tui/mod.rs: [Mailbox], refreshing)

    What the key handlers are written in: a computation has the application
    state and the world at its disposal, and every request to the daemon is
    recorded together with its answer.  The [Mailbox] trait is a class over the
    world with one call per method, so that any answers, errors included, are
    covered; clock, clipboard, files and [xdg-open] are the class [Host].  An
    operation that may store a folder snapshot reads the clock first.  Then the
    functions that fetch what the panes show. *)

From stdpp Require Import gmap.
From S2P Require Import Prelude RustStr Json IpcProtocol Wire McpTools McpModels MailParser DbCore Attachments Config TuiText TuiComposer TuiItems TuiApprovals TuiApp TuiIpc.
#[local] Open Scope nat_scope.
#[local] Open Scope bool_scope.

(** ** The trait *)

Inductive MailboxCall : Type -> Type :=
| QListAccounts : MailboxCall (list AccountItem)
| QListFolders (account_id : Id) : MailboxCall (list FolderItem)
| QListMessages (folder_id : Id) : MailboxCall (list MessageItem)
| QGetMessage (message_id : Id) : MailboxCall (option MessageDetail)
| QMessageContext (message_id : Id) : MailboxCall (option ApprovalTargetContext)
| QSyncFolder (account_id : Id) (folder_name : str) : MailboxCall value
| QStartSync (account_id : Id) (folder_name : str) : MailboxCall value
| QStopSync (account_id : Id) (folder_name : str) : MailboxCall value
| QSetFlags (message_id : Id) (flags : list str) : MailboxCall unit
| QArchiveMessage (message_id : Id) : MailboxCall unit
| QDeleteMessage (message_id : Id) : MailboxCall unit
| QMoveMessage (message_id : Id) (folder_name : str) : MailboxCall unit
| QListAttachments (message_id : Id) : MailboxCall (list AttachmentItem)
| QPreviewAttachment (attachment_id : Id) : MailboxCall AttachmentPreviewItem
| QExportAttachment (attachment_id : Id) (destination_path : str) : MailboxCall AttachmentExportResult
| QCreateDraft (draft : ComposerDraft) : MailboxCall Id
| QUpdateDraft (draft_id : Id) (draft : ComposerDraft) : MailboxCall Id
| QSendDraft (account_id draft_id : Id) : MailboxCall str
| QListDrafts (account_id : Id) : MailboxCall (list DraftItem)
| QGetDraft (draft_id : Id) : MailboxCall (option DraftSummary)
| QDraftContext (draft_id : Id) : MailboxCall (option ApprovalTargetContext)
| QDeleteDraft (draft_id : Id) : MailboxCall unit
| QSearch (query : str) (account_id : option Id) : MailboxCall (list SearchHit)
| QListPendingApprovals : MailboxCall (list ApprovalItem)
| QDecideApproval (approval_id : Id) (state : ApprovalState) : MailboxCall bool
| QPrepareReply (message_id : Id) (reply_all : bool) : MailboxCall ReplyPrepared
| QPrepareForward (message_id : Id) : MailboxCall ForwardPrepared
| QFetchForForward (attachment_id : Id) : MailboxCall ForwardAttachmentBytes
| QFetchAllForForward (message_id : Id) (attachment_ids : list Id) : MailboxCall ForwardAttachmentBatch.

Class Mailbox (W : Type) := {
  answer : forall A, MailboxCall A -> W -> result MailboxError A * W;
}.
Arguments answer {W Mailbox A} _ _.

(** The machine the terminal runs on. *)
Class Host (W : Type) := {
  instant_now : W -> Z * W;
  utc_now : W -> time * W;
  new_v4 : W -> Id * W;
  current_dir : W -> result str str * W;
  path_exists : str -> W -> bool * W;
  create_dir_all : str -> W -> result str unit * W;
  fs_write_file : str -> list N -> W -> result str unit * W;
  clipboard_copy : str -> W -> result str unit * W;
  (** [Ok (status.success(), status)] *)
  xdg_open : str -> W -> result str (bool * str) * W;
  temp_dir : str;
}.

(** The production mailbox: each call is a method of [MailboxClient]. *)
Section production.
Context {TP : TextParsers} {B64 : Base64} {DF : DateFormat} {JC : JsonCodec} {C : Type} {RPC : RpcClient C}.
Context {FAccounts : FromValue (list Account)} {FFolders : FromValue (list Folder)} {FMessages : FromValue (list Message)}
  {FMessage : FromValue (option Message)} {FAttachments : FromValue (list AttachmentRow)}
  {FPreview : FromValue AttachmentFiles.AttachmentPreview} {FExport : FromValue AttachmentExportResult} {FDraft : FromValue Draft}
  {FDraftOpt : FromValue (option Draft)} {FDrafts : FromValue (list Draft)} {FSend : FromValue SendResult}
  {FDraftGet : FromValue (option DraftGetResult)} {FApprovals : FromValue (list McpApproval)}
  {FDecision : FromValue ApprovalDecisionResult} {FReply : FromValue ReplyPrepared} {FForward : FromValue ForwardPrepared}
  {FBytes : FromValue ForwardAttachmentBytes} {FBatch : FromValue ForwardAttachmentBatch}.

Definition client_answer A (q : MailboxCall A) : M C MailboxError A :=
  match q in MailboxCall A return M C MailboxError A with
  | QListAccounts => client_list_accounts
  | QListFolders account_id => client_list_folders account_id
  | QListMessages folder_id => client_list_messages folder_id
  | QGetMessage message_id => client_get_message message_id
  | QMessageContext message_id => client_get_message_approval_context message_id
  | QSyncFolder account_id folder_name => client_sync_folder account_id folder_name
  | QStartSync account_id folder_name => client_start_sync account_id folder_name
  | QStopSync account_id folder_name => client_stop_sync account_id folder_name
  | QSetFlags message_id flags => client_set_flags message_id flags
  | QArchiveMessage message_id => client_archive_message message_id
  | QDeleteMessage message_id => client_delete_message message_id
  | QMoveMessage message_id folder_name => client_move_message message_id folder_name
  | QListAttachments message_id => client_list_attachments message_id
  | QPreviewAttachment attachment_id => client_preview_attachment attachment_id
  | QExportAttachment attachment_id path => client_export_attachment attachment_id path
  | QCreateDraft draft => client_create_draft draft
  | QUpdateDraft draft_id draft => client_update_draft draft_id draft
  | QSendDraft account_id draft_id => client_send_draft account_id draft_id
  | QListDrafts account_id => client_list_drafts account_id
  | QGetDraft draft_id => client_get_draft draft_id
  | QDraftContext draft_id => client_get_draft_approval_context draft_id
  | QDeleteDraft draft_id => client_delete_draft draft_id
  | QSearch query account_id => client_search query account_id
  | QListPendingApprovals => client_list_pending_approvals
  | QDecideApproval approval_id state => client_decide_approval approval_id state
  | QPrepareReply message_id reply_all => client_prepare_reply message_id reply_all
  | QPrepareForward message_id => client_prepare_forward message_id
  | QFetchForForward attachment_id => client_fetch_attachment_for_forward attachment_id
  | QFetchAllForForward message_id ids => client_fetch_attachments_for_forward message_id ids
  end.
Definition client_mailbox : Mailbox C := {| answer := client_answer |}.
End production.

(** ** Computations *)

(** A request and its answer. *)
Inductive sent : Type :=
| Sent (A : Type) (q : MailboxCall A) (r : result MailboxError A).
Arguments Sent {A} _ _.

Record Ui (W : Type) : Type := mkUi { u_app : AppState; u_world : W; u_sent : list sent }.
Arguments mkUi {W} _ _ _.
Arguments u_app {W} _.
Arguments u_world {W} _.
Arguments u_sent {W} _.

Definition K (W A : Type) : Type := Ui W -> A * Ui W.
Definition kret {W A} (a : A) : K W A := fun u => (a, u).
Definition kbind {W A B} (m : K W A) (k : A -> K W B) : K W B := fun u => let r := m u in k r.1 r.2.
Definition kgets {W A} (f : AppState -> A) : K W A := fun u => (f (u_app u), u).
Definition kmodify {W} (f : AppState -> AppState) : K W unit :=
  fun u => (tt, mkUi (f (u_app u)) (u_world u) (u_sent u)).
Definition kop {W A} (f : AppState -> A * AppState) : K W A :=
  fun u => let r := f (u_app u) in (r.1, mkUi r.2 (u_world u) (u_sent u)).
Definition khost {W A} (f : W -> A * W) : K W A :=
  fun u => let r := f (u_world u) in (r.1, mkUi (u_app u) r.2 (u_sent u)).
Definition ask {W A} {MB : Mailbox W} (q : MailboxCall A) : K W (result MailboxError A) :=
  fun u => let r := answer q (u_world u) in (r.1, mkUi (u_app u) r.2 (u_sent u ++ [Sent q r.1])).

Notation "'let~' x ':=' m 'in' k" := (kbind m (fun x => k))
  (at level 10, x binder, m at level 100, k at level 200).
Notation "m ';~' k" := (kbind m (fun _ => k)) (at level 100, k at level 200, right associativity).

(** What a computation does first. *)
Lemma kgets_then {W A B} (f : AppState -> A) (k : A -> K W B) u : kbind (kgets f) k u = k (f (u_app u)) u.
Proof. done. Qed.
Lemma kmodify_then {W B} f (k : unit -> K W B) u :
  kbind (kmodify f) k u = k tt (mkUi (f (u_app u)) (u_world u) (u_sent u)).
Proof. done. Qed.
Lemma kop_then {W A B} (f : AppState -> A * AppState) (k : A -> K W B) u :
  kbind (kop f) k u = k (f (u_app u)).1 (mkUi (f (u_app u)).2 (u_world u) (u_sent u)).
Proof. done. Qed.
Lemma khost_then {W A B} (f : W -> A * W) (k : A -> K W B) u :
  kbind (khost f) k u = k (f (u_world u)).1 (mkUi (u_app u) (f (u_world u)).2 (u_sent u)).
Proof. done. Qed.
Lemma ask_then {W A B} {MB : Mailbox W} (q : MailboxCall A) (k : result MailboxError A -> K W B) u :
  kbind (ask q) k u =
  k (answer q (u_world u)).1 (mkUi (u_app u) (answer q (u_world u)).2 (u_sent u ++ [Sent q (answer q (u_world u)).1])).
Proof. done. Qed.

Fixpoint kfor {W A B} (f : B -> A -> K W B) (acc : B) (l : list A) : K W B :=
  match l with
  | [] => kret acc
  | x :: r => let~ acc := f acc x in kfor f acc r
  end.

Definition show_len (n : nat) : str := show_N (N.of_nat n).
Definition EM_DASH : char := 8212.
Definition BULLET : char := 8226.

(** Run a computation to its next request. *)
Ltac kstep := rewrite ?kgets_then, ?kmodify_then, ?kop_then, ?khost_then, ?ask_then; cbn [u_app u_world u_sent].

Section refresh.
Context {TP : TextParsers} {JC : JsonCodec} {UC : UnicodeCase} {CT : ClientTexts} {B64 : Base64}.
Context {W : Type} {MB : Mailbox W} {HO : Host W}.
Abbreviation ui := (K W unit).

(** An operation that takes the time. *)
Definition at_now (f : Z -> AppState -> AppState) : ui := let~ now := khost instant_now in kmodify (f now).
Definition toast (kind : ToastKind) (text : str) : ui := at_now (fun now s => (push_toast kind text now s).2).
Definition status (text : str) : ui := kmodify (set_status text).
Definition error (text : str) : ui := kmodify (set_error text).

Lemma status_then {B} text (k : unit -> K W B) u :
  kbind (status text) k u = k tt (mkUi (set_status text (u_app u)) (u_world u) (u_sent u)).
Proof. done. Qed.
Lemma at_now_then {B} f (k : unit -> K W B) u :
  kbind (at_now f) k u =
  k tt (mkUi (f (instant_now (u_world u)).1 (u_app u)) (instant_now (u_world u)).2 (u_sent u)).
Proof. done. Qed.

Definition record_error (e : MailboxError) : ui :=
  let message := mailbox_error_text e in
  status message;~ error message.

(** The body of the trait's [fetch_attachments_for_forward]: one by one. *)
Definition fetch_one_by_one (acc : ForwardAttachmentBatch) (attachment_id : Id) : K W ForwardAttachmentBatch :=
  let~ r := ask (QFetchForForward attachment_id) in
  kret match r with
       | Ok bytes => mkForwardBatch (fx_attachments acc ++ [bytes]) (fx_failed acc)
       | Err e => mkForwardBatch (fx_attachments acc)
                    (fx_failed acc ++ [mkForwardFailure attachment_id [] (lit "request_failed") (mailbox_error_text e)])
       end.
Definition default_fetch_attachments_for_forward (message_id : Id) (attachment_ids : list Id)
    : K W (result MailboxError ForwardAttachmentBatch) :=
  let~ batch := kfor fetch_one_by_one (mkForwardBatch [] []) attachment_ids in kret (Ok batch).

(** ** Attachments and details *)

Definition refresh_attachment_preview : ui :=
  let~ selected := kgets selected_attachment_id in
  match selected with
  | None => kmodify (fun s => s <| s_attachment_preview := None |>);~ status (lit "No attachment selected")
  | Some attachment_id =>
      let~ r := ask (QPreviewAttachment attachment_id) in
      match r with
      | Ok preview =>
          kmodify clear_error;~ kmodify (apply_attachment_preview preview);~ status (lit "Attachment preview loaded")
      | Err e => record_error e
      end
  end.

Definition refresh_attachments : ui :=
  let~ selected := kgets selected_message_id in
  match selected with
  | None => kmodify (apply_attachments [])
  | Some message_id =>
      let~ r := ask (QListAttachments message_id) in
      match r with
      | Ok attachments =>
          let count := List.length attachments in
          kmodify (apply_attachments attachments);~
          (if count =? 0 then status (lit "Message loaded")
           else
             refresh_attachment_preview;~
             let~ failed := kgets s_error in
             if is_none failed
             then status (lit "Message loaded " ++ BULLET :: lit " " ++ show_len count ++ lit " attachment(s)")
             else kret tt)
      | Err e => record_error e
      end
  end.

Definition refresh_detail : ui :=
  let~ selected := kgets selected_message_id in
  match selected with
  | None => at_now (apply_detail None);~ status (lit "No message selected")
  | Some message_id =>
      status (lit "Loading message");~
      let~ r := ask (QGetMessage message_id) in
      match r with
      | Ok detail =>
          kmodify clear_error;~
          status (if is_none detail then lit "Message no longer exists" else lit "Message loaded");~
          at_now (apply_detail detail);~
          let~ detail := kgets s_detail in
          if is_none detail then kret tt else refresh_attachments
      | Err e => record_error e
      end
  end.

(** One round of the loop; [false] ends it. *)
Definition refresh_missing_one (continue : bool) (message_id : Id) : K W bool :=
  if negb continue then kret false
  else
    let~ r := ask (QGetMessage message_id) in
    match r with
    | Ok (Some detail) => kmodify clear_error;~ at_now (cache_conversation_detail detail);~ kret true
    | Ok None => status (lit "Message no longer exists");~ kret true
    | Err e => record_error e;~ kret false
    end.
Definition refresh_missing_expanded_details : ui :=
  let~ missing := kgets expanded_message_ids_without_detail in
  kfor refresh_missing_one true missing;~ kret tt.

(** ** Approvals *)

Definition approval_arg_id (args : value) (key : str) : option Id := (vget args key ≫= as_str) ≫= uuid_parse_str.
Definition tool_is (a : ApprovalItem) (names : list str) : bool := existsb (str_eqb (ap_tool a)) names.
Definition approval_message_id (a : ApprovalItem) (args : value) : option Id :=
  or_else (approval_arg_id args (lit "message_id"))
    (if tool_is a [lit "postblox_message_delete"; lit "postblox_message_get"; lit "postblox_message_move";
                   lit "postblox_message_set_flags"]
     then approval_arg_id args (lit "id") else None).
Definition approval_draft_id (a : ApprovalItem) (args : value) : option Id :=
  or_else (approval_arg_id args (lit "draft_id"))
    (if tool_is a [lit "postblox_draft_delete"; lit "postblox_draft_update"]
     then approval_arg_id args (lit "id") else None).
Definition approval_attachment_id (a : ApprovalItem) (args : value) : option Id :=
  or_else (approval_arg_id args (lit "attachment_id"))
    (if starts_with (ap_tool a) (lit "postblox_attachment_") then approval_arg_id args (lit "id") else None).


Definition resolve_attachment_context (a : ApprovalItem) (args : value) : K W (option ApprovalTargetContext) :=
  match approval_attachment_id a args with
  | None => kret None
  | Some attachment_id =>
      match approval_arg_id args (lit "message_id") with
      | None => kret None
      | Some message_id =>
          let~ r := ask (QListAttachments message_id) in
          kret match r with
               | Ok attachments => target_from_attachment <$> List.find (fun x => (at_id x =? attachment_id)%N) attachments
               | Err _ => None
               end
      end
  end.
Definition resolve_message_context (a : ApprovalItem) (args : value) : K W (option ApprovalTargetContext) :=
  match approval_message_id a args with
  | None => kret None
  | Some message_id =>
      let~ r := ask (QMessageContext message_id) in kret match r with Ok context => context | Err _ => None end
  end.
Definition resolve_draft_context (a : ApprovalItem) (args : value) : K W (option ApprovalTargetContext) :=
  match approval_draft_id a args with
  | None => kret None
  | Some draft_id =>
      let~ r := ask (QDraftContext draft_id) in kret match r with Ok context => context | Err _ => None end
  end.

Definition enrich_approval (a : ApprovalItem) : K W ApprovalItem :=
  match args_value a with
  | None => kret a
  | Some args =>
      let~ attachment := resolve_attachment_context a args in
      match attachment with
      | Some context => kret (set_target_context context a)
      | None =>
          let~ message := resolve_message_context a args in
          match message with
          | Some context => kret (set_target_context context a)
          | None =>
              let~ draft := resolve_draft_context a args in
              kret match draft with Some context => set_target_context context a | None => a end
          end
      end
  end.
Definition enrich_approvals : list ApprovalItem -> K W (list ApprovalItem) :=
  kfor (fun enriched a => let~ a := enrich_approval a in kret (enriched ++ [a])) [].

Definition set_approvals_pending (b : bool) (s : AppState) : AppState :=
  s <| s_approvals := mkApprovals (as_items (s_approvals s)) (as_selected (s_approvals s)) b |>.

Definition refresh_approvals : ui :=
  kmodify (set_approvals_pending true);~
  status (lit "Loading approvals");~
  let~ r := ask QListPendingApprovals in
  match r with
  | Ok approvals =>
      let~ approvals := enrich_approvals approvals in
      let count := List.length approvals in
      kmodify clear_error;~
      kmodify (apply_approvals approvals);~
      status (if count =? 0 then lit "No pending approvals" else show_len count ++ lit " pending approval(s)")
  | Err e => kmodify (set_approvals_pending false);~ record_error e
  end.

Definition open_approvals : ui := kmodify begin_approvals;~ refresh_approvals.

(** ** Messages, folders, accounts, drafts *)

(** The cached snapshot to show, if the last fetch did not fail. *)
Definition cached_snapshot (folder_id : Id) : K W (option FolderSnapshot) :=
  let~ failed := kgets s_error in
  if negb (is_none failed) then kret None
  else
    let~ account := kgets selected_account_id in
    match account with
    | None => kret None
    | Some account_id => let~ now := khost instant_now in kop (folder_cache_lookup account_id folder_id now)
    end.

Definition show_snapshot (snapshot : FolderSnapshot) : ui :=
  kmodify (restore_folder_snapshot snapshot);~
  let~ messages := kgets (fun s => List.length (s_folder_messages s)) in
  let~ threads := kgets (fun s => List.length (s_threads s)) in
  status (lit "Loaded cached " ++ show_len threads ++ lit " conversation(s), " ++ show_len messages ++ lit " message(s)");~
  let~ selected := kgets selected_message_id in
  if is_none selected then kret tt else refresh_detail.

Definition fetch_messages (folder_id : Id) : ui :=
  status (lit "Loading messages");~
  let~ r := ask (QListMessages folder_id) in
  match r with
  | Ok messages =>
      let count := List.length messages in
      kmodify clear_error;~
      at_now (apply_folder_messages messages);~
      let~ threads := kgets (fun s => List.length (s_threads s)) in
      if count =? 0 then status (lit "No messages in selected folder")
      else
        status (lit "Loaded " ++ show_len threads ++ lit " conversation(s), " ++ show_len count ++ lit " message(s)");~
        refresh_detail
  | Err e => record_error e
  end.

Definition refresh_messages : ui :=
  let~ approvals := kgets approvals_folder_selected in
  if approvals then refresh_approvals
  else
    let~ folder := kgets selected_folder_id in
    match folder with
    | None => at_now (apply_folder_messages []);~ status (lit "No folder selected")
    | Some folder_id =>
        let~ cached := cached_snapshot folder_id in
        match cached with
        | Some snapshot => show_snapshot snapshot
        | None => fetch_messages folder_id
        end
    end.

Definition refresh_folders : ui :=
  let~ account := kgets selected_account_id in
  match account with
  | None => kmodify (apply_folders []);~ status (lit "No account selected")
  | Some account_id =>
      status (lit "Loading folders");~
      let~ r := ask (QListFolders account_id) in
      match r with
      | Ok folders =>
          let count := List.length folders in
          kmodify clear_error;~
          kmodify (apply_folders folders);~
          (if count =? 0 then status (lit "No folders for selected account")
           else
             status (lit "Loaded " ++ show_len count ++ lit " folder(s)");~
             let~ approvals := kgets approvals_folder_selected in
             if approvals then refresh_approvals else refresh_messages)
      | Err e => record_error e
      end
  end.

Definition refresh_accounts : ui :=
  status (lit "Loading accounts");~
  let~ r := ask QListAccounts in
  match r with
  | Ok accounts =>
      let count := List.length accounts in
      kmodify clear_error;~
      kmodify (apply_accounts accounts);~
      (if count =? 0 then status (lit "Connected. No accounts found")
       else status (lit "Loaded " ++ show_len count ++ lit " account(s)");~ refresh_folders)
  | Err e => record_error e
  end.

Definition refresh_drafts : ui :=
  let~ account := kgets selected_account_id in
  match account with
  | None => kmodify (apply_drafts []);~ status (lit "No account selected")
  | Some account_id =>
      status (lit "Loading drafts");~
      let~ r := ask (QListDrafts account_id) in
      match r with
      | Ok drafts =>
          let count := List.length drafts in
          kmodify clear_error;~
          kmodify (apply_drafts drafts);~
          status (if count =? 0 then lit "No drafts" else lit "Loaded " ++ show_len count ++ lit " draft(s)")
      | Err e => record_error e
      end
  end.

Definition invalidate_selected_folder_cache (s : AppState) : AppState :=
  match selected_account_id s, selected_folder_id s with
  | Some account_id, Some folder_id => folder_cache_invalidate_folder account_id folder_id s
  | _, _ => s
  end.

(** ** Search *)

Definition submit_search (query : str) (scope_account : option Id) : ui :=
  let trimmed := trim query in
  if is_empty trimmed then status (lit "Search needs a query")
  else
    toast TInfo (lit "Searching" ++ [ELLIPSIS]);~
    kmodify (begin_search trimmed scope_account);~
    status (lit "Searching " ++ trimmed);~
    let~ r := ask (QSearch trimmed scope_account) in
    match r with
    | Ok hits =>
        let count := List.length hits in
        kmodify (apply_search_hits hits);~
        toast TInfo (show_len count ++ lit " result(s)");~
        status (show_len count ++ lit " search result(s)")
    | Err e =>
        let message := mailbox_error_text e in
        toast TError message;~ error message;~ kmodify close_search;~ status message
    end.

Definition search_query (s : AppState) : option str := se_query <$> s_search s.
Definition search_scope_account (s : AppState) : option Id := s_search s ≫= se_scope_account.
Definition refresh_search : ui :=
  let~ query := kgets search_query in
  match query with
  | None => kret tt
  | Some query => let~ scope := kgets search_scope_account in submit_search query scope
  end.

(** ** By pane *)

Definition refresh_current_pane : ui :=
  let~ active := kgets s_active in
  let~ approvals := kgets approvals_folder_selected in
  let~ drafts := kgets drafts_pane_active in
  match active with
  | PAccounts => refresh_accounts
  | PFolders =>
      (if negb approvals && negb drafts then kmodify invalidate_selected_folder_cache else kret tt);~ refresh_folders
  | PConversations =>
      if approvals then refresh_approvals
      else if drafts then refresh_drafts
      else kmodify invalidate_selected_folder_cache;~ refresh_messages
  | PDetails =>
      if approvals then refresh_approvals
      else if drafts then refresh_drafts
      else refresh_detail
  | PAttachments => refresh_attachments
  | PSearch => refresh_search
  end.

Definition refresh_after_selection_change : ui :=
  let~ active := kgets s_active in
  let~ approvals := kgets approvals_folder_selected in
  let~ drafts := kgets drafts_pane_active in
  match active with
  | PAccounts => refresh_folders
  | PFolders =>
      if approvals then refresh_approvals
      else if drafts then refresh_drafts
      else refresh_messages
  | PConversations => if approvals then kret tt else if negb drafts then refresh_detail else kret tt
  | PDetails => if negb approvals then refresh_detail else kret tt
  | PAttachments => refresh_attachment_preview
  | PSearch => kret tt
  end.
End refresh.
