(* ===== verification/TuiForward.v ===== *)
(** * Forwarding and exporting (src/tui/mod.rs)

    Replies and forwards are prepared by the daemon and opened in the composer.
    The attachments of a forwarded message are fetched in batches that fit into
    a frame and written to temporary files; names from the network are reduced
    to a leaf before they become part of a path. *)

From stdpp Require Import gmap.
From S2P Require Import Prelude RustStr Json IpcProtocol Wire McpTools McpModels MailParser DbCore Attachments Config TuiText TuiComposer TuiItems TuiApprovals TuiApp TuiIpc TuiMailbox.
#[local] Open Scope nat_scope.
#[local] Open Scope bool_scope.

Definition FORWARD_ATTACHMENT_BATCH_MAX_IDS : nat := 32.
Definition FORWARD_ATTACHMENT_BATCH_WIRE_BUDGET : Z := Z.of_N MAX_FRAME_BYTES - 64 * 1024.

(** ** Batches *)

Definition sat_mul64 (a b : Z) : Z := Z.min (a * b) USIZE_MAX.
(** On 64-bit hosts [usize::try_from] of a non-negative [i64] succeeds. *)
Definition estimated_forward_attachment_wire_bytes (size_bytes : Z) : Z :=
  sat_add64 (sat_mul64 (sat_add64 (Z.max size_bytes 0) 2 / 3) 4) 512.

Record Batching : Type := mkBatching { bg_batches : list (list Id); bg_batch : list Id; bg_bytes : Z }.
Definition add_to_batch (st : Batching) (meta : ForwardAttachmentMeta) : Batching :=
  let next_bytes := estimated_forward_attachment_wire_bytes (fm_size_bytes meta) in
  let would_exceed_count := FORWARD_ATTACHMENT_BATCH_MAX_IDS <=? List.length (bg_batch st) in
  let would_exceed_budget :=
    negb (bool_decide (bg_batch st = []))
    && (FORWARD_ATTACHMENT_BATCH_WIRE_BUDGET <? sat_add64 (bg_bytes st) next_bytes)%Z in
  let st := if would_exceed_count || would_exceed_budget
            then mkBatching (bg_batches st ++ [bg_batch st]) [] 0 else st in
  mkBatching (bg_batches st) (bg_batch st ++ [fm_attachment_id meta]) (sat_add64 (bg_bytes st) next_bytes).
Definition forward_attachment_batches (metas : list ForwardAttachmentMeta) : list (list Id) :=
  let st := foldl add_to_batch (mkBatching [] [] 0) metas in
  if bool_decide (bg_batch st = []) then bg_batches st else bg_batches st ++ [bg_batch st].

(** ** Labels of failures *)

Section labels.
Context {TP : TextParsers}.
Definition forward_failure_label (f : ForwardAttachmentFailure) : str :=
  let name := if is_empty (ff_filename f) then uuid_to_string (ff_attachment_id f) else ff_filename f in
  let reason := trim (ff_message f) in
  let reason := if is_empty (ff_code f) then reason
                else if is_empty reason then ff_code f
                else reason ++ lit " (" ++ ff_code f ++ lit ")" in
  if is_empty reason then name else name ++ lit ": " ++ reason.
Definition forward_attachment_label (metas : list ForwardAttachmentMeta) (attachment_id : Id) : str :=
  match List.find (fun m => (fm_attachment_id m =? attachment_id)%N) metas with
  | Some m => fm_filename m
  | None => uuid_to_string attachment_id
  end.
End labels.

(** ** File names *)

Definition safe_export_filename (filename : str) : str :=
  let leaf := unwrap_or (lit "attachment.bin") (file_name filename) in
  let safe := trim_matches (fun c => (c =? 46)%N || (c =? 32)%N) leaf in
  if is_empty safe then lit "attachment.bin" else safe.

(** Before and after the last dot, if there is one. *)
Fixpoint rsplit_dot (s : str) : option (str * str) :=
  match s with
  | [] => None
  | c :: r =>
      match rsplit_dot r with
      | Some (before, after) => Some (c :: before, after)
      | None => if (c =? DOT)%N then Some ([], r) else None
      end
  end.
(** [Path::file_stem] and [Path::extension] of a file name: a name that only
    starts with a dot has no extension. *)
Definition stem_and_extension (name : str) : str * option str :=
  if str_eqb name (lit "..") then (name, None)
  else match rsplit_dot name with
       | Some ([], _) => (name, None)
       | Some (before, after) => (before, Some after)
       | None => (name, None)
       end.
Definition file_stem (p : str) : option str := (fun n => (stem_and_extension n).1) <$> file_name p.
Definition extension (p : str) : option str := file_name p ≫= fun n => (stem_and_extension n).2.

Definition export_candidate (filename : str) (index : nat) : str :=
  let stem := unwrap_or (lit "attachment") (file_stem filename) in
  match extension filename with
  | Some ext => stem ++ lit " (" ++ show_len index ++ lit ")." ++ ext
  | None => stem ++ lit " (" ++ show_len index ++ lit ")"
  end.

Section host.
Context {TP : TextParsers} {JC : JsonCodec} {UC : UnicodeCase} {CT : ClientTexts} {B64 : Base64}.
Context {W : Type} {MB : Mailbox W} {HO : Host W}.
Abbreviation ui := (K W unit).

Fixpoint first_free (directory filename : str) (indices : list nat) : K W (result str str) :=
  match indices with
  | [] => kret (Err (lit "no collision-free export path available"))
  | index :: rest =>
      let candidate := path_join directory (export_candidate filename index) in
      let~ taken := khost (path_exists candidate) in
      if negb taken then kret (Ok candidate) else first_free directory filename rest
  end.
Definition default_export_path (filename : str) : K W (result str str) :=
  let~ dir := khost current_dir in
  match dir with
  | Err e => kret (Err e)
  | Ok directory =>
      let filename := safe_export_filename filename in
      let first := path_join directory filename in
      let~ taken := khost (path_exists first) in
      if negb taken then kret (Ok first) else first_free directory filename (seq 1 999)
  end.

(** ** Temporary files for the composer *)

(** Write [decoded] below [dir] under a fresh name that ends in the leaf. *)
Definition materialise (subdir filename content_type : str) (decoded : list N) : K W (result str ComposerAttachment) :=
  let dir := path_join temp_dir subdir in
  let~ made := khost (create_dir_all dir) in
  match made with
  | Err e => kret (Err e)
  | Ok _ =>
      let~ id := khost new_v4 in
      let path := path_join dir (uuid_simple id ++ lit "-" ++ safe_export_filename filename) in
      let~ written := khost (fs_write_file path decoded) in
      kret match written with
           | Ok _ => Ok (mkComposerAttachment path filename (Z.of_nat (List.length decoded)) content_type)
           | Err e => Err e
           end
  end.
Definition materialise_forward_attachment (bytes : ForwardAttachmentBytes) : K W (result str ComposerAttachment) :=
  match forward_decoded_bytes bytes with
  | Err e => kret (Err e)
  | Ok decoded => materialise (lit "postblox-forward") (fb_filename bytes) (fb_content_type bytes) decoded
  end.
Definition materialise_draft_attachment (bytes : DraftAttachmentBytes) : K W (result str ComposerAttachment) :=
  match db_bytes bytes with
  | None => kret (Err (lit "invalid base64 for draft attachment '" ++ db_filename bytes ++ lit "': "
                         ++ unwrap_or (lit "decode failed") (db_decode_error bytes)))
  | Some decoded => materialise (lit "postblox-drafts") (db_filename bytes) (db_content_type bytes) decoded
  end.

Definition add_materialised (acc : result str (list ComposerAttachment)) (bytes : DraftAttachmentBytes)
    : K W (result str (list ComposerAttachment)) :=
  match acc with
  | Err e => kret (Err e)
  | Ok l => let~ r := materialise_draft_attachment bytes in
            kret match r with Ok a => Ok (l ++ [a]) | Err e => Err e end
  end.
Definition composer_draft_from_summary (summary : DraftSummary) : K W (result str ComposerDraft) :=
  let~ attachments := kfor add_materialised (Ok []) (ds_attachments summary) in
  let c := dr_cols (ds_draft summary) in
  kret match attachments with
       | Err e => Err e
       | Ok attachments =>
           Ok (mkComposerDraft (nd_account_id c) (nd_in_reply_to_msg c) (nd_to_addrs c) (nd_cc_addrs c) (nd_bcc_addrs c)
                 (nd_subject c) (nd_text_body c) (nd_html_body c) attachments (nd_in_reply_to c) (nd_references_header c))
       end.

(** ** Reply and forward *)

Definition show_failure (e : MailboxError) : ui :=
  let message := mailbox_error_text e in
  toast TError message;~ error message;~ status message.

Definition run_reply (reply_all : bool) : ui :=
  let~ selected := kgets selected_message_id in
  match selected with
  | None => status ((if reply_all then lit "reply-all" else lit "reply") ++ lit ": no message selected")
  | Some message_id =>
      let~ r := ask (QPrepareReply message_id reply_all) in
      match r with
      | Err e => show_failure e
      | Ok p =>
          kmodify (enter_composer_with_prefill (rp_account_id p)
            (mkPrefill (Some (rp_message_id p)) (rp_to p) (rp_cc p) [] (Some (rp_subject p))
               (non_empty_string (rp_quoted_body p)) (non_empty_string (rp_in_reply_to p))
               (non_empty_string (rp_references p)) []));~
          status (if reply_all then lit "Reply-all" else lit "Reply")
      end
  end.

(** Attachments carried over, and labels of those that were not. *)
Definition carried : Type := list ComposerAttachment * list str.
Definition carry_one (acc : carried) (bytes : ForwardAttachmentBytes) : K W carried :=
  let~ r := materialise_forward_attachment bytes in
  kret match r with
       | Ok a => (acc.1 ++ [a], acc.2)
       | Err _ => (acc.1, acc.2 ++ [fb_filename bytes])
       end.
Definition carry_batch (p : ForwardPrepared) (acc : carried) (ids : list Id) : K W carried :=
  let~ r := ask (QFetchAllForForward (fp_message_id p) ids) in
  match r with
  | Ok batch =>
      let~ acc := kfor carry_one acc (fx_attachments batch) in
      kret (acc.1, acc.2 ++ map forward_failure_label (fx_failed batch))
  | Err _ => kret (acc.1, acc.2 ++ map (forward_attachment_label (fp_forwarded_attachments p)) ids)
  end.
Definition run_forward : ui :=
  let~ selected := kgets selected_message_id in
  match selected with
  | None => status (lit "forward: no message selected")
  | Some message_id =>
      let~ r := ask (QPrepareForward message_id) in
      match r with
      | Err e => show_failure e
      | Ok p =>
          let~ c := kfor (carry_batch p) ([], []) (forward_attachment_batches (fp_forwarded_attachments p)) in
          (if bool_decide (c.2 = []) then kret tt
           else toast TError (lit "Could not carry forward: " ++ join (lit ", ") c.2));~
          kmodify (enter_composer_with_prefill (fp_account_id p)
            (mkPrefill None [] [] [] (Some (fp_subject p)) (non_empty_string (fp_forwarded_body p)) None None c.1));~
          status (lit "Forward")
      end
  end.
End host.
