(* ===== verification/TuiKeys.v ===== *)
(** * Keys (src/tui/mod.rs: [handle_key] and what it calls)

    One key press from the terminal to the requests it causes.  The handlers
    follow the code: which prompt has the key, the table of the overloaded
    letters, and the commands.  A handler that returns [bool] says whether the
    program quits, or, for a pane, whether it used the key. *)

From stdpp Require Import gmap.
From S2P Require Import Prelude RustStr Json IpcProtocol Wire McpTools McpModels MailParser DbCore Attachments Config TuiText TuiComposer TuiEditing TuiItems TuiApprovals TuiApp TuiCommand TuiIpc TuiMailbox TuiForward.
#[local] Open Scope nat_scope.
#[local] Open Scope bool_scope.

(** ** Key events (crossterm) *)

Inductive KeyCode : Type :=
| KChar (c : char)
| KEsc | KEnter | KTab | KBackTab | KBackspace | KDelete
| KUp | KDown | KLeft | KRight | KHome | KEnd | KPageUp | KPageDown
| KOther.
Record KeyEvent : Type := mkKey { ke_code : KeyCode; ke_control : bool; ke_shift : bool }.

(** The character a one-letter literal names. *)
Definition ch (s : String.string) : char := List.hd 0%N (lit s).
Definition pressed (c : char) (s : String.string) : bool := (c =? ch s)%N.

Definition COMPOSER_BODY_KEY_VIEWPORT_LINES : nat := 3.
Definition DETAIL_KEY_VIEWPORT_LINES : nat := 6.
Definition PREVIEW_KEY_VIEWPORT_LINES : nat := 6.
Definition HELP_PAGE_LINES : nat := 10.

(** ** Panes and the table of overloaded letters *)

Inductive PaneKind : Type :=
| KindAccounts | KindFolders | KindConversationsMail | KindConversationsDrafts | KindConversationsApprovals
| KindDetails | KindDetailsApprovals | KindAttachments | KindSearch.

Definition current_pane_kind (s : AppState) : PaneKind :=
  match s_active s with
  | PAccounts => KindAccounts
  | PFolders => KindFolders
  | PConversations =>
      if approvals_folder_selected s then KindConversationsApprovals
      else if drafts_pane_active s then KindConversationsDrafts
      else KindConversationsMail
  | PDetails => if approvals_folder_selected s then KindDetailsApprovals else KindDetails
  | PAttachments => KindAttachments
  | PSearch => KindSearch
  end.

Inductive PaneAction : Type :=
| Refuse (text : str)
| OpenAttachmentExternally
| ToggleAttachmentsPane
| BeginMessageDelete
| BeginDraftDelete
| ArchiveSelectedMessage
| ExportSelectedAttachment
| OpenMoveCommand
| ToggleFocusedExpansion
| ExpandAllMessages
| ApproveSelectedApproval
| DenySelectedApproval
| OpenSelectedDraft.

Definition action_o (p : PaneKind) : PaneAction :=
  match p with
  | KindDetails => ToggleFocusedExpansion
  | KindDetailsApprovals => Refuse (lit "o: focus a message first (Approvals don't open files)")
  | KindAttachments => OpenAttachmentExternally
  | KindConversationsDrafts => OpenSelectedDraft
  | KindConversationsMail => Refuse (lit "o: focus a message first (open works in Details)")
  | KindConversationsApprovals => Refuse (lit "o: approvals don't open files; press a to approve")
  | KindAccounts | KindFolders | KindSearch => Refuse (lit "o: open is for the Attachments pane")
  end.
Definition action_O (p : PaneKind) : PaneAction :=
  match p with KindDetails => ExpandAllMessages | _ => Refuse (lit "O: expand-all only works in Details") end.
Definition action_a (p : PaneKind) : PaneAction :=
  match p with
  | KindConversationsApprovals | KindDetailsApprovals => ApproveSelectedApproval
  | KindConversationsDrafts => Refuse (lit "a: drafts have no attachments to toggle")
  | KindConversationsMail | KindDetails | KindAttachments => ToggleAttachmentsPane
  | KindAccounts | KindFolders | KindSearch => Refuse (lit "a: attachments live on messages")
  end.
Definition action_d (p : PaneKind) : PaneAction :=
  match p with
  | KindConversationsApprovals | KindDetailsApprovals => DenySelectedApproval
  | KindConversationsDrafts => BeginDraftDelete
  | KindConversationsMail | KindDetails => BeginMessageDelete
  | KindAttachments => Refuse (lit "d: attachments have no delete (e exports)")
  | KindAccounts => Refuse (lit "d: switch to a message to delete")
  | KindFolders | KindSearch => Refuse (lit "d: delete lives on messages")
  end.
Definition action_e (p : PaneKind) : PaneAction :=
  match p with
  | KindConversationsMail | KindDetails => ArchiveSelectedMessage
  | KindAttachments => ExportSelectedAttachment
  | KindConversationsDrafts => Refuse (lit "e: archive is not for drafts")
  | KindConversationsApprovals | KindDetailsApprovals => Refuse (lit "e: approvals don't archive")
  | KindAccounts | KindFolders | KindSearch => Refuse (lit "e: archive lives on messages")
  end.
Definition action_m (p : PaneKind) : PaneAction :=
  match p with
  | KindConversationsMail | KindDetails => OpenMoveCommand
  | KindConversationsDrafts => Refuse (lit "m: drafts can't be moved between folders")
  | KindConversationsApprovals | KindDetailsApprovals => Refuse (lit "m: approvals can't be moved")
  | KindAttachments => Refuse (lit "m: move lives on messages")
  | KindAccounts | KindFolders | KindSearch => Refuse (lit "m: move only valid in Conversations")
  end.
Definition resolve_pane_action (s : AppState) (key : KeyEvent) : option PaneAction :=
  if ke_control key then None
  else match ke_code key with
       | KChar c =>
           let pane := current_pane_kind s in
           if pressed c "o" then Some (action_o pane)
           else if pressed c "O" then Some (action_O pane)
           else if pressed c "a" then Some (action_a pane)
           else if pressed c "d" then Some (action_d pane)
           else if pressed c "e" then Some (action_e pane)
           else if pressed c "m" then Some (action_m pane)
           else None
       | _ => None
       end.

(** ** Errors *)

Inductive CommandRunError : Type := AccountNotSelected | FolderUnavailable | MessageMissing.
Definition command_run_error_text (e : CommandRunError) : str :=
  match e with
  | AccountNotSelected => lit "no account selected"
  | FolderUnavailable => lit "no folder selected"
  | MessageMissing => lit "no message selected"
  end.
Definition command_error_text (e : CommandError) : str :=
  match e with
  | EmptyCommand => lit "empty command"
  | UnknownCommand name => lit "unknown command '" ++ name ++ lit "'"
  | Usage usage => lit "usage: " ++ usage
  end.
Definition attach_error_text (e : AttachError) : str :=
  match e with
  | AENotFound path => lit "file not found: " ++ path
  | AENotAFile path => lit "not a regular file: " ++ path
  | AETooLarge size => lit "attachment too large: " ++ human_size size ++ lit " > " ++ human_size MAX_COMPOSE_ATTACHMENT_BYTES
  | AEAggregateTooLarge total => lit "aggregate over limit: " ++ human_size total ++ lit " > " ++ human_size MAX_COMPOSE_ATTACHMENT_BYTES
  | AEIo path message => lit "cannot read " ++ path ++ lit ": " ++ message
  end.

Inductive FolderWrite : Type := WSync | WStartSync | WStopSync.
#[global] Instance FolderWrite_eq_dec : EqDecision FolderWrite.
Proof. solve_decision. Defined.
Definition folder_running_status (op : FolderWrite) (folder_name : str) : str :=
  match op with
  | WSync => lit "Syncing " ++ folder_name
  | WStartSync => lit "Starting sync for " ++ folder_name
  | WStopSync => lit "Stopping sync for " ++ folder_name
  end.
Definition folder_success_status (op : FolderWrite) (folder_name : str) : str :=
  match op with
  | WSync => lit "Synced " ++ folder_name
  | WStartSync => lit "Started sync for " ++ folder_name
  | WStopSync => lit "Stopped sync for " ++ folder_name
  end.

Inductive MessageRemove : Type := RemoveArchive | RemoveDelete.
Definition remove_running_status (op : MessageRemove) : str :=
  match op with RemoveArchive => lit "Archiving" ++ [ELLIPSIS] | RemoveDelete => lit "Deleting" ++ [ELLIPSIS] end.
Definition remove_success_status (op : MessageRemove) : str :=
  match op with RemoveArchive => lit "Archived" | RemoveDelete => lit "Deleted" end.

Definition approval_decision_verb (d : ApprovalState) : str :=
  match d with Allowed => lit "Approving" | Denied => lit "Denying" | Pending | Expired => lit "Deciding" end.
Definition approval_decision_past_tense (d : ApprovalState) : str :=
  match d with Allowed => lit "Approved" | Denied => lit "Denied" | Pending | Expired => lit "Decided" end.

Definition message_list_focused (s : AppState) : bool :=
  bool_decide (s_active s = PConversations) && negb (approvals_folder_selected s).
Definition drafts_list_focused (s : AppState) : bool :=
  bool_decide (s_active s = PConversations) && drafts_pane_active s.

Definition selected_account_folder (s : AppState) : result CommandRunError (Id * str) :=
  match selected_account_id s with
  | None => Err AccountNotSelected
  | Some account_id =>
      if approvals_folder_selected s then Err FolderUnavailable
      else match selected_folder_name s with
           | None => Err FolderUnavailable
           | Some folder_name => Ok (account_id, folder_name)
           end
  end.

(** Lines moved per key. *)
Definition page (n : nat) : Z := Z.of_nat n.

Section keys.
Context {TP : TextParsers} {JC : JsonCodec} {UC : UnicodeCase} {CT : ClientTexts} {B64 : Base64} {CF : ComposeFiles}.
Context {W : Type} {MB : Mailbox W} {HO : Host W}.
Abbreviation ui := (K W unit).

Definition record_command_run_error (e : CommandRunError) : ui :=
  let message := command_run_error_text e in
  status message;~ error message.
Definition record_command_parse_error (e : CommandError) : ui :=
  let message := command_error_text e in
  let message := match e with
                 | UnknownCommand name =>
                     match nearest_command_name name with
                     | Some suggestion => message ++ lit " " ++ EM_DASH :: lit " did you mean :" ++ suggestion ++ lit "?"
                     | None => message
                     end
                 | _ => message
                 end in
  status message;~ error message.

(** Set the status unless the refresh before it failed. *)
Definition status_unless_failed (text : str) : ui :=
  let~ failed := kgets s_error in
  if is_none failed then status text else kret tt.

(** ** Writes *)

Definition run_folder_write (op : FolderWrite) : ui :=
  let~ selection := kgets selected_account_folder in
  match selection with
  | Err e => record_command_run_error e
  | Ok (account_id, folder_name) =>
      kmodify clear_error;~
      status (folder_running_status op folder_name);~
      let~ r := ask (match op with
                     | WSync => QSyncFolder account_id folder_name
                     | WStartSync => QStartSync account_id folder_name
                     | WStopSync => QStopSync account_id folder_name
                     end) in
      match r with
      | Ok _ =>
          (if bool_decide (op = WSync) then kmodify invalidate_selected_folder_cache else kret tt);~
          refresh_messages;~
          status_unless_failed (folder_success_status op folder_name)
      | Err e => record_error e
      end
  end.

Definition run_flag_write (flag : str) (enabled : bool) (success : str) : ui :=
  let~ update := kgets (selected_message_flag_update flag enabled) in
  match update with
  | None => record_command_run_error MessageMissing
  | Some (message_id, flags) =>
      kmodify clear_error;~
      let~ previous := kgets (fun s => match selected_message s with Some m => mi_flags m | None => [] end) in
      at_now (apply_message_flags message_id flags);~
      status [ELLIPSIS];~
      let~ r := ask (QSetFlags message_id flags) in
      match r with
      | Ok _ => refresh_messages;~ status_unless_failed success
      | Err e => at_now (apply_message_flags message_id previous);~ record_error e
      end
  end.

(** Show the removal, then ask for it; put the rows back if it is refused. *)
Definition remove_optimistically (message_id : Id) (running : str) (request : MailboxCall unit) (success : str) : ui :=
  kmodify clear_error;~
  let~ snapshot := kgets snapshot_message_list in
  at_now (fun now s => (remove_message_locally message_id now s).2);~
  status running;~
  let~ r := ask request in
  match r with
  | Ok _ => refresh_messages;~ status_unless_failed success
  | Err e => at_now (restore_message_list_snapshot snapshot);~ record_error e
  end.
Definition run_message_remove_for (op : MessageRemove) (message_id : Id) : ui :=
  remove_optimistically message_id (remove_running_status op)
    (match op with RemoveArchive => QArchiveMessage message_id | RemoveDelete => QDeleteMessage message_id end)
    (remove_success_status op).
Definition run_message_remove (op : MessageRemove) : ui :=
  let~ selected := kgets selected_message_id in
  match selected with
  | None => record_command_run_error MessageMissing
  | Some message_id => run_message_remove_for op message_id
  end.
Definition run_message_move (folder_name : str) : ui :=
  let~ selected := kgets selected_message_id in
  match selected with
  | None => record_command_run_error MessageMissing
  | Some message_id =>
      let folder_name := trim folder_name in
      if is_empty folder_name then record_command_parse_error (Usage (lit "move <folder>"))
      else remove_optimistically message_id (lit "Moving to " ++ folder_name ++ [ELLIPSIS])
             (QMoveMessage message_id folder_name) (lit "Moved to " ++ folder_name)
  end.

(** ** Approvals *)

Definition warn (message : str) : ui := toast TWarn message;~ status message.
Definition run_approval_decision (decision : ApprovalState) : ui :=
  let~ here := kgets approvals_folder_selected in
  if negb here then warn (lit "Select the Approvals folder first")
  else
    let~ selected := kgets selected_approval in
    if is_none selected then warn (lit "No pending approval selected")
    else
      let~ removed := kop remove_selected_approval in
      match removed with
      | None => kret tt
      | Some approval =>
          kmodify clear_error;~
          status (approval_decision_verb decision ++ lit " " ++ ap_tool approval);~
          let~ r := ask (QDecideApproval (ap_id approval) decision) in
          match r with
          | Ok true =>
              let done := approval_decision_past_tense decision ++ lit " " ++ ap_tool approval in
              toast TSuccess done;~ status done
          | Ok false => warn (lit "Approval was already decided");~ refresh_approvals
          | Err e => record_error e;~ refresh_approvals
          end
      end.

(** ** Drafts and the composer *)

Definition open_selected_draft : ui :=
  let~ selected := kgets selected_draft_id in
  match selected with
  | None => status (lit "No draft selected")
  | Some draft_id =>
      status (lit "Loading draft");~
      let~ r := ask (QGetDraft draft_id) in
      match r with
      | Err e => record_error e
      | Ok None => status (lit "Draft no longer exists")
      | Ok (Some summary) =>
          let~ draft := composer_draft_from_summary summary in
          match draft with
          | Err e =>
              let message := lit "Cannot reopen draft: " ++ e in
              toast TError message;~ error message
          | Ok draft =>
              kmodify (enter_composer_for_existing_draft draft_id draft FBody);~ status (lit "Compose (resumed)")
          end
      end
  end.

Definition delete_pending_draft : ui :=
  let~ taken := kop take_pending_delete_draft in
  match taken with
  | None => kret tt
  | Some draft_id =>
      let~ removed := kop (remove_draft_locally draft_id) in
      let~ r := ask (QDeleteDraft draft_id) in
      match r with
      | Ok _ => if removed then status (lit "Draft " ++ uuid_to_string draft_id ++ lit " deleted") else kret tt
      | Err e => record_error e;~ refresh_drafts
      end
  end.

Definition save_composer : K W (option Id) :=
  let~ draft := kgets composer_draft in
  match draft with
  | None => status (lit "No composer open");~ kret None
  | Some draft =>
      kmodify clear_error;~
      status (lit "Saving draft");~
      let~ existing := kgets composer_draft_id in
      let~ r := ask (match existing with Some draft_id => QUpdateDraft draft_id draft | None => QCreateDraft draft end) in
      match r with
      | Ok draft_id =>
          kmodify (mark_composer_saved draft_id);~
          status (lit "Draft saved (in Drafts folder) " ++ uuid_to_string draft_id);~
          kret (Some draft_id)
      | Err e => record_error e;~ kret None
      end
  end.

(** The draft as it is on the daemon, saved first if it has changed. *)
Definition saved_draft : K W (option Id) :=
  let~ existing := kgets composer_draft_id in
  let~ dirty := kgets composer_is_dirty in
  match existing with
  | Some draft_id => if negb dirty then kret (Some draft_id) else save_composer
  | None => save_composer
  end.
Definition send_composer : ui :=
  let~ account := kgets composer_account_id in
  match account with
  | None => status (lit "No composer open")
  | Some account_id =>
      let~ draft := saved_draft in
      match draft with
      | None => kret tt
      | Some draft_id =>
          kmodify clear_error;~
          status (lit "Sending message");~
          let~ r := ask (QSendDraft account_id draft_id) in
          match r with
          | Ok message_id => kmodify exit_composer;~ status (lit "Sent message " ++ message_id)
          | Err e => record_error e
          end
      end
  end.

(** ** Attachments *)

Definition export_selected_attachment : ui :=
  let~ selected := kgets selected_attachment in
  match selected with
  | None => status (lit "No attachment selected")
  | Some attachment =>
      let~ destination := default_export_path (at_filename attachment) in
      match destination with
      | Err e => error (lit "export path: " ++ e)
      | Ok destination =>
          kmodify clear_error;~
          status (lit "Exporting " ++ at_filename attachment);~
          let~ r := ask (QExportAttachment (at_id attachment) destination) in
          match r with
          | Ok exported => status (lit "Exported attachment to " ++ er_destination_path exported)
          | Err e => record_error e
          end
      end
  end.
Definition open_attachment_with_xdg (attachment : AttachmentItem) : ui :=
  let~ r := khost (xdg_open (at_storage_path attachment)) in
  match r with
  | Ok (true, _) => status (lit "Opened " ++ at_filename attachment ++ lit " with xdg-open")
  | Ok (false, text) => error (lit "xdg-open failed with status " ++ text)
  | Err e => error (lit "xdg-open failed: " ++ e)
  end.

(** ** Commands *)

Definition run_search (account : option str) (query : str) : ui :=
  match account with
  | None => submit_search query None
  | Some name =>
      let~ found := kgets (account_id_by_name name) in
      match found with
      | Some id => submit_search query (Some id)
      | None =>
          let message := lit "unknown account: " ++ name in
          toast TError message;~ error message;~ status message
      end
  end.

Definition run_goto_folder (folder_name : str) : ui :=
  let folder_name := trim folder_name in
  if is_empty folder_name then record_command_parse_error (Usage (lit "goto <folder>"))
  else if eq_ignore_ascii_case folder_name APPROVALS_FOLDER_NAME then open_approvals
  else
    let~ account := kgets selected_account_id in
    if is_none account then record_command_run_error AccountNotSelected
    else
      let~ found := kop (select_folder_by_name folder_name) in
      if negb found then
        let message := lit "No folder named '" ++ folder_name ++ lit "' for current account" in
        status message;~ error message
      else kmodify clear_error;~ status (lit "Folder: " ++ folder_name);~ refresh_messages.

Definition run_select_account (name : str) : ui :=
  let name := trim name in
  if is_empty name then record_command_parse_error (Usage (lit "account <name|email>"))
  else
    let~ found := kop (select_account_by_name name) in
    if negb found then
      let message := lit "No account named '" ++ name ++ lit "'" in
      status message;~ error message
    else kmodify clear_error;~ status (lit "Account: " ++ name);~ refresh_folders.

Definition compose_new : ui :=
  let~ account := kgets selected_account_id in
  match account with
  | Some account_id => kmodify (enter_composer account_id)
  | None => record_command_run_error AccountNotSelected
  end.
Definition begin_message_delete : ui :=
  let~ selected := kgets selected_message_id in
  match selected with
  | Some message_id => kmodify (begin_delete_confirmation message_id)
  | None => record_command_run_error MessageMissing
  end.

Definition execute_command (command : Command) : ui :=
  match command with
  | CSync => run_folder_write WSync
  | CStartSync => run_folder_write WStartSync
  | CStopSync => run_folder_write WStopSync
  | CSeen => run_flag_write SEEN_FLAG true (lit "Marked message seen")
  | CUnseen => run_flag_write SEEN_FLAG false (lit "Marked message unseen")
  | CFlag => run_flag_write FLAGGED_FLAG true (lit "Flagged message")
  | CUnflag => run_flag_write FLAGGED_FLAG false (lit "Unflagged message")
  | CArchive => run_message_remove RemoveArchive
  | CApprovals => open_approvals
  | CApprove => run_approval_decision Allowed
  | CDelete => begin_message_delete
  | CDeny => run_approval_decision Denied
  | CMove folder => run_message_move folder
  | CThemeNext =>
      kmodify cycle_theme;~
      let~ theme := kgets s_theme in
      kmodify clear_error;~ status (lit "Theme: " ++ theme_as_str theme)
  | CTheme theme => kmodify (set_theme theme);~ kmodify clear_error;~ status (lit "Theme: " ++ theme_as_str theme)
  | CCompose => compose_new
  | CReply => run_reply false
  | CReplyAll => run_reply true
  | CForward => run_forward
  | CGoto folder => run_goto_folder folder
  | CHelp => kmodify (fun s => (open_help s).2)
  | CAccount name => run_select_account name
  | CSearch account query => run_search account query
  | CWrite =>
      let~ composer := kgets s_composer in
      if is_none composer then status (lit ":w only valid while composing")
      else save_composer;~ kret tt
  end.

Definition run_command_line (input : str) : ui :=
  if is_empty (trim input) then kret tt
  else match parse_command input with
       | Ok command => execute_command command
       | Err e => record_command_parse_error e
       end.

(** ** The overloaded letters *)

Definition push_text (text : str) (s : AppState) : AppState := foldl (fun s c => (push_command_char c s).2) s text.

Definition run_pane_action (action : PaneAction) : ui :=
  match action with
  | Refuse text => at_now (push_pane_refusal_toast text)
  | OpenAttachmentExternally =>
      let~ begun := kop begin_open_attachment_confirmation in
      if begun then
        let~ pending := kgets s_pending_open_attachment in
        let filename := match pending with Some a => at_filename a | None => lit "attachment" end in
        status (lit "Open " ++ filename ++ lit " with xdg-open? y/n")
      else status (lit "No attachment selected")
  | ToggleAttachmentsPane =>
      let~ shown := kop toggle_attachment_focus in
      status (if shown then lit "Attachments" else lit "No attachments for message")
  | BeginMessageDelete =>
      let~ selected := kgets selected_message_id in
      if is_none selected then status (lit "No message selected") else begin_message_delete
  | BeginDraftDelete =>
      let~ selected := kgets selected_draft_id in
      match selected with
      | Some draft_id => kmodify (begin_draft_delete draft_id);~ status (lit "Delete draft? y/n")
      | None => status (lit "No draft selected")
      end
  | ArchiveSelectedMessage => execute_command CArchive
  | ExportSelectedAttachment => export_selected_attachment
  | OpenMoveCommand =>
      kmodify enter_command_mode;~ kmodify (push_text (lit "move "));~ status (lit "Command mode")
  | ToggleFocusedExpansion =>
      let~ expanded := kop toggle_focused_message_expansion in
      match expanded with
      | Some true => refresh_missing_expanded_details;~ status (lit "Message expanded")
      | Some false => status (lit "Message collapsed")
      | None => status (lit "No message selected")
      end
  | ExpandAllMessages =>
      let~ expanded := kop expand_all_conversation_messages in
      if expanded then refresh_missing_expanded_details;~ status (lit "Conversation expanded")
      else status (lit "No message selected")
  | ApproveSelectedApproval => run_approval_decision Allowed
  | DenySelectedApproval => run_approval_decision Denied
  | OpenSelectedDraft =>
      let~ selected := kgets selected_draft_id in
      if is_none selected then status (lit "No draft selected") else open_selected_draft
  end.

(** ** Overlays and prompts *)

Definition handle_help_key (key : KeyEvent) : ui :=
  match ke_code key with
  | KEsc => kmodify close_help
  | KDown => kmodify (scroll_help_down 1)
  | KUp => kmodify (scroll_help_up 1)
  | KPageDown => kmodify (scroll_help_down HELP_PAGE_LINES)
  | KPageUp => kmodify (scroll_help_up HELP_PAGE_LINES)
  | KHome => kmodify scroll_help_home
  | KEnd => kmodify (scroll_help_end USIZE_MAX)
  | KChar c =>
      if pressed c "?" then kmodify close_help
      else if pressed c "j" then kmodify (scroll_help_down 1)
      else if pressed c "k" then kmodify (scroll_help_up 1)
      else kret tt
  | _ => kret tt
  end.

Definition is_yes (key : KeyEvent) : bool :=
  match ke_code key with KChar c => pressed c "y" || pressed c "Y" | _ => false end.
Definition is_no (key : KeyEvent) : bool :=
  match ke_code key with KChar c => pressed c "n" || pressed c "N" | KEsc => true | _ => false end.

Definition handle_open_confirmation_key (key : KeyEvent) : ui :=
  if is_yes key then
    let~ taken := kop take_pending_open_attachment in
    match taken with Some attachment => open_attachment_with_xdg attachment | None => kret tt end
  else if is_no key then kmodify cancel_open_attachment_confirmation;~ status (lit "Open cancelled")
  else kret tt.

Definition handle_delete_confirmation_key (key : KeyEvent) : ui :=
  if is_yes key then
    let~ draft := kgets s_pending_delete_draft in
    if negb (is_none draft) then delete_pending_draft
    else
      let~ taken := kop take_pending_delete_message in
      match taken with Some message_id => run_message_remove_for RemoveDelete message_id | None => kret tt end
  else if is_no key then
    let~ draft := kgets s_pending_delete_draft in
    if negb (is_none draft) then kmodify cancel_pending_delete_draft;~ status (lit "Delete cancelled")
    else kmodify cancel_delete_confirmation
  else kret tt.

Definition handle_command_tab : ui :=
  let~ input := kgets s_command_input in
  match complete_command input with
  | None => kret tt
  | Some completion =>
      if cc_unique completion then
        kmodify (fun s => s <| s_command_input := [] |>);~
        kmodify (push_text (cc_text completion));~
        kmodify (fun s => (push_command_char 32%N s).2);~
        status (lit "Command: " ++ cc_text completion)
      else
        (if (str_len input <? str_len (cc_text completion))%N
         then kmodify (fun s => s <| s_command_input := cc_text completion |>) else kret tt);~
        status (lit "Matches: " ++ join (lit " ") (cc_matches completion))
  end.

Definition handle_command_key (key : KeyEvent) : ui :=
  match ke_code key with
  | KEsc => kmodify cancel_command_mode
  | KEnter => let~ input := kop finish_command in run_command_line input
  | KBackspace => kmodify (fun s => (backspace_command s).2)
  | KTab => handle_command_tab
  | KChar c =>
      let~ pushed := kop (push_command_char c) in
      if negb pushed then error (lit "command is limited to " ++ show_N MAX_COMMAND_CHARS ++ lit " characters") else kret tt
  | _ => kret tt
  end.

Definition handle_quick_search_key (key : KeyEvent) : ui :=
  match ke_code key with
  | KEsc => kmodify cancel_quick_search
  | KEnter =>
      let~ query := kop finish_quick_search in
      let~ scope := kgets selected_account_id in
      submit_search query scope
  | KBackspace => kmodify (fun s => (backspace_search s).2)
  | KChar c =>
      let~ pushed := kop (push_search_char c) in
      if negb pushed then error (lit "search is limited to " ++ show_N MAX_SEARCH_CHARS ++ lit " characters") else kret tt
  | _ => kret tt
  end.

(** ** The composer *)

Definition compose (f : ComposerState -> bool * ComposerState) : K W bool := kop (with_composer f).
Definition body_line (delta : Z) : ui :=
  let~ _ := compose (move_body_line delta COMPOSER_BODY_KEY_VIEWPORT_LINES) in kret tt.

Definition handle_discard_key (key : KeyEvent) : ui :=
  if is_yes key then kmodify discard_composer
  else if is_no key then kmodify cancel_discard_composer_confirmation
  else kret tt.

(** Up and Down: lines of the body, fields elsewhere. *)
Definition composer_vertical (body_focused shift : bool) (delta : Z) (field : ComposerState -> ComposerState) : ui :=
  if body_focused then
    (if shift then compose start_body_line_selection;~ kret tt else kret tt);~ body_line delta
  else kmodify (map_composer field).

Definition composer_escape : ui :=
  let~ cleared := compose clear_body_selection in
  if cleared then status (lit "Body selection cleared")
  else
    let~ ask_first := kgets composer_needs_discard_confirmation in
    if ask_first then kmodify begin_discard_composer_confirmation
    else kmodify exit_composer;~ status (lit "Composer closed").

Definition composer_control_key (c : char) (body_focused : bool) : ui :=
  if pressed c "s" then save_composer;~ kret tt
  else if pressed c "x" then send_composer
  else if pressed c ":" && negb body_focused then kmodify enter_command_mode
  else if pressed c "a" then
    let~ begun := kop begin_compose_attach in
    if begun then status (lit "Attach: type a path, Enter to add, Esc to cancel") else kret tt
  else if pressed c "k" then
    let~ removed := kop app_remove_selected_compose_attachment in
    match removed with
    | Some name => status (lit "Removed attachment: " ++ name)
    | None => status (lit "No attachment to remove")
    end
  else if pressed c "n" then compose (move_compose_attachment_selection 1);~ kret tt
  else if pressed c "p" then compose (move_compose_attachment_selection (-1));~ kret tt
  else if pressed c "d" then if body_focused then body_line (page COMPOSER_BODY_KEY_VIEWPORT_LINES) else kret tt
  else if pressed c "u" then if body_focused then body_line (- page COMPOSER_BODY_KEY_VIEWPORT_LINES) else kret tt
  else if pressed c "w" then compose delete_word_before_composer_cursor;~ kret tt
  else kret tt.
Definition composer_plain_key (c : char) (body_focused : bool) : ui :=
  if pressed c ":" && negb body_focused then kmodify enter_command_mode
  else if pressed c "v" && body_focused then compose toggle_body_line_selection;~ kret tt
  else
    let~ pushed := compose (push_composer_char c) in
    if negb pushed then error (lit "compose field is at its limit") else kret tt.

Definition body_focused (s : AppState) : bool :=
  match s_composer s with Some c => bool_decide (c_focused c = FBody) | None => false end.

Definition handle_composer_key (key : KeyEvent) : ui :=
  let~ mode := kgets s_mode in
  if bool_decide (mode = MConfirmDiscard) then handle_discard_key key
  else
    let~ body := kgets body_focused in
    match ke_code key with
    | KChar c => if ke_control key then composer_control_key c body else composer_plain_key c body
    | KEsc => composer_escape
    | KTab => kmodify (map_composer next_composer_field)
    | KBackTab => kmodify (map_composer previous_composer_field)
    | KDown => composer_vertical body (ke_shift key) 1 next_composer_field
    | KUp => composer_vertical body (ke_shift key) (-1) previous_composer_field
    | KPageDown => if body then body_line (page COMPOSER_BODY_KEY_VIEWPORT_LINES) else kret tt
    | KPageUp => if body then body_line (- page COMPOSER_BODY_KEY_VIEWPORT_LINES) else kret tt
    | KLeft => compose move_focused_cursor_left;~ kret tt
    | KRight => compose move_focused_cursor_right;~ kret tt
    | KHome => compose move_focused_cursor_home;~ kret tt
    | KEnd => compose move_focused_cursor_end;~ kret tt
    | KEnter =>
        let~ entered := compose composer_enter in
        if negb entered
        then error (lit "body is limited to " ++ show_N MAX_COMPOSE_BODY_CHARS ++ lit " characters") else kret tt
    | KBackspace => compose backspace_composer;~ kret tt
    | KDelete => compose delete_composer;~ kret tt
    | KOther => kret tt
    end.

Definition handle_compose_attach_key (key : KeyEvent) : ui :=
  match ke_code key with
  | KEsc => kmodify cancel_compose_attach;~ status (lit "Compose")
  | KEnter =>
      let~ r := kop app_confirm_compose_attach in
      match r with
      | Ok name => status (lit "Attached " ++ name)
      | Err e =>
          let text := attach_error_text e in
          toast TError text;~ error text;~ kmodify cancel_compose_attach
      end
  | KBackspace => compose backspace_compose_attach;~ kret tt
  | KChar c => if negb (ke_control key) then compose (push_compose_attach_char c);~ kret tt else kret tt
  | _ => kret tt
  end.
End keys.
