(* ===== verification/TuiLoop.v ===== *)
(** * The terminal's loop (src/tui/mod.rs: [handle_key], [run_loop])

    The keys of the panes, the dispatch of a key by overlay, mode and pane, and
    the loop: keys first, then the daemon's events, then the tick that expires
    toasts.  [run_with_theme] connects, loads the accounts and runs the loop
    between setting the terminal up and giving it back. *)

From stdpp Require Import gmap.
From S2P Require Import Prelude RustStr Json IpcProtocol Wire McpTools McpModels MailParser DbCore Attachments Config TuiText TuiComposer TuiEditing TuiItems TuiApprovals TuiApp TuiCommand TuiConversations TuiInvariant TuiSteps TuiCache TuiEvents TuiIpc TuiMailbox TuiForward TuiKeys.
#[local] Open Scope nat_scope.
#[local] Open Scope bool_scope.

Section loop.
Context {TP : TextParsers} {JC : JsonCodec} {UC : UnicodeCase} {CT : ClientTexts} {B64 : Base64} {CF : ComposeFiles}.
Context {W : Type} {MB : Mailbox W} {HO : Host W}.
Abbreviation ui := (K W unit).

Definition used (m : ui) : K W bool := m;~ kret true.
Definition quiet (f : AppState -> bool * AppState) : K W bool := used (kmodify (fun s => (f s).2)).

(** ** The detail pane *)

Definition detail_line (delta : Z) : K W bool := quiet (move_detail_line delta DETAIL_KEY_VIEWPORT_LINES).
(** Down and Up: the next message of the stack, or a line. *)
Definition detail_vertical (shift : bool) (delta : Z) : K W bool :=
  if shift then
    kmodify (fun s => (start_detail_line_selection s).2);~ detail_line delta
  else
    let~ moved := kop (move_conversation_detail_focus delta) in
    if moved then used refresh_detail else detail_line delta.

Definition handle_detail_key (key : KeyEvent) : K W bool :=
  match ke_code key with
  | KEsc =>
      let~ cleared := kop clear_detail_selection in
      used (status (if cleared then lit "Detail selection cleared" else lit "Details"))
  | KDown => detail_vertical (ke_shift key) 1
  | KUp => detail_vertical (ke_shift key) (-1)
  | KPageDown => detail_line (page DETAIL_KEY_VIEWPORT_LINES)
  | KPageUp => detail_line (- page DETAIL_KEY_VIEWPORT_LINES)
  | KLeft => quiet move_detail_cursor_left
  | KRight => quiet move_detail_cursor_right
  | KHome => quiet detail_home
  | KEnd => quiet detail_end
  | KChar c =>
      if pressed c "j" then detail_vertical (ke_shift key) 1
      else if pressed c "k" then detail_vertical (ke_shift key) (-1)
      else if pressed c "d" && ke_control key then detail_line (page DETAIL_KEY_VIEWPORT_LINES)
      else if pressed c "u" && ke_control key then detail_line (- page DETAIL_KEY_VIEWPORT_LINES)
      else if pressed c "v" && negb (ke_control key) then quiet toggle_detail_line_selection
      else kret false
  | _ => kret false
  end.

(** ** The attachment preview *)

Definition count_lines (text : str) : nat := List.length (List.filter (N.eqb LF) text) + 1.
Definition yank_preview : ui :=
  let~ selected := kgets preview_yank_text in
  match selected with
  | None => status (lit "No preview selection")
  | Some text =>
      if is_empty text then status (lit "Selection is empty")
      else
        let~ copied := khost (clipboard_copy text) in
        match copied with
        | Ok _ =>
            let n := count_lines text in
            status (show_len n ++ lit " line" ++ (if n =? 1 then [] else lit "s") ++ lit " copied")
        | Err e => error (lit "Clipboard error: " ++ e)
        end
  end.

Definition half_page : Z := Z.of_nat (Nat.max (PREVIEW_KEY_VIEWPORT_LINES / 2) 1).
Definition preview_scroll (delta : Z) : K W bool := quiet (scroll_preview delta PREVIEW_KEY_VIEWPORT_LINES).
Definition preview_vertical (delta : Z) : K W bool :=
  kmodify (fun s => (move_preview_line delta s).2);~ preview_scroll delta.

Definition handle_preview_focus_key (key : KeyEvent) : K W bool :=
  match ke_code key with
  | KEsc =>
      let~ cleared := kop clear_preview_selection in
      if cleared then used (status (lit "Preview selection cleared"))
      else
        let~ defocused := kop defocus_preview in
        if defocused then used (status (lit "Attachments")) else kret true
  | KDown => preview_vertical 1
  | KUp => preview_vertical (-1)
  | KPageDown => preview_scroll half_page
  | KPageUp => preview_scroll (- half_page)
  | KChar c =>
      if pressed c "j" then preview_vertical 1
      else if pressed c "k" then preview_vertical (-1)
      else if pressed c "d" && ke_control key then preview_scroll half_page
      else if pressed c "u" && ke_control key then preview_scroll (- half_page)
      else if pressed c "g" then quiet scroll_preview_to_top
      else if pressed c "G" then quiet (scroll_preview_to_bottom PREVIEW_KEY_VIEWPORT_LINES)
      else if pressed c "v" then quiet toggle_preview_selection
      else if pressed c "y" then used yank_preview
      else kret false
  | _ => kret false
  end.

(** ** The search pane *)

Definition open_hit : ui :=
  let~ selected := kgets selected_search_hit in
  match selected with
  | None => kret tt
  | Some hit =>
      let~ jumped := kop (jump_to_hit hit) in
      if jumped then
        refresh_folders;~ refresh_messages;~ refresh_detail;~ status (lit "Opened: " ++ sh_subject hit)
      else
        let message := lit "Could not jump to result" in
        error message;~ status message
  end.

Definition handle_search_pane_key (key : KeyEvent) : K W bool :=
  match ke_code key with
  | KEsc => used (kmodify close_search;~ status (lit "Search closed"))
  | KDown => quiet (move_search_selection 1)
  | KUp => quiet (move_search_selection (-1))
  | KEnter => used open_hit
  | KChar c =>
      if pressed c "j" then quiet (move_search_selection 1)
      else if pressed c "k" then quiet (move_search_selection (-1))
      else if pressed c "r" then used refresh_search
      else kret false
  | _ => kret false
  end.

(** ** Normal mode *)

Definition move_and_refresh (delta : Z) : ui :=
  let~ moved := kop (move_selection delta) in
  if moved then refresh_after_selection_change else kret tt.

(** Set the flag, or take it away where it is set. *)
Definition toggle_flag (flag : str) (on off : Command) : ui :=
  let~ flagged := kgets (selected_message_has_flag flag) in
  execute_command (if unwrap_or false flagged then off else on).

Definition preview_hint : str := lit "Preview: j/k scroll  v select  y copy  Esc cancel".
Definition focus_shown_preview : ui :=
  kmodify (fun s => (focus_preview s).2);~ status preview_hint.
Definition enter_attachment : ui :=
  let~ preview := kgets s_attachment_preview in
  let~ focused := kgets s_preview_focused in
  if negb (is_none preview) && negb focused then focus_shown_preview
  else
    refresh_attachment_preview;~
    let~ preview := kgets s_attachment_preview in
    if is_none preview then kret tt else focus_shown_preview.
Definition normal_enter : ui :=
  let~ drafts := kgets drafts_list_focused in
  let~ draft := kgets selected_draft_id in
  let~ active := kgets s_active in
  let~ in_drafts := kgets drafts_pane_active in
  let~ thread := kgets selected_thread in
  if drafts && negb (is_none draft) then open_selected_draft
  else if bool_decide (active = PConversations) && negb in_drafts && negb (is_none thread) then refresh_detail
  else if bool_decide (active = PAttachments) then enter_attachment
  else refresh_after_selection_change.

Definition normal_escape : ui :=
  let~ failed := kgets s_error in
  if is_none failed then kret tt else kmodify clear_error;~ status [].

Definition stay (m : ui) : K W bool := m;~ kret false.

(** The final [match] of [handle_key]. *)
Definition handle_normal_char (c : char) : K W bool :=
  if pressed c "?" then stay (kmodify (fun s => (toggle_help s).2))
  else if pressed c ":" then stay (kmodify enter_command_mode)
  else if pressed c "/" then stay (kmodify enter_quick_search)
  else if pressed c "c" then stay compose_new
  else if pressed c "q" then kret true
  else if pressed c "x" then stay (kmodify (fun s => (dismiss_newest_toast s).2))
  else if pressed c "X" then stay (kmodify (fun s => (clear_toasts s).2))
  else if pressed c "j" then stay (move_and_refresh 1)
  else if pressed c "k" then stay (move_and_refresh (-1))
  else if pressed c "r" then stay refresh_current_pane
  else if pressed c "s" then stay (execute_command CSync)
  else if pressed c "u" then stay (toggle_flag SEEN_FLAG CSeen CUnseen)
  else if pressed c "f" then stay (toggle_flag FLAGGED_FLAG CFlag CUnflag)
  else if pressed c "t" then stay (execute_command CThemeNext)
  else if pressed c "*" then
    let~ focused := kgets message_list_focused in
    if focused then stay (toggle_flag FLAGGED_FLAG CFlag CUnflag) else kret false
  else if pressed c "R" then stay (run_reply false)
  else if pressed c "A" then stay (run_reply true)
  else if pressed c "F" then stay run_forward
  else kret false.
Definition handle_normal_key (key : KeyEvent) : K W bool :=
  match ke_code key with
  | KChar c => handle_normal_char c
  | KEsc => stay normal_escape
  | KDown => stay (move_and_refresh 1)
  | KUp => stay (move_and_refresh (-1))
  | KRight | KTab => stay (kmodify cycle_active_pane)
  | KLeft => stay (kmodify cycle_active_pane_reverse)
  | KEnter => stay normal_enter
  | _ => kret false
  end.

(** The panes may use the key first. *)
Definition pane_uses (wanted : AppState -> bool) (m : K W bool) : K W bool :=
  let~ here := kgets wanted in if here then m else kret false.
Definition in_pane (p : ActivePane) (s : AppState) : bool := bool_decide (s_active s = p).

Definition handle_normal_mode (key : KeyEvent) : K W bool :=
  let is_ctrl_p := match ke_code key with KChar c => pressed c "p" && ke_control key | _ => false end in
  if is_ctrl_p then stay open_approvals
  else
    let~ s := kgets id in
    match resolve_pane_action s key with
    | Some action => stay (run_pane_action action)
    | None =>
        let~ used_it := pane_uses (in_pane PSearch) (handle_search_pane_key key) in
        if used_it then kret false
        else
          let~ used_it := pane_uses (in_pane PDetails) (handle_detail_key key) in
          if used_it then kret false
          else
            let~ used_it := pane_uses is_preview_focus_active (handle_preview_focus_key key) in
            if used_it then kret false else handle_normal_key key
    end.

Definition handle_key (key : KeyEvent) : K W bool :=
  let~ help := kgets s_help_open in
  if help then stay (handle_help_key key)
  else
    let~ pending := kgets s_pending_open_attachment in
    if negb (is_none pending) then stay (handle_open_confirmation_key key)
    else
      let~ mode := kgets s_mode in
      match mode with
      | MCommand => stay (handle_command_key key)
      | MCompose | MConfirmDiscard => stay (handle_composer_key key)
      | MComposeAttachPath => stay (handle_compose_attach_key key)
      | MConfirmDelete => stay (handle_delete_confirmation_key key)
      | MQuickSearch => stay (handle_quick_search_key key)
      | MNormal => handle_normal_mode key
      end.

(** ** Events and the loop *)

Definition on_daemon_event_with_context (e : Event) : ui :=
  if str_eqb (ev_topic e) (topic_as_str McpApprovalRequested) then
    let~ now := khost utc_now in
    match from_requested_event (ev_data e) now with
    | Some approval =>
        let~ approval := enrich_approval approval in kmodify (merge_approval_request approval)
    | None => kret tt
    end
  else
    let~ now := khost instant_now in
    let~ utc := khost utc_now in
    kmodify (on_daemon_event e now utc).

(** What one round of the [select!] brings: a key or the end of the keys, an
    event or the end of the events, or the tick. *)
Inductive Round : Type :=
| RKey (key : option KeyEvent)
| REvent (event : option Event)
| RTick.
Definition run_round (r : Round) : K W bool :=
  match r with
  | RKey (Some key) => handle_key key
  | RKey None => kret true
  | REvent (Some e) => stay (on_daemon_event_with_context e)
  | REvent None => kret true
  | RTick => stay (at_now tick_toasts)
  end.
(** [true] once the loop has been left. *)
Fixpoint run_loop (rounds : list Round) : K W bool :=
  match rounds with
  | [] => kret false
  | r :: rest => let~ quit := run_round r in if quit then kret true else run_loop rest
  end.

(** [run_with_theme] once it is connected. *)
Definition start_up (socket_path : str) (initial_theme : option ThemeName) : ui :=
  (match initial_theme with Some theme => kmodify (set_theme theme) | None => kret tt end);~
  status (lit "Connected to " ++ socket_path);~
  refresh_accounts.
Definition session (socket_path : str) (initial_theme : option ThemeName) (rounds : list Round) : K W bool :=
  start_up socket_path initial_theme;~ run_loop rounds.
Definition connected_ui (w : W) : Ui W := mkUi default_app w [].
End loop.

(** ** The terminal device

    Raw mode, the alternate screen and the thread that reads keys, around the
    loop.  Every call on the device may fail; which ones do, and with which error,
    is given by [TtyFaults], the draws by their number. *)

Record Tty : Type := mkTty { tty_raw : bool; tty_alternate : bool; tty_reader : bool }.
Definition shell_tty : Tty := mkTty false false false.
Record TtyFaults : Type := mkTtyFaults {
  enable_raw_fails : option str;
  enter_fails : option str;
  new_fails : option str;
  draw_fails : nat -> option str;
  disable_raw_fails : option str;
  leave_fails : option str;
  show_cursor_fails : option str;
}.
Inductive TuiError : Type := TConnect (path : str) (source : MailboxError) | TTerminal (error : str).

Definition set_raw (b : bool) (t : Tty) : Tty := mkTty b (tty_alternate t) (tty_reader t).
Definition set_alternate (b : bool) (t : Tty) : Tty := mkTty (tty_raw t) b (tty_reader t).
Definition set_reader (b : bool) (t : Tty) : Tty := mkTty (tty_raw t) (tty_alternate t) b.
(** A call whose failure is ignored. *)
Definition best_effort (fails : option str) (f : Tty -> Tty) (t : Tty) : Tty := if is_none fails then f t else t.

Definition setup_terminal (F : TtyFaults) (t : Tty) : result TuiError unit * Tty :=
  match enable_raw_fails F with
  | Some e => (Err (TTerminal e), t)
  | None =>
      let t := set_raw true t in
      match enter_fails F with
      | Some e => (Err (TTerminal e), best_effort (disable_raw_fails F) (set_raw false) t)
      | None =>
          let t := set_alternate true t in
          match new_fails F with
          | None => (Ok tt, t)
          | Some e => (Err (TTerminal e), best_effort (disable_raw_fails F) (set_raw false) t)
          end
      end
  end.
Definition restore_terminal (F : TtyFaults) (t : Tty) : result TuiError unit * Tty :=
  match disable_raw_fails F with
  | Some e => (Err (TTerminal e), t)
  | None =>
      let t := set_raw false t in
      match leave_fails F with
      | Some e => (Err (TTerminal e), t)
      | None => (match show_cursor_fails F with Some e => Err (TTerminal e) | None => Ok tt end, set_alternate false t)
      end
  end.
(** The hook [setup_terminal] installs, run when the process panics. *)
Definition panic_hook (F : TtyFaults) (t : Tty) : Tty :=
  best_effort (leave_fails F) (set_alternate false) (best_effort (disable_raw_fails F) (set_raw false) t).

Section device.
Context {TP : TextParsers} {JC : JsonCodec} {UC : UnicodeCase} {CT : ClientTexts} {B64 : Base64} {CF : ComposeFiles}.
Context {W : Type} {MB : Mailbox W} {HO : Host W}.
Variable F : TtyFaults.

(** The loop with its draws: [None] while it runs. *)
Fixpoint drawn_loop (n : nat) (rounds : list Round) (u : Ui W) : option (result TuiError unit) * Ui W :=
  match draw_fails F n with
  | Some e => (Some (Err (TTerminal e)), u)
  | None =>
      match rounds with
      | [] => (None, u)
      | r :: rest => let '(quit, u) := run_round r u in if quit then (Some (Ok tt), u) else drawn_loop (S n) rest u
      end
  end.
Definition run_loop_on (rounds : list Round) (t : Tty) (u : Ui W) : option (result TuiError unit * Tty) * Ui W :=
  let t := set_reader true t in
  match drawn_loop 0 rounds u with
  | (None, u) => (None, u)
  | (Some (Err e), u) => (Some (Err e, t), u)
  | (Some (Ok _), u) => (Some (Ok tt, set_reader false t), u)
  end.
(** The subscriptions, whose failures are only logged, decide which events the
    rounds carry. *)
Definition run_with_theme (connect : result MailboxError unit) (socket_path : str) (initial_theme : option ThemeName)
    (rounds : list Round) (t : Tty) (w : W) : option (result TuiError unit * Tty) * Ui W :=
  let u := connected_ui w in
  match connect with
  | Err e => (Some (Err (TConnect socket_path e), t), u)
  | Ok _ =>
      let u := (start_up socket_path initial_theme u).2 in
      match setup_terminal F t with
      | (Err e, t) => (Some (Err e, t), u)
      | (Ok _, t) =>
          match run_loop_on rounds t u with
          | (None, u) => (None, u)
          | (Some (result, t), u) =>
              let '(restored, t) := restore_terminal F t in
              (Some (match result, restored with
                     | Err e, _ => Err e
                     | Ok _, Err e => Err e
                     | Ok _, Ok _ => Ok tt
                     end, t), u)
          end
      end
  end.

(** When no draw fails the loop is [run_loop]. *)
Lemma drawn_loop_runs n rounds u :
  (forall k, draw_fails F k = None) ->
  drawn_loop n rounds u = (if (run_loop rounds u).1 then Some (Ok tt) else None, (run_loop rounds u).2).
Proof.
  intros HF. revert n u. induction rounds as [|r rest IH]; intros n u; cbn [drawn_loop run_loop]; rewrite HF; [done|].
  unfold kbind. cbv zeta. destruct (run_round r u) as [quit v]. cbn [fst snd]. by destruct quit; [|rewrite IH].
Qed.

Lemma loop_leaves_device rounds t u r t' u' :
  run_loop_on rounds t u = (Some (r, t'), u') ->
  tty_raw t' = tty_raw t /\ tty_alternate t' = tty_alternate t /\ (r = Ok tt -> tty_reader t' = false).
Proof. unfold run_loop_on. destruct (drawn_loop 0 rounds u) as [[[[]|e]|] v]; intros [= <- <- <-]; split_and!; done. Qed.

(** The terminal is given back: whatever happens in the session, raw mode is off
    at its end unless switching it off fails, the shell's screen is back unless
    leaving the other one or the construction of the terminal fails, and a
    session that ends well leaves the device as it was, the key reader stopped. *)
Theorem terminal_is_given_back connect socket_path initial_theme rounds w0 r t' u' :
  run_with_theme connect socket_path initial_theme rounds shell_tty w0 = (Some (r, t'), u') ->
  disable_raw_fails F = None ->
  tty_raw t' = false /\
  (leave_fails F = None -> new_fails F = None -> tty_alternate t' = false) /\
  (r = Ok tt -> t' = shell_tty).
Proof.
  intros H Hd. unfold run_with_theme in H. destruct connect as [[]|e]; [|by simplify_eq]. cbv zeta in H.
  set (v := (start_up socket_path initial_theme (connected_ui w0)).2) in *. clearbody v.
  unfold setup_terminal, best_effort in H. rewrite Hd in H. cbn [is_none] in H.
  destruct (enable_raw_fails F); [by simplify_eq|]. destruct (enter_fails F); [by simplify_eq|].
  destruct (new_fails F); [by simplify_eq|]. cbv zeta in H.
  destruct (run_loop_on rounds _ v) as [[[r0 t0]|] w] eqn:E; [|done]. apply loop_leaves_device in E as (E1 & E2 & E3).
  unfold restore_terminal in H. rewrite Hd in H. cbv zeta in H. destruct t0 as [raw alt reader]. cbn in *. subst.
  destruct (leave_fails F), r0 as [[]|]; [..|]; destruct (show_cursor_fails F); simplify_eq; split_and!; try done;
    intros _; by rewrite E3.
Qed.

(** A terminal whose construction fails leaves the user on the alternate screen,
    although nothing that would take it down failed. *)
Lemma failed_construction_keeps_alternate_screen socket_path initial_theme rounds w e :
  enable_raw_fails F = None -> enter_fails F = None -> new_fails F = Some e -> disable_raw_fails F = None ->
  (run_with_theme (Ok tt) socket_path initial_theme rounds shell_tty w).1 = Some (Err (TTerminal e), mkTty false true false).
Proof.
  intros H1 H2 H3 H4. unfold run_with_theme, setup_terminal, best_effort. cbv zeta. by rewrite H1, H2, H3, H4.
Qed.
(** A draw that fails ends the loop with the key reader still running; main.rs
    then leaves the process with an error, which ends it too. *)
Lemma failed_draw_leaves_reader_running rounds t u e :
  draw_fails F 0 = Some e -> run_loop_on rounds t u = (Some (Err (TTerminal e), set_reader true t), u).
Proof. intros H. unfold run_loop_on. destruct rounds; cbn; by rewrite H. Qed.
End device.
