(* ===== verification/TuiSession.v ===== *)
(** * Every session of the terminal (invariants of src/tui/mod.rs)

    The handlers are made of operations that keep the interface consistent, so
    every key, every event and every answer of the daemon does. *)

From stdpp Require Import gmap relations.
From S2P Require Import Prelude RustStr Json IpcProtocol Wire McpTools McpModels MailParser DbCore Attachments Config TuiText TuiComposer TuiEditing TuiItems TuiApprovals TuiApp TuiCommand TuiConversations TuiInvariant TuiSteps TuiCache TuiEvents TuiModes TuiIpc TuiMailbox TuiForward TuiKeys TuiLoop.
#[local] Open Scope nat_scope.
#[local] Open Scope bool_scope.

(** ** Computations that keep a property of the application state *)

Definition keeps {W A} (P : AppState -> Prop) (m : K W A) : Prop := forall u, P (u_app u) -> P (u_app (m u).2).

Section rules.
Context {W : Type} (P : AppState -> Prop).
Lemma ui_keeps_ret {A} (a : A) : keeps (W := W) P (kret a).
Proof. by intros u. Qed.
Lemma ui_keeps_bind {A B} (m : K W A) (k : A -> K W B) : keeps P m -> (forall a, keeps P (k a)) -> keeps P (kbind m k).
Proof. intros Hm Hk u Hu. apply Hk, Hm, Hu. Qed.
Lemma keeps_gets {A} (f : AppState -> A) : keeps (W := W) P (kgets f).
Proof. by intros u. Qed.
(** What was read is true of the state the rest starts from. *)
Lemma keeps_read {A B} (f : AppState -> A) (k : A -> K W B) :
  (forall u, P (u_app u) -> P (u_app (k (f (u_app u)) u).2)) -> keeps P (kbind (kgets f) k).
Proof. done. Qed.
Lemma keeps_host {A} (f : W -> A * W) : keeps P (khost f).
Proof. by intros u. Qed.
Lemma keeps_ask {A} {MB : Mailbox W} (q : MailboxCall A) : keeps P (ask q).
Proof. by intros u. Qed.
Lemma keeps_modify f : (forall s, P s -> P (f s)) -> keeps (W := W) P (kmodify f).
Proof. intros Hf u Hu. by apply Hf. Qed.
Lemma keeps_op {A} (f : AppState -> A * AppState) : (forall s, P s -> P (f s).2) -> keeps (W := W) P (kop f).
Proof. intros Hf u Hu. by apply Hf. Qed.
Lemma keeps_for {A B} (f : B -> A -> K W B) acc l : (forall b a, keeps P (f b a)) -> keeps P (kfor f acc l).
Proof.
  intros Hf. revert acc. induction l as [|x l IH]; intros acc; cbn [kfor]; [apply ui_keeps_ret|].
  apply ui_keeps_bind; [apply Hf|apply IH].
Qed.
End rules.

(** Split a computation into its operations. *)
Ltac keep :=
  repeat match goal with
    | |- keeps _ (kret _) => apply ui_keeps_ret
    | |- keeps _ (kbind _ _) => apply ui_keeps_bind; [|intros]
    | |- keeps _ (kgets _) => apply keeps_gets
    | |- keeps _ (khost _) => apply keeps_host
    | |- keeps _ (ask _) => apply keeps_ask
    | |- keeps _ (kfor _ _ _) => apply keeps_for; intros
    | |- keeps _ (kmodify _) => apply keeps_modify; intros
    | |- keeps _ (kop _) => apply keeps_op; intros
    | |- keeps _ (if ?b then _ else _) => destruct b
    | |- keeps _ (match ?x with _ => _ end) => destruct x
    | |- keeps _ (let _ := _ in _) => cbv zeta
    end; auto with busy.

Section session.
Context {TP : TextParsers} {JC : JsonCodec} {UC : UnicodeCase} {CT : ClientTexts} {B64 : Base64} {CF : ComposeFiles}.
Context {W : Type} {MB : Mailbox W} {HO : Host W}.
Abbreviation busy m := (keeps (W := W) busy_ok m).

(** ** Fetching *)

Lemma busy_at_now f : (forall now s, busy_ok s -> busy_ok (f now s)) -> busy (at_now f).
Proof. intros Hf. unfold at_now. keep. Qed.
Lemma toast_busy kind text : busy (toast kind text).
Proof. apply busy_at_now. intros. keep. Qed.
Lemma status_busy text : busy (status text).
Proof. unfold status. keep. Qed.
Lemma error_busy text : busy (error text).
Proof. unfold error. keep. Qed.
#[local] Hint Resolve toast_busy status_busy error_busy : busy.
Lemma record_error_busy e : busy (record_error e).
Proof. unfold record_error. keep. Qed.
#[local] Hint Resolve record_error_busy : busy.

Lemma preview_busy : busy refresh_attachment_preview.
Proof.
  apply keeps_read. intros u Hu. destruct (selected_attachment_id (u_app u)) as [id|] eqn:E.
  - unfold kbind at 1, ask. cbn [fst snd]. destruct (answer _ _) as [[preview|e] w]; cbn [fst snd].
    + apply busy_status. apply busy_preview; [|by apply busy_clear_error]. change (selected_attachment_id (u_app u) <> None). by rewrite E.
    + by apply record_error_busy.
  - apply status_busy. by apply busy_no_preview.
Qed.
#[local] Hint Resolve preview_busy : busy.
Lemma attachments_busy : busy refresh_attachments.
Proof. unfold refresh_attachments. keep. Qed.
#[local] Hint Resolve attachments_busy : busy.
Lemma detail_busy : busy refresh_detail.
Proof. unfold refresh_detail. keep; apply busy_at_now; intros; keep. Qed.
Lemma missing_details_busy : busy refresh_missing_expanded_details.
Proof.
  unfold refresh_missing_expanded_details, refresh_missing_one. keep. apply busy_at_now. intros. keep.
Qed.
Lemma enrich_busy a : busy (enrich_approval a).
Proof.
  unfold enrich_approval, resolve_attachment_context, resolve_message_context, resolve_draft_context. keep.
Qed.
#[local] Hint Resolve detail_busy missing_details_busy enrich_busy : busy.
Lemma approvals_busy : busy refresh_approvals.
Proof. unfold refresh_approvals, enrich_approvals, set_approvals_pending. keep. Qed.
#[local] Hint Resolve approvals_busy : busy.
Lemma open_approvals_busy : busy open_approvals.
Proof. unfold open_approvals. keep. Qed.
Lemma messages_busy : busy refresh_messages.
Proof.
  unfold refresh_messages, cached_snapshot, show_snapshot, fetch_messages. keep; apply busy_at_now; intros; keep.
Qed.
#[local] Hint Resolve open_approvals_busy messages_busy : busy.
Lemma folders_busy : busy refresh_folders.
Proof. unfold refresh_folders. keep. Qed.
#[local] Hint Resolve folders_busy : busy.
Lemma accounts_busy : busy refresh_accounts.
Proof. unfold refresh_accounts. keep. Qed.
Lemma drafts_busy : busy refresh_drafts.
Proof. unfold refresh_drafts. keep. Qed.
Lemma invalidate_selected_busy s : busy_ok s -> busy_ok (invalidate_selected_folder_cache s).
Proof. intros H. unfold invalidate_selected_folder_cache. destruct (selected_account_id s), (selected_folder_id s); auto with busy. Qed.
Lemma submit_search_busy query scope : busy (submit_search query scope).
Proof. unfold submit_search. keep. Qed.
#[local] Hint Resolve accounts_busy drafts_busy invalidate_selected_busy submit_search_busy : busy.
Lemma refresh_search_busy : busy refresh_search.
Proof. unfold refresh_search. keep. Qed.
#[local] Hint Resolve refresh_search_busy : busy.
Lemma current_pane_busy : busy refresh_current_pane.
Proof. unfold refresh_current_pane. keep. Qed.
Lemma selection_change_busy : busy refresh_after_selection_change.
Proof. unfold refresh_after_selection_change. keep. Qed.
#[local] Hint Resolve current_pane_busy selection_change_busy : busy.

(** ** Commands *)

Lemma show_failure_busy e : busy (show_failure e).
Proof. unfold show_failure. keep. Qed.
#[local] Hint Resolve show_failure_busy : busy.
Lemma reply_busy all : busy (run_reply all).
Proof. unfold run_reply. keep. Qed.
Lemma materialise_busy subdir filename content_type decoded : busy (materialise subdir filename content_type decoded).
Proof. unfold materialise. keep. Qed.
#[local] Hint Resolve materialise_busy : busy.
Lemma forward_busy : busy run_forward.
Proof. unfold run_forward, carry_batch, carry_one, materialise_forward_attachment. keep. Qed.
Lemma run_error_busy e : busy (record_command_run_error e).
Proof. unfold record_command_run_error. keep. Qed.
Lemma parse_error_busy e : busy (record_command_parse_error e).
Proof. unfold record_command_parse_error. keep. Qed.
Lemma unless_failed_busy text : busy (status_unless_failed text).
Proof. unfold status_unless_failed. keep. Qed.
#[local] Hint Resolve reply_busy forward_busy run_error_busy parse_error_busy unless_failed_busy : busy.
Lemma folder_write_busy op : busy (run_folder_write op).
Proof. unfold run_folder_write. keep. Qed.
Lemma flag_write_busy flag enabled success : busy (run_flag_write flag enabled success).
Proof. unfold run_flag_write. keep; apply busy_at_now; intros; keep. Qed.
Lemma optimistic_busy id running request success : busy (remove_optimistically id running request success).
Proof. unfold remove_optimistically. keep; apply busy_at_now; intros; keep. Qed.
#[local] Hint Resolve folder_write_busy flag_write_busy optimistic_busy : busy.
Lemma remove_busy op : busy (run_message_remove op).
Proof. unfold run_message_remove, run_message_remove_for. keep. Qed.
Lemma move_busy folder : busy (run_message_move folder).
Proof. unfold run_message_move. keep. Qed.
Lemma warn_busy message : busy (warn message).
Proof. unfold warn. keep. Qed.
#[local] Hint Resolve remove_busy move_busy warn_busy : busy.
Lemma decision_busy decision : busy (run_approval_decision decision).
Proof. unfold run_approval_decision. keep. Qed.
Lemma open_draft_busy : busy open_selected_draft.
Proof.
  unfold open_selected_draft, composer_draft_from_summary, add_materialised, materialise_draft_attachment. keep.
Qed.
Lemma delete_draft_busy : busy delete_pending_draft.
Proof. unfold delete_pending_draft. keep. Qed.
Lemma save_busy : busy save_composer.
Proof. unfold save_composer. keep. Qed.
#[local] Hint Resolve decision_busy open_draft_busy delete_draft_busy save_busy : busy.
Lemma send_busy : busy send_composer.
Proof. unfold send_composer, saved_draft. keep. Qed.
Lemma free_path_busy directory filename l : busy (first_free directory filename l).
Proof. induction l as [|i l IH]; cbn [first_free]; keep. Qed.
#[local] Hint Resolve send_busy free_path_busy : busy.
Lemma export_busy : busy export_selected_attachment.
Proof. unfold export_selected_attachment, default_export_path. keep. Qed.
Lemma xdg_busy a : busy (open_attachment_with_xdg a).
Proof. unfold open_attachment_with_xdg. keep. Qed.
Lemma compose_new_busy : busy compose_new.
Proof. unfold compose_new. keep. Qed.
Lemma begin_delete_busy : busy begin_message_delete.
Proof. unfold begin_message_delete. keep. Qed.
#[local] Hint Resolve export_busy xdg_busy compose_new_busy begin_delete_busy : busy.
Lemma command_busy command : busy (execute_command command).
Proof.
  unfold execute_command, run_search, run_goto_folder, run_select_account. keep.
Qed.
#[local] Hint Resolve command_busy : busy.
Lemma command_line_busy input : busy (run_command_line input).
Proof. unfold run_command_line. keep. Qed.
Lemma push_text_busy text s : busy_ok s -> busy_ok (push_text text s).
Proof. unfold push_text. revert s. induction text as [|c text IH]; intros s H; cbn [foldl]; auto with busy. Qed.
#[local] Hint Resolve command_line_busy push_text_busy : busy.
Lemma pane_action_busy action : busy (run_pane_action action).
Proof. unfold run_pane_action. keep. apply busy_at_now. intros. keep. Qed.
#[local] Hint Resolve pane_action_busy : busy.

(** ** Overlays and prompts *)

Lemma help_key_busy key : busy (handle_help_key key).
Proof. unfold handle_help_key. keep. Qed.
Lemma open_key_busy key : busy (handle_open_confirmation_key key).
Proof. unfold handle_open_confirmation_key. keep. Qed.
Lemma delete_key_busy key : busy (handle_delete_confirmation_key key).
Proof.
  unfold handle_delete_confirmation_key. destruct (is_yes key); [|keep]. apply keeps_read. intros u Hu.
  destruct (s_pending_delete_draft (u_app u)) as [id|] eqn:E; cbn [negb is_none]; [by apply delete_draft_busy|].
  unfold kbind at 1. set (r := kop take_pending_delete_message u).
  assert (Hr : busy_ok (u_app r.2)) by (by apply busy_deleted). clearbody r. destruct r as [[id|] v]; [|done].
  by apply optimistic_busy.
Qed.

Lemma common_prefix_length words i rest : List.length (common_prefix_go words i rest) <= List.length rest.
Proof.
  revert i. induction rest as [|c rest IH]; intros i; cbn [common_prefix_go List.length]; [done|].
  destruct (forallb _ _); cbn; [|lia]. specialize (IH (S i)). lia.
Qed.
Lemma command_names_short : Forall (fun n => (N.of_nat (List.length n) <= MAX_COMMAND_CHARS)%N) COMMAND_NAMES.
Proof. repeat constructor; vm_compute; discriminate. Qed.
Lemma completion_short input c : complete_command input = Some c -> (N.of_nat (List.length (cc_text c)) <= MAX_COMMAND_CHARS)%N.
Proof.
  unfold complete_command. destruct (is_empty input), (existsb is_whitespace input); try done.
  assert (Hf : Forall (fun n => (N.of_nat (List.length n) <= MAX_COMMAND_CHARS)%N) (List.filter (fun n => starts_with n input) COMMAND_NAMES)).
  { apply List.Forall_forall. intros x Hx. apply List.filter_In in Hx as [Hx _].
    exact (proj1 (List.Forall_forall _ _) command_names_short x Hx). }
  destruct (List.filter _ _) as [|n [|m l]]; [done| |]; intros [= <-]; cbn [cc_text]; inversion Hf as [|? ? Hn _]; subst; [done|].
  pose proof (common_prefix_length (n :: m :: l) 0 n). unfold longest_common_prefix. lia.
Qed.
Lemma tab_busy : busy handle_command_tab.
Proof.
  unfold handle_command_tab. apply ui_keeps_bind; [apply keeps_gets|intros input].
  destruct (complete_command input) as [c|] eqn:E; [|apply ui_keeps_ret]. apply completion_short in E. keep.
  apply busy_command_text; [|done]. apply N.le_0_l.
Qed.
#[local] Hint Resolve help_key_busy open_key_busy delete_key_busy tab_busy : busy.
Lemma command_key_busy key : busy (handle_command_key key).
Proof. unfold handle_command_key. keep. Qed.

(** ** The composer *)

Lemma compose_busy f : (forall c, compose_step c (f c).2) -> busy (compose f).
Proof. intros Hf. unfold compose. keep. by apply busy_compose_step. Qed.
Lemma compose_key_busy k f : (forall c, f c = run_key k c) -> busy (compose f).
Proof. intros Hf. apply compose_busy. intros c. rewrite Hf. constructor. Qed.
Lemma body_line_busy delta : busy (body_line delta).
Proof. unfold body_line. keep. apply compose_busy. constructor. Qed.
Lemma field_busy f s : (forall c, compose_step c (f c)) -> busy_ok s -> busy_ok (map_composer f s).
Proof. intros Hf. apply busy_map_composer. intros c. by apply compose_step_ok. Qed.
#[local] Hint Resolve command_key_busy body_line_busy field_busy compose_next compose_previous : busy.
Lemma vertical_busy body shift delta f : (forall c, compose_step c (f c)) -> busy (composer_vertical body shift delta f).
Proof.
  intros Hf. unfold composer_vertical. destruct body; keep. apply compose_busy. constructor.
Qed.
Lemma escape_busy : busy composer_escape.
Proof.
  unfold composer_escape. apply ui_keeps_bind; [apply compose_busy; constructor|]. intros []; [keep|].
  apply keeps_read. intros u Hu. destruct (composer_needs_discard_confirmation (u_app u)) eqn:E; [by apply busy_ask_discard|].
  by apply status_busy, busy_exit.
Qed.
Lemma control_key_busy c body : busy (composer_control_key c body).
Proof.
  unfold composer_control_key. keep; try (apply compose_busy; constructor).
  by apply (compose_key_busy KeyDeleteWord).
Qed.
Lemma plain_key_busy c body : busy (composer_plain_key c body).
Proof.
  unfold composer_plain_key. keep; [apply compose_busy; constructor|]. by apply (compose_key_busy (KeyChar c)).
Qed.
#[local] Hint Resolve escape_busy control_key_busy plain_key_busy : busy.

(** In a compose mode there is a composer. *)
Lemma composing s : busy_ok s -> s_mode s = MConfirmDiscard \/ s_mode s = MComposeAttachPath -> s_composer s <> None.
Proof. intros ((_ & Hm) & _) Hs. unfold mode_means in Hm. by destruct Hs as [E|E]; rewrite E in Hm. Qed.

Lemma composer_key_busy key : busy (handle_composer_key key).
Proof.
  unfold handle_composer_key. apply keeps_read. intros u Hu. destruct (bool_decide _) eqn:E; brefl.
  - unfold handle_discard_key. destruct (is_yes key); [by apply busy_discard|]. destruct (is_no key); [|done].
    apply busy_keep_composing; [|done]. apply composing; auto.
  - revert u Hu E. intros u Hu _. apply (ui_keeps_bind busy_ok); [apply keeps_gets| |done]. intros body. clear u Hu.
    destruct (ke_code key); keep; try (by apply vertical_busy; constructor).
    + apply compose_busy. constructor.
    + by apply (compose_key_busy KeyBackspace).
    + by apply (compose_key_busy KeyDelete).
    + by apply (compose_key_busy KeyLeft).
    + by apply (compose_key_busy KeyRight).
    + by apply (compose_key_busy KeyHome).
    + by apply (compose_key_busy KeyEnd).
Qed.

Lemma attach_key_busy key u :
  busy_ok (u_app u) -> s_composer (u_app u) <> None -> busy_ok (u_app (handle_compose_attach_key key u).2).
Proof.
  intros Hu Hc. unfold handle_compose_attach_key. destruct (ke_code key); try done.
  - destruct (negb _); [|done]. by apply (ui_keeps_bind busy_ok); [apply compose_busy; constructor|intros; apply ui_keeps_ret|].
  - by apply status_busy, busy_no_attach.
  - unfold kbind at 1, kop. cbv zeta. destruct (busy_attached (u_app u) Hc Hu) as [Hb Hs].
    set (r := app_confirm_compose_attach (u_app u)) in *. clearbody r. destruct r as [[name|e] s]; cbn [fst snd] in *.
    + by apply status_busy.
    + apply busy_no_attach; [exact Hs|]. by apply error_busy, toast_busy.
  - by apply (ui_keeps_bind busy_ok); [apply compose_busy; constructor|intros; apply ui_keeps_ret|].
Qed.

(** ** Panes *)

Lemma used_busy m : busy m -> busy (used m).
Proof. intros Hm. unfold used. keep. Qed.
Lemma stay_busy m : busy m -> busy (stay m).
Proof. intros Hm. unfold stay. keep. Qed.
Lemma quiet_busy f : (forall s, busy_ok s -> busy_ok (f s).2) -> busy (quiet f).
Proof. intros Hf. apply used_busy. keep. Qed.
#[local] Hint Resolve used_busy stay_busy quiet_busy composer_key_busy : busy.
Lemma detail_line_busy delta : busy (detail_line delta).
Proof. apply quiet_busy. auto with busy. Qed.
#[local] Hint Resolve detail_line_busy : busy.
Lemma detail_vertical_busy shift delta : busy (detail_vertical shift delta).
Proof. unfold detail_vertical. keep. Qed.
#[local] Hint Resolve detail_vertical_busy : busy.
Lemma detail_key_busy key : busy (handle_detail_key key).
Proof. unfold handle_detail_key. keep. Qed.
Lemma preview_scroll_busy delta : busy (preview_scroll delta).
Proof. apply quiet_busy. auto with busy. Qed.
#[local] Hint Resolve preview_scroll_busy : busy.
Lemma preview_vertical_busy delta : busy (preview_vertical delta).
Proof. unfold preview_vertical. keep. Qed.
Lemma yank_busy : busy yank_preview.
Proof. unfold yank_preview. keep. Qed.
#[local] Hint Resolve detail_key_busy preview_vertical_busy yank_busy : busy.
Lemma preview_key_busy key : busy (handle_preview_focus_key key).
Proof. unfold handle_preview_focus_key. keep. Qed.
Lemma open_hit_busy : busy open_hit.
Proof. unfold open_hit. keep. Qed.
#[local] Hint Resolve preview_key_busy open_hit_busy : busy.
Lemma search_key_busy key : busy (handle_search_pane_key key).
Proof. unfold handle_search_pane_key. keep; apply used_busy; keep. Qed.
Lemma move_refresh_busy delta : busy (move_and_refresh delta).
Proof. unfold move_and_refresh. keep. Qed.
Lemma toggle_flag_busy flag on off : busy (toggle_flag flag on off).
Proof. unfold toggle_flag. keep. Qed.
Lemma normal_enter_busy : busy normal_enter.
Proof. unfold normal_enter, enter_attachment, focus_shown_preview. keep. Qed.
Lemma normal_escape_busy : busy normal_escape.
Proof. unfold normal_escape. keep. Qed.
#[local] Hint Resolve search_key_busy move_refresh_busy toggle_flag_busy normal_enter_busy normal_escape_busy : busy.

(** ** A key in each mode *)

Lemma quick_search_entered s : busy_ok s -> loop_ok (enter_quick_search s).
Proof.
  intros ((H & _) & _). split; [by apply quick_search_ok|]. unfold mode_means. cbn [enter_quick_search].
  by apply (pane_carry s _ _ (proj2 H)).
Qed.
Lemma normal_char_lands c u : busy_ok (u_app u) -> loop_ok (u_app (handle_normal_char c u).2).
Proof.
  intros Hu. destruct (pressed c "/") eqn:E.
  - unfold pressed in E. brefl. subst c. by apply quick_search_entered.
  - revert u Hu. assert (Hb : busy (handle_normal_char c)); [|intros u Hu; by apply Hb].
    unfold handle_normal_char. rewrite E. keep; apply stay_busy; keep.
Qed.
Lemma normal_key_lands key u : busy_ok (u_app u) -> loop_ok (u_app (handle_normal_key key u).2).
Proof.
  intros Hu. unfold handle_normal_key. destruct (ke_code key); [by apply normal_char_lands|..];
    match goal with |- loop_ok (u_app (?m u).2) => assert (Hb : busy m); [|by apply Hb] end;
    keep; apply stay_busy; keep.
Qed.
Lemma pane_uses_busy wanted m : busy m -> busy (pane_uses wanted m).
Proof. intros Hm. unfold pane_uses. keep. Qed.

(** Unless a pane has used the key, the rest sees it. *)
Lemma unless_used_lands (m : K W bool) (k : K W bool) u :
  busy m -> (forall v, busy_ok (u_app v) -> loop_ok (u_app (k v).2)) -> busy_ok (u_app u) ->
  loop_ok (u_app (kbind m (fun used_it : bool => if used_it then kret false else k) u).2).
Proof.
  intros Hm Hk Hu. unfold kbind. pose proof (Hm u Hu) as Hr. destruct (m u) as [[] v]; [by apply Hr|by apply Hk].
Qed.
Lemma normal_mode_lands key u : busy_ok (u_app u) -> loop_ok (u_app (handle_normal_mode key u).2).
Proof.
  intros Hu. unfold handle_normal_mode. cbv zeta. destruct (match ke_code key with KChar _ => _ | _ => _ end).
  { by apply (stay_busy _ open_approvals_busy). }
  rewrite kgets_then. destruct (resolve_pane_action _ key) as [action|].
  { by apply (stay_busy _ (pane_action_busy action)). }
  apply unless_used_lands; [apply pane_uses_busy, search_key_busy| |done]. clear u Hu. intros u Hu.
  apply unless_used_lands; [apply pane_uses_busy, detail_key_busy| |done]. clear u Hu. intros u Hu.
  apply unless_used_lands; [apply pane_uses_busy, preview_key_busy| |done]. clear u Hu. intros u Hu.
  by apply normal_key_lands.
Qed.

(** ** In any mode *)

(** A step beside the prompts, with the same panes to see. *)
Definition beside (s s' : AppState) : Prop :=
  prompt s' = prompt s /\ s_search_input_previous_pane s' = s_search_input_previous_pane s /\
  forall p, pane_visible s p = true -> pane_visible s' p = true.
Lemma beside_lands s s' : ui_step s s' -> beside s s' -> loop_ok s -> loop_ok s'.
Proof.
  intros Hs (Hp & Hq & Hv) [H Hm]. injection Hp as P1 P2 P3 P4. split; [by apply (ui_step_ok s)|].
  unfold mode_means in *. rewrite P1, P2, P3, P4, Hq. destruct (s_mode s); auto.
Qed.
Ltac beside step :=
  intros; eapply beside_lands;
  [ apply step | split; [reflexivity|]; split; [reflexivity|]; intros ? Hp; by apply (pane_carry _ _ _ Hp) | done ].
Lemma loop_status t s : loop_ok s -> loop_ok (set_status t s).
Proof. beside step_status. Qed.
Lemma loop_error e s : loop_ok s -> loop_ok (set_error e s).
Proof. beside step_error. Qed.
Lemma loop_keep_closed s : loop_ok s -> loop_ok (cancel_open_attachment_confirmation s).
Proof. beside step_keep_closed. Qed.
Lemma loop_opened s : loop_ok s -> loop_ok (take_pending_open_attachment s).2.
Proof. beside step_opened. Qed.
Lemma loop_close_help s : loop_ok s -> loop_ok (close_help s).
Proof. beside step_close_help. Qed.
Lemma loop_help_down n s : loop_ok s -> loop_ok (scroll_help_down n s).
Proof. beside step_help_down. Qed.
Lemma loop_help_up n s : loop_ok s -> loop_ok (scroll_help_up n s).
Proof. beside step_help_up. Qed.
Lemma loop_help_home s : loop_ok s -> loop_ok (scroll_help_home s).
Proof. beside step_help_home. Qed.
Lemma loop_help_end n s : loop_ok s -> loop_ok (scroll_help_end n s).
Proof. beside step_help_end. Qed.
Lemma loop_tick now s : loop_ok s -> loop_ok (tick_toasts now s).
Proof. beside step_tick. Qed.
Lemma loop_merge_approval a s : loop_ok s -> loop_ok (merge_approval_request a s).
Proof. beside step_merge_approval. Qed.
Lemma loop_search_char c s : loop_ok s -> loop_ok (push_search_char c s).2.
Proof.
  intros H. pose proof (step_search_char c s) as Hs. unfold push_search_char in *. destruct (_ || _); [done|].
  revert H. beside Hs.
Qed.
Lemma loop_search_backspace s : loop_ok s -> loop_ok (backspace_search s).2.
Proof.
  intros H. pose proof (step_search_backspace s) as Hs. unfold backspace_search in *. destruct (string_pop _); [|done].
  revert H. beside Hs.
Qed.
#[local] Hint Resolve loop_status loop_error loop_keep_closed loop_opened loop_close_help loop_help_down loop_help_up
  loop_help_home loop_help_end loop_tick loop_merge_approval loop_search_char loop_search_backspace : busy.

Lemma help_key_lands key : keeps (W := W) loop_ok (handle_help_key key).
Proof. unfold handle_help_key. keep. Qed.
Lemma open_key_lands key : keeps (W := W) loop_ok (handle_open_confirmation_key key).
Proof. unfold handle_open_confirmation_key, open_attachment_with_xdg, status, error. keep. Qed.

(** Typing a query keeps the pane to return to; Enter and Escape end the mode. *)
Lemma quick_search_key_lands key u :
  loop_ok (u_app u) -> s_mode (u_app u) = MQuickSearch -> loop_ok (u_app (handle_quick_search_key key u).2).
Proof.
  intros Hu E. unfold handle_quick_search_key. destruct (ke_code key) as [c| | | | | | | | | | | | | | |]; try done.
  - revert u Hu E. intros u Hu _. revert u Hu. change (keeps (W := W) loop_ok
      (let~ pushed := kop (push_search_char c) in
       if negb pushed then error (lit "search is limited to " ++ show_N MAX_SEARCH_CHARS ++ lit " characters") else kret tt)).
    unfold error. keep.
  - destruct Hu as [H Hm]. unfold mode_means in Hm. rewrite E in Hm. split; [by apply search_cancel_ok|done].
  - unfold kbind at 1, kop. cbv zeta. cbn [fst snd].
    apply (ui_keeps_bind busy_ok); [apply keeps_gets|intros; apply submit_search_busy|].
    split; [split|done]; [apply search_finish_ok, Hu|done].
  - by apply loop_search_backspace.
Qed.

Lemma handle_key_lands key u : loop_ok (u_app u) -> loop_ok (u_app (handle_key key u).2).
Proof.
  intros Hu. unfold handle_key. rewrite kgets_then. destruct (s_help_open (u_app u)); [by apply help_key_lands|].
  rewrite kgets_then. destruct (negb _); [by apply open_key_lands|]. rewrite kgets_then.
  assert (Hb : s_mode (u_app u) <> MQuickSearch -> busy_ok (u_app u)) by (by split).
  destruct (s_mode (u_app u)) eqn:E.
  - by apply normal_mode_lands, Hb.
  - by apply command_key_busy, Hb.
  - by apply composer_key_busy, Hb.
  - specialize (Hb ltac:(done)). apply (attach_key_busy key u Hb). apply composing; auto.
  - by apply composer_key_busy, Hb.
  - by apply delete_key_busy, Hb.
  - by apply quick_search_key_lands.
Qed.

(** ** Events and sessions *)

Lemma enrich_same P a : keeps (W := W) P (enrich_approval a).
Proof. unfold enrich_approval, resolve_attachment_context, resolve_message_context, resolve_draft_context. keep. Qed.

Lemma touches_beside s s' : touches_notices s s' -> beside s s'.
Proof.
  unfold touches_notices. intros ->. split; [reflexivity|]. split; [reflexivity|]. intros p Hp. by apply (pane_carry _ _ _ Hp).
Qed.
Lemma event_lands e now utc s : loop_ok s -> loop_ok (on_daemon_event e now utc s).
Proof.
  intros [H Hm]. destruct (touches_beside _ _ (event_touches e now utc s)) as (Hp & Hq & Hv).
  injection Hp as P1 P2 P3 P4. split; [by eapply steps_ok; [exact H|apply event_steps]|].
  unfold mode_means in *. rewrite P1, P2, P3, P4, Hq. destruct (s_mode s); auto.
Qed.
#[local] Hint Resolve event_lands enrich_same : busy.
Lemma round_lands r : keeps (W := W) loop_ok (run_round r).
Proof.
  destruct r as [[key|]|[e|]|]; cbn [run_round]; try apply ui_keeps_ret.
  - intros u. apply handle_key_lands.
  - unfold stay, on_daemon_event_with_context. keep.
  - unfold stay, at_now. keep.
Qed.
Lemma loop_lands rounds : keeps (W := W) loop_ok (run_loop rounds).
Proof.
  induction rounds as [|r rest IH]; cbn [run_loop]; [apply ui_keeps_ret|]. apply ui_keeps_bind; [apply round_lands|]. intros []; keep.
Qed.
Lemma start_busy path theme : busy (start_up path theme).
Proof. unfold start_up. keep. Qed.

(** C12. However a session goes, whatever keys are pressed, whatever events
    arrive and whatever the daemon and the machine answer, the interface is
    consistent: every selection points at a row of its list, the focus is on a
    pane that is shown, the conversations are the grouping of the folder's
    messages, the approvals are newest first, prompts, toasts and the folder
    cache stay within their bounds, the composer's cursors lie in its texts;
    and the mode has its object: a compose mode a composer, a confirmation
    something to delete, quick search a visible pane to return to. *)
Theorem session_stays_consistent path theme rounds (w : W) :
  loop_ok (u_app (session path theme rounds (connected_ui w)).2).
Proof.
  unfold session. unfold kbind at 1. apply loop_lands.
  assert (Hb : busy_ok (u_app (start_up path theme (connected_ui w)).2)); [|apply Hb].
  apply start_busy. split; [split|]; [apply default_ok|done|done].
Qed.
End session.
