(* ===== verification/TuiRequests.v ===== *)
(** * Which key causes which request

    The requests a key press sends, from the state it was pressed in: what
    cannot be undone needs its own key in its own mode, and concerns what was
    selected.  And which key ends the program. *)

From stdpp Require Import gmap relations.
From S2P Require Import Prelude RustStr Json IpcProtocol Wire McpTools McpModels MailParser DbCore Attachments Config TuiText TuiComposer TuiEditing TuiItems TuiApprovals TuiApp TuiCommand TuiConversations TuiInvariant TuiSteps TuiCache TuiEvents TuiModes TuiIpc TuiMailbox TuiForward TuiKeys TuiLoop.
#[local] Open Scope nat_scope.
#[local] Open Scope bool_scope.

(** ** Requests of a computation *)

Definition requests {W A} (m : K W A) (u : Ui W) : list sent := drop (List.length (u_sent u)) (u_sent (m u).2).

(** From [u], the requests of [m] satisfy [P]. *)
Definition asks_from {W A} (u : Ui W) (P : sent -> Prop) (m : K W A) : Prop :=
  exists l, u_sent (m u).2 = u_sent u ++ l /\ Forall P l.
Definition asks {W A} (P : sent -> Prop) (m : K W A) : Prop := forall u, asks_from u P m.

Section rules.
Context {W : Type}.
Lemma asks_requests {A} u P (m : K W A) : asks_from u P m -> Forall P (requests m u).
Proof. intros (l & E & H). unfold requests. by rewrite E, drop_app_length. Qed.
Lemma asks_nothing {A} u (m : K W A) : asks_from u (fun _ => False) m -> requests m u = [].
Proof. intros H%asks_requests. by destruct (requests m u); [|inversion H]. Qed.
Lemma asks_at {A} u P (m : K W A) : asks P m -> asks_from u P m.
Proof. done. Qed.
Lemma asks_weaken {A} (P Q : sent -> Prop) (m : K W A) : (forall x, P x -> Q x) -> asks P m -> asks Q m.
Proof. intros Hi Hm u. destruct (Hm u) as (l & E & H). exists l. split; [done|]. by eapply Forall_impl. Qed.

Lemma from_bind {A B} u P (m : K W A) (k : A -> K W B) :
  asks_from u P m -> asks_from (m u).2 P (k (m u).1) -> asks_from u P (kbind m k).
Proof.
  intros (l & E & H) (l' & E' & H'). exists (l ++ l'). split; [|by apply Forall_app].
  change (u_sent (kbind m k u).2) with (u_sent (k (m u).1 (m u).2).2). by rewrite E', E, app_assoc.
Qed.
Lemma from_read {A B} u P (f : AppState -> A) (k : A -> K W B) :
  asks_from u P (k (f (u_app u))) -> asks_from u P (kbind (kgets f) k).
Proof. done. Qed.
Lemma asks_bind {A B} P (m : K W A) (k : A -> K W B) : asks P m -> (forall a, asks P (k a)) -> asks P (kbind m k).
Proof. intros Hm Hk u. by apply from_bind; [apply Hm|apply Hk]. Qed.
Lemma silent_asks {A} P (m : K W A) : (forall u, u_sent (m u).2 = u_sent u) -> asks P m.
Proof. intros Hm u. exists []. by rewrite Hm, app_nil_r. Qed.
Lemma asks_ask {A} {MB : Mailbox W} P (q : MailboxCall A) : (forall r, P (Sent q r)) -> asks (W := W) P (ask q).
Proof. intros Hq u. eexists [_]. split; [done|]. by repeat constructor. Qed.
Lemma asks_for {A B} P (f : B -> A -> K W B) acc l : (forall b a, asks P (f b a)) -> asks P (kfor f acc l).
Proof.
  intros Hf. revert acc. induction l as [|x l IH]; intros acc; cbn [kfor]; [by apply silent_asks|].
  apply asks_bind; [apply Hf|apply IH].
Qed.
End rules.

Create HintDb asks discriminated.
Ltac asking :=
  repeat match goal with
    | |- asks _ (kbind _ _) => apply asks_bind; [|intros]
    | |- asks _ (ask _) => apply asks_ask; intros ?
    | |- asks _ (kfor _ _ _) => apply asks_for; intros
    | |- asks _ (kret _) => by apply silent_asks
    | |- asks _ (kgets _) => by apply silent_asks
    | |- asks _ (kmodify _) => by apply silent_asks
    | |- asks _ (kop _) => by apply silent_asks
    | |- asks _ (khost _) => by apply silent_asks
    | |- asks _ (if ?b then _ else _) => destruct b
    | |- asks _ (match ?x with _ => _ end) => destruct x
    | |- asks _ (let _ := _ in _) => cbv zeta
    end; auto with asks.

(** ** What may be sent *)

(** Requests that only read. *)
Definition reads (x : sent) : Prop :=
  match x with
  | Sent q _ =>
      match q with
      | QSyncFolder _ _ | QStartSync _ _ | QStopSync _ _ | QSetFlags _ _ | QArchiveMessage _ | QDeleteMessage _
      | QMoveMessage _ _ | QExportAttachment _ _ | QCreateDraft _ | QUpdateDraft _ _ | QSendDraft _ _
      | QDeleteDraft _ | QDecideApproval _ _ => False
      | _ => True
      end
  end.

(** The keys that decide an approval: the letters in normal mode, or the
    command. *)
Definition decision_key (key : KeyEvent) (s : AppState) (decision : ApprovalState) : Prop :=
  (s_mode s = MNormal /\ ke_control key = false /\
   (ke_code key = KChar (ch "a") /\ decision = Allowed \/ ke_code key = KChar (ch "d") /\ decision = Denied)) \/
  (s_mode s = MCommand /\ ke_code key = KEnter /\
   (parse_command (s_command_input s) = Ok CApprove /\ decision = Allowed \/
    parse_command (s_command_input s) = Ok CDeny /\ decision = Denied)).

(** What a key pressed in state [s] may ask for. *)
Definition may_send (key : KeyEvent) (s : AppState) (x : sent) : Prop :=
  match x with
  | Sent q _ =>
      match q with
      | QDeleteMessage id =>
          s_mode s = MConfirmDelete /\ is_yes key = true /\ s_pending_delete_draft s = None /\
          s_pending_delete_message s = Some id
      | QDeleteDraft id => s_mode s = MConfirmDelete /\ is_yes key = true /\ s_pending_delete_draft s = Some id
      | QDecideApproval id decision =>
          decision_key key s decision /\ approvals_folder_selected s = true /\ (ap_id <$> selected_approval s) = Some id
      | QSendDraft account _ =>
          s_mode s = MCompose /\ ke_control key = true /\ ke_code key = KChar (ch "x") /\ composer_account_id s = Some account
      | QCreateDraft draft => composer_draft s = Some draft /\ composer_draft_id s = None
      | QUpdateDraft id draft => composer_draft s = Some draft /\ composer_draft_id s = Some id
      | QArchiveMessage id | QMoveMessage id _ | QSetFlags id _ => selected_message_id s = Some id
      | QSyncFolder account folder | QStartSync account folder | QStopSync account folder =>
          selected_account_folder s = Ok (account, folder)
      | QExportAttachment id _ => selected_attachment_id s = Some id
      | _ => True
      end
  end.
Lemma reads_may_send key s x : reads x -> may_send key s x.
Proof. by destruct x as [A [] r]. Qed.

Section requests.
Context {TP : TextParsers} {JC : JsonCodec} {UC : UnicodeCase} {CT : ClientTexts} {B64 : Base64} {CF : ComposeFiles}.
Context {W : Type} {MB : Mailbox W} {HO : Host W}.
Abbreviation reading m := (asks (W := W) reads m).

(** ** Refreshing reads *)

Lemma at_now_asks P f : asks (W := W) P (at_now f).
Proof. by apply silent_asks. Qed.
Lemma toast_asks P kind text : asks (W := W) P (toast kind text).
Proof. by apply silent_asks. Qed.
Lemma status_asks P text : asks (W := W) P (status text).
Proof. by apply silent_asks. Qed.
Lemma error_asks P text : asks (W := W) P (error text).
Proof. by apply silent_asks. Qed.
Lemma record_error_asks P e : asks (W := W) P (record_error e).
Proof. by apply silent_asks. Qed.
#[local] Hint Resolve at_now_asks toast_asks status_asks error_asks record_error_asks : asks.
#[local] Hint Extern 1 (reads _) => exact I : asks.

Lemma preview_reads : reading refresh_attachment_preview.
Proof. unfold refresh_attachment_preview. asking. Qed.
#[local] Hint Resolve preview_reads : asks.
Lemma attachments_reads : reading refresh_attachments.
Proof. unfold refresh_attachments. asking. Qed.
#[local] Hint Resolve attachments_reads : asks.
Lemma detail_reads : reading refresh_detail.
Proof. unfold refresh_detail. asking. Qed.
Lemma missing_reads : reading refresh_missing_expanded_details.
Proof. unfold refresh_missing_expanded_details, refresh_missing_one. asking. Qed.
Lemma enrich_reads a : reading (enrich_approval a).
Proof. unfold enrich_approval, resolve_attachment_context, resolve_message_context, resolve_draft_context. asking. Qed.
#[local] Hint Resolve detail_reads missing_reads enrich_reads : asks.
Lemma approvals_reads : reading refresh_approvals.
Proof. unfold refresh_approvals, enrich_approvals. asking. Qed.
#[local] Hint Resolve approvals_reads : asks.
Lemma open_approvals_reads : reading open_approvals.
Proof. unfold open_approvals. asking. Qed.
Lemma messages_reads : reading refresh_messages.
Proof. unfold refresh_messages, cached_snapshot, show_snapshot, fetch_messages. asking. Qed.
#[local] Hint Resolve open_approvals_reads messages_reads : asks.
Lemma folders_reads : reading refresh_folders.
Proof. unfold refresh_folders. asking. Qed.
#[local] Hint Resolve folders_reads : asks.
Lemma accounts_reads : reading refresh_accounts.
Proof. unfold refresh_accounts. asking. Qed.
Lemma drafts_reads : reading refresh_drafts.
Proof. unfold refresh_drafts. asking. Qed.
Lemma submit_search_reads query scope : reading (submit_search query scope).
Proof. unfold submit_search. asking. Qed.
#[local] Hint Resolve accounts_reads drafts_reads submit_search_reads : asks.
Lemma refresh_search_reads : reading refresh_search.
Proof. unfold refresh_search. asking. Qed.
#[local] Hint Resolve refresh_search_reads : asks.
Lemma current_pane_reads : reading refresh_current_pane.
Proof. unfold refresh_current_pane. asking. Qed.
Lemma selection_change_reads : reading refresh_after_selection_change.
Proof. unfold refresh_after_selection_change. asking. Qed.
#[local] Hint Resolve current_pane_reads selection_change_reads : asks.
Lemma reply_reads all : reading (run_reply all).
Proof. unfold run_reply, show_failure. asking. Qed.
Lemma materialise_reads P subdir filename content_type decoded : asks (W := W) P (materialise subdir filename content_type decoded).
Proof. unfold materialise. asking. Qed.
#[local] Hint Resolve materialise_reads : asks.
Lemma forward_reads : reading run_forward.
Proof. unfold run_forward, show_failure, carry_batch, carry_one, materialise_forward_attachment. asking. Qed.
Lemma open_draft_reads : reading open_selected_draft.
Proof. unfold open_selected_draft, composer_draft_from_summary, add_materialised, materialise_draft_attachment. asking. Qed.
Lemma run_error_asks P e : asks (W := W) P (record_command_run_error e).
Proof. by apply silent_asks. Qed.
Lemma parse_error_asks P e : asks (W := W) P (record_command_parse_error e).
Proof. by apply silent_asks. Qed.
Lemma unless_failed_asks P text : asks (W := W) P (status_unless_failed text).
Proof. unfold status_unless_failed. asking. Qed.
Lemma warn_asks P message : asks (W := W) P (warn message).
Proof. by apply silent_asks. Qed.
#[local] Hint Resolve reply_reads forward_reads open_draft_reads run_error_asks parse_error_asks unless_failed_asks warn_asks : asks.

(** ** The rest concerns what was selected *)

Section one_key.
Context (key : KeyEvent) (s0 : AppState).
Abbreviation allowed := (may_send key s0).

Lemma reading_allowed {A} (m : K W A) : reading m -> asks allowed m.
Proof. apply asks_weaken, reads_may_send. Qed.
#[local] Hint Resolve reading_allowed : asks.
#[local] Hint Extern 2 (may_send _ _ _) => cbn; auto : asks.

(** The selections are those of [s0]. *)
Record same_objects (s : AppState) : Prop := {
  so_message : selected_message_id s = selected_message_id s0;
  so_folder : selected_account_folder s = selected_account_folder s0;
  so_attachment : selected_attachment_id s = selected_attachment_id s0;
  so_draft : composer_draft s = composer_draft s0;
  so_draft_id : composer_draft_id s = composer_draft_id s0;
  so_here : approvals_folder_selected s = approvals_folder_selected s0;
  so_approval : selected_approval s = selected_approval s0;
}.
Lemma same_objects_refl : same_objects s0.
Proof. by split. Qed.

Lemma folder_write_asks op u : same_objects (u_app u) -> asks_from u allowed (run_folder_write op).
Proof.
  intros [_ Hf _ _ _ _ _]. apply from_read. rewrite Hf. destruct (selected_account_folder s0) as [[a f]|e] eqn:E; [|apply run_error_asks].
  revert u Hf. intros u _. revert u. apply (asks_bind allowed); [by apply silent_asks|intros _].
  asking. destruct op; cbn; auto.
Qed.
Lemma flag_write_asks flag enabled success u : same_objects (u_app u) -> asks_from u allowed (run_flag_write flag enabled success).
Proof.
  intros [Hm _ _ _ _ _ _]. apply from_read. unfold selected_message_flag_update.
  destruct (selected_message (u_app u)) as [m|] eqn:E; [|apply run_error_asks]. cbn [fmap option_fmap option_map].
  assert (Hs : selected_message_id s0 = Some (mi_id m)) by (rewrite <- Hm; unfold selected_message_id; by rewrite E).
  clear Hm E. revert u. apply (asks_bind allowed); [by apply silent_asks|intros _]. asking.
Qed.
Lemma optimistic_asks id running (q : MailboxCall unit) success :
  (forall r, allowed (Sent q r)) -> asks allowed (remove_optimistically id running q success).
Proof. intros Hq. unfold remove_optimistically. asking. Qed.
Lemma archive_asks u : same_objects (u_app u) -> asks_from u allowed (run_message_remove RemoveArchive).
Proof.
  intros [Hm _ _ _ _ _ _]. apply from_read. rewrite Hm. destruct (selected_message_id s0) as [id|] eqn:E; [|apply run_error_asks].
  apply optimistic_asks. by intros r.
Qed.
Lemma move_asks folder u : same_objects (u_app u) -> asks_from u allowed (run_message_move folder).
Proof.
  intros [Hm _ _ _ _ _ _]. apply from_read. rewrite Hm. destruct (selected_message_id s0) as [id|] eqn:E; [|apply run_error_asks].
  cbv zeta. destruct (is_empty _); [apply parse_error_asks|]. apply optimistic_asks. by intros r.
Qed.
Lemma decision_asks decision u :
  same_objects (u_app u) -> decision_key key s0 decision -> asks_from u allowed (run_approval_decision decision).
Proof.
  intros [_ _ _ _ _ Hh Ha] Hk. apply from_read. rewrite Hh. destruct (approvals_folder_selected s0) eqn:E; [|apply warn_asks].
  cbn [negb]. apply from_read. rewrite Ha. destruct (selected_approval s0) as [a|] eqn:F; [|apply warn_asks]. cbn [is_none].
  assert (Hr : (remove_selected_approval (u_app u)).1 = Some a).
  { unfold selected_approval in Ha. unfold remove_selected_approval, lift_approvals, remove_selected_state. cbn [fst].
    pose proof (lookup_lt_Some _ _ _ Ha). destruct (as_items (s_approvals (u_app u))) as [|x l]; [done|].
    cbn [fst]. rewrite Nat.min_l by lia. done. }
  apply from_bind; [by apply silent_asks|]. cbn [kop fst]. rewrite Hr. clear -Hk E F.
  match goal with |- asks_from ?v _ _ => generalize v end. apply (asks_bind allowed); [by apply silent_asks|intros _].
  asking. cbn. by rewrite F.
Qed.
Lemma save_asks u : same_objects (u_app u) -> asks_from u allowed save_composer.
Proof.
  intros [_ _ _ Hd Hi _ _]. apply from_read. rewrite Hd. destruct (composer_draft s0) as [d|] eqn:E; [|by apply silent_asks].
  change (composer_draft_id (u_app u)) with (composer_draft_id (set_status (lit "Saving draft") (clear_error (u_app u)))) in Hi.
  apply from_bind; [by apply silent_asks|]. apply from_bind; [by apply silent_asks|]. apply from_read.
  cbn [kmodify status snd u_app]. rewrite Hi. match goal with |- asks_from ?v _ _ => generalize v end.
  apply (asks_bind allowed); [|intros; asking]. apply asks_ask. intros r. destruct (composer_draft_id s0) eqn:F; by cbn.
Qed.
Lemma send_asks u :
  s0 = u_app u -> s_mode s0 = MCompose -> ke_control key = true -> ke_code key = KChar (ch "x") ->
  asks_from u allowed send_composer.
Proof.
  intros Hs Hm Hc Hx. pose proof (save_asks u) as Hsave. rewrite <- Hs in Hsave. specialize (Hsave same_objects_refl).
  apply from_read. rewrite <- Hs. destruct (composer_account_id s0) as [a|] eqn:E; [|apply status_asks].
  apply from_bind.
  - unfold saved_draft. apply from_read. apply from_read. rewrite <- Hs. destruct (composer_draft_id s0); [|done].
    destruct (negb _); [|done]. by apply silent_asks.
  - destruct ((saved_draft u).1); [|by apply silent_asks]. match goal with |- asks_from ?v _ _ => generalize v end.
    apply (asks_bind allowed); [by apply silent_asks|intros _]. asking.
Qed.
Lemma free_path_asks P directory filename l : asks (W := W) P (first_free directory filename l).
Proof. induction l as [|i l IH]; cbn [first_free]; asking. Qed.
#[local] Hint Resolve free_path_asks : asks.
Lemma export_asks u : same_objects (u_app u) -> asks_from u allowed export_selected_attachment.
Proof.
  intros [_ _ Ha _ _ _ _]. apply from_read. unfold selected_attachment_id in Ha at 1.
  destruct (selected_attachment (u_app u)) as [a|]; [|apply status_asks]. cbn in Ha. revert u. unfold default_export_path.
  apply (asks_bind allowed); [asking|]. intros []; asking.
Qed.

Lemma command_asks c u :
  same_objects (u_app u) -> (c = CApprove -> decision_key key s0 Allowed) -> (c = CDeny -> decision_key key s0 Denied) ->
  asks_from u allowed (execute_command c).
Proof.
  intros Hs Ha Hd. destruct c; cbn [execute_command];
    try (by apply folder_write_asks); try (by apply flag_write_asks); try (by apply reading_allowed; auto with asks).
  - by apply archive_asks.
  - by apply decision_asks; auto.
  - apply asks_at. unfold begin_message_delete. asking.
  - by apply decision_asks; auto.
  - by apply move_asks.
  - apply asks_at. asking.
  - apply asks_at. asking.
  - apply asks_at. unfold compose_new. asking.
  - apply asks_at. unfold run_goto_folder. asking.
  - by apply silent_asks.
  - apply asks_at. unfold run_select_account. asking.
  - apply asks_at. unfold run_search. asking.
  - apply from_read. destruct (is_none _); [apply status_asks|]. apply from_bind; [by apply save_asks|]. by apply silent_asks.
Qed.

Lemma pane_action_asks action u :
  same_objects (u_app u) -> (action = ApproveSelectedApproval -> decision_key key s0 Allowed) ->
  (action = DenySelectedApproval -> decision_key key s0 Denied) -> asks_from u allowed (run_pane_action action).
Proof.
  intros Hs Ha Hd. destruct action; cbn [run_pane_action].
  - apply at_now_asks.
  - apply asks_at. asking.
  - apply asks_at. asking.
  - apply asks_at. unfold begin_message_delete. asking.
  - apply asks_at. asking.
  - by apply archive_asks.
  - by apply export_asks.
  - by apply silent_asks.
  - apply asks_at. asking.
  - apply asks_at. asking.
  - by apply decision_asks; auto.
  - by apply decision_asks; auto.
  - apply asks_at. asking.
Qed.

(** ** Prompts *)

Lemma delete_key_asks u :
  s0 = u_app u -> s_mode s0 = MConfirmDelete -> asks_from u allowed (handle_delete_confirmation_key key).
Proof.
  intros Hs Hm. unfold handle_delete_confirmation_key. destruct (is_yes key) eqn:Hy; [|apply asks_at; asking].
  apply from_read. rewrite <- Hs. destruct (s_pending_delete_draft s0) as [id|] eqn:Hd; cbn [negb is_none].
  - unfold delete_pending_draft. apply from_bind; [by apply silent_asks|]. cbn [kop fst take_pending_delete_draft].
    rewrite <- Hs, Hd. apply asks_at. asking.
  - apply from_bind; [by apply silent_asks|]. cbn [kop fst take_pending_delete_message]. rewrite <- Hs.
    destruct (s_pending_delete_message s0) as [id|] eqn:Hp; [|by apply silent_asks].
    apply optimistic_asks. by intros r.
Qed.
Lemma command_key_asks u : s0 = u_app u -> s_mode s0 = MCommand -> asks_from u allowed (handle_command_key key).
Proof.
  intros Hs Hm. unfold handle_command_key. destruct (ke_code key) eqn:Hk; try (by apply silent_asks).
  - apply asks_at. asking.
  - apply from_bind; [by apply silent_asks|]. cbn [kop fst finish_command]. rewrite <- Hs. unfold run_command_line.
    destruct (is_empty _); [by apply silent_asks|].
    destruct (parse_command (s_command_input s0)) as [c|e] eqn:Hc; [|apply parse_error_asks].
    apply command_asks; [split; rewrite Hs; reflexivity|intros ->; right; auto|intros ->; right; auto].
  - apply asks_at. unfold handle_command_tab. asking.
Qed.
Lemma composer_key_asks u : s0 = u_app u -> s_mode s0 = MCompose \/ s_mode s0 = MConfirmDiscard -> asks_from u allowed (handle_composer_key key).
Proof.
  intros Hs Hm. unfold handle_composer_key. apply from_read. rewrite <- Hs. destruct (bool_decide _) eqn:E.
  { apply asks_at. unfold handle_discard_key. asking. }
  brefl. destruct Hm as [Hm|Hm]; [|done]. apply from_read. destruct (ke_code key) as [c| | | | | | | | | | | | | | |] eqn:Hk;
    try (apply asks_at; unfold composer_escape, composer_vertical, body_line, compose; asking; fail).
  destruct (ke_control key) eqn:Hc; [|apply asks_at; unfold composer_plain_key, compose; asking].
  unfold composer_control_key. destruct (pressed c "s"); [|destruct (pressed c "x") eqn:Hx].
  - apply from_bind; [|by apply silent_asks]. apply save_asks. rewrite <- Hs. apply same_objects_refl.
  - unfold pressed in Hx. brefl. subst c. by apply send_asks.
  - apply asks_at. unfold body_line, compose. asking.
Qed.

(** ** Normal mode *)

Lemma letter_action action :
  resolve_pane_action s0 key = Some action -> s_mode s0 = MNormal ->
  (action = ApproveSelectedApproval -> decision_key key s0 Allowed) /\
  (action = DenySelectedApproval -> decision_key key s0 Denied).
Proof.
  unfold resolve_pane_action, decision_key. destruct (ke_control key) eqn:Hc; [done|]. destruct (ke_code key) as [c| | | | | | | | | | | | | | |] eqn:Hk; try done.
  cbv zeta. unfold pressed. intros H Hm. generalize dependent (current_pane_kind s0). intros pane H.
  destruct (N.eqb_spec c (ch "o")) as [_|_]; [destruct pane; injection H as <-; done|].
  destruct (N.eqb_spec c (ch "O")) as [_|_]; [destruct pane; injection H as <-; done|].
  destruct (N.eqb_spec c (ch "a")) as [->|_]; [split; intros ->; [left; auto|destruct pane; done]|].
  destruct (N.eqb_spec c (ch "d")) as [->|_]; [split; intros ->; [destruct pane; done|left; auto 6]|].
  destruct (N.eqb_spec c (ch "e")) as [_|_]; [destruct pane; injection H as <-; done|].
  destruct (N.eqb_spec c (ch "m")) as [_|_]; [destruct pane; injection H as <-; done|done].
Qed.

Lemma normal_char_asks c u : s0 = u_app u -> asks_from u allowed (handle_normal_char c).
Proof.
  intros Hs. assert (Hc : forall command, command <> CApprove -> command <> CDeny -> asks_from u allowed (stay (execute_command command))).
  { intros command Ha Hd. apply from_bind; [|by apply silent_asks]. apply command_asks; [rewrite <- Hs; apply same_objects_refl|done|done]. }
  assert (Hf : forall flag on off, on <> CApprove -> on <> CDeny -> off <> CApprove -> off <> CDeny ->
    asks_from u allowed (stay (toggle_flag flag on off))).
  { intros flag on off H1 H2 H3 H4. apply from_bind; [|by apply silent_asks]. apply from_read.
    destruct (unwrap_or false _); (apply command_asks; [rewrite <- Hs; apply same_objects_refl|done|done]). }
  unfold handle_normal_char. repeat match goal with |- asks_from _ _ (if ?b then _ else _) => destruct b end;
    try (by apply Hc); try (by apply Hf); try (apply asks_at; unfold stay, compose_new, move_and_refresh; asking; fail).
  apply from_read. destruct (message_list_focused _); [by apply Hf|by apply silent_asks].
Qed.
Lemma normal_key_asks u : s0 = u_app u -> asks_from u allowed (handle_normal_key key).
Proof.
  intros Hs. unfold handle_normal_key. destruct (ke_code key); [by apply normal_char_asks|..]; apply asks_at;
    unfold stay, move_and_refresh, normal_escape, normal_enter, enter_attachment, focus_shown_preview; asking.
Qed.
Lemma detail_line_asks P delta : asks (W := W) P (detail_line delta).
Proof. by apply silent_asks. Qed.
Lemma search_key_asks : asks allowed (handle_search_pane_key key).
Proof. unfold handle_search_pane_key, quiet, used, open_hit. asking. Qed.
Lemma detail_key_asks : asks allowed (handle_detail_key key).
Proof. unfold handle_detail_key, detail_vertical, detail_line, quiet, used. asking. Qed.
Lemma preview_key_asks : asks allowed (handle_preview_focus_key key).
Proof. unfold handle_preview_focus_key, preview_vertical, preview_scroll, quiet, used, yank_preview. asking. Qed.
End one_key.

(** A pane that does not use the key leaves everything as it is. *)
Definition declines (m : K W bool) : Prop := forall u, (m u).1 = false -> (m u).2 = u.
Lemma search_declines key : declines (handle_search_pane_key key).
Proof. intros u. unfold handle_search_pane_key. destruct (ke_code key); try done. by repeat case_match. Qed.
Lemma vertical_declines shift delta : declines (detail_vertical shift delta).
Proof.
  intros u. unfold detail_vertical. destruct shift; [done|]. unfold kbind. by destruct (kop _ u) as [[] v].
Qed.
Lemma detail_declines key : declines (handle_detail_key key).
Proof.
  intros u. unfold handle_detail_key. destruct (ke_code key); try done; try apply vertical_declines.
  repeat (destruct (_ && _) || destruct (pressed _ _)); try done; apply vertical_declines.
Qed.
Lemma preview_declines key : declines (handle_preview_focus_key key).
Proof.
  intros u. unfold handle_preview_focus_key. destruct (ke_code key); try done.
  - repeat (destruct (_ && _) || destruct (pressed _ _)); done.
  - intros H. exfalso. revert H. unfold kbind. cbv zeta. destruct (kop clear_preview_selection u) as [[] v]; cbn [fst snd]; [done|].
    by destruct (kop defocus_preview v) as [[] v'].
Qed.
Lemma pane_declines wanted m : declines m -> declines (pane_uses wanted m).
Proof. intros Hm u. unfold pane_uses. rewrite kgets_then. destruct (wanted _); [apply Hm|done]. Qed.

Lemma unless_used_asks (m k : K W bool) u P :
  asks P m -> declines m -> asks_from u P k -> asks_from u P (kbind m (fun used_it : bool => if used_it then kret false else k)).
Proof.
  intros Hm Hd Hk. apply from_bind; [apply Hm|]. specialize (Hd u). destruct (m u) as [[] v]; cbn [fst snd] in *.
  - by apply silent_asks.
  - by rewrite Hd.
Qed.
Lemma pane_uses_asks P wanted (m : K W bool) : asks P m -> asks P (pane_uses wanted m).
Proof. intros Hm. unfold pane_uses. asking. Qed.

Lemma normal_mode_asks key u : s_mode (u_app u) = MNormal -> asks_from u (may_send key (u_app u)) (handle_normal_mode key).
Proof.
  intros Hm. unfold handle_normal_mode. cbv zeta. destruct (match ke_code key with KChar _ => _ | _ => _ end).
  { apply asks_at, reading_allowed. unfold stay. asking. }
  apply from_read. change (id (u_app u)) with (u_app u). destruct (resolve_pane_action (u_app u) key) as [action|] eqn:E.
  { apply from_bind; [|by apply silent_asks]. destruct (letter_action key (u_app u) action E Hm) as [Ha Hd].
    apply pane_action_asks; [apply same_objects_refl|done|done]. }
  apply unless_used_asks; [apply pane_uses_asks, search_key_asks|apply pane_declines, search_declines|].
  apply unless_used_asks; [apply pane_uses_asks, detail_key_asks|apply pane_declines, detail_declines|].
  apply unless_used_asks; [apply pane_uses_asks, preview_key_asks|apply pane_declines, preview_declines|].
  by apply normal_key_asks.
Qed.

Lemma handle_key_asks key u : asks_from u (may_send key (u_app u)) (handle_key key).
Proof.
  unfold handle_key. apply from_read. destruct (s_help_open (u_app u)).
  { apply asks_at. unfold stay, handle_help_key. asking. }
  apply from_read. destruct (negb _). { apply asks_at. unfold stay, handle_open_confirmation_key, open_attachment_with_xdg. asking. }
  apply from_read. destruct (s_mode (u_app u)) eqn:E; [by apply normal_mode_asks|..]; (apply from_bind; [|by apply silent_asks]).
  - by apply command_key_asks.
  - by apply composer_key_asks; auto.
  - apply asks_at. unfold handle_compose_attach_key, compose. asking.
  - by apply composer_key_asks; auto.
  - by apply delete_key_asks.
  - apply asks_at, reading_allowed. unfold handle_quick_search_key. asking.
Qed.

(** Nothing is sent while help or the question before opening a file is up. *)
Lemma covered_asks_nothing key u :
  s_help_open (u_app u) = true \/ s_pending_open_attachment (u_app u) <> None -> requests (handle_key key) u = [].
Proof.
  intros H. apply asks_nothing. unfold handle_key. apply from_read.
  destruct (s_help_open (u_app u)) eqn:E. { apply asks_at. unfold stay, handle_help_key. asking. }
  apply from_read. destruct H as [H|H]; [done|]. destruct (s_pending_open_attachment (u_app u)); [|done]. cbn [negb is_none].
  apply asks_at. unfold stay, handle_open_confirmation_key, open_attachment_with_xdg. asking.
Qed.

(** C13. What a key press may ask the daemon for is bounded by the state it was
    pressed in: a message or a draft is deleted only on y in the confirmation
    that asked for exactly it; an approval is decided only with the letter in
    normal mode or with the command, with the Approvals folder selected, and it
    is the selected one; a draft is sent only with Ctrl-X in the composer, from
    its account, and saved as the composer shows it; archiving, moving,
    flagging, synchronising and exporting concern the selected message, folder
    or attachment.  While help or the question before opening a file is up, no
    request is sent at all. *)
Theorem requests_need_their_key key (u : Ui W) :
  Forall (may_send key (u_app u)) (requests (handle_key key) u) /\
  (s_help_open (u_app u) = true \/ s_pending_open_attachment (u_app u) <> None -> requests (handle_key key) u = []).
Proof.
  split; [apply asks_requests, handle_key_asks|apply covered_asks_nothing].
Qed.

(** ** Quitting *)

Lemma stay_stays (m : K W unit) u : (stay m u).1 = false.
Proof. done. Qed.
Lemma normal_char_quits c u : (handle_normal_char c u).1 = true <-> c = ch "q".
Proof.
  split; [|by intros ->]. unfold handle_normal_char. destruct (pressed c "q") eqn:E; [unfold pressed in E; by brefl|].
  repeat match goal with |- ((if ?b then _ else _) u).1 = true -> _ => destruct b end; try done.
  rewrite kgets_then. by destruct (message_list_focused _).
Qed.

(** The letter that quits is used by no pane. *)
Lemma q_unused (u : Ui W) key : ke_code key = KChar (ch "q") -> handle_normal_mode key u = handle_normal_key key u.
Proof.
  intros Hk. unfold handle_normal_mode, resolve_pane_action, handle_search_pane_key, handle_detail_key, handle_preview_focus_key.
  cbv zeta. rewrite Hk.
  repeat match goal with
    |- context [pressed (ch "q") ?x] => let b := eval vm_compute in (pressed (ch "q") x) in change (pressed (ch "q") x) with b end.
  cbn [andb]. rewrite kgets_then. replace (if ke_control key then None else _) with (@None PaneAction)
    by (by destruct (ke_control key)).
  unfold pane_uses, kbind, kgets. cbv zeta. cbn [fst snd].
  by destruct (in_pane PSearch (u_app u)); cbn [fst snd kret]; destruct (in_pane PDetails (u_app u)); cbn [fst snd kret];
    destruct (is_preview_focus_active (u_app u)).
Qed.
Lemma unless_used_quits (m k : K W bool) u :
  declines m -> (kbind m (fun used_it : bool => if used_it then kret false else k) u).1 = true -> (k u).1 = true.
Proof. intros Hd. unfold kbind. specialize (Hd u). destruct (m u) as [[] v]; cbn [fst snd] in *; [done|]. by rewrite Hd. Qed.

(** The program ends on q in normal mode, outside help and the question before
    opening a file, whatever pane has the focus; and on no other key. *)
Theorem only_q_quits key (u : Ui W) :
  (handle_key key u).1 = true <->
  s_help_open (u_app u) = false /\ s_pending_open_attachment (u_app u) = None /\ s_mode (u_app u) = MNormal /\
  ke_code key = KChar (ch "q").
Proof.
  unfold handle_key. rewrite kgets_then. destruct (s_help_open (u_app u)); [by split; [|intros (? & _)]|].
  rewrite kgets_then. destruct (s_pending_open_attachment (u_app u)); cbn [negb is_none]; [by split; [|intros (_ & ? & _)]|].
  rewrite kgets_then. destruct (s_mode (u_app u)); try (by split; [|intros (_ & _ & ? & _)]).
  split.
  - intros H. split_and!; try done. revert H. unfold handle_normal_mode. cbv zeta.
    destruct (match ke_code key with KChar _ => _ | _ => _ end); [done|]. rewrite kgets_then.
    destruct (resolve_pane_action _ key); [done|]. intros H.
    apply unless_used_quits in H; [|apply pane_declines, search_declines].
    apply unless_used_quits in H; [|apply pane_declines, detail_declines].
    apply unless_used_quits in H; [|apply pane_declines, preview_declines].
    revert H. unfold handle_normal_key. destruct (ke_code key) as [c| | | | | | | | | | | | | | |]; try done.
    by intros ->%normal_char_quits.
  - intros (_ & _ & _ & Hk). rewrite (q_unused u key Hk). unfold handle_normal_key. rewrite Hk. by apply normal_char_quits.
Qed.
End requests.
