(* ===== verification/TuiOutcomes.v ===== *)
(** * What the terminal's requests lead to

    Sending a message, a removal the daemon refuses, the batches of a forward
    and the names of exported files. *)

From stdpp Require Import gmap relations.
From S2P Require Import Prelude RustStr Json IpcProtocol Wire McpTools McpModels MailParser DbCore Attachments Config TuiText TuiComposer TuiEditing TuiItems TuiApprovals TuiApp TuiCommand TuiConversations TuiInvariant TuiSteps TuiCache TuiEvents TuiModes TuiIpc TuiMailbox TuiForward TuiKeys TuiLoop TuiSession TuiRequests.
#[local] Open Scope nat_scope.
#[local] Open Scope bool_scope.

(** ** Sending *)

Definition save_call (c : ComposerState) : MailboxCall Id :=
  match c_draft_id c with
  | Some id => QUpdateDraft id (composer_draft_of c)
  | None => QCreateDraft (composer_draft_of c)
  end.

(** The operations of the composer: those of the keys, the file picker's answer
    and the clearing of its prompt. *)
Inductive edit_step {CF : ComposeFiles} : ComposerState -> ComposerState -> Prop :=
| edit_operation c c' : compose_step c c' -> edit_step c c'
| edit_attach c : edit_step c (confirm_compose_attach c).2
| edit_path c : edit_step c (clear_attach_input c).

(** The same message, with the same claim to be stored. *)
Definition same_message (c c' : ComposerState) : Prop :=
  c_draft_id c' = c_draft_id c /\ c_account_id c' = c_account_id c /\ c_dirty c' = c_dirty c /\
  composer_draft_of c' = composer_draft_of c.
(** The same draft; if the message is another one, it is marked as changed. *)
Definition tracked (c c' : ComposerState) : Prop :=
  same_message c c' \/ (c_draft_id c' = c_draft_id c /\ c_account_id c' = c_account_id c /\ c_dirty c' = true).

Lemma same_message_refl c : same_message c c.
Proof. done. Qed.
Lemma same_message_trans a b c : same_message a b -> same_message b c -> same_message a c.
Proof. unfold same_message. intuition congruence. Qed.
Lemma tracked_trans a b c : tracked a b -> tracked b c -> tracked a c.
Proof. unfold tracked, same_message. intuition (left + right; split_and!; congruence). Qed.
Lemma set_cursor_same_message n c : same_message c (set_cursor n c).
Proof. unfold set_cursor, set_focused, focused_text. by destruct (c_focused c). Qed.
Lemma reset_same c : same_message c (reset_body_navigation_state c).
Proof. unfold reset_body_navigation_state. by destruct (decide _). Qed.
Lemma set_focused_keys t n c :
  c_draft_id (set_focused t n c) = c_draft_id c /\ c_account_id (set_focused t n c) = c_account_id c.
Proof. unfold set_focused. by destruct (c_focused c). Qed.
Lemma after_edit_keys c :
  c_draft_id (after_text_edit c) = c_draft_id c /\ c_account_id (after_text_edit c) = c_account_id c.
Proof. unfold after_text_edit. by destruct (decide _). Qed.
Lemma edit_keys t n c :
  c_draft_id (after_text_edit (set_focused t n c)) = c_draft_id c /\
  c_account_id (after_text_edit (set_focused t n c)) = c_account_id c.
Proof. destruct (after_edit_keys (set_focused t n c)) as [-> ->]. apply set_focused_keys. Qed.
Lemma mark_dirty_tracked c (r : bool * ComposerState) :
  (if r.1 then c_draft_id r.2 = c_draft_id c /\ c_account_id r.2 = c_account_id c else same_message c r.2) ->
  tracked c (mark_dirty r).2.
Proof. unfold mark_dirty. destruct r as [[] c']; cbn [fst snd]; intros H; [right; by destruct H|by left]. Qed.
Lemma moved_tracked (b : bool) c c1 c2 : same_message c c1 -> same_message c c2 -> tracked c (if b then (false, c1) else (true, c2)).2.
Proof. by destruct b; left. Qed.

Lemma dirty_tracked c c' :
  c_draft_id c' = c_draft_id c /\ c_account_id c' = c_account_id c -> tracked c (c' <| c_dirty := true |>).
Proof. intros []. by right. Qed.
Lemma enter_tracked c : tracked c (composer_enter c).2.
Proof.
  unfold composer_enter. destruct (decide _); [|by left]. destruct (at_limit _ _); [by left|]. cbn [snd].
  apply dirty_tracked. unfold insert_body_newline. cbv zeta. destruct (after_edit_keys (c <| c_body :=
    unwrap_or (c_body c) (string_insert (c_body c) (char_to_byte_index (c_body c) (Nat.min (c_body_cursor c) (char_count (c_body c)))) LF) |>
    <| c_body_cursor := Nat.min (c_body_cursor c) (char_count (c_body c)) + 1 |>)) as [-> ->]. done.
Qed.

Lemma run_key_tracked k c : tracked c (run_key k c).2.
Proof.
  destruct k; cbn [run_key].
  - unfold push_composer_char, insert_focused_char. destruct (_ || _); [by left|]. apply dirty_tracked, edit_keys.
  - destruct (decide _); [apply enter_tracked|by left].
  - apply mark_dirty_tracked. unfold delete_before_focused_cursor. cbv zeta.
    destruct (_ =? _); [apply set_cursor_same_message|apply edit_keys].
  - apply mark_dirty_tracked. unfold delete_at_focused_cursor. cbv zeta.
    destruct (_ <=? _); [apply set_cursor_same_message|apply edit_keys].
  - apply mark_dirty_tracked. unfold delete_word_before_cursor. cbv zeta.
    destruct (_ =? _); [apply set_cursor_same_message|]. destruct (_ =? _); [done|apply edit_keys].
  - apply moved_tracked; [done|]. eapply same_message_trans; [apply set_cursor_same_message|apply reset_same].
  - apply moved_tracked; [apply set_cursor_same_message|]. eapply same_message_trans; [apply set_cursor_same_message|apply reset_same].
  - apply moved_tracked; [apply set_cursor_same_message|]. eapply same_message_trans; [apply set_cursor_same_message|apply reset_same].
  - apply moved_tracked; [apply set_cursor_same_message|]. eapply same_message_trans; [apply set_cursor_same_message|apply reset_same].
Qed.

(** Every operation of the composer that changes the message marks it. *)
Lemma edit_tracked {CF : ComposeFiles} c c' : edit_step c c' -> tracked c c'.
Proof.
  intros [c1 c2 H|c1|c1]; [|..|by left].
  - destruct H as [k x|x|x|x|delta h x|x|x|x|ch x|x|x|delta x]; [apply run_key_tracked|..|]; try by left.
    + apply enter_tracked.
    + unfold move_body_line. destruct (negb _); [by left|]. destruct (body_cursor_line_column x). cbv zeta. cbn [snd].
      left. by destruct (bool_decide _).
    + unfold toggle_body_line_selection. left. by repeat case_match.
    + unfold start_body_line_selection. left. by repeat case_match.
    + unfold push_compose_attach_char. left. by repeat case_match.
    + unfold backspace_compose_attach. left. by repeat case_match.
    + unfold remove_selected_compose_attachment. cbv zeta. destruct (_ =? _); [by left|by right].
    + unfold move_compose_attachment_selection. left. by repeat case_match.
  - unfold confirm_compose_attach. cbv zeta. destruct (is_empty _); [by left|]. destruct (probe_attachment _); [|by left].
    destruct (_ <? _)%Z; [by left|by right].
Qed.
Lemma edits_tracked {CF : ComposeFiles} c c' : rtc edit_step c c' -> tracked c c'.
Proof. induction 1; [by left|]. eauto using tracked_trans, edit_tracked. Qed.

(** The requests of sending composer [c], whose message was [c0] when it was last
    stored or opened, and the composer they leave open, if any. *)
Inductive sending (c0 c : ComposerState) : list sent -> option ComposerState -> Prop :=
| send_unchanged id r :
    c_draft_id c0 = Some id -> composer_draft_of c = composer_draft_of c0 ->
    sending c0 c [Sent (QSendDraft (c_account_id c) id) r] (if is_ok r then None else Some c)
| save_failed e : sending c0 c [Sent (save_call c) (Err e)] (Some c)
| save_then_send id r :
    sending c0 c [Sent (save_call c) (Ok id); Sent (QSendDraft (c_account_id c) id) r]
      (if is_ok r then None else Some (c <| c_draft_id := Some id |> <| c_dirty := false |>)).

Section outcomes.
Context {TP : TextParsers} {JC : JsonCodec} {UC : UnicodeCase} {CT : ClientTexts} {B64 : Base64} {CF : ComposeFiles}.
Context {W : Type} {MB : Mailbox W} {HO : Host W}.

(** The part of sending that follows a stored draft. *)
Definition submit account id : K W unit :=
  kmodify clear_error;~ status (lit "Sending message");~
  let~ r := ask (QSendDraft account id) in
  match r with
  | Ok message_id => kmodify exit_composer;~ status (lit "Sent message " ++ message_id)
  | Err e => record_error e
  end.

Lemma submit_outcome account id (u : Ui W) :
  exists r, u_sent (submit account id u).2 = u_sent u ++ [Sent (QSendDraft account id) r] /\
    s_composer (u_app (submit account id u).2) = (if is_ok r then None else s_composer (u_app u)) /\
    (is_ok r = true -> s_mode (u_app (submit account id u).2) = MNormal).
Proof.
  unfold submit. rewrite kmodify_then, status_then, ask_then. cbn [u_app u_world u_sent].
  destruct (answer (QSendDraft account id) (u_world u)) as [[mid|e] w]; cbn [fst snd].
  - exists (Ok mid). by split_and!.
  - exists (Err e). by split_and!.
Qed.

Lemma saved_here c (u : Ui W) :
  s_composer (u_app u) = Some c ->
  exists r, u_sent (save_composer u).2 = u_sent u ++ [Sent (save_call c) r] /\
    (save_composer u).1 = match r with Ok id => Some id | Err _ => None end /\
    s_composer (u_app (save_composer u).2) =
      Some (match r with Ok id => c <| c_draft_id := Some id |> <| c_dirty := false |> | Err _ => c end).
Proof.
  intros Hc. unfold save_composer. rewrite kgets_then. unfold composer_draft. rewrite Hc. cbn [fmap option_fmap option_map].
  rewrite kmodify_then, status_then, kgets_then, ask_then. cbn [u_app u_world u_sent].
  change (composer_draft_id (set_status _ (clear_error (u_app u)))) with (composer_draft_id (u_app u)).
  unfold composer_draft_id. rewrite Hc. cbn [mbind option_bind]. fold (save_call c).
  destruct (answer (save_call c) (u_world u)) as [[id|e] w]; cbn [fst snd].
  - exists (Ok id). split; [done|]. split; [done|]. rewrite kmodify_then, status_then. cbn [kret snd u_app].
    unfold mark_composer_saved. change (s_composer (set_status _ (clear_error (u_app u)))) with (s_composer (u_app u)). by rewrite Hc.
  - exists (Err e). by split_and!.
Qed.

Lemma send_composer_run c (u : Ui W) :
  s_composer (u_app u) = Some c ->
  (send_composer u).2 =
  match (saved_draft u).1 with Some id => (submit (c_account_id c) id (saved_draft u).2).2 | None => (saved_draft u).2 end.
Proof.
  intros Hc. unfold send_composer. rewrite kgets_then. unfold composer_account_id. rewrite Hc. cbn [fmap option_fmap option_map].
  unfold kbind at 1. by destruct (saved_draft u) as [[id|] u'].
Qed.

(** What storing the draft first leads to: nothing when it is not marked as
    changed, one request otherwise. *)
Lemma saved_draft_outcome c (u : Ui W) :
  s_composer (u_app u) = Some c ->
  (c_dirty c = false /\ exists id, c_draft_id c = Some id /\ saved_draft u = (Some id, u)) \/
  saved_draft u = save_composer u.
Proof.
  intros Hc. unfold saved_draft. rewrite !kgets_then. unfold composer_draft_id, composer_is_dirty. rewrite !Hc. cbn [mbind option_bind].
  destruct (c_draft_id c) as [id|]; [|by right]. destruct (c_dirty c); cbn [negb]; [by right|left]. eauto.
Qed.

(** C15. What is sent is what the composer shows.  Let [c0] be the composer at some
    earlier moment, say when its draft was last stored or opened, and [c] what any
    sequence of the composer's operations has made of it.  Sending
    [c] first stores its message and then sends, once, the draft whose identifier
    that answer gave; storing is left out only when the message is the same as
    [c0]'s.  When the message left, the composer closes; when storing fails it
    stays exactly as it was, still marked as changed if it was; when only sending
    fails it stays with its message, and now has the stored draft. *)
Theorem sent_message_is_the_one_shown c0 c (u : Ui W) :
  rtc edit_step c0 c -> s_composer (u_app u) = Some c ->
  sending c0 c (requests send_composer u) (s_composer (u_app (send_composer u).2)) /\
  (s_composer (u_app (send_composer u).2) = None -> s_mode (u_app (send_composer u).2) = MNormal).
Proof.
  intros Hedits Hc. unfold requests. rewrite (send_composer_run c u Hc). apply edits_tracked in Hedits.
  destruct (saved_draft_outcome c u Hc) as [(Hd & id & Hi & ->)| ->]; cbn [fst snd].
  - destruct (submit_outcome (c_account_id c) id u) as (r & Hs & -> & Hm). rewrite Hs, drop_app_length, Hc. split.
    + destruct Hedits as [(H1 & _ & _ & H4)|(_ & _ & H)]; [|congruence]. apply send_unchanged; congruence.
    + destruct r; [auto|done].
  - destruct (saved_here c u Hc) as (r & Hs & Hr & Hc'). rewrite Hr. destruct r as [id|e].
    + destruct (submit_outcome (c_account_id c) id (save_composer u).2) as (r & Hs' & -> & Hm). rewrite Hc', Hs', Hs, <- app_assoc, drop_app_length.
      split; [apply save_then_send|]. destruct r; [auto|done].
    + rewrite Hs, drop_app_length, Hc'. split; [apply save_failed|done].
Qed.

(** ** Removals *)

(** The reason a request was refused for. *)
Definition refusal (x : sent) : option MailboxError :=
  match x with Sent _ (Err e) => Some e | Sent _ (Ok _) => None end.

(** [t] lists and selects what [s] does. *)
Definition same_list (s t : AppState) : Prop :=
  s_folder_messages t = s_folder_messages s /\ s_threads t = s_threads s /\
  s_selected_thread t = s_selected_thread s /\ s_messages t = s_messages s /\
  selected_message_id t = selected_message_id s.

Lemma shows_clear s : shows_selected_thread s -> shows_selected_thread (clear_error s).
Proof. done. Qed.
Lemma selected_notes e s : selected_message_id (set_error e (set_status e s)) = selected_message_id s.
Proof. done. Qed.
Lemma selected_clear s : selected_message_id (clear_error s) = selected_message_id s.
Proof. done. Qed.
Lemma same_list_notes e s t : same_list (clear_error s) t -> same_list s (set_error e (set_status e t)).
Proof.
  intros (H1 & H2 & H3 & H4 & H5). rewrite selected_clear in H5. unfold same_list. rewrite selected_notes.
  split_and!; [exact H1|exact H2|exact H3|exact H4|exact H5].
Qed.
Lemma clear_error_fine s : ui_ok s -> ui_ok (clear_error s).
Proof. intros H. ui_frame H. Qed.
Lemma set_status_fine text s : ui_ok s -> ui_ok (set_status text s).
Proof. intros H. ui_frame H. Qed.
Lemma set_error_fine text s : ui_ok s -> ui_ok (set_error text s).
Proof. intros H. ui_frame H. Qed.
Lemma same_folder_status text s t : same_folder_view s t -> same_folder_view s (set_status text t).
Proof. done. Qed.

Lemma put_back id now now' running e s :
  ui_ok s -> shows_selected_thread s ->
  let removed := set_status running (remove_message_locally id now (clear_error s)).2 in
  let s' := set_error e (set_status e (restore_message_list_snapshot (snapshot_message_list (clear_error s)) now' removed)) in
  same_list s s' /\ s_error s' = Some e /\ ui_ok s'.
Proof.
  intros H%clear_error_fine Hv%shows_clear. cbv zeta.
  pose proof (remove_message_ok id now _ H) as H1.
  pose proof (same_folder_status running _ _ (remove_message_folder id now (clear_error s))) as F1.
  generalize dependent (remove_message_locally id now (clear_error s)).2. intros t H1 F1.
  destruct (restored_view now' (clear_error s) (set_status running t) H Hv (set_status_fine running t H1) F1) as (R1 & R2 & R3 & R4 & R5 & R6).
  generalize dependent (restore_message_list_snapshot (snapshot_message_list (clear_error s)) now' (set_status running t)).
  intros r R1 R2 R3 R4 R5 R6.
  split; [by apply same_list_notes|]. split; [done|]. by apply set_error_fine, set_status_fine.
Qed.

Lemma record_error_run e (u : Ui W) :
  (record_error e u).2 =
  mkUi (set_error (mailbox_error_text e) (set_status (mailbox_error_text e) (u_app u))) (u_world u) (u_sent u).
Proof. done. Qed.

Lemma refused_optimistic id running (q : MailboxCall unit) success e (u : Ui W) :
  ui_ok (u_app u) -> shows_selected_thread (u_app u) ->
  (head (requests (remove_optimistically id running q success) u) ≫= refusal) = Some e ->
  let u' := (remove_optimistically id running q success u).2 in
  requests (remove_optimistically id running q success) u = [Sent q (Err e)] /\
  same_list (u_app u) (u_app u') /\ s_error (u_app u') = Some (mailbox_error_text e) /\ ui_ok (u_app u').
Proof.
  intros H Hv. unfold requests, remove_optimistically.
  rewrite kmodify_then, kgets_then, at_now_then, status_then, ask_then. cbn [u_app u_world u_sent].
  set (w := (instant_now (u_world u)).2). destruct (answer q w) as [[[]|e'] w']; cbn [fst snd].
  - set (u1 := mkUi _ _ _). assert (A : asks_from u1 (fun _ => True) (refresh_messages;~ status_unless_failed success)).
    { apply asks_bind; [|intros _; apply unless_failed_asks]. eapply asks_weaken; [|apply messages_reads]. done. }
    destruct A as (l & -> & _). unfold u1 at 1. cbn [u_sent]. rewrite <- app_assoc, drop_app_length. discriminate.
  - rewrite at_now_then, record_error_run. cbn [u_app u_world u_sent]. rewrite drop_app_length. intros He.
    assert (E : e' = e) by (cbn in He; congruence). subst e'. split; [done|].
    exact (put_back id _ _ running (mailbox_error_text e) (u_app u) H Hv).
Qed.

(** A removal the daemon refuses changes nothing: archiving or deleting a
    message takes it off the list at once, and when the request is refused the
    folder's messages, the conversations, the rows and the selected message are
    those from before, the error is on the status line, and nothing else was
    asked for. *)
Theorem refused_removal_changes_nothing op id e (u : Ui W) :
  ui_ok (u_app u) -> shows_selected_thread (u_app u) ->
  (head (requests (run_message_remove_for op id) u) ≫= refusal) = Some e ->
  let u' := (run_message_remove_for op id u).2 in
  List.length (requests (run_message_remove_for op id) u) = 1 /\
  same_list (u_app u) (u_app u') /\ s_error (u_app u') = Some (mailbox_error_text e) /\ ui_ok (u_app u').
Proof.
  intros H Hv He. unfold run_message_remove_for in *.
  destruct (refused_optimistic _ _ _ _ e u H Hv He) as (E & R). split; [by rewrite E|exact R].
Qed.
End outcomes.

(** ** The batches of a forward *)

(** Characters of the base64 text of [size] bytes. *)
Definition base64_length (size : Z) : Z := 4 * ((size + 2) / 3).
(** What a group of attachments takes on the wire, 512 for the fields of each. *)
Definition group_bytes (g : list ForwardAttachmentMeta) : Z :=
  foldr (fun m n => base64_length (Z.max 0 (fm_size_bytes m)) + 512 + n)%Z 0%Z g.
Definition group_fits (g : list ForwardAttachmentMeta) : Prop :=
  1 <= List.length g <= FORWARD_ATTACHMENT_BATCH_MAX_IDS /\
  (List.length g = 1 \/ (group_bytes g + 64 * 1024 <= Z.of_N MAX_FRAME_BYTES)%Z).

Lemma group_bytes_snoc g m :
  group_bytes (g ++ [m]) = (group_bytes g + (base64_length (Z.max 0 (fm_size_bytes m)) + 512))%Z.
Proof. induction g as [|x g IH]; cbn; [lia|]. unfold group_bytes in *. cbn. lia. Qed.

(** The group being filled: its identifiers, and its bytes as far as the
    counter can hold them. *)
Definition filling (g : list ForwardAttachmentMeta) (st : Batching) : Prop :=
  bg_batch st = map fm_attachment_id g /\ bg_bytes st = Z.min (group_bytes g) USIZE_MAX /\ (g = [] \/ group_fits g).

Lemma estimate_exact size :
  estimated_forward_attachment_wire_bytes size = Z.min (base64_length (Z.max 0 size) + 512) USIZE_MAX.
Proof.
  unfold estimated_forward_attachment_wire_bytes, base64_length, sat_add64, sat_mul64, USIZE_MAX.
  change (2 ^ 64 - 1)%Z with 18446744073709551615%Z. Z.to_euclidean_division_equations. lia.
Qed.
Lemma base64_length_nonneg size : (0 <= size -> 0 <= base64_length size)%Z.
Proof. unfold base64_length. intros H. Z.to_euclidean_division_equations. lia. Qed.
Lemma group_bytes_nonneg g : (0 <= group_bytes g)%Z.
Proof.
  induction g as [|m g IH]; [done|]. unfold group_bytes in *. cbn.
  pose proof (base64_length_nonneg (Z.max 0 (fm_size_bytes m))). lia.
Qed.

(** One attachment more: it joins the group, or starts the next one. *)
Lemma add_to_batch_group g m st :
  filling g st ->
  (filling (g ++ [m]) (add_to_batch st m) /\ bg_batches (add_to_batch st m) = bg_batches st) \/
  (group_fits g /\ filling [m] (add_to_batch st m) /\
   bg_batches (add_to_batch st m) = bg_batches st ++ [map fm_attachment_id g]).
Proof.
  intros (Hb & Hn & Hg). pose proof (group_bytes_nonneg g) as Pg.
  pose proof (base64_length_nonneg (Z.max 0 (fm_size_bytes m)) ltac:(lia)) as Pm.
  unfold add_to_batch. cbv zeta. rewrite estimate_exact. set (n := (base64_length _ + 512)%Z).
  assert (Hone : group_fits [m]) by (split; [cbn; unfold FORWARD_ATTACHMENT_BATCH_MAX_IDS; lia|by left]).
  assert (Hs : forall a, (0 <= a -> sat_add64 (Z.min a USIZE_MAX) (Z.min n USIZE_MAX) = Z.min (a + n) USIZE_MAX)%Z).
  { intros a Ha. unfold sat_add64, USIZE_MAX. unfold n in *. lia. }
  rewrite Hn.
  destruct ((_ <=? _) || _) eqn:E; cbn [bg_batches bg_batch bg_bytes].
  - right. destruct Hg as [->|Hg].
    { exfalso. rewrite Hb in E. cbn in E. done. }
    split; [exact Hg|]. split; [|by rewrite Hb]. split; [done|]. split; [|by right].
    cbn [bg_bytes]. change (group_bytes [m]) with (group_bytes ([] ++ [m])). rewrite group_bytes_snoc. fold n. unfold group_bytes. cbn [foldr].
    unfold sat_add64, USIZE_MAX. unfold n in *. lia.
  - left. split; [|done]. apply orb_false_iff in E as [E1 E2]. apply Nat.leb_gt in E1.
    split; [by rewrite map_app, Hb|]. cbn [bg_bytes]. split; [rewrite group_bytes_snoc, Hn; exact (Hs _ Pg)|].
    right. rewrite Hb, length_map in E1. split; [rewrite length_app; cbn; lia|].
    destruct g as [|x g]; [by left|right]. rewrite Hb in E2. cbn [map andb negb] in E2.
    rewrite group_bytes_snoc. fold n. rewrite bool_decide_false in E2 by done. cbn [negb andb] in E2.
    apply Z.ltb_ge in E2. rewrite Hs in E2 by done. unfold FORWARD_ATTACHMENT_BATCH_WIRE_BUDGET, USIZE_MAX, MAX_FRAME_BYTES in *. lia.
Qed.

Lemma batches_groups metas : forall g st,
  filling g st ->
  exists gs last_, filling last_ (foldl add_to_batch st metas) /\ Forall group_fits gs /\
    concat gs ++ last_ = g ++ metas /\
    bg_batches (foldl add_to_batch st metas) = bg_batches st ++ map (map fm_attachment_id) gs.
Proof.
  induction metas as [|m metas IH]; intros g st Hf.
  { exists [], g. cbn. by rewrite !app_nil_r. }
  cbn [foldl]. destruct (add_to_batch_group g m st Hf) as [[Hf' Hb]|(Hg & Hf' & Hb)];
    destruct (IH _ _ Hf') as (gs & l & H1 & H2 & H3 & H4); rewrite H4, Hb.
  - exists gs, l. split_and!; [done|done|by rewrite H3, <- app_assoc|done].
  - exists (g :: gs), l. split_and!; [done|by constructor|cbn; by rewrite <- app_assoc, H3|by rewrite <- app_assoc].
Qed.

(** The batches cover the attachments in order, and every one fits. *)
Lemma batches_fit metas :
  exists groups,
    concat groups = metas /\ Forall group_fits groups /\
    forward_attachment_batches metas = map (map fm_attachment_id) groups.
Proof.
  destruct (batches_groups metas [] (mkBatching [] [] 0)) as (gs & l & (Hb & _ & Hl) & H2 & H3 & H4).
  { split_and!; [done|done|by left]. }
  unfold forward_attachment_batches. cbv zeta. rewrite Hb, H4. cbn [bg_batches app] in *. destruct Hl as [->|Hl].
  - exists gs. by rewrite <- (app_nil_r (concat gs)).
  - exists (gs ++ [l]). rewrite concat_app. cbn. rewrite app_nil_r. split_and!; [done|by apply Forall_app_2; [|constructor]|].
    rewrite bool_decide_false, map_app; [done|]. destruct l; [|done]. destruct Hl as [Hl _]. cbn in Hl. lia.
Qed.

(** ** Names of exported files *)

Definition no_slash (s : str) : Prop := Forall (fun c => c <> SLASH) s.

Lemma split_slash s : Forall no_slash (split_char SLASH s).
Proof.
  unfold split_char. induction s as [|c s IH]; cbn [split_by]; [by repeat constructor|].
  destruct (N.eqb_spec SLASH c) as [|Hc]; [constructor; [constructor|done]|].
  destruct (split_by (N.eqb SLASH) s) as [|w ws]; [by repeat constructor|].
  inversion IH; subst. constructor; [by constructor|done].
Qed.
Lemma file_name_no_slash p n : file_name p = Some n -> no_slash n.
Proof.
  unfold file_name. destruct (last (components p)) as [c|] eqn:E; [|done]. destruct (str_eqb _ _); [done|]. intros [= <-].
  apply last_Some_elem_of, list_elem_of_In in E. unfold components in E. apply filter_In in E as [E _].
  pose proof (split_slash p) as H. rewrite Forall_forall in H. by apply H, list_elem_of_In.
Qed.

(** A name with a character other than the dot and no slash is one component. *)
Lemma visible_plain n : no_slash n -> Exists (fun c => c <> DOT) n -> plain_component n.
Proof.
  intros Hn He. split_and!; try (intros ->; repeat (inversion He as [? ? Hx|? ? Hx]; subst; clear He; rename Hx into He); done).
  intros Hs. unfold no_slash in Hn. rewrite Forall_forall in Hn. by apply (Hn SLASH).
Qed.

Lemma safe_export_no_slash filename : no_slash (safe_export_filename filename).
Proof.
  unfold safe_export_filename. cbv zeta. destruct (is_empty _); [by repeat constructor|].
  unfold trim_matches, trim_start_by. apply trim_end_by_Forall, drop_while_Forall.
  destruct (file_name filename) as [n|] eqn:E; cbn [unwrap_or]; [by eapply file_name_no_slash|by repeat constructor].
Qed.
Lemma safe_export_plain filename : plain_component (safe_export_filename filename).
Proof.
  apply visible_plain; [apply safe_export_no_slash|]. unfold safe_export_filename. cbv zeta.
  destruct (is_empty _) eqn:E; [by left|]. apply is_empty_false in E.
  match goal with |- context [trim_matches ?f ?s] => destruct (trim_matches_edges f s) as [H _] end.
  destruct (trim_matches _ _) as [|c r]; [done|]. left. specialize (H c r eq_refl). by intros ->.
Qed.

Lemma rsplit_dot_no_slash n a b : rsplit_dot n = Some (a, b) -> no_slash n -> no_slash a /\ no_slash b.
Proof.
  revert a. induction n as [|c n IH]; intros a; cbn; [done|]. intros E Hn. inversion Hn; subst.
  destruct (rsplit_dot n) as [[x y]|].
  - injection E as <- <-. destruct (IH x eq_refl) as [? ?]; [done|]. split; [by constructor|done].
  - destruct (c =? DOT)%N; [|done]. injection E as <- <-. by split; [constructor|].
Qed.
Lemma stem_no_slash n : no_slash n -> no_slash (stem_and_extension n).1 /\ forall e, (stem_and_extension n).2 = Some e -> no_slash e.
Proof.
  intros Hn. unfold stem_and_extension. destruct (str_eqb _ _); [done|].
  destruct (rsplit_dot n) as [[[|x a] b]|] eqn:E; [done| |done].
  destruct (rsplit_dot_no_slash _ _ _ E Hn) as [? ?]. split; [done|]. by intros e [= <-].
Qed.
Lemma show_len_no_slash n : no_slash (show_len n).
Proof.
  eapply Forall_impl; [apply (digits_go_safe _ _ []); constructor|]. by intros c Hc ->.
Qed.
Lemma candidate_plain filename index : plain_component (export_candidate filename index).
Proof.
  assert (Hs : no_slash (unwrap_or (lit "attachment") (file_stem filename)) /\ forall e, extension filename = Some e -> no_slash e).
  { unfold file_stem, extension. destruct (file_name filename) as [n|] eqn:E; cbn; [|by split; [repeat constructor|]].
    by apply stem_no_slash, (file_name_no_slash filename). }
  destruct Hs as [Hs He]. unfold export_candidate. cbv zeta.
  apply visible_plain; destruct (extension filename) as [e|].
  1,2: unfold no_slash; repeat apply Forall_app_2; try exact Hs; try apply show_len_no_slash; try (by repeat constructor).
  1: by apply He.
  all: apply Exists_app; right; by left.
Qed.

Section export.
Context {W : Type} {HO : Host W}.

(** [p] is a file directly in [dir] that was not there when asked. *)
Definition free_in (dir p : str) : Prop :=
  exists leaf w, p = path_join dir leaf /\ plain_component leaf /\ (path_exists p w).1 = false.

Lemma first_free_spec dir filename indices (u : Ui W) p :
  (first_free dir filename indices u).1 = Ok p -> free_in dir p.
Proof.
  revert u. induction indices as [|i l IH]; intros u; cbn [first_free]; [done|]. cbv zeta. rewrite khost_then.
  destruct (path_exists _ (u_world u)) as [[] w] eqn:E; cbn [fst snd negb]; [apply IH|].
  intros [= <-]. exists (export_candidate filename i), (u_world u). by rewrite E; split_and!; [|apply candidate_plain|].
Qed.

(** An attachment's name cannot choose where it is exported to: without a
    target given, the path proposed is a file directly in the current directory,
    whatever separators and dots the name from the mail has, and no file of that
    name was there when it was chosen. *)
Theorem export_stays_in_current_dir filename (u : Ui W) p :
  (default_export_path filename u).1 = Ok p ->
  exists dir leaf, (current_dir (u_world u)).1 = Ok dir /\ plain_component leaf /\
    components p = components dir ++ [leaf] /\ exists w, (path_exists p w).1 = false.
Proof.
  unfold default_export_path. rewrite khost_then. destruct (current_dir (u_world u)) as [[dir|e] w]; cbn [fst snd]; [|done].
  cbv zeta. rewrite khost_then. cbn [u_world]. intros Hp. exists dir.
  assert (Hf : free_in dir p).
  { destruct (path_exists _ w) as [[] w'] eqn:E; cbn [fst snd negb] in Hp; [by eapply first_free_spec|].
    injection Hp as <-. exists (safe_export_filename filename), w. by rewrite E; split_and!; [|apply safe_export_plain|]. }
  destruct Hf as (leaf & w' & -> & Hl & Hw). exists leaf. split_and!; [done|done|by rewrite components_join, (components_plain leaf)|by exists w'].
Qed.
End export.
