(* ===== verification/TuiDaemon.v ===== *)
(** * The terminal in front of the daemon

    The terminal's client ([TuiIpc]) with the daemon's dispatcher behind it, over
    a socket that delivers: what an answer of a handler becomes on the other side,
    what the daemon makes of the decisions the terminal sends, what a confirmed
    removal did, and how the batches of a forward fit both sides. *)

From stdpp Require Import gmap.
From S2P Require Import Prelude RustStr Json SqlQuery Op IpcProtocol McpGates McpTools McpModels MailParser ImapWindow DbCore DbMail DbMcp Search Attachments AttachmentFiles Auth Smtp Secrets OAuth Reconciler ReconcilerProps Worker Manager Dispatcher DispatcherProps Daemon DaemonOps DaemonRun DaemonProps DaemonSend DaemonTrial System TuiIpc TuiMailbox TuiForward TuiOutcomes.
#[local] Open Scope bool_scope.

Section terminal.
Context {S : Type} {SS : SecretStore S}.
Context {TP : TextParsers} {JC : JsonCodec} {RC : RowCodec} {ET : ErrorTexts}
        {FT : Fts} {SL : SqlLike} {SE : SqlEngine} {UC : UnicodeCase}.
Context {DC : DraftCodec} {ST : ServiceTexts} {IO : HostIo} {UF : UserFiles}
        {MP : MessageParser} {IS : ImapSync} {IA : ImapAuth} {GO : GoogleOAuth} {SM : SmtpSubmitter}.
Context (addrs_text : list str -> str) (base64 : list N -> str) (root : str) (fuel : nat).

(** The server's reply frame to a request. *)
Definition reply_frame (r : result RpcError value) : Response :=
  match r with Ok data => response_ok 1 data | Err e => response_err 1 e end.
Definition local_client : RpcClient (Daemon S) :=
  {| client_request op args d := let '(r, d') := serve addrs_text base64 root fuel op args d in (Ok (reply_frame r), d') |}.
#[local] Existing Instance local_client.

(** The answer of a handler arrives: its data, decoded, or its error with code
    and message. *)
Lemma exchange_serves {A} `{FromValue A} o args (d : Daemon S) :
  exchange (op_as_str o) args d =
  let '(r, d') := daemon_dispatch addrs_text base64 root fuel o args d in
  (match r with
   | Ok data => map_err (MDecode (op_as_str o)) (from_value data)
   | Err e => Err (MServer (op_as_str o) (err_code e) (err_message e))
   end, d').
Proof.
  unfold exchange, mailbox_request, mbind_M, mmap_err, mlift. cbn [client_request local_client]. unfold serve.
  rewrite (proj2 (op_from_str_iff _ _) eq_refl). by destruct (daemon_dispatch _ _ _ _ _ _ _) as [[] d'].
Qed.

(** ** Decisions *)

Lemma tui_not_allowed : actor_is_allowed (lit "tui") = false.
Proof. reflexivity. Qed.

(** The fields of the terminal's arguments. *)
Lemma decide_id id state : vget (approval_decide_args id state) (lit "id") = Some (VString (uuid_to_string id)).
Proof. unfold approval_decide_args, id_value. by json_eval. Qed.
Lemma decide_state id state : vget (approval_decide_args id state) (lit "state") = Some (VString (approval_state_as_str state)).
Proof. unfold approval_decide_args, id_value. by json_eval. Qed.
Lemma decide_who id state : vget (approval_decide_args id state) (lit "decided_by") = Some (VString (lit "tui")).
Proof. unfold approval_decide_args, id_value. by json_eval. Qed.

Lemma decision_refused id state w :
  state <> Pending ->
  op_mcp_approval_decide (approval_decide_args id state) w = (Err (rpc_bad_args (lit "invalid 'decided_by'")), w).
Proof.
  intros Hs. unfold op_mcp_approval_decide. cbv zeta.
  assert (Hi : parse_uuid (approval_decide_args id state) (lit "id") = Ok id).
  { unfold parse_uuid, parse_id. rewrite decide_id. cbn. by rewrite uuid_round_trip. }
  assert (Ht : (s ← parse_str (approval_decide_args id state) (lit "state"); parse_approval_state s) = Ok state).
  { unfold parse_str. rewrite decide_state. by destruct state. }
  unfold mbind_M at 1, mlift at 1. rewrite Hi. unfold mbind_M at 1, mlift at 1. rewrite Ht.
  rewrite bool_decide_false by done. unfold decided_by_arg. by rewrite decide_who.
Qed.

(** C37. The terminal signs its decisions as "tui", which is not one of the names the
    daemon lets decide: every decision taken in the terminal is refused, and
    nothing changes, the audit log included. *)
Theorem terminal_cannot_decide {FD : FromValue ApprovalDecisionResult} id state (d : Daemon S) :
  state <> Pending ->
  client_decide_approval id state d =
  (Err (MServer (lit "mcp.approval.decide") (lit "bad_args") (lit "invalid 'decided_by'")), d).
Proof.
  intros Hs. unfold client_decide_approval, mbind_M. rewrite (exchange_serves (A := ApprovalDecisionResult) McpApprovalDecide).
  assert (E : daemon_dispatch addrs_text base64 root fuel McpApprovalDecide (approval_decide_args id state) d
              = (Err (rpc_bad_args (lit "invalid 'decided_by'")), d)); [|by rewrite E].
  unfold daemon_dispatch. cbn [dispatch]. unfold on_world. rewrite decision_refused by done. by destruct d.
Qed.

(** ** Removals *)

Lemma audit_messages actor action target details w r w' :
  audit_actor actor action target details w = (r, w') -> messages (db w') = messages (db w).
Proof.
  unfold audit_actor. destruct (audit_record _ w) as [r1 w1] eqn:E. intros [= _ <-].
  apply audit_record_effect in E as [_ [->|[now ->]]]; done.
Qed.

(** Moving a message into the folder of a role, as archiving and deleting do. *)
Definition moved (id folder : Id) (l : list Message) : list Message :=
  map (fun m => if (msg_id m =? id)%N then with_cols (set_nm_folder folder) m else m) l.

Definition into_role (actor action : str) (id : Id) (role : FolderRole) : M World RpcError value :=
  let! message := require_message id in
  let! target := require_role_folder (nm_account_id (msg_cols message)) role in
  if (msg_folder_id message =? fld_id target)%N then mret_M (moved_reply (fld_id target))
  else
    rpc (lit "messages::set_folder") (messages_set_folder id (fld_id target));!
    audit_actor actor action (Some (uuid_to_string id)) (json [(lit "folder_id", id_json (fld_id target))]);!
    publish MailUpdated (moved_event id (fld_id target) (msg_folder_id message));!
    mret_M (moved_reply (fld_id target)).

Lemma require_message_Ok id w m w' :
  require_message id w = (Ok m, w') -> m ∈ messages (db w) /\ msg_id m = id /\ db w' = db w.
Proof.
  intros (row & w1 & (Hr & ->)%mmap_err_Ok%query_Ok & Hm)%mbind_M_inv_Ok. unfold mlift in Hm. injection Hm as Hm <-.
  destruct row as [x|]; cbn in Hm; [|done]. injection Hm as ->. symmetry in Hr. apply find_some in Hr as [Hi He].
  apply N.eqb_eq in He. split_and!; [by apply list_elem_of_In|done|by destruct w].
Qed.
Lemma require_role_Ok account role w f w' :
  require_role_folder account role w = (Ok f, w') ->
  f ∈ folders (db w) /\ fld_account_id f = account /\ fld_role f = role /\ db w' = db w.
Proof.
  intros (rows & w1 & (Hr & ->)%mmap_err_Ok%query_Ok & Hm)%mbind_M_inv_Ok. unfold mlift in Hm. injection Hm as Hm <-.
  destruct (List.find _ rows) as [x|] eqn:E; cbn in Hm; [|done]. injection Hm as ->. apply find_some in E as [Hi He].
  apply bool_decide_eq_true in He. subst rows. apply list_elem_of_In in Hi. rewrite order_by_perm in Hi.
  apply list_elem_of_In, filter_In in Hi as [Hi Ha]. apply N.eqb_eq in Ha.
  split_and!; [by apply list_elem_of_In|done|done|by destruct w].
Qed.

Lemma into_role_Ok actor action id role w v w' :
  into_role actor action id role w = (Ok v, w') ->
  exists m f, m ∈ messages (db w) /\ msg_id m = id /\ f ∈ folders (db w) /\ fld_account_id f = nm_account_id (msg_cols m) /\
    fld_role f = role /\
    (msg_folder_id m = fld_id f /\ messages (db w') = messages (db w) \/ messages (db w') = moved id (fld_id f) (messages (db w))).
Proof.
  intros (m & w1 & (Hm & Hi & E1)%require_message_Ok & (f & w2 & (Hf & Ha & Hr & E2)%require_role_Ok & H)%mbind_M_inv_Ok)%mbind_M_inv_Ok.
  exists m, f. rewrite E1 in Hf, E2. split_and!; try done.
  destruct (N.eqb_spec (msg_folder_id m) (fld_id f)); [left; injection H as _ <-; by rewrite E2|right].
  apply mbind_M_inv_Ok in H as (b & w3 & Hs & H). apply mmap_err_Ok, statement_Ok in Hs as (d3 & Hs & ->).
  apply mbind_M_inv_Ok in H as (? & w4 & H4%audit_messages & H). apply mbind_M_inv_Ok in H as (? & w5 & [= _ <-] & [= _ <-]).
  cbn [db]. rewrite H4. cbn [db with_db]. rewrite E2 in Hs. destruct (List.find _ _) as [y|] eqn:Ex.
  - destruct (existsb _ _); [done|]. destruct (negb _); [done|]. by injection Hs as _ <-.
  - eapply find_none in Ex; [|by apply list_elem_of_In]. cbn in Ex. by rewrite Hi, N.eqb_refl in Ex.
Qed.

(** The fields of the terminal's request to remove a message. *)
Lemma remove_id (id : Id) : parse_id (json [(lit "id", id_value id)]) (lit "id") = Ok id.
Proof. unfold parse_id, id_value. json_eval. cbn. by rewrite uuid_round_trip. Qed.
Lemma remove_actor (id : Id) : actor_from_args (json [(lit "id", id_value id)]) = lit "user".
Proof. unfold actor_from_args, id_value. by json_eval. Qed.

Lemma archive_is_move id w :
  op_message_archive (json [(lit "id", id_value id)]) w = into_role (lit "user") (lit "message.archive") id RoleArchive w.
Proof. unfold op_message_archive. cbv zeta. unfold mbind_M at 1, mlift at 1. by rewrite remove_id, remove_actor. Qed.
Lemma delete_is_move id w :
  op_message_delete (json [(lit "id", id_value id)]) w = into_role (lit "user") (lit "message.delete") id RoleTrash w.
Proof. unfold op_message_delete. cbv zeta. unfold mbind_M at 1, mlift at 1. by rewrite remove_id, remove_actor. Qed.

Lemma exchange_on_world {A} `{FromValue A} o args (m : M World RpcError value) (d : Daemon S) (a : A) d' :
  dispatch addrs_text base64 o args = Some m -> exchange (op_as_str o) args d = (Ok a, d') ->
  exists v, m (dm_world d) = (Ok v, dm_world d').
Proof.
  intros Hm. rewrite exchange_serves. unfold daemon_dispatch, on_world. rewrite Hm.
  destruct (m (dm_world d)) as [[v|e] w]; intros [= _ <-]. by exists v.
Qed.

(** C35. A removal the daemon confirmed to the terminal has been made: after
    archiving, the message lies in the archive folder of its account, after
    deleting in the trash folder, and no other message changed. *)
Theorem confirmed_removal_moves_message (delete : bool) id (d d' : Daemon S) :
  (if delete then client_delete_message id d else client_archive_message id d) = (Ok tt, d') ->
  exists m f, m ∈ messages (db (dm_world d)) /\ msg_id m = id /\ f ∈ folders (db (dm_world d)) /\
    fld_account_id f = nm_account_id (msg_cols m) /\ fld_role f = (if delete then RoleTrash else RoleArchive) /\
    (msg_folder_id m = fld_id f /\ messages (db (dm_world d')) = messages (db (dm_world d)) \/
     messages (db (dm_world d')) = moved id (fld_id f) (messages (db (dm_world d)))).
Proof.
  destruct delete; intros (v & d1 & H & [= <-])%mbind_M_inv_Ok.
  - apply (exchange_on_world (A := value) MessageDelete _ _ _ _ _ eq_refl) in H as [x Hx].
    rewrite delete_is_move in Hx. by eapply into_role_Ok.
  - apply (exchange_on_world (A := value) MessageArchive _ _ _ _ _ eq_refl) in H as [x Hx].
    rewrite archive_is_move in Hx. by eapply into_role_Ok.
Qed.

(** ** Forwards *)

Lemma parse_ids_sent key ids : forall index, parse_ids key index (map id_value ids) = Ok ids.
Proof.
  induction ids as [|id ids IH]; intros index; cbn [map parse_ids]; [done|]. unfold id_value at 1. cbn.
  rewrite uuid_round_trip. cbn. by rewrite IH.
Qed.
Lemma batch_accepted message_id ids :
  1 <= List.length ids <= MAX_FORWARD_ATTACHMENT_BATCH ->
  parse_id_array (forward_batch_args message_id ids) (lit "attachment_ids") MAX_FORWARD_ATTACHMENT_BATCH = Ok ids.
Proof.
  intros Hl. unfold parse_id_array, forward_batch_args, id_value at 1. json_eval. cbn [as_array mbind result_bind ok_or].
  destruct ids as [|id ids]; [cbn in Hl; lia|]. cbn [map]. rewrite <- (map_cons id_value), length_map.
  rewrite (proj2 (Nat.ltb_ge _ _)) by lia. apply parse_ids_sent.
Qed.

(** C38. The attachments of a forwarded message are fetched in batches that cover
    all of them, each once and in the message's order.  Unless it is a single
    attachment, the base64 text of a batch, with 512 bytes for the fields of each
    attachment and 64 KiB to spare, fits into one frame of the protocol; and the
    daemon reads exactly the identifiers that were sent, its limit on their
    number included. *)
Theorem forward_batches_fit_frames metas :
  exists groups,
    concat groups = metas /\ Forall group_fits groups /\
    forward_attachment_batches metas = map (map fm_attachment_id) groups /\
    forall message_id ids, ids ∈ forward_attachment_batches metas ->
      parse_id_array (forward_batch_args message_id ids) (lit "attachment_ids") MAX_FORWARD_ATTACHMENT_BATCH = Ok ids.
Proof.
  destruct (batches_fit metas) as (groups & Hc & Hf & Hb). exists groups. split_and!; [done|done|done|].
  intros message_id ids Hi. rewrite Hb in Hi. apply list_elem_of_fmap in Hi as (g & -> & Hg).
  rewrite Forall_forall in Hf. destruct (Hf g Hg) as [Hl _]. apply batch_accepted. by rewrite length_map.
Qed.
End terminal.

(** ** A small mailbox *)

#[local] Existing Instances memory_store plain_parsers trial_lettre lettre_submitter trial_codec trial_drafts
  trial_texts trial_files trial_auth refusing_endpoint http_client silent_rows silent_errors fts_all
  like_sqlite one_row_engine ascii_case plain_io example_parser example_server.
Definition trial_client : RpcClient (Daemon (gmap N str)) := local_client (fun _ => []) (fun _ => []) (lit "/att") 3.
#[local] Existing Instance trial_client.

Definition trial_message : Message :=
  mkMessage 3 (mkNewMessage 1 6 None 1 None None None (lit "bo@x") [] [] [] None None None None None 0 [] 0 None) 0.
Definition trial_folder (id : Id) (name : str) (role : FolderRole) : Folder :=
  mkFolder id 1 name (lit "/") role None None None true 0.
Definition small_mailbox : Daemon (gmap N str) :=
  daemon_of (mkDb [mail_account AuthPassword] [trial_folder 6 (lit "INBOX") RoleInbox; trial_folder 7 (lit "Trash") RoleTrash]
               [] [trial_message] [] [] [pending_approval 3 (lit "send") VNull (lit "send") 0] [] [] []) ∅.
Definition after_delete : Daemon (gmap N str) := (client_delete_message 3 small_mailbox).2.

Lemma confirmed_removal_moves_message_witness :
  map msg_folder_id (messages (db (dm_world after_delete))) = [7%N] /\
  exists m f, m ∈ [trial_message] /\ msg_id m = 3%N /\ fld_role f = RoleTrash.
Proof.
  split; [vm_compute; reflexivity|].
  destruct (confirmed_removal_moves_message (fun _ => []) (fun _ => []) (lit "/att") 3 true 3 small_mailbox after_delete)
    as (m & f & Hm & Hi & _ & _ & Hr & _).
  - vm_compute. reflexivity.
  - exists m, f. split; [exact Hm|]. split; [exact Hi|exact Hr].
Defined.

(** The decision changes nothing when the terminal signs it, and is taken when
    nobody does. *)
Definition read_decision : FromValue ApprovalDecisionResult := fun v =>
  ok_or (mkDecisionResult <$> (vget v (lit "decided") ≫= as_bool)) (lit "missing field").
Lemma terminal_cannot_decide_witness :
  (@client_decide_approval _ _ trial_client read_decision 3 Allowed small_mailbox).2 = small_mailbox /\
  map approval_state (mcp_approvals (db (dm_world small_mailbox))) = [Pending].
Proof.
  split; [|vm_compute; reflexivity].
  refine (f_equal snd (terminal_cannot_decide (fun _ => []) (fun _ => []) (lit "/att") 3 (FD := read_decision) 3 Allowed
    small_mailbox _)).
  discriminate.
Defined.
Lemma unsigned_decision_is_taken :
  map approval_state (mcp_approvals (db (dm_world (trial_dispatch McpApprovalDecide
    (json [(lit "id", id_value 3); (lit "state", VString (lit "allowed"))]) small_mailbox)))) = [Allowed].
Proof. vm_compute. reflexivity. Qed.
