(* ===== verification/TuiRun.v ===== *)
(** * The terminal interface at the keyboard

    One account, an inbox with two conversations, first without a daemon and then
    with one that stores drafts and sends them but refuses everything else, and
    keys pressed in turn.  The theorems about the interface, its requests and
    their outcomes are applied there, and two sequences of keys show how an
    unsaved message is lost without the question that should come before. *)

From stdpp Require Import gmap relations.
From S2P Require Import Prelude RustStr Json MailParser DbCore McpTools McpModels McpBridge IpcProtocol Wire Attachments Config TuiText TuiComposer TuiEditing TuiItems TuiApprovals TuiApp TuiCommand TuiConversations TuiInvariant TuiSteps TuiCache TuiEvents TuiModes TuiIpc TuiMailbox TuiForward TuiKeys TuiLoop TuiSession TuiRequests TuiOutcomes.
#[local] Open Scope nat_scope.
#[local] Open Scope bool_scope.

(** ** A small mailbox *)

(** A file system with nothing on it. *)
Definition no_files : ComposeFiles.
Proof.
  refine {| file_metadata _ := Err (true, lit "not found");
            content_type_for_path _ := lit "application/octet-stream" |}.
  done.
Defined.

Definition trial_row (id thread : Id) (date : str) : MessageItem :=
  mkMessageItem id (Some thread) (lit "subject") (lit "ann") date (lit "text") [].
Definition trial_rows : list MessageItem :=
  [trial_row 1 7 (lit "2024-01-01 10:00"); trial_row 2 8 (lit "2024-01-02 10:00"); trial_row 3 7 (lit "2024-01-03 10:00")].
Definition trial_accounts : list AccountItem := [mkAccountItem 5 (lit "work") (lit "ann@example.org") (lit "idle")].
Definition trial_folders : list FolderItem := [mkFolderItem KindMail 6 (lit "INBOX") (lit "inbox")].

Definition trial_inbox : AppState :=
  apply_folder_messages trial_rows 0 (apply_folders trial_folders (apply_accounts trial_accounts default_app)).

#[local] Notation step := (@ui_step ascii_case no_files).
#[local] Notation reachable := (@ui_reachable ascii_case no_files).

Lemma trial_inbox_reachable : reachable trial_inbox.
Proof.
  eapply rtc_l; [apply (step_accounts trial_accounts)|]. eapply rtc_l; [apply (step_folders trial_folders)|].
  apply rtc_once, step_folder_messages.
Qed.
Lemma trial_inbox_ok : ui_ok trial_inbox.
Proof. exact (steps_ok _ _ default_ok trial_inbox_reachable). Qed.

(** The inbox is one of the states reached, and shows a message. *)
Lemma reachable_interface_consistent_witness :
  ui_ok trial_inbox /\ selected_folder_name trial_inbox = Some (lit "INBOX") /\ selected_message_id trial_inbox = Some 3%N.
Proof.
  split; [exact (@reachable_interface_consistent ascii_case no_files trial_inbox trial_inbox_reachable)|].
  split; vm_compute; reflexivity.
Defined.

(** Without a message open, three panes take part. *)
Lemma tab_visits_shown_panes_witness :
  s_active (cycle_active_pane trial_inbox) = PFolders /\
  s_active (cycle_active_pane_reverse trial_inbox) = PConversations /\
  cycle_active_pane (cycle_active_pane_reverse trial_inbox) = trial_inbox.
Proof.
  split; [vm_compute; reflexivity|]. split; [vm_compute; reflexivity|].
  exact (proj1 (proj2 (tab_visits_shown_panes trial_inbox eq_refl))).
Defined.

(** A folder left and entered again within the minute, after visits to five
    others. *)
Definition trial_snapshot : FolderSnapshot := mkFolderSnapshot trial_rows (Some 7%N) (Some 3%N).
Definition trial_visits : list cache_op :=
  map (fun f => OpStore 5 f (mkFolderSnapshot [] None None) (ui_seconds 1)) [10; 11; 12; 13; 14]%N.
Lemma folder_cache_refines_map_witness :
  let c := run_ops trial_visits (cache_store 5 6 trial_snapshot 0 default_cache) in
  (cache_lookup 5 6 (ui_seconds 60) c).1 = Some trial_snapshot /\
  (cache_lookup 5 6 (ui_seconds 61) c).1 = None.
Proof.
  split; [|vm_compute; reflexivity].
  apply (proj2 (folder_cache_refines_map [] trial_visits 5 6 trial_snapshot 0 (ui_seconds 60))).
  - repeat constructor; discriminate.
  - vm_compute. lia.
  - vm_compute. discriminate.
Defined.

(** New mail in the inbox: a toast, and the inbox is fetched again. *)
Definition trial_event : Event :=
  mkEvent 1 (lit "mail.new")
    (VObject [(lit "account_id", VString [5%N]); (lit "folder_id", VString [6%N])]).
Lemma events_keep_the_users_place_witness :
  let s' := @on_daemon_event plain_parsers no_codec trial_event 10 0 trial_inbox in
  touches_notices trial_inbox s' /\ map to_text (s_toasts s') = [lit "New mail in INBOX (work)"] /\
  is_Some (folder_cache_lookup 5 6 20 trial_inbox).1 /\ (folder_cache_lookup 5 6 20 s').1 = None.
Proof.
  destruct (@events_keep_the_users_place plain_parsers no_codec ascii_case no_files trial_event 10 0 trial_inbox)
    as (Ht & _ & _ & Hc).
  split; [exact Ht|]. split; [vm_compute; reflexivity|]. split; [eexists; vm_compute; reflexivity|].
  apply Hc; [by left|vm_compute; reflexivity|]. intros f E. vm_compute in E. congruence.
Defined.

(** ** A daemon and a machine *)

Definition refused : MailboxError := MServer (lit "op") (lit "E_IO") (lit "offline").
Definition trial_answer A (q : MailboxCall A) : result MailboxError A :=
  match q with
  | QCreateDraft _ => Ok 40%N
  | QUpdateDraft id _ => Ok id
  | QSendDraft _ _ => Ok (lit "<1@example.org>")
  | _ => Err refused
  end.
Definition trial_mailbox : Mailbox unit := {| answer A q w := (trial_answer A q, w) |}.

(** A directory that holds the file [a.txt]. *)
Definition trial_host : Host unit :=
  {| instant_now w := (1%Z, w); utc_now w := (0%Z, w); new_v4 w := (50%N, w); current_dir w := (Ok (lit "/home/ann"), w);
     path_exists p w := (str_eqb p (lit "/home/ann/a.txt"), w); create_dir_all _ w := (Ok tt, w);
     fs_write_file _ _ w := (Ok tt, w); clipboard_copy _ w := (Ok tt, w); xdg_open _ w := (Err (lit "not found"), w);
     temp_dir := lit "/tmp" |}.
Definition trial_client_texts : ClientTexts := {| client_error_text _ := lit "closed" |}.
Definition no_base64 : Base64 := {| base64_decode _ := Err (lit "not decoded here") |}.
#[local] Existing Instances plain_parsers no_codec ascii_case no_files trial_mailbox trial_host trial_client_texts no_base64.

Definition desk (s : AppState) : Ui unit := mkUi s tt [].
Definition key (s : String.string) : KeyEvent := mkKey (KChar (ch s)) false false.
Definition control (s : String.string) : KeyEvent := mkKey (KChar (ch s)) true false.
Definition enter : KeyEvent := mkKey KEnter false false.
Definition typed (s : String.string) : list KeyEvent := map (fun c => mkKey (KChar c) false false) (lit s).
(** The keys in turn; whether the last one ended the program. *)
Definition press (keys : list KeyEvent) (u : Ui unit) : bool * Ui unit := foldl (fun r k => handle_key k r.2) (false, u) keys.

(** ** Sending *)

Definition composing : Ui unit := (press (typed "cbo@example.org") (desk trial_inbox)).2.
Definition message_shown : ComposerState := unwrap_or (composer_new 0) (s_composer (u_app composing)).

(** The message as the new composer and the keys made it. *)
Definition composer_opened : ComposerState := unwrap_or (composer_new 0) (s_composer (u_app (press (typed "c") (desk trial_inbox)).2)).
Lemma message_typed : rtc (edit_step (CF := no_files)) composer_opened message_shown.
Proof.
  assert (H : forall l c, rtc (edit_step (CF := no_files)) c (foldl (fun c k => (run_key (KeyChar k) c).2) c l)).
  { induction l as [|k l IH]; intros c; cbn [foldl]; [reflexivity|]. eapply rtc_l; [|apply IH]. apply edit_operation. constructor. }
  assert (E : message_shown = foldl (fun c k => (run_key (KeyChar k) c).2) composer_opened (lit "bo@example.org"))
    by (vm_compute; reflexivity).
  rewrite E. apply H.
Qed.

(** Ctrl-X stores the new message and sends it. *)
Lemma sent_message_is_the_one_shown_witness :
  sending composer_opened message_shown (requests send_composer composing) None /\ c_to message_shown = lit "bo@example.org" /\
  List.length (requests send_composer composing) = 2.
Proof.
  destruct (sent_message_is_the_one_shown composer_opened message_shown composing) as [Hs _].
  - exact message_typed.
  - vm_compute. reflexivity.
  - split; [|split; vm_compute; reflexivity].
    assert (E : s_composer (u_app (send_composer composing).2) = None) by (vm_compute; reflexivity). rewrite E in Hs. exact Hs.
Defined.

(** ** A refused removal *)

Lemma refused_removal_changes_nothing_witness :
  let u' := (run_message_remove_for RemoveDelete 3 (desk trial_inbox)).2 in
  selected_message_id (remove_message_locally 3 1 trial_inbox).2 = Some 1%N /\
  selected_message_id (u_app u') = Some 3%N /\ s_error (u_app u') = Some (lit "op failed: E_IO: offline").
Proof.
  cbv zeta. split; [vm_compute; reflexivity|].
  destruct (refused_removal_changes_nothing RemoveDelete 3 refused (desk trial_inbox)) as (_ & (_ & _ & _ & _ & Hs) & He & _).
  - exact trial_inbox_ok.
  - vm_compute. reflexivity.
  - vm_compute. reflexivity.
  - split; [rewrite Hs; vm_compute; reflexivity|]. rewrite He. vm_compute. reflexivity.
Defined.

(** ** Keys and requests *)

(** Help is up: y, which would confirm a deletion, asks for nothing. *)
Definition help_over_delete : Ui unit := (press (typed "?") (desk trial_inbox)).2.
Lemma requests_need_their_key_witness :
  s_help_open (u_app help_over_delete) = true /\ requests (handle_key (key "y")) help_over_delete = [].
Proof.
  split; [vm_compute; reflexivity|].
  apply (proj2 (requests_need_their_key (key "y") help_over_delete)). left. vm_compute. reflexivity.
Defined.

(** ** Exports *)

Lemma export_stays_in_current_dir_witness :
  exists dir leaf, current_dir tt = (Ok dir, tt) /\ plain_component leaf /\
    components (lit "/home/ann/a (1).txt") = components dir ++ [leaf].
Proof.
  destruct (export_stays_in_current_dir (lit "../../a.txt") (desk trial_inbox) (lit "/home/ann/a (1).txt"))
    as (dir & leaf & Hd & Hl & Hc & _).
  - vm_compute. reflexivity.
  - exists dir, leaf. injection Hd as <-. split; [vm_compute; reflexivity|]. split; [exact Hl|exact Hc].
Defined.

(** ** Unsaved messages lost *)

(** The delete command from the composer's command bar, answered with n, leaves
    normal mode with the changed message still open; the next q ends the program,
    and the message was never stored. *)
Lemma delete_command_leaves_composer_behind :
  let u := (press (typed "cbo@example.org:delete" ++ [enter; key "n"]) (desk trial_inbox)).2 in
  s_mode (u_app u) = MNormal /\ composer_is_dirty (u_app u) = true /\
  (handle_key (key "q") u).1 = true /\ (handle_key (key "q") u).2 = u /\ Forall reads (u_sent u).
Proof.
  cbv zeta. split; [vm_compute; reflexivity|]. split; [vm_compute; reflexivity|]. split; [vm_compute; reflexivity|].
  split; [vm_compute; reflexivity|]. vm_compute. repeat constructor.
Qed.

(** The compose command in a composer with changes replaces it without asking. *)
Lemma compose_command_replaces_message :
  let u := (press (typed "cbo@example.org:compose" ++ [enter]) (desk trial_inbox)).2 in
  composer_needs_discard_confirmation (u_app composing) = true /\
  (c_to <$> s_composer (u_app u)) = Some [] /\ s_mode (u_app u) = MCompose /\ Forall reads (u_sent u).
Proof.
  cbv zeta. split; [vm_compute; reflexivity|]. split; [vm_compute; reflexivity|]. split; [vm_compute; reflexivity|].
  vm_compute. repeat constructor.
Qed.

(** A draft with an HTML body, opened and stored again, has none. *)
Lemma reopened_draft_loses_html id draft focus :
  cd_html_body (composer_draft_of (from_existing_draft id draft focus)) = None.
Proof. reflexivity. Qed.
