(* ===== verification/TuiHelp.v ===== *)
(** * The help catalogue (src/tui/help.rs)

    The sections and rows of the help overlay, as the table has them: the keys,
    what they do and the pane or mode they apply in.  The command names of the
    rows are those the parser of [TuiCommand] knows, in both directions. *)

From S2P Require Import Prelude RustStr Json MailParser Utf8 Config TuiText TuiCommand.
#[local] Open Scope nat_scope.
#[local] Open Scope bool_scope.

Inductive Applicability : Type :=
| AGlobal | AConversations | AConversationsDrafts | ADetails | AAttachments | AApprovals | AComposer | ACommandBar
| AQuickSearch.
#[global] Instance Applicability_eq_dec : EqDecision Applicability.
Proof. solve_decision. Defined.

Record HelpEntry : Type := mkHelpEntry { he_keys : str; he_summary : str; he_applies_to : Applicability }.
#[global] Instance HelpEntry_eq_dec : EqDecision HelpEntry.
Proof. solve_decision. Defined.
Record HelpSection : Type := mkHelpSection { hs_title : str; hs_entries : list HelpEntry }.

Definition help_panes : HelpSection :=
  mkHelpSection (ulit "Panes & navigation")
   [mkHelpEntry (ulit "Tab")
      (ulit "Cycle focus to the next pane") AGlobal;
    mkHelpEntry (ulit "Shift-Tab / ←")
      (ulit "Cycle focus to the previous pane (Left is the same)") AGlobal;
    mkHelpEntry (ulit "→")
      (ulit "Cycle focus forward (same as Tab)") AGlobal;
    mkHelpEntry (ulit "Ctrl-P")
      (ulit "Open the virtual Approvals folder (alias :approvals, :goto Approvals)") AGlobal;
    mkHelpEntry (ulit "q")
      (ulit "Quit postblox (top-level normal mode only)") AGlobal;
    mkHelpEntry (ulit "r")
      (ulit "Refresh the focused pane (accounts/folders/conversations/details/attachments/search)") AGlobal;
    mkHelpEntry (ulit "? / :help")
      (ulit "Toggle this help overlay (Esc also closes it)") AGlobal].

Definition help_conversations : HelpSection :=
  mkHelpSection (ulit "Conversations (mail folders)")
   [mkHelpEntry (ulit "↑ / ↓ or j / k")
      (ulit "Move selection up / down in the focused list") AConversations;
    mkHelpEntry (ulit "Enter")
      (ulit "Open the focused thread (refresh detail / focus preview)") AConversations;
    mkHelpEntry (ulit "c / :compose")
      (ulit "Compose a new message in the active account") AConversations;
    mkHelpEntry (ulit "R / :reply")
      (ulit "Reply to the selected message") AConversations;
    mkHelpEntry (ulit "A / :reply-all")
      (ulit "Reply-all to the selected message") AConversations;
    mkHelpEntry (ulit "F / :forward")
      (ulit "Forward the selected message (carries attachments)") AConversations;
    mkHelpEntry (ulit "u / :seen / :unseen")
      (ulit "Toggle the Seen flag on the selected message") AConversations;
    mkHelpEntry (ulit "f / * / :flag / :unflag")
      (ulit "Toggle the Flagged flag on the selected message") AConversations;
    mkHelpEntry (ulit "a")
      (ulit "Toggle the attachments pane for the selected message") AConversations;
    mkHelpEntry (ulit "d / :delete")
      (ulit "Open delete-confirm modal (y/n) for the selected message") AConversations;
    mkHelpEntry (ulit "e / :archive")
      (ulit "Archive the selected message") AConversations;
    mkHelpEntry (ulit "m / :move <folder>")
      (ulit "Open command bar pre-filled with `move `") AConversations].

Definition help_drafts : HelpSection :=
  mkHelpSection (ulit "Conversations (drafts folder)")
   [mkHelpEntry (ulit "Enter / o")
      (ulit "Open the highlighted draft in the composer") AConversationsDrafts;
    mkHelpEntry (ulit "d")
      (ulit "Open delete-confirm modal (y/n) for the highlighted draft") AConversationsDrafts].

Definition help_details : HelpSection :=
  mkHelpSection (ulit "Details / conversation stack")
   [mkHelpEntry (ulit "j / k")
      (ulit "Step to next / previous message in the stack, then scroll text") ADetails;
    mkHelpEntry (ulit "o")
      (ulit "Toggle expansion of the focused message") ADetails;
    mkHelpEntry (ulit "O")
      (ulit "Expand every message in the conversation stack") ADetails;
    mkHelpEntry (ulit "a")
      (ulit "Toggle the attachments pane for the focused message") ADetails;
    mkHelpEntry (ulit "d")
      (ulit "Open delete-confirm modal (y/n) for the focused message") ADetails;
    mkHelpEntry (ulit "e")
      (ulit "Archive the focused message") ADetails;
    mkHelpEntry (ulit "m")
      (ulit "Open command bar pre-filled with `move `") ADetails;
    mkHelpEntry (ulit "PgUp / PgDn")
      (ulit "Page the detail / preview / composer body viewport") ADetails;
    mkHelpEntry (ulit "v")
      (ulit "Toggle line-select in detail / preview / composer body") ADetails;
    mkHelpEntry (ulit "y")
      (ulit "Copy the active selection (preview / detail focus)") ADetails;
    mkHelpEntry (ulit "Esc")
      (ulit "Clear detail selection (when one is active)") ADetails].

Definition help_attachments : HelpSection :=
  mkHelpSection (ulit "Attachments")
   [mkHelpEntry (ulit "Enter")
      (ulit "Focus the preview pane (j/k scrolls, v selects, y copies)") AAttachments;
    mkHelpEntry (ulit "o")
      (ulit "Open the selected attachment with xdg-open (Linux, y/n confirm)") AAttachments;
    mkHelpEntry (ulit "a")
      (ulit "Close the attachments pane (toggle back to Conversations)") AAttachments;
    mkHelpEntry (ulit "e")
      (ulit "Export the selected attachment to the working directory") AAttachments].

Definition help_approvals : HelpSection :=
  mkHelpSection (ulit "Approvals")
   [mkHelpEntry (ulit "Ctrl-P / :approvals")
      (ulit "Open the virtual Approvals folder (alias :goto Approvals)") AApprovals;
    mkHelpEntry (ulit "a / :approve")
      (ulit "Approve the highlighted pending approval") AApprovals;
    mkHelpEntry (ulit "d / :deny")
      (ulit "Deny the highlighted pending approval") AApprovals].

Definition help_search_sync : HelpSection :=
  mkHelpSection (ulit "Search & sync")
   [mkHelpEntry (ulit "/")
      (ulit "Quick-search the active account (Enter submits, Esc cancels)") AQuickSearch;
    mkHelpEntry (ulit ":search [--account <name>] <query>")
      (ulit "Run an FTS5 search (optionally scoped to a single account)") ACommandBar;
    mkHelpEntry (ulit "s / :sync")
      (ulit "Sync the active folder (one-shot reconcile)") AGlobal;
    mkHelpEntry (ulit ":start-sync / :stop-sync")
      (ulit "Start or stop the IMAP IDLE worker for the active folder") AGlobal;
    mkHelpEntry (ulit "x / X")
      (ulit "Dismiss newest toast / clear all toasts") AGlobal].

Definition help_composer : HelpSection :=
  mkHelpSection (ulit "Composer")
   [mkHelpEntry (ulit "Tab / Shift-Tab")
      (ulit "Next / previous composer field") AComposer;
    mkHelpEntry (ulit "Ctrl-A")
      (ulit "Prompt for a file path to attach (Esc cancels the prompt)") AComposer;
    mkHelpEntry (ulit "Ctrl-K")
      (ulit "Remove the highlighted attachment") AComposer;
    mkHelpEntry (ulit "Ctrl-S / :w")
      (ulit "Save draft (:w is a vim-style alias from non-body fields)") AComposer;
    mkHelpEntry (ulit "Ctrl-X")
      (ulit "Send draft") AComposer;
    mkHelpEntry (ulit "Esc")
      (ulit "Cancel composer (confirms y/n when the draft is dirty)") AComposer].

Definition help_theme : HelpSection :=
  mkHelpSection (ulit "Theme")
   [mkHelpEntry (ulit "t / Ctrl-T")
      (ulit "Rotate light → dark → high-contrast") AGlobal;
    mkHelpEntry (ulit ":theme next | light | dark | high-contrast")
      (ulit "Switch directly to a theme by name (`hc` is an alias for high-contrast)") AGlobal].

Definition help_command_bar : HelpSection :=
  mkHelpSection (ulit "Command bar (`:`)")
   [mkHelpEntry (ulit ":")
      (ulit "Open the command bar (also reachable from non-body composer fields)") ACommandBar;
    mkHelpEntry (ulit "Tab")
      (ulit "Complete the longest unambiguous command prefix") ACommandBar;
    mkHelpEntry (ulit "Enter")
      (ulit "Run the command (empty input is a silent no-op)") ACommandBar;
    mkHelpEntry (ulit "Esc")
      (ulit "Cancel and return to Normal (or Compose if entered from there)") ACommandBar;
    mkHelpEntry (ulit ":account <name|email>")
      (ulit "Switch the active account by display name or email") ACommandBar;
    mkHelpEntry (ulit ":goto <folder>")
      (ulit "Switch the active folder by name (case-insensitive fallback; `:goto Approvals` aliases :approvals)") ACommandBar;
    mkHelpEntry (ulit ":help")
      (ulit "Open this help overlay") ACommandBar].

Definition HELP_ROWS : list HelpSection :=
  [help_panes; help_conversations; help_drafts; help_details; help_attachments; help_approvals; help_search_sync; help_composer; help_theme; help_command_bar].
Definition help_entries : list HelpEntry := flat_map hs_entries HELP_ROWS.

(** ** Agreement with the command parser *)

(** Whether a text contains another. *)
Fixpoint contains (s sub : str) : bool :=
  starts_with s sub || match s with [] => false | _ :: r => contains r sub end.

(** The commands a row names: the words of its keys that start with a colon. *)
Definition command_char (c : char) : bool := is_ascii_alphanumeric c || (c =? 45)%N || (c =? 95)%N.
Definition named_commands (e : HelpEntry) : list str :=
  List.filter (fun w => negb (is_empty w))
    (omap (fun w => match w with
                    | c :: r => if (c =? 58)%N then Some (take_while command_char r) else None
                    | [] => None
                    end) (split_whitespace (he_keys e))).

Definition documents (e : HelpEntry) (name : str) : bool := contains (he_keys e) (58%N :: name).

Lemma documented_check :
  forallb (fun name => existsb (fun e => documents e name) help_entries) COMMAND_NAMES = true.
Proof. by vm_compute. Qed.
Lemma named_check :
  forallb (fun e => forallb (fun name => existsb (str_eqb name) COMMAND_NAMES) (named_commands e)) help_entries = true.
Proof. by vm_compute. Qed.

(** Every command of the parser is on some row, and every command a row names is
    one the parser knows. *)
Lemma help_and_parser_agree :
  (forall name, In name COMMAND_NAMES -> exists e, In e help_entries /\ documents e name = true) /\
  (forall e name, In e help_entries -> In name (named_commands e) -> In name COMMAND_NAMES).
Proof.
  split.
  - intros name Hn. pose proof (proj1 (forallb_forall _ _) documented_check name Hn) as H.
    by apply existsb_exists in H.
  - intros e name He Hn. pose proof (proj1 (forallb_forall _ _) named_check e He) as H.
    pose proof (proj1 (forallb_forall _ _) H name Hn) as H'. apply existsb_exists in H' as (x & Hx & ->%str_eqb_eq). done.
Qed.

(** The letters that mean different things in different panes. *)
Definition overloaded : list str := [lit "o"; lit "a"; lit "d"; lit "e"; lit "m"].
Definition chords (e : HelpEntry) : list str :=
  omap (fun part => head (split_whitespace part)) (split_char 47%N (he_keys e)).
Definition uses_overloaded (e : HelpEntry) : bool :=
  existsb (fun c => existsb (str_eqb c) overloaded) (chords e).

(** They are listed under their panes, never as global. *)
Lemma overloaded_letters_have_panes :
  forallb (fun e => negb (uses_overloaded e) || negb (bool_decide (he_applies_to e = AGlobal))) help_entries = true /\
  existsb uses_overloaded help_entries = true.
Proof. by vm_compute. Qed.

(** No row is there twice and no section is empty. *)
Lemma help_rows_distinct : NoDup help_entries.
Proof. apply (bool_decide_unpack _). by vm_compute. Qed.
Lemma help_sections_filled : Forall (fun s => hs_entries s <> []) HELP_ROWS.
Proof. by repeat constructor. Qed.
