(* ===== verification/TuiFrame.v ===== *)
(** * Palettes, frames, widgets and text that fits (src/tui/theme.rs, src/tui/render.rs)

    The palettes use a part of ratatui's styles: a foreground, a background and
    the text modifiers, each possibly left to the terminal.  A palette is a record
    of such styles, one per role of the screen.

    A frame is what the renderer asks ratatui to draw: a list of widgets with
    the area each is drawn in, and the cursor.  Areas are rectangles of 16-bit
    cells.  Three things come from libraries: how ratatui splits an area by
    constraints and builds a rectangle ([Layout]), and how many terminal columns
    unicode-width gives a character and a string ([Widths]; the width of a
    string need not be the sum over its characters).  What their documentation
    promises is in [LayoutLaws] and [WidthLaws]. *)

From S2P Require Import Prelude RustStr Json MailParser Utf8 Config TuiText TuiComposer TuiItems.
#[local] Open Scope nat_scope.
#[local] Open Scope bool_scope.

(** ** Palettes *)

Module Palettes.
#[local] Open Scope N_scope.
Inductive Color : Type := White | Black | Red | Yellow | Cyan | Rgb (r g b : N).
#[global] Instance Color_eq_dec : EqDecision Color.
Proof. solve_decision. Defined.

Record Modifier : Type := mkModifier { BOLD : bool; DIM : bool; UNDERLINED : bool }.
Definition plain : Modifier := mkModifier false false false.
Definition bold : Modifier := mkModifier true false false.
Definition dim : Modifier := mkModifier false true false.
Definition underlined : Modifier := mkModifier false false true.
Definition modifier_or (a b : Modifier) : Modifier :=
  mkModifier (BOLD a || BOLD b) (DIM a || DIM b) (UNDERLINED a || UNDERLINED b).

Record Style : Type := mkStyle { st_fg : option Color; st_bg : option Color; st_modifier : Modifier }.
#[global] Instance Modifier_eq_dec : EqDecision Modifier.
Proof. solve_decision. Defined.
#[global] Instance Style_eq_dec : EqDecision Style.
Proof. solve_decision. Defined.

(** [Style::default()] and its builders. *)
Definition style_default : Style := mkStyle None None plain.
Definition fg (c : Color) (s : Style) : Style := mkStyle (Some c) (st_bg s) (st_modifier s).
Definition bg (c : Color) (s : Style) : Style := mkStyle (st_fg s) (Some c) (st_modifier s).
Definition add_modifier (m : Modifier) (s : Style) : Style :=
  mkStyle (st_fg s) (st_bg s) (modifier_or (st_modifier s) m).
Definition colours (front back : Color) : Style := bg back (fg front style_default).

Record Theme : Type := mkTheme {
  th_text : Style;
  th_muted : Style;
  th_pane : Style;
  th_active_pane : Style;
  th_selection : Style;
  th_status : Style;
  th_error : Style;
  th_command : Style;
  th_unread : Style;
  th_flagged : Style;
}.

Definition dark_theme : Theme :=
  let back := Rgb 0x1e 0x1e 0x2e in
  let front := Rgb 0xcd 0xd6 0xf4 in
  let accent := Rgb 0x89 0xb4 0xfa in
  {| th_text := colours front back;
     th_muted := colours (Rgb 0x93 0x99 0xb2) back;
     th_pane := colours (Rgb 0x6c 0x70 0x86) back;
     th_active_pane := add_modifier bold (colours accent back);
     th_selection := add_modifier bold (colours front (Rgb 0x45 0x47 0x5a));
     th_status := colours front (Rgb 0x31 0x32 0x44);
     th_error := add_modifier bold (colours back (Rgb 0xf3 0x8b 0xa8));
     th_command := colours (Rgb 0x11 0x11 0x1b) accent;
     th_unread := add_modifier bold (colours (Rgb 0xa6 0xe3 0xa1) back);
     th_flagged := add_modifier bold (colours (Rgb 0xf9 0xe2 0xaf) back) |}.

Definition light_theme : Theme :=
  let back := Rgb 0xef 0xf1 0xf5 in
  let front := Rgb 0x4c 0x4f 0x69 in
  let accent := Rgb 0x1e 0x66 0xf5 in
  {| th_text := colours front back;
     th_muted := colours (Rgb 0x6c 0x6f 0x85) back;
     th_pane := colours (Rgb 0x8c 0x8f 0xa1) back;
     th_active_pane := add_modifier bold (colours accent back);
     th_selection := add_modifier bold (colours front (Rgb 0xcc 0xd0 0xda));
     th_status := colours front (Rgb 0xcc 0xd0 0xda);
     th_error := add_modifier bold (colours back (Rgb 0xd2 0x0f 0x39));
     th_command := colours back accent;
     th_unread := add_modifier bold (colours (Rgb 0x40 0xa0 0x2b) back);
     th_flagged := add_modifier bold (colours (Rgb 0xdf 0x8e 0x1d) back) |}.

Definition high_contrast_theme : Theme :=
  {| th_text := colours White Black;
     th_muted := add_modifier dim (colours White Black);
     th_pane := add_modifier dim (colours White Black);
     th_active_pane := add_modifier bold (colours Black White);
     th_selection := add_modifier bold (colours Black Yellow);
     th_status := colours Black White;
     th_error := add_modifier bold (colours White Red);
     th_command := colours Black Cyan;
     th_unread := add_modifier (modifier_or bold underlined) (colours White Black);
     th_flagged := add_modifier bold (colours Black Yellow) |}.

Definition theme (name : ThemeName) : Theme :=
  match name with Dark => dark_theme | Light => light_theme | HighContrast => high_contrast_theme end.

(** *** Legibility *)

Definition slots (t : Theme) : list Style :=
  [th_text t; th_muted t; th_pane t; th_active_pane t; th_selection t; th_status t; th_error t; th_command t;
   th_unread t; th_flagged t].
Definition legible (s : Style) : bool :=
  match st_fg s, st_bg s with Some f, Some b => bool_decide (f <> b) | _, _ => false end.

(** Every role of every palette paints its own foreground and background, and
    the two differ. *)
Lemma every_slot_legible name : Forall (fun s => legible s = true) (slots (theme name)).
Proof. destruct name; by repeat constructor. Qed.

(** The focused pane differs from the others by colour, not by a modifier alone;
    the selected row differs from an ordinary one by its background. *)
Lemma focus_and_selection_stand_out name :
  st_fg (th_active_pane (theme name)) <> st_fg (th_pane (theme name)) /\
  st_bg (th_selection (theme name)) <> st_bg (th_text (theme name)).
Proof. by destruct name. Qed.
End Palettes.
Export Palettes.

(** ** Sixteen-bit cells *)

Definition U16_MAX : Z := 65535.
Definition as_u16 (n : Z) : Z := (n mod 65536)%Z.
Definition add_u16 (a b : Z) : Z := as_u16 (a + b).
Definition sat_sub (a b : Z) : Z := Z.max 0 (a - b).
Definition sat_add_u16 (a b : Z) : Z := Z.min U16_MAX (a + b).
Definition sat_mul_u16 (a b : Z) : Z := Z.min U16_MAX (a * b).

Record Rect : Type := mkRect { r_x : Z; r_y : Z; r_width : Z; r_height : Z }.

Inductive Direction : Type := Vertical | Horizontal.
Inductive Constraint : Type := CMin (n : Z) | CLength (n : Z) | CPercentage (n : Z).

Class Layout := {
  split : Direction -> list Constraint -> Rect -> list Rect;
  rect_new : Z -> Z -> Z -> Z -> Rect;
}.

Definition rect_ok (r : Rect) : Prop :=
  (0 <= r_x r /\ 0 <= r_y r /\ 0 <= r_width r /\ 0 <= r_height r /\
   r_x r + r_width r <= U16_MAX /\ r_y r + r_height r <= U16_MAX)%Z.
Definition within (inner outer : Rect) : Prop :=
  (r_x outer <= r_x inner /\ r_y outer <= r_y inner /\
   r_x inner + r_width inner <= r_x outer + r_width outer /\
   r_y inner + r_height inner <= r_y outer + r_height outer)%Z.
Definition contains_cell (r : Rect) (x y : Z) : Prop :=
  (r_x r <= x < r_x r + r_width r /\ r_y r <= y < r_y r + r_height r)%Z.

(** A split has one part per constraint, each inside the area; a rectangle that
    fits sixteen bits is the one asked for. *)
Class LayoutLaws {LO : Layout} : Prop := {
  split_length d cs a : List.length (split d cs a) = List.length cs;
  split_within d cs a r : rect_ok a -> In r (split d cs a) -> rect_ok r /\ within r a;
  rect_new_fits x y w h : rect_ok (mkRect x y w h) -> rect_new x y w h = mkRect x y w h;
}.

Lemma within_refl r : within r r.
Proof. unfold within. lia. Qed.
Lemma within_trans a b c : within a b -> within b c -> within a c.
Proof. unfold within. lia. Qed.
Lemma cell_within inner outer x y : within inner outer -> contains_cell inner x y -> contains_cell outer x y.
Proof. unfold within, contains_cell. lia. Qed.

(** ** Text and widgets *)

Record Span : Type := mkSpan { sp_text : str; sp_style : Style }.
(** A line as the code builds it: from one text, from one text with a style, or
    from spans. *)
Inductive Line : Type :=
| LRaw (text : str)
| LStyled (text : str) (style : Style)
| LSpans (spans : list Span).
Inductive Text : Type := TStr (s : str) | TLines (lines : list Line).
Definition TLine (l : Line) : Text := TLines [l].

Record Block : Type := mkBlock {
  b_title : Line;
  b_bottom : option Line;
  b_style : Style;
  b_border_style : Style;
  b_title_style : Style;
}.

Inductive Widget : Type :=
| WList (items : list Text) (block : Block) (style highlight : Style) (symbol : str) (selected : option nat)
| WParagraph (text : Text) (block : option Block) (style : Style) (wrap : bool) (scroll : Z)
| WClear.
Inductive Draw : Type := DWidget (w : Widget) (area : Rect) | DCursor (x y : Z).

Definition raw_span (text : str) : Span := mkSpan text style_default.
Definition line_text_of (l : Line) : str :=
  match l with LRaw t => t | LStyled t _ => t | LSpans spans => List.concat (map sp_text spans) end.

Definition pane_block_owned (title : str) (active : bool) (theme : Theme) : Block :=
  let chrome := if active then th_active_pane theme else th_pane theme in
  mkBlock (LRaw title) None (th_text theme) chrome chrome.
Definition pane_block (title : str) (active : bool) (theme : Theme) : Block := pane_block_owned title active theme.

Definition selection_state (len selected : nat) : option nat :=
  if 0 <? len then Some (Nat.min selected (len - 1)) else None.

(** ** Widths *)

Class Widths := { char_width : char -> option nat; str_width : str -> nat }.

Section widths.
Context {WI : Widths}.

Definition display_width (text : str) : nat := str_width text.
Definition width_of (c : char) : nat := unwrap_or 0 (char_width c).

(** The loop that both [take_width] and [truncate_for_width] run. *)
Fixpoint take_columns (text : str) (used budget : nat) : str :=
  match text with
  | [] => []
  | c :: r => if budget <? used + width_of c then [] else c :: take_columns r (used + width_of c) budget
  end.
Definition take_width (text : str) (max_width : nat) : str := take_columns text 0 max_width.

Definition truncate_for_width (text : str) (max_width : nat) : str :=
  if max_width =? 0 then []
  else if display_width text <=? max_width then text
  else take_columns text 0 (max_width - 1) ++ [ELLIPSIS].

Fixpoint truncate_spans_go (segments : list (str * Style)) (max_width used : nat) : list Span * nat :=
  match segments with
  | [] => ([], used)
  | (text, style) :: rest =>
      if max_width <=? used then ([], used)
      else
        let w := display_width text in
        if used + w <=? max_width then
          let '(spans, total) := truncate_spans_go rest max_width (used + w) in
          (mkSpan text style :: spans, total)
        else
          let clipped := truncate_for_width text (max_width - used) in
          ([mkSpan clipped style], used + display_width clipped)
  end.
Definition truncate_spans (segments : list (str * Style)) (max_width : nat) : list Span * nat :=
  truncate_spans_go segments max_width 0.

Definition row_with_right_date (left : list (str * Style)) (date : str) (content_width : nat) (theme : Theme) : Line :=
  let date := take_width date content_width in
  let date_w := display_width date in
  let avail := content_width - (date_w + 1) in
  let '(spans, used) := truncate_spans left avail in
  let pad := (avail - used) + 1 in
  LSpans (spans ++ [raw_span (replicate pad 32%N); mkSpan date (th_muted theme)]).

Definition list_content_width (area : Rect) : nat := Z.to_nat (r_width area) - (2 + 2).

Definition compose_status_text (icons body : str) (width : nat) : str :=
  if is_empty icons then body
  else if width =? 0 then icons
  else
    let prefix := lit " " ++ icons ++ lit " " in
    let prefix_w := display_width prefix in
    if prefix_w + display_width body <=? width then prefix ++ body
    else if width <=? prefix_w then take_width prefix width
    else prefix ++ take_width body (width - prefix_w).

(** ** What is known of the widths *)

Fixpoint cols (s : str) : nat := match s with [] => 0 | c :: r => width_of c + cols r end.

(** Texts whose width is that of their characters: of every prefix, also with
    the ellipsis after it. *)
Definition columnwise (s : str) : Prop :=
  forall p, p `prefix_of` s -> str_width p = cols p /\ str_width (p ++ [ELLIPSIS]) = cols p + 1.

Lemma columnwise_prefix p s : p `prefix_of` s -> columnwise s -> columnwise p.
Proof. intros Hp Hs q Hq. apply Hs. by trans p. Qed.
Lemma columnwise_width s : columnwise s -> str_width s = cols s.
Proof. intros H. by apply H. Qed.

Lemma cols_app a b : cols (a ++ b) = cols a + cols b.
Proof. induction a as [|c a IH]; [done|]. cbn. rewrite IH. lia. Qed.
Lemma cols_prefix a b : a `prefix_of` b -> cols a <= cols b.
Proof. intros [k ->]. rewrite cols_app. lia. Qed.

Lemma take_columns_prefix text used budget : take_columns text used budget `prefix_of` text.
Proof.
  revert used. induction text as [|c r IH]; intros used; [done|]. cbn. case_goal; [apply prefix_nil|].
  by apply prefix_cons.
Qed.
Lemma take_columns_fits text used budget : used <= budget -> used + cols (take_columns text used budget) <= budget.
Proof.
  revert used. induction text as [|c r IH]; intros used H; cbn [take_columns cols]; [lia|].
  destruct (Nat.ltb_spec budget (used + width_of c)); cbn [cols]; [lia|].
  specialize (IH (used + width_of c)). lia.
Qed.
Lemma take_columns_longest text used budget p :
  p `prefix_of` text -> used + cols p <= budget -> p `prefix_of` take_columns text used budget.
Proof.
  revert used p. induction text as [|c r IH]; intros used p Hp Hc; [done|]. destruct p as [|d p]; [apply prefix_nil|].
  apply prefix_cons_inv_1 in Hp as Hd. apply prefix_cons_inv_2 in Hp. subst d. cbn [take_columns cols] in *.
  destruct (Nat.ltb_spec budget (used + width_of c)); [lia|]. apply prefix_cons, IH; [done|]. lia.
Qed.

(** [take_width] returns the longest prefix that fits. *)
Lemma take_width_longest text max :
  take_width text max `prefix_of` text /\ cols (take_width text max) <= max /\
  (forall p, p `prefix_of` text -> cols p <= max -> p `prefix_of` take_width text max).
Proof.
  split; [apply take_columns_prefix|]. split; [by apply (take_columns_fits text 0 max); lia|].
  intros p Hp Hc. by apply take_columns_longest.
Qed.
Lemma take_width_fits text max : columnwise text -> str_width (take_width text max) <= max.
Proof.
  intros H. destruct (take_width_longest text max) as (Hp & Hc & _). by rewrite (proj1 (H _ Hp)).
Qed.

Lemma truncate_width text max : columnwise text -> str_width (truncate_for_width text max) <= max \/ (max = 0 /\ truncate_for_width text max = []).
Proof.
  intros H. unfold truncate_for_width, display_width. destruct (Nat.eqb_spec max 0); [by right|]. left.
  destruct (Nat.leb_spec (str_width text) max); [done|].
  rewrite (proj2 (H _ (take_columns_prefix _ _ _))). pose proof (take_columns_fits text 0 (max - 1)). lia.
Qed.
End widths.

(** The width of nothing and of a run of blanks. *)
Class WidthLaws {WI : Widths} : Prop := { blank_width n : str_width (replicate n 32%N) = n }.

Section fitting.
Context {WI : Widths} {WL : WidthLaws}.

Lemma empty_width : str_width [] = 0.
Proof. exact (blank_width 0). Qed.
Lemma truncate_fits text max : columnwise text -> str_width (truncate_for_width text max) <= max.
Proof. intros H. destruct (truncate_width text max H) as [|[-> ->]]; [done|]. by rewrite empty_width. Qed.

Definition spans_width (spans : list Span) : nat := list_sum (map (fun s => str_width (sp_text s)) spans).
Definition line_width (l : Line) : nat :=
  match l with LRaw t | LStyled t _ => str_width t | LSpans spans => spans_width spans end.

Lemma spans_width_app a b : spans_width (a ++ b) = spans_width a + spans_width b.
Proof. unfold spans_width. by rewrite map_app, list_sum_app. Qed.

Lemma spans_width_cons s l : spans_width (s :: l) = str_width (sp_text s) + spans_width l.
Proof. done. Qed.
Lemma spans_width_nil : spans_width [] = 0.
Proof. done. Qed.
#[local] Hint Rewrite spans_width_app spans_width_cons spans_width_nil blank_width : spans.
#[local] Ltac spans := autorewrite with spans; cbn [sp_text raw_span]; autorewrite with spans; lia.

Lemma truncate_spans_go_fits segments max used :
  Forall (fun s => columnwise s.1) segments -> used <= max ->
  let '(spans, total) := truncate_spans_go segments max used in total = used + spans_width spans /\ total <= max.
Proof.
  revert used. induction segments as [|[text style] rest IH]; intros used HF Hu; cbn [truncate_spans_go]; [spans|].
  inversion HF as [|? ? H1 H2]; subst. cbn in H1. unfold display_width.
  destruct (Nat.leb_spec max used); [spans|]. cbv zeta.
  destruct (Nat.leb_spec (used + str_width text) max).
  - specialize (IH (used + str_width text) H2 ltac:(lia)). destruct (truncate_spans_go rest max _) as [spans total]. spans.
  - pose proof (truncate_fits text (max - used) H1). spans.
Qed.

(** The row is as wide as the pane, the date at its right edge, as long as the
    date leaves a column to its left; where it does not, the row is one column
    too wide. *)
Lemma row_width left date content_width theme :
  Forall (fun s => columnwise s.1) left -> columnwise date ->
  line_width (row_with_right_date left date content_width theme) =
  Nat.max content_width (str_width (take_width date content_width) + 1).
Proof.
  intros HL HD. unfold row_with_right_date, display_width. pose proof (take_width_fits date content_width HD) as Hd.
  generalize dependent (take_width date content_width). intros d Hd.
  pose proof (truncate_spans_go_fits left (content_width - (str_width d + 1)) 0 HL ltac:(lia)) as H.
  unfold truncate_spans. destruct (truncate_spans_go left _ 0) as [spans used]. destruct H as [-> H]. cbn [line_width].
  spans.
Qed.

(** A status line with icons fits the row. *)
Lemma status_fits icons body width :
  icons <> [] -> 0 < width -> columnwise (lit " " ++ icons ++ lit " ") -> columnwise body ->
  (forall p, p `prefix_of` body ->
     str_width ((lit " " ++ icons ++ lit " ") ++ p) = str_width (lit " " ++ icons ++ lit " ") + str_width p) ->
  str_width (compose_status_text icons body width) <= width.
Proof.
  intros Hi Hw HP HB HA. unfold compose_status_text. rewrite (proj2 (is_empty_false icons) Hi).
  destruct (Nat.eqb_spec width 0); [lia|]. cbv zeta. unfold display_width.
  destruct (Nat.leb_spec (str_width (lit " " ++ icons ++ lit " ") + str_width body) width) as [H|H];
    [by rewrite (HA body)|].
  destruct (Nat.leb_spec width (str_width (lit " " ++ icons ++ lit " "))); [by apply take_width_fits|].
  rewrite HA by apply take_columns_prefix. pose proof (take_width_fits body (width - str_width (lit " " ++ icons ++ lit " ")) HB). lia.
Qed.
End fitting.
