(* ===== verification/TuiPanes.v ===== *)
(** * The panes of the screen (src/tui/render.rs)

    What each pane shows: the lists of accounts, folders, conversations, drafts,
    search hits and approvals with their highlighted row, the message and its
    attachments, the approval in detail, and the composer.  A pane is the list
    of what is drawn in its area.  [None] is a panic: an index past the parts of
    a split, or a slice that is not on character boundaries. *)

From stdpp Require Import gmap.
From S2P Require Import Prelude RustStr Json MailParser Utf8 DbCore McpTools McpModels Config TuiText TuiComposer TuiItems TuiApprovals TuiApp TuiFrame.
#[local] Open Scope nat_scope.
#[local] Open Scope bool_scope.

Definition show_usize (n : nat) : str := show_N (N.of_nat n).
Definition SELECTION_SYMBOL : str := ulit "› ".

(** ** The cursor and the lines of a text *)

Definition set_cursor_in_area (area : Rect) (column row : nat) : list Draw :=
  let inner_width := sat_sub (r_width area) 2 in
  let inner_height := sat_sub (r_height area) 2 in
  if (inner_width =? 0)%Z || (inner_height =? 0)%Z then []
  else
    let x := add_u16 (add_u16 (r_x area) 1) (Z.min (as_u16 (Z.of_nat column)) (inner_width - 1)) in
    let y := add_u16 (add_u16 (r_y area) 1) (Z.min (as_u16 (Z.of_nat row)) (inner_height - 1)) in
    [DCursor x y].

Definition viewport_rows (area : Rect) : nat := Z.to_nat (sat_sub (r_height area) 2).

(** [range.contains(&line)] of an optional inclusive range. *)
Definition in_selection (selection : option (nat * nat)) (line : nat) : bool :=
  match selection with Some (first, last) => (first <=? line) && (line <=? last) | None => false end.
Definition shown_line (theme : Theme) (selection : option (nat * nat)) (index : nat) (line : str) : Line :=
  if in_selection selection index then LStyled (if is_empty line then lit " " else line) (th_selection theme)
  else LRaw line.
(** The lines [scroll..line_count] that fit the viewport. *)
Definition visible_lines (theme : Theme) (selection : option (nat * nat)) (text_of : nat -> option str)
    (scroll line_count viewport : nat) : list Line :=
  map (fun i => shown_line theme selection i (unwrap_or [] (text_of i)))
    (take (Nat.max viewport 1) (seq scroll (line_count - scroll))).
Definition position_title (name : str) (cursor_line line_count : nat) (selection : option (nat * nat)) : str :=
  name ++ lit " Ln " ++ show_usize (Nat.min (cursor_line + 1) line_count) ++ lit "/" ++ show_usize line_count
    ++ (if is_none selection then [] else ulit " • VIS").

(** ** Lists *)

Section panes.
Context {JC : JsonCodec} {UC : UnicodeCase} {WI : Widths} {LO : Layout}.
Variable theme : Theme.

Definition pane_list (items : list Text) (block : Block) (selected : option nat) : Widget :=
  WList items block (th_text theme) (th_selection theme) SELECTION_SYMBOL selected.
Definition is_active (app : AppState) (p : ActivePane) : bool := bool_decide (s_active app = p).

Definition account_row (content_width : nat) (account : AccountItem) : Text :=
  let label := if str_eqb (ai_label account) (ai_email account) then ai_email account
               else ai_label account ++ lit " <" ++ ai_email account ++ lit ">" in
  TLine (LSpans (truncate_spans [(label, th_text theme); (lit " [" ++ ai_status account ++ lit "]", th_muted theme)]
                   content_width).1).
Definition render_accounts (area : Rect) (app : AppState) : list Draw :=
  let content_width := list_content_width area in
  let items := match s_accounts app with
               | [] => [TStr (lit "No accounts yet")]
               | accounts => map (account_row content_width) accounts
               end in
  [DWidget (pane_list items (pane_block (lit "Accounts") (is_active app PAccounts) theme)
              (selection_state (List.length (s_accounts app)) (s_selected_account app))) area].

Definition folder_row (app : AppState) (content_width : nat) (folder : FolderItem) : Text :=
  let suffix := if is_approvals_virtual folder then lit " (" ++ show_usize (approvals_pending_count app) ++ lit ")"
                else lit " [" ++ fi_role folder ++ lit "]" in
  TLine (LSpans (truncate_spans [(fi_name folder, th_text theme); (suffix, th_muted theme)] content_width).1).
Definition render_folders (area : Rect) (app : AppState) : list Draw :=
  let content_width := list_content_width area in
  let items := match s_folders app with
               | [] => [TStr (match s_accounts app with [] => lit "Select an account" | _ => lit "No folders" end)]
               | folders => map (folder_row app content_width) folders
               end in
  let pending := approvals_pending_count app in
  let active := is_active app PFolders in
  let block := if 0 <? pending
               then pane_block_owned (ulit "Folders · Approvals (" ++ show_usize pending ++ lit ")") active theme
               else pane_block (lit "Folders") active theme in
  [DWidget (pane_list items block (selection_state (List.length (s_folders app)) (s_selected_folder app))) area].

Definition approval_row (now : time) (a : ApprovalItem) : Text :=
  let head := LSpans [mkSpan (tool_label (ap_tool a)) (add_modifier bold (th_text theme));
                      mkSpan (lit " " ++ age_label (ap_created_at a) now) (th_muted theme)] in
  TLines (head :: match approval_row_summary a with
                  | Some summary => [LStyled summary (th_muted theme)]
                  | None => []
                  end).
Definition render_approval_list (area : Rect) (app : AppState) (now : time) : list Draw :=
  let approvals := s_approvals app in
  let count := List.length (as_items approvals) in
  let title := ulit "Approvals • " ++ show_usize count ++ lit " pending"
                 ++ (if as_pending approvals then ulit " • loading…" else []) in
  let items := match as_items approvals with
               | [] => [TStr (if as_pending approvals then ulit "Loading approvals…" else lit "No pending approvals")]
               | items => map (approval_row now) items
               end in
  [DWidget (pane_list items (pane_block_owned title (is_active app PConversations) theme)
              (selection_state count (as_selected approvals))) area].

Definition draft_row (content_width : nat) (d : DraftItem) : Text :=
  TLine (row_with_right_date
           [(di_subject d, add_modifier bold (th_text theme)); (ulit " → " ++ di_to d, th_muted theme);
            (ulit " — " ++ di_snippet d, th_muted theme)] (di_date d) content_width theme).
Definition render_drafts (area : Rect) (app : AppState) : list Draw :=
  let content_width := list_content_width area in
  let items := match s_drafts app with
               | [] => [TStr (lit "No drafts")]
               | drafts => map (draft_row content_width) drafts
               end in
  [DWidget (pane_list items (pane_block (lit "Drafts") (is_active app PConversations) theme)
              (selection_state (List.length (s_drafts app)) (s_selected_draft app))) area].

Definition thread_row (content_width : nat) (t : ThreadItem) : Text :=
  let subject_style := if ti_unread t then th_unread theme else th_text theme in
  let count := if 1 <? ti_message_count t then lit " (" ++ show_usize (ti_message_count t) ++ lit ")" else [] in
  TLine (row_with_right_date
           [(if ti_unread t then ulit "▎ " else lit "  ", th_unread theme);
            (if ti_flagged t then ulit "★ " else lit "  ", th_flagged theme);
            (ti_subject t, add_modifier bold subject_style);
            (count, th_text theme);
            (ulit " — " ++ ti_latest_from t, th_muted theme)] (ti_latest_date t) content_width theme).
Definition render_conversations (area : Rect) (app : AppState) (now : time) : list Draw :=
  if approvals_folder_selected app then render_approval_list area app now
  else if drafts_pane_active app then render_drafts area app
  else
    let content_width := list_content_width area in
    let items := match s_threads app with
                 | [] => [TStr (match s_folders app with [] => lit "Select a folder" | _ => lit "No conversations" end)]
                 | threads => map (thread_row content_width) threads
                 end in
    [DWidget (pane_list items (pane_block (lit "Conversations") (is_active app PConversations) theme)
                (selection_state (List.length (s_threads app)) (s_selected_thread app))) area].

Definition hit_row (hit : SearchHit) : Text :=
  TLine (LSpans ([mkSpan (sh_subject hit) (add_modifier bold (th_text theme)); raw_span (ulit " — " ++ sh_from hit);
                  mkSpan (lit " " ++ sh_date hit) (th_muted theme)]
                 ++ (if is_empty (sh_snippet hit) then []
                     else [raw_span (lit "  "); mkSpan (sh_snippet hit) (th_muted theme)]))).
Definition search_scope_label (app : AppState) : str :=
  unwrap_or (lit "all accounts")
    (id ← s_search app ≫= se_scope_account;
     ai_label <$> List.find (fun account => (ai_id account =? id)%N) (s_accounts app)).
Definition search_hits (app : AppState) : list SearchHit :=
  match s_search app with Some st => se_hits st | None => [] end.
Definition render_search (area : Rect) (app : AppState) : list Draw :=
  let query := match s_search app with Some st => se_query st | None => [] end in
  let pending := match s_search app with Some st => se_pending st | None => false end in
  let title := lit "Search '" ++ query ++ ulit "' — " ++ search_scope_label app
                 ++ (if pending then ulit " • loading…"
                     else ulit " • " ++ show_usize (List.length (search_hits app)) ++ lit " hit(s)") in
  let items := match s_search app with
               | Some st => if se_pending st then [TStr (ulit "Loading…")]
                            else match se_hits st with
                                 | [] => [TStr (lit "No results")]
                                 | hits => map hit_row hits
                                 end
               | None => [TStr (lit "No search open")]
               end in
  let selected := match s_search app with Some st => se_selected st | None => 0 end in
  [DWidget (pane_list items (pane_block_owned title (is_active app PSearch) theme)
              (selection_state (List.length (search_hits app)) selected)) area].

(** ** The message *)

Definition render_detail_text (app : AppState) : str :=
  match s_error app with
  | Some error => lit "Error: " ++ error
  | None => match s_detail_text_cache app with
            | Some cache => tlc_text cache
            | None => match s_messages app with
                      | [] => lit "No message selected"
                      | _ => lit "Press Enter to open the selected message"
                      end
            end
  end.
Definition render_detail_viewport (area : Rect) (app : AppState) : list Draw :=
  let active := is_active app PDetails in
  let viewport := viewport_rows area in
  let line_count := Nat.max (detail_line_count app) 1 in
  let scroll := detail_visible_scroll viewport app in
  let '(cursor_line, cursor_column) := detail_cursor_line_column app in
  let selection := detail_selected_line_range app in
  let title := position_title (lit "Detail") cursor_line line_count selection in
  let lines := visible_lines theme selection (fun i => detail_line_text i app) scroll line_count viewport in
  DWidget (WParagraph (TLines lines) (Some (pane_block_owned title active theme)) (th_text theme) false 0) area
  :: (if active && (scroll <=? cursor_line) then set_cursor_in_area area cursor_column (cursor_line - scroll) else []).
Definition render_detail (area : Rect) (app : AppState) : list Draw :=
  if bool_decide (s_detail app <> None) && bool_decide (s_error app = None) then render_detail_viewport area app
  else [DWidget (WParagraph (TStr (render_detail_text app))
                   (Some (pane_block (lit "Detail") (is_active app PDetails) theme))
                   (if is_none (s_error app) then th_text theme else th_error theme) true 0) area].

Definition attachment_row (a : AttachmentItem) : Text :=
  TLine (LSpans [raw_span (at_filename a);
                 mkSpan (lit " [" ++ at_content_type a ++ ulit " • " ++ human_size (Z.max (at_size_bytes a) 0) ++ lit "]")
                   (th_muted theme)]).
Definition render_attachment_list (area : Rect) (app : AppState) : list Draw :=
  [DWidget (pane_list (map attachment_row (s_attachments app))
              (pane_block (lit "Attachments") (is_active app PAttachments) theme)
              (selection_state (List.length (s_attachments app)) (s_selected_attachment app))) area].

Definition render_attachment_preview (area : Rect) (app : AppState) : list Draw :=
  let focused := is_preview_focus_active app in
  let title := if focused then (if is_none (s_preview_selection app) then ulit "Preview •" else ulit "Preview • VIS")
               else lit "Preview" in
  let block := mkBlock (LRaw title) None style_default (th_pane theme) (th_pane theme) in
  match preview_text app with
  | None =>
      [DWidget (WParagraph (TStr (lit "Select an attachment (Enter to focus, j/k to scroll)")) (Some block) (th_text theme)
                  true 0) area]
  | Some text =>
      let lines := split_char LF text in
      let viewport := viewport_rows area in
      let scroll := preview_visible_scroll (Nat.max viewport 1) app in
      let selection := preview_selected_line_range app in
      let hint := if focused then []
                  else [LStyled (ulit "Preview ready — Enter to focus, j/k to scroll, v to select, y to copy")
                          (th_muted theme)] in
      let shown := imap (fun k line => shown_line theme selection (scroll + k) line)
                     (take (Nat.max viewport 1) (drop scroll lines)) in
      [DWidget (WParagraph (TLines (hint ++ shown)) (Some block) (th_text theme) true 0) area]
  end.
Definition render_detail_with_attachments (area : Rect) (app : AppState) : option (list Draw) :=
  let columns := split Horizontal [CPercentage 55; CPercentage 45] area in
  left ← columns !! 0;
  right ← columns !! 1;
  let attachment_columns := split Horizontal [CPercentage 40; CPercentage 60] right in
  listing ← attachment_columns !! 0;
  preview ← attachment_columns !! 1;
  Some (render_detail left app ++ render_attachment_list listing app ++ render_attachment_preview preview app).

(** ** Approvals *)

Definition looks_like_uuid (bytes : list N) : bool :=
  (List.length bytes =? 36) && forallb id (imap uuid_byte_ok bytes).
(** The scan of [shorten_uuid_in_json]: [skip] characters belong to an
    identifier already shortened; the slices are of bytes. *)
Fixpoint shorten_json_go (skip : nat) (s : str) : option str :=
  match s with
  | [] => Some []
  | c :: r =>
      match skip with
      | S k => shorten_json_go k r
      | O => let bytes := as_bytes s in
             if (36 <=? List.length bytes) && looks_like_uuid (take 36 bytes) then
               first8 ← str_get s 0%N 8%N;
               last4 ← str_get s 32%N 36%N;
               rest ← shorten_json_go 35 r;
               Some (first8 ++ [ELLIPSIS] ++ last4 ++ rest)
             else rest ← shorten_json_go 0 r; Some (c :: rest)
      end
  end.
Definition shorten_uuid_in_json (s : str) : option str := shorten_json_go 0 s.

Definition approval_header_meta_line (target : option ApprovalTargetContext) : option str :=
  t ← target;
  match tc_from t, tc_to t with
  | Some from, Some to => Some (lit "from " ++ from ++ ulit " · to " ++ to)
  | Some from, None => Some (lit "from " ++ from)
  | None, Some to => Some (lit "to " ++ to)
  | None, None => None
  end.
Definition approval_unresolved_target_note (a : ApprovalItem) : option str :=
  v ← args_value a;
  let has_id := negb (is_none (vget v (lit "message_id"))) || negb (is_none (vget v (lit "draft_id")))
                || negb (is_none (vget v (lit "attachment_id"))) in
  if has_id then Some (lit "couldn't load message/draft target") else None.
Definition approval_arg_count_label (a : ApprovalItem) : str :=
  match args_value a with
  | Some (VObject m) => let n := List.length m in show_usize n ++ (if n =? 1 then lit " key" else lit " keys")
  | _ => lit "payload"
  end.
Definition approval_detail_title (app : AppState) (now : time) : str :=
  match selected_approval app with
  | None => lit "Approval detail"
  | Some a => tool_label (ap_tool a) ++ ulit " — " ++ age_label (ap_created_at a) now
  end.

(** The parts of [approval_detail_lines], in order. *)
Definition approval_header_lines (a : ApprovalItem) : list Line :=
  let label := tool_label (ap_tool a) in
  let strong := add_modifier bold (th_text theme) in
  match or_else (ap_target a ≫= tc_target) (ap_target a ≫= tc_attachment) with
  | Some subject => [LSpans [mkSpan subject strong; mkSpan (ulit " — " ++ label) (th_muted theme)]]
  | None => [LSpans [mkSpan label strong]]
  end.
Definition muted_lines (l : list str) : list Line := map (fun s => LStyled s (th_muted theme)) l.
Definition option_lines (o : option str) : list Line := match o with Some s => muted_lines [s] | None => [] end.
Definition approval_snippet_lines (a : ApprovalItem) : list Line :=
  match ap_target a ≫= tc_snippet with
  | None => []
  | Some snippet =>
      LRaw [] :: map (fun chunk => LSpans [mkSpan (ulit "▎ ") (th_muted theme); mkSpan chunk (th_muted theme)])
                   (str_lines snippet)
  end.
Definition approval_policy_lines (a : ApprovalItem) : list Line :=
  match ap_summary a with
  | None => []
  | Some summary => LRaw [] :: muted_lines [lit "policy: " ++ summary]
  end.
Definition approval_debug_line (a : ApprovalItem) (now : time) : str :=
  lit "tool=" ++ ap_tool a ++ ulit " · args=" ++ approval_arg_count_label a ++ ulit " · "
    ++ age_label (ap_created_at a) now.
Definition approval_detail_lines (app : AppState) (now : time) : option (list Line) :=
  if as_pending (s_approvals app) && bool_decide (as_items (s_approvals app) = [])
  then Some (muted_lines [ulit "Loading approvals…"])
  else match selected_approval app with
       | None => Some (muted_lines [lit "No pending approvals"])
       | Some a =>
           shortened ← shorten_uuid_in_json (ap_args_json a);
           Some (approval_header_lines a
                 ++ option_lines (approval_header_meta_line (ap_target a))
                 ++ (if is_none (ap_target a) then option_lines (approval_unresolved_target_note a) else [])
                 ++ approval_snippet_lines a
                 ++ approval_policy_lines a
                 ++ LRaw [] :: muted_lines [approval_debug_line a now]
                 ++ muted_lines (str_lines shortened))
       end.
Definition render_approval_detail (area : Rect) (app : AppState) (now : time) : option (list Draw) :=
  lines ← approval_detail_lines app now;
  Some [DWidget (WParagraph (TLines lines)
                   (Some (pane_block_owned (approval_detail_title app now) (is_active app PDetails) theme))
                   (th_text theme) true 0) area].

(** ** The composer *)

Definition compose_attachments_panel_height (c : ComposerState) : Z :=
  let count := as_u16 (Z.of_nat (List.length (c_attachments c))) in
  sat_add_u16 (Z.min (Z.max count 1) 5) 2.

Definition compose_attachment_row (a : ComposerAttachment) : Text :=
  TLine (LSpans [raw_span (ca_filename a); raw_span (lit "  "); mkSpan (human_size (ca_size_bytes a)) (th_muted theme)]).
Definition compose_attachments_summary (c : ComposerState) : str :=
  let count := List.length (c_attachments c) in
  lit "Attachments: " ++ show_usize count ++ lit " file" ++ (if count =? 1 then [] else lit "s") ++ lit ", "
    ++ human_size (aggregate_attachment_size c) ++ lit " / " ++ human_size MAX_COMPOSE_ATTACHMENT_BYTES.
Definition spaced (s : str) : str := lit " " ++ s ++ lit " ".
Definition render_compose_attachments (area : Rect) (app : AppState) (c : ComposerState) : list Draw :=
  let summary := compose_attachments_summary c in
  let count := List.length (c_attachments c) in
  if bool_decide (s_mode app = MComposeAttachPath) then
    DWidget (WParagraph (TStr (lit "Attach: " ++ c_attach_input c)) (Some (pane_block_owned (spaced summary) false theme))
               (th_command theme) false 0) area
    :: set_cursor_in_area area (8 + display_width (c_attach_input c)) 0
  else match c_attachments c with
       | [] => [DWidget (WParagraph (TStr (lit "(Ctrl-A to attach a file)"))
                           (Some (pane_block_owned (spaced summary) false theme)) (th_text theme) false 0) area]
       | attachments =>
           let current := Nat.min (c_selected_attachment c) (count - 1) + 1 in
           let summary := summary ++ lit " [" ++ show_usize current ++ lit "/" ++ show_usize count ++ lit "]" in
           [DWidget (WList (map compose_attachment_row attachments) (pane_block_owned (spaced summary) false theme)
                       style_default (th_selection theme) (lit "> ")
                       (selection_state count (c_selected_attachment c))) area]
       end.

Definition render_composer_field (area : Rect) (title text : str) (cursor : nat) (active : bool) : list Draw :=
  DWidget (WParagraph (TStr text) (Some (pane_block title active theme)) (th_text theme) true 0) area
  :: (if active then
        let cursor := Nat.min cursor (char_count text) in
        set_cursor_in_area area (display_width (take cursor text)) 0
      else []).
Definition render_composer_body (area : Rect) (active : bool) (c : ComposerState) : list Draw :=
  let viewport := viewport_rows area in
  let line_count := Nat.max (body_line_count c) 1 in
  let scroll := body_visible_scroll c viewport in
  let '(cursor_line, cursor_column) := body_cursor_line_column c in
  let selection := body_selected_line_range c in
  let title := position_title (lit "Body") cursor_line line_count selection in
  let lines := visible_lines theme selection (fun i => line_text (c_body_line_cache c) (c_body c) i) scroll line_count
                 viewport in
  DWidget (WParagraph (TLines lines) (Some (pane_block_owned title active theme)) (th_text theme) false 0) area
  :: (if active && (scroll <=? cursor_line) then set_cursor_in_area area cursor_column (cursor_line - scroll) else []).
End panes.
