(* ===== verification/TuiRender.v ===== *)
(** * The screen (src/tui/render.rs: [render])

    The status bar, the help overlay and the whole frame: the panes of
    [TuiPanes] in the areas ratatui's layout gives them, or the composer, and the
    overlay on top.  [None] is a panic. *)

From stdpp Require Import gmap.
From S2P Require Import Prelude RustStr Json MailParser Utf8 DbCore McpTools McpModels Config TuiText TuiCommand TuiComposer TuiItems TuiApprovals TuiApp TuiHelp TuiFrame TuiPanes.
#[local] Open Scope nat_scope.
#[local] Open Scope bool_scope.

Definition HELP_FOOTER_TEXT : str := ulit "j/k scroll · PgUp/PgDn page · Home/End jump · Esc / ? close".
Definition HELP_TITLE_TEXT : str := ulit "Help — ? to close".
Definition ICON_IDLE : str := ulit "◯".
Definition ICON_POLLING : str := ulit "◐".
Definition ICON_SYNCING : str := ulit "◓".
Definition ICON_ERROR : str := ulit "✖".
Definition MAX_SELECTED_ERROR_CHARS : nat := 60.

(** ** The status bar *)

Definition pane_label_for_status (app : AppState) : str :=
  match s_active app with
  | PAccounts => lit "Accounts"
  | PFolders => lit "Folders"
  | PConversations =>
      if approvals_folder_selected app then lit "Approvals"
      else if drafts_pane_active app then lit "Drafts"
      else lit "Conversations"
  | PDetails => lit "Details"
  | PAttachments => lit "Attachments"
  | PSearch => lit "Search"
  end.

Definition compose_summary_text (app : AppState) (pane_label : str) : str :=
  let theme := theme_as_str (s_theme app) in
  if approvals_folder_selected app then theme ++ ulit " · Approvals · ? for help"
  else
    let account := unwrap_or (lit "(no account)") (ai_label <$> s_accounts app !! s_selected_account app) in
    let folder := unwrap_or (lit "(no folder)") (selected_folder_name app) in
    theme ++ MIDDLE_DOT ++ pane_label ++ MIDDLE_DOT ++ account ++ lit "/" ++ folder ++ ulit " · ? for help".

Definition sync_icon (state : SyncStateUi) : str :=
  match state with UiIdle => ICON_IDLE | UiPolling => ICON_POLLING | UiSyncing => ICON_SYNCING | UiError => ICON_ERROR end.
(** One account's entry: its icon, its label and, for the selected account, the
    start of its error. *)
Definition sync_entry (selected : option Id) (account : AccountItem) (status : AccountStatus) : str :=
  sync_icon (as_state status) ++ lit " " ++ ai_label account
    ++ (if bool_decide (Some (ai_id account) = selected) && bool_decide (as_state status = UiError)
        then match take MAX_SELECTED_ERROR_CHARS (unwrap_or [] (as_last_error status)) with
             | [] => []
             | shown => lit ": " ++ shown
             end
        else []).
Definition sync_state_step (app : AppState) (acc : str * bool) (account : AccountItem) : str * bool :=
  let '(out, first) := acc in
  match s_account_states app !! ai_id account with
  | None => acc
  | Some status =>
      (out ++ (if first then [] else MIDDLE_DOT) ++ sync_entry (selected_account_id app) account status, false)
  end.
Definition sync_state_prefix (app : AppState) : str := (foldl (sync_state_step app) ([], true) (s_accounts app)).1.

Section screen.
Context {JC : JsonCodec} {UC : UnicodeCase} {WI : Widths} {LO : Layout}.

Definition status_text (area : Rect) (app : AppState) : str :=
  match s_mode app with
  | MCommand => lit " :" ++ s_command_input app ++ ulit " | Enter run • Esc cancel "
  | MQuickSearch => lit " /" ++ s_search_input app ++ ulit " | Enter search • Esc cancel "
  | MCompose =>
      lit " " ++ s_status app
        ++ ulit " | Tab fields • PgUp/PgDn body • v select • Ctrl-A attach • Ctrl-K remove • Ctrl-S save • Ctrl-X send • Esc cancel "
  | MComposeAttachPath =>
      lit " Attach: " ++ unwrap_or [] (compose_attach_input app) ++ ulit " | Enter add • Esc cancel "
  | MConfirmDiscard => lit " Discard unsaved compose? y/n "
  | MConfirmDelete => lit " Delete? y/n "
  | MNormal =>
      let status := match s_error app with Some error => lit "Error: " ++ error | None => s_status app end in
      let body := if is_preview_focus_active app
                  then lit " " ++ status ++ ulit " | Preview: j/k scroll • v select • y copy • Esc cancel "
                  else lit " " ++ status ++ MIDDLE_DOT ++ compose_summary_text app (pane_label_for_status app) ++ lit " " in
      compose_status_text (sync_state_prefix app) body (Z.to_nat (r_width area))
  end.
Definition render_status (area : Rect) (app : AppState) (theme : Theme) : list Draw :=
  let style := match s_mode app with
               | MNormal => if is_none (s_error app) then th_status theme else th_error theme
               | _ => th_command theme
               end in
  [DWidget (WParagraph (TStr (status_text area app)) None style false 0) area].

Definition toast_style (theme : Theme) (kind : ToastKind) : Style :=
  match kind with
  | TInfo => th_status theme
  | TSuccess => th_unread theme
  | TWarn => th_flagged theme
  | TError => th_error theme
  end.
Definition render_toasts (area : Rect) (app : AppState) (theme : Theme) : list Draw :=
  match s_toasts app with
  | [] => []
  | toasts =>
      if (r_height area =? 0)%Z then []
      else
        let rows := split Vertical (replicate (List.length toasts) (CLength 1)) area in
        let max_width := Z.to_nat (r_width area) in
        zip_with (fun toast row =>
          DWidget (WParagraph (TStr (truncate_for_width (to_text toast) max_width)) None
                     (toast_style theme (to_kind toast)) false 0) row) toasts rows
  end.

(** ** The help overlay *)

Definition help_overlay_rect (area : Rect) : Rect :=
  if (r_width area <? 40)%Z || (r_height area <? 6)%Z then
    let height := Z.max (sat_sub (r_height area) 1) 1 in
    rect_new (r_x area) (r_y area) (r_width area) height
  else
    let width := Z.max (sat_mul_u16 (r_width area) 75 / 100) 40 in
    let height := Z.max (sat_mul_u16 (r_height area) 80 / 100) 16 in
    let height := if (r_height area <? height)%Z then r_height area else height in
    let x := add_u16 (r_x area) (sat_sub (r_width area) width / 2) in
    let y := add_u16 (r_y area) (sat_sub (r_height area) height / 2) in
    rect_new x y width height.

Definition pane_applicability (app : AppState) : option Applicability :=
  match s_active app with
  | PAccounts | PFolders => None
  | PConversations =>
      if approvals_folder_selected app then Some AApprovals
      else if drafts_pane_active app then Some AConversationsDrafts
      else Some AConversations
  | PDetails => Some ADetails
  | PAttachments => Some AAttachments
  | PSearch => Some AQuickSearch
  end.
Definition mode_overlay (app : AppState) : option Applicability :=
  match s_composer app with
  | Some _ => Some AComposer
  | None => match s_mode app with MCommand => Some ACommandBar | MQuickSearch => Some AQuickSearch | _ => None end
  end.
Definition applicability_table (overlay pane : option Applicability) : list Applicability :=
  match overlay, pane with
  | None, None => []
  | None, Some AConversations => [AConversations]
  | None, Some AConversationsDrafts => [AConversationsDrafts]
  | None, Some AApprovals => [AApprovals]
  | None, Some ADetails => [ADetails]
  | None, Some AAttachments => [AAttachments]
  | None, Some AQuickSearch => [AQuickSearch]
  | Some AComposer, None => [AComposer]
  | Some AComposer, Some ADetails => [AComposer; ADetails]
  | Some AComposer, Some AConversations => [AComposer; AConversations]
  | Some AComposer, Some AConversationsDrafts => [AComposer; AConversationsDrafts]
  | Some AComposer, Some AAttachments => [AComposer; AAttachments]
  | Some AComposer, Some AApprovals => [AComposer; AApprovals]
  | Some AComposer, Some AQuickSearch => [AComposer; AQuickSearch]
  | Some ACommandBar, None => [ACommandBar]
  | Some ACommandBar, Some _ => [ACommandBar]
  | Some AQuickSearch, None => [AQuickSearch]
  | Some AQuickSearch, Some _ => [AQuickSearch]
  | _, _ => []
  end.
Definition active_applicability_set (app : AppState) : list Applicability :=
  applicability_table (mode_overlay app) (pane_applicability app).
Definition pane_label_for_help (app : AppState) : str :=
  match s_composer app with
  | Some _ => lit "Composer"
  | None => match s_mode app with
            | MCommand => lit "Command bar"
            | MQuickSearch => lit "Quick search"
            | _ => pane_label_for_status app
            end
  end.

Definition help_entry_line (e : HelpEntry) (style : Style) : Line :=
  LSpans [mkSpan (lit "  " ++ he_keys e ++ ulit "  —  " ++ he_summary e) style].
Definition entry_is_active (active : list Applicability) (e : HelpEntry) : bool :=
  bool_decide (he_applies_to e = AGlobal) || existsb (fun a => bool_decide (he_applies_to e = a)) active.

(** The two loops over the sections: what they have pushed, and their flags. *)
Definition push_active_section (active : list Applicability) (theme : Theme) (acc : list Line * bool)
    (section : HelpSection) : list Line * bool :=
  let '(lines, first_active) := acc in
  if negb (existsb (entry_is_active active) (hs_entries section)) then acc
  else (lines ++ (if first_active then [] else [LRaw []])
          ++ LSpans [mkSpan (hs_title section) (add_modifier bold (th_command theme))]
          :: map (fun e => help_entry_line e (th_text theme)) (List.filter (entry_is_active active) (hs_entries section)),
        false).
Definition push_rest_section (active : list Applicability) (theme : Theme) (wrote_active : bool)
    (acc : list Line * bool * bool) (section : HelpSection) : list Line * bool * bool :=
  let '(lines, first_rest, wrote_separator) := acc in
  let resting e := negb (entry_is_active active e) in
  if negb (existsb resting (hs_entries section)) then acc
  else (lines
          ++ (if wrote_separator then []
              else (if wrote_active then [LRaw []] else []) ++ [LSpans [mkSpan (ulit "── Other sections ──") (th_muted theme)]])
          ++ (if first_rest then [] else [LRaw []])
          ++ LSpans [mkSpan (hs_title section) (th_muted theme)]
          :: map (fun e => help_entry_line e (th_muted theme)) (List.filter resting (hs_entries section)),
        false, true).
Definition build_help_lines (active : list Applicability) (pane_label : str) (theme : Theme) : list Line :=
  let filter_label := match active with
                      | [] => ulit "Showing global rows · scroll for all"
                      | _ => lit "Showing rows active in " ++ pane_label ++ ulit " · scroll for all"
                      end in
  let lines := [LSpans [mkSpan filter_label (th_command theme)]; LRaw []] in
  let '(lines, first_active) := foldl (push_active_section active theme) (lines, true) HELP_ROWS in
  let '(lines, _, _) := foldl (push_rest_section active theme (negb first_active)) (lines, true, false) HELP_ROWS in
  lines ++ [LRaw []; LStyled (ulit "Source: src/tui/help.rs::HELP_ROWS — keep parser & overlay in sync.") (th_muted theme)].

(** The offset the overlay is drawn at. *)
Definition help_max_scroll (overlay : Rect) (lines : list Line) : Z := Z.of_nat (List.length lines - viewport_rows overlay).
Definition help_shown_scroll (overlay : Rect) (lines : list Line) (app : AppState) : Z :=
  Z.min (s_help_scroll app) (help_max_scroll overlay lines).
Definition render_help_overlay (area : Rect) (app : AppState) (theme : Theme) : list Draw :=
  let overlay := help_overlay_rect area in
  let lines := build_help_lines (active_applicability_set app) (pane_label_for_help app) theme in
  let title := LSpans [mkSpan (spaced HELP_TITLE_TEXT) (add_modifier bold (th_command theme))] in
  let footer := LSpans [mkSpan (spaced HELP_FOOTER_TEXT) (th_command theme)] in
  let block := mkBlock title (Some footer) (th_text theme) (th_command theme) style_default in
  [DWidget WClear overlay;
   DWidget (WParagraph (TLines lines) (Some block) (th_text theme) true (as_u16 (help_shown_scroll overlay lines app)))
     overlay].

(** ** The frame *)

Definition render_composer (frame : Rect) (app : AppState) (theme : Theme) : option (list Draw) :=
  let root := split Vertical [CMin 5; CLength 1] frame in
  status_area ← root !! 1;
  match s_composer app with
  | None => Some (render_status status_area app theme)
  | Some c =>
      main ← root !! 0;
      let rows := split Vertical [CLength 3; CLength 3; CLength 3; CLength 3; CMin 5;
                                  CLength (compose_attachments_panel_height c)] main in
      to ← rows !! 0;
      cc ← rows !! 1;
      bcc ← rows !! 2;
      subject ← rows !! 3;
      body ← rows !! 4;
      attachments ← rows !! 5;
      let focused f := bool_decide (c_focused c = f) in
      Some (render_composer_field theme to (lit "To") (c_to c) (c_to_cursor c) (focused FTo)
            ++ render_composer_field theme cc (lit "Cc") (c_cc c) (c_cc_cursor c) (focused FCc)
            ++ render_composer_field theme bcc (lit "Bcc") (c_bcc c) (c_bcc_cursor c) (focused FBcc)
            ++ render_composer_field theme subject (lit "Subject") (c_subject c) (c_subject_cursor c) (focused FSubject)
            ++ render_composer_body theme body (focused FBody) c
            ++ render_compose_attachments theme attachments app c
            ++ render_status status_area app theme)
  end.

Definition overlay_if_open (frame : Rect) (app : AppState) (theme : Theme) : list Draw :=
  if s_help_open app then render_help_overlay frame app theme else [].

(** The lower half: search results, the approval, the message with its
    attachments, or the message. *)
Definition render_lower (area : Rect) (app : AppState) (theme : Theme) (now : time) : option (list Draw) :=
  if search_pane_visible app then Some (render_search theme area app)
  else if approvals_folder_selected app then render_approval_detail theme area app now
  else if attachments_pane_visible app then render_detail_with_attachments theme area app
  else Some (render_detail theme area app).

Definition render (frame : Rect) (app : AppState) (now : time) : option (list Draw) :=
  let theme := Palettes.theme (s_theme app) in
  match s_composer app with
  | Some _ => composer ← render_composer frame app theme; Some (composer ++ overlay_if_open frame app theme)
  | None =>
      let toast_rows := as_u16 (Z.of_nat (List.length (s_toasts app))) in
      let root := split Vertical [CMin 5; CLength toast_rows; CLength 1] frame in
      root0 ← root !! 0;
      let main := split Vertical [CPercentage 58; CPercentage 42] root0 in
      main0 ← main !! 0;
      let top := split Horizontal [CPercentage 25; CPercentage 25; CPercentage 50] main0 in
      top0 ← top !! 0;
      top1 ← top !! 1;
      top2 ← top !! 2;
      main1 ← main !! 1;
      root1 ← root !! 1;
      root2 ← root !! 2;
      lower ← render_lower main1 app theme now;
      Some (render_accounts theme top0 app ++ render_folders theme top1 app ++ render_conversations theme top2 app now
            ++ lower ++ render_toasts root1 app theme ++ render_status root2 app theme ++ overlay_if_open frame app theme)
  end.
End screen.
