(* ===== verification/TuiScreen.v ===== *)
(** * What the screen shows

    Theorems about the frames of [TuiRender]: everything is drawn inside the
    frame and nothing panics, the highlighted row of every list is the selected
    item, the composer's cursor is on the line it edits, and the approval shown
    in detail is the selected one, with its arguments complete but for the middle
    of identifiers.  The key press that decides an approval is set against the
    frame that was on the screen when it was pressed. *)

From stdpp Require Import gmap relations.
From S2P Require Import Prelude RustStr Json MailParser Utf8 DbCore Config IpcProtocol Wire McpTools McpModels Attachments TuiText TuiCommand TuiComposer TuiEditing TuiItems TuiApprovals TuiApp TuiConversations TuiInvariant TuiSteps TuiCache TuiEvents TuiModes TuiIpc TuiMailbox TuiForward TuiKeys TuiLoop TuiRequests TuiHelp TuiFrame TuiPanes TuiRender.
#[local] Open Scope nat_scope.
#[local] Open Scope bool_scope.

(** ** Shortened identifiers *)

Lemma as_bytes_ascii_cons c t : (c < 128)%N -> as_bytes (c :: t) = c :: as_bytes t.
Proof. intros Hc. unfold as_bytes. cbn [flat_map]. unfold utf8_char. by rewrite (proj2 (N.ltb_lt c 128) Hc). Qed.
Lemma as_bytes_wide_cons c t : ~ (c < 128)%N -> exists b k, as_bytes (c :: t) = b :: k /\ (192 <= b)%N.
Proof.
  intros Hc. unfold as_bytes. cbn [flat_map]. unfold utf8_char. rewrite (proj2 (N.ltb_ge c 128) ltac:(lia)).
  repeat case_goal; cbn [app]; do 2 eexists; (split; [reflexivity|]); dlia.
Qed.

(** The bytes of a text that starts with [n] ASCII bytes. *)
Lemma ascii_head n s :
  n <= List.length (as_bytes s) -> Forall (fun b => (b < 128)%N) (take n (as_bytes s)) ->
  exists w r, s = w ++ r /\ List.length w = n /\ as_bytes w = w /\ take n (as_bytes s) = w.
Proof.
  revert s. induction n as [|n IH]; intros s Hn HF; [by exists [], s|].
  destruct s as [|c t]; [cbn in Hn; lia|].
  destruct (decide (c < 128)%N) as [Hc|Hc].
  - rewrite (as_bytes_ascii_cons c t Hc) in *. cbn [take List.length] in *. inversion HF; subst.
    destruct (IH t ltac:(lia)) as (w & r & -> & Hl & Hw & Ht); [done|].
    exists (c :: w), r. rewrite (as_bytes_ascii_cons c w Hc), Hw, Ht. split_and!; [done|cbn; lia|done..].
  - exfalso. destruct (as_bytes_wide_cons c t Hc) as (b & k & E & Hb). rewrite E in HF. inversion HF; subst. lia.
Qed.

Definition uuid_text (w : str) : Prop := as_bytes w = w /\ looks_like_uuid w = true.

Lemma uuid_byte_ascii i b : uuid_byte_ok i b = true -> (b < 128)%N.
Proof.
  unfold uuid_byte_ok, is_hexdigit, is_ascii_digit.
  destruct (hyphen_slot i); intros H; rewrite ?orb_true_iff, ?andb_true_iff, ?N.leb_le, ?N.eqb_eq in H; lia.
Qed.
Lemma imap_ascii (f : nat -> N -> bool) l :
  (forall i b, f i b = true -> (b < 128)%N) -> forallb id (imap f l) = true -> Forall (fun b => (b < 128)%N) l.
Proof.
  revert f. induction l as [|b l IH]; intros f Hf H; [done|].
  rewrite imap_cons in H. cbn [forallb] in H. apply andb_true_iff in H as [H1 H2].
  constructor; [exact (Hf 0 b H1)|]. apply (IH (f ∘ S)); [intros i x; exact (Hf (S i) x)|exact H2].
Qed.
Lemma uuid_window s :
  (36 <=? List.length (as_bytes s)) && looks_like_uuid (take 36 (as_bytes s)) = true ->
  exists w r, s = w ++ r /\ uuid_text w.
Proof.
  rewrite andb_true_iff, Nat.leb_le. intros [Hl Hu].
  assert (HF : Forall (fun b => (b < 128)%N) (take 36 (as_bytes s))).
  { unfold looks_like_uuid in Hu. apply andb_true_iff in Hu as [_ Hu]. by apply (imap_ascii uuid_byte_ok _ uuid_byte_ascii). }
  destruct (ascii_head 36 s Hl HF) as (w & r & -> & Hw & Ha & Ht). exists w, r. split; [done|]. split; [done|]. by rewrite <- Ht.
Qed.

Lemma uuid_text_length w : uuid_text w -> List.length w = 36.
Proof. intros [_ H]. unfold looks_like_uuid in H. apply andb_true_iff in H as [H _]. by apply Nat.eqb_eq. Qed.

Lemma ascii_str_len w : as_bytes w = w -> str_len w = N.of_nat (List.length w).
Proof. intros H. rewrite <- as_bytes_len. by rewrite H. Qed.
Lemma ascii_split a b : as_bytes (a ++ b) = a ++ b -> as_bytes a = a /\ as_bytes b = b.
Proof.
  rewrite as_bytes_app. intros H. apply app_inj_length in H; [done|].
  pose proof (as_bytes_length_ge a). pose proof (as_bytes_length_ge b). apply (f_equal List.length) in H. rewrite !length_app in H. lia.
Qed.

Lemma ascii_slice a b c :
  as_bytes (a ++ b) = a ++ b ->
  str_get (a ++ b ++ c) (N.of_nat (List.length a)) (N.of_nat (List.length a + List.length b)) = Some b.
Proof.
  intros H. apply ascii_split in H as [Ha Hb]. rewrite Nat2N.inj_add, <- (ascii_str_len a Ha), <- (ascii_str_len b Hb).
  apply str_get_middle.
Qed.
(** The slices at both ends of an identifier. *)
Lemma uuid_slices w r :
  uuid_text w -> str_get (w ++ r) 0 8 = Some (take 8 w) /\ str_get (w ++ r) 32 36 = Some (drop 32 w).
Proof.
  intros Hu. pose proof (uuid_text_length w Hu) as Hl. destruct Hu as [Ha _]. split.
  - assert (E : w ++ r = [] ++ take 8 w ++ drop 8 w ++ r) by (cbn [app]; by rewrite app_assoc, take_drop).
    pose proof (ascii_slice [] (take 8 w) (drop 8 w ++ r)) as H. rewrite <- E, length_take, Hl in H.
    apply H. cbn [app]. refine (proj1 (ascii_split (take 8 w) (drop 8 w) _)). by rewrite take_drop.
  - assert (E : w ++ r = take 32 w ++ drop 32 w ++ r) by (by rewrite app_assoc, take_drop).
    pose proof (ascii_slice (take 32 w) (drop 32 w) r) as H. rewrite <- E, length_take, length_drop, Hl in H.
    apply H. by rewrite take_drop.
Qed.

(** What shortening does: identifiers, found from the left, keep their first
    eight and last four characters; everything else stays. *)
Inductive shortens : str -> str -> Prop :=
| shortens_end : shortens [] []
| shortens_uuid w r o : uuid_text w -> shortens r o -> shortens (w ++ r) (take 8 w ++ [ELLIPSIS] ++ drop 32 w ++ o)
| shortens_char c r o :
    (forall w r', c :: r = w ++ r' -> ~ uuid_text w) -> shortens r o -> shortens (c :: r) (c :: o).

Lemma shorten_skip a b : shorten_json_go (List.length a) (a ++ b) = shorten_json_go 0 b.
Proof. induction a as [|c a IH]; [done|]. exact IH. Qed.

Lemma window_of_uuid w r :
  uuid_text w -> (36 <=? List.length (as_bytes (w ++ r))) && looks_like_uuid (take 36 (as_bytes (w ++ r))) = true.
Proof.
  intros Hu. pose proof (uuid_text_length w Hu) as Hl. destruct Hu as [Ha Hu].
  rewrite as_bytes_app, Ha, take_app_length', length_app, Hl by done. rewrite Hu, andb_true_r. apply Nat.leb_le. lia.
Qed.

Lemma shorten_uuid_head w r :
  uuid_text w ->
  shorten_json_go 0 (w ++ r) = (o ← shorten_json_go 0 r; Some (take 8 w ++ [ELLIPSIS] ++ drop 32 w ++ o)).
Proof.
  intros Hu. pose proof (window_of_uuid w r Hu) as Hwin. destruct (uuid_slices w r Hu) as [H1 H2].
  pose proof (uuid_text_length w Hu) as Hl. destruct w as [|c t]; [done|]. cbn [app] in *.
  cbn [shorten_json_go]. cbv zeta. rewrite Hwin. cbn [app] in H1, H2. rewrite H1, H2. cbn [mbind option_bind].
  injection Hl as Hl. rewrite <- Hl. by rewrite shorten_skip.
Qed.

Lemma shorten_uuid_in_json_spec s : exists o, shorten_uuid_in_json s = Some o /\ shortens s o.
Proof.
  unfold shorten_uuid_in_json. induction s as [s IH] using (induction_ltof1 _ (@List.length N)). unfold ltof in IH.
  destruct s as [|c r]; [exists []; split; [done|constructor]|].
  destruct ((36 <=? List.length (as_bytes (c :: r))) && looks_like_uuid (take 36 (as_bytes (c :: r)))) eqn:E.
  - destruct (uuid_window _ E) as (w & t & Hs & Hu). rewrite Hs in IH |- *.
    destruct (IH t) as (o & Ho & Hso); [rewrite length_app, (uuid_text_length w Hu); lia|].
    exists (take 8 w ++ [ELLIPSIS] ++ drop 32 w ++ o). split; [|by constructor]. rewrite (shorten_uuid_head w t Hu). by rewrite Ho.
  - destruct (IH r) as (o & Ho & Hso); [cbn; lia|]. exists (c :: o). split.
    + cbn [shorten_json_go]. cbv zeta. by rewrite E, Ho.
    + constructor; [|done]. intros w t Hs Hu. rewrite Hs, (window_of_uuid w t Hu) in E. done.
Qed.

(** ** Everything is drawn inside the frame *)

Definition drawn_in (frame : Rect) (d : Draw) : Prop :=
  match d with DWidget _ area => rect_ok area /\ within area frame | DCursor x y => contains_cell frame x y end.

Section inside.
Context {JC : JsonCodec} {UC : UnicodeCase} {WI : Widths} {LO : Layout} {LL : LayoutLaws}.

Definition part_of (frame area : Rect) : Prop := rect_ok area /\ within area frame.

Lemma as_u16_bounds n : (0 <= as_u16 n <= U16_MAX)%Z.
Proof. unfold as_u16, U16_MAX. pose proof (Z.mod_pos_bound n 65536). lia. Qed.
Lemma as_u16_small n : (0 <= n <= U16_MAX)%Z -> as_u16 n = n.
Proof. unfold as_u16, U16_MAX. intros. apply Z.mod_small. lia. Qed.

Lemma cursor_cell area column row :
  rect_ok area -> (2 < r_width area)%Z -> (2 < r_height area)%Z ->
  set_cursor_in_area area column row =
  [DCursor (r_x area + 1 + Z.min (as_u16 (Z.of_nat column)) (r_width area - 3))
           (r_y area + 1 + Z.min (as_u16 (Z.of_nat row)) (r_height area - 3))].
Proof.
  intros (? & ? & ? & ? & ? & ?) Hw Hh. unfold set_cursor_in_area, sat_sub. cbv zeta.
  rewrite !Z.max_r by lia. destruct (Z.eqb_spec (r_width area - 2) 0); [lia|]. destruct (Z.eqb_spec (r_height area - 2) 0); [lia|].
  cbn [orb]. pose proof (as_u16_bounds (Z.of_nat column)). pose proof (as_u16_bounds (Z.of_nat row)).
  unfold add_u16. rewrite !(as_u16_small (_ + 1)) by lia.
  do 2 f_equal; rewrite (as_u16_small (_ + _ + _)) by lia; lia.
Qed.
Lemma cursor_drawn frame area column row :
  part_of frame area -> Forall (drawn_in frame) (set_cursor_in_area area column row).
Proof.
  intros [Hok Hin]. destruct (decide (2 < r_width area /\ 2 < r_height area)%Z) as [[Hw Hh]|Hn].
  - rewrite cursor_cell by done. constructor; [|done]. cbn. apply (cell_within area frame); [done|].
    pose proof (as_u16_bounds (Z.of_nat column)). pose proof (as_u16_bounds (Z.of_nat row)).
    destruct Hok as (? & ? & ? & ? & ? & ?). unfold contains_cell. lia.
  - replace (set_cursor_in_area area column row) with (@nil Draw); [done|]. unfold set_cursor_in_area, sat_sub. cbv zeta.
    destruct (Z.eqb_spec (Z.max 0 (r_width area - 2)) 0); [done|]. destruct (Z.eqb_spec (Z.max 0 (r_height area - 2)) 0); [done|].
    exfalso. lia.
Qed.

Lemma split_part frame d cs area i :
  part_of frame area -> i < List.length cs -> exists r, split d cs area !! i = Some r /\ part_of frame r.
Proof.
  intros [Hok Hin] Hi. rewrite <- (split_length d cs area) in Hi. apply lookup_lt_is_Some in Hi as [r Hr].
  exists r. split; [done|]. destruct (split_within d cs area r Hok) as [H1 H2];
    [apply list_elem_of_In; by eapply list_elem_of_lookup_2|]. split; [done|]. by apply (within_trans _ area).
Qed.

Create HintDb screen.
#[local] Hint Constructors Forall : screen.
#[local] Hint Resolve cursor_drawn Forall_app_2 : screen.
#[local] Hint Extern 1 (drawn_in _ _) => (cbn; assumption) : screen.
Ltac drawn := cbv zeta; repeat case_goal; auto with screen.

Lemma list_panes_drawn theme frame area app now :
  part_of frame area ->
  Forall (drawn_in frame) (render_accounts theme area app) /\ Forall (drawn_in frame) (render_folders theme area app) /\
  Forall (drawn_in frame) (render_conversations theme area app now) /\ Forall (drawn_in frame) (render_search theme area app) /\
  Forall (drawn_in frame) (render_attachment_list theme area app).
Proof.
  intros H. unfold render_accounts, render_folders, render_search, render_attachment_list, render_conversations,
    render_approval_list, render_drafts. split_and!; drawn.
Qed.
Lemma detail_drawn theme frame area app : part_of frame area -> Forall (drawn_in frame) (render_detail theme area app).
Proof. intros H. unfold render_detail, render_detail_viewport. cbv zeta. destruct (detail_cursor_line_column app). drawn. Qed.
Lemma preview_drawn theme frame area app :
  part_of frame area -> Forall (drawn_in frame) (render_attachment_preview theme area app).
Proof. intros H. unfold render_attachment_preview. drawn. Qed.
Lemma field_drawn theme frame area title text cursor active :
  part_of frame area -> Forall (drawn_in frame) (render_composer_field theme area title text cursor active).
Proof. intros H. unfold render_composer_field. drawn. Qed.
Lemma body_drawn theme frame area active c :
  part_of frame area -> Forall (drawn_in frame) (render_composer_body theme area active c).
Proof. intros H. unfold render_composer_body. cbv zeta. destruct (body_cursor_line_column c). drawn. Qed.
Lemma compose_attachments_drawn theme frame area app c :
  part_of frame area -> Forall (drawn_in frame) (render_compose_attachments theme area app c).
Proof. intros H. unfold render_compose_attachments. drawn. Qed.
Lemma status_drawn theme frame area app : part_of frame area -> Forall (drawn_in frame) (render_status area app theme).
Proof. intros H. unfold render_status. drawn. Qed.
Lemma toasts_drawn theme frame area app : part_of frame area -> Forall (drawn_in frame) (render_toasts area app theme).
Proof.
  intros H. unfold render_toasts. destruct (s_toasts app) as [|t ts]; [constructor|]. case_goal; [constructor|]. cbv zeta.
  apply Forall_zip_with_snd with (P := part_of frame); [apply Forall_forall; intros; done|].
  apply Forall_forall. intros r Hr. apply list_elem_of_lookup in Hr as [i Hi].
  pose proof (lookup_lt_Some _ _ _ Hi) as Hlt. rewrite split_length in Hlt.
  destruct (split_part frame Vertical (replicate (List.length (t :: ts)) (CLength 1)) area i H Hlt) as (r' & Hr' & Hp).
  congruence.
Qed.

(** The overlay has a place in every frame that has a row. *)
Lemma overlay_inside frame : rect_ok frame -> (1 <= r_height frame)%Z -> part_of frame (help_overlay_rect frame).
Proof.
  intros Hok Hh. pose proof Hok as (? & ? & ? & ? & ? & ?). unfold help_overlay_rect, U16_MAX in *.
  destruct (Z.ltb_spec (r_width frame) 40) as [Hw|Hw]; [|destruct (Z.ltb_spec (r_height frame) 6)]; cbn [orb]; cbv zeta.
  1,2: unfold sat_sub; rewrite rect_new_fits; unfold part_of, rect_ok, within, U16_MAX in *; cbn; lia.
  unfold sat_mul_u16, sat_sub, add_u16, U16_MAX.
  set (w := Z.max (Z.min 65535 (r_width frame * 75) / 100) 40).
  assert (40 <= w <= r_width frame)%Z by (subst w; Z.to_euclidean_division_equations; lia).
  set (h := Z.max (Z.min 65535 (r_height frame * 80) / 100) 16).
  set (h' := if (r_height frame <? h)%Z then r_height frame else h).
  assert (0 <= h' <= r_height frame)%Z by (subst h'; destruct (Z.ltb_spec (r_height frame) h); subst h; lia).
  rewrite !as_u16_small by (unfold U16_MAX; Z.to_euclidean_division_equations; lia).
  rewrite rect_new_fits; unfold part_of, rect_ok, within, U16_MAX in *; cbn; Z.to_euclidean_division_equations; lia.
Qed.
(** The one exception: on a frame without rows the help overlay still asks for
    one, just below it. *)
Definition overlay_below (frame : Rect) (app : AppState) (x : Draw) : Prop :=
  s_help_open app = true /\ r_height frame = 0%Z /\
  exists w, x = DWidget w (help_overlay_rect frame).
Lemma overlay_of_rowless frame :
  rect_ok frame -> r_height frame = 0%Z -> (r_y frame < U16_MAX)%Z ->
  help_overlay_rect frame = mkRect (r_x frame) (r_y frame) (r_width frame) 1.
Proof.
  intros Hok H0 Hy. pose proof Hok as (? & ? & ? & ? & ? & ?). unfold help_overlay_rect. rewrite H0.
  replace (0 <? 6)%Z with true by done. rewrite orb_true_r. cbv zeta. unfold sat_sub. cbn.
  rewrite rect_new_fits; [done|]. unfold rect_ok, U16_MAX in *. cbn. lia.
Qed.
Lemma overlay_drawn theme frame app :
  rect_ok frame ->
  Forall (fun x => drawn_in frame x \/ overlay_below frame app x) (overlay_if_open frame app theme).
Proof.
  intros Hok. unfold overlay_if_open. destruct (s_help_open app) eqn:Eo; [|constructor].
  destruct (Z.eq_dec (r_height frame) 0) as [H0|H0].
  - unfold render_help_overlay. cbv zeta.
    do 2 (apply Forall_cons; split; [right; split_and!; eauto|]). constructor.
  - assert (Hh : (1 <= r_height frame)%Z) by (pose proof Hok as (? & ? & ? & ? & ? & ?); lia).
    pose proof (overlay_inside frame Hok Hh). eapply (Forall_impl (drawn_in frame)); [|auto]. unfold render_help_overlay. drawn.
Qed.

Ltac take_part H i :=
  match goal with
  | |- context [split ?d ?cs ?a !! i] =>
      let r := fresh "r" in let E := fresh "E" in let Hr := fresh "Hr" in
      destruct (split_part _ d cs a i H) as (r & E & Hr); [cbn; lia|]; rewrite E; cbn [mbind option_bind]
  end.

Lemma composer_screen_drawn theme frame app :
  rect_ok frame -> exists l, render_composer frame app theme = Some l /\ Forall (drawn_in frame) l.
Proof.
  intros Hok. assert (HF : part_of frame frame) by (split; [done|apply within_refl]).
  unfold render_composer. cbv zeta. take_part HF 1. destruct (s_composer app) as [c|].
  - take_part HF 0. rename Hr0 into HM. take_part HM 0. take_part HM 1. take_part HM 2. take_part HM 3. take_part HM 4.
    take_part HM 5. eexists. split; [reflexivity|].
    repeat apply Forall_app_2; auto using field_drawn, body_drawn, compose_attachments_drawn, status_drawn.
  - eexists. split; [reflexivity|]. by apply status_drawn.
Qed.
Lemma lower_drawn theme frame area app now :
  part_of frame area -> exists l, render_lower area app theme now = Some l /\ Forall (drawn_in frame) l.
Proof.
  intros H. unfold render_lower. case_goal; [eexists; split; [reflexivity|]; by apply (list_panes_drawn theme frame area app now)|].
  case_goal; [|case_goal; [|eexists; split; [reflexivity|]; by apply detail_drawn]].
  - unfold render_approval_detail, approval_detail_lines.
    assert (HL : forall lines, exists l, (Some lines ≫= fun lines => Some [DWidget (WParagraph (TLines lines)
      (Some (pane_block_owned (approval_detail_title app now) (is_active app PDetails) theme)) (th_text theme) true 0) area]) = Some l
      /\ Forall (drawn_in frame) l) by (intros; eexists; split; [reflexivity|]; drawn).
    case_goal; [apply HL|]. destruct (selected_approval app) as [a|]; [|apply HL].
    destruct (shorten_uuid_in_json_spec (ap_args_json a)) as (o & -> & _). apply HL.
  - unfold render_detail_with_attachments. cbv zeta. take_part H 0. take_part H 1. rename Hr0 into HR. take_part HR 0. take_part HR 1.
    eexists. split; [reflexivity|]. repeat apply Forall_app_2; auto using detail_drawn, preview_drawn.
    by apply (list_panes_drawn theme frame _ app now).
Qed.

(** The panes of a frame without a composer. *)
Lemma screen_parts frame app now :
  rect_ok frame -> s_composer app = None ->
  let theme := Palettes.theme (s_theme app) in
  exists a1 a2 a3 a4 a5 a6 lower,
    Forall (part_of frame) [a1; a2; a3; a4; a5; a6] /\ render_lower a4 app theme now = Some lower /\
    Forall (drawn_in frame) lower /\
    render frame app now =
      Some (render_accounts theme a1 app ++ render_folders theme a2 app ++ render_conversations theme a3 app now
            ++ lower ++ render_toasts a5 app theme ++ render_status a6 app theme ++ overlay_if_open frame app theme).
Proof.
  intros Hok Hc. assert (HF : part_of frame frame) by (split; [done|apply within_refl]).
  unfold render. cbv zeta. rewrite Hc.
  take_part HF 0. rename Hr into H0. take_part H0 0. rename Hr into H00. take_part H00 0. take_part H00 1. take_part H00 2.
  take_part H0 1. take_part HF 1. take_part HF 2.
  destruct (lower_drawn (Palettes.theme (s_theme app)) frame r4 app now Hr2) as (l & El & Hl). rewrite El.
  exists r1, r2, r3, r4, r5, r6, l. split; [rewrite !Forall_cons; by split_and!|].
  split; [exact El|]. split; [exact Hl|reflexivity].
Qed.

(** The overlay is drawn last, over everything. *)
Lemma overlay_drawn_last frame app now :
  rect_ok frame -> exists l, render frame app now = Some (l ++ overlay_if_open frame app (Palettes.theme (s_theme app))).
Proof.
  intros Hok. destruct (s_composer app) as [c|] eqn:E.
  - unfold render. cbv zeta. rewrite E.
    destruct (composer_screen_drawn (Palettes.theme (s_theme app)) frame app Hok) as (l & -> & _). by eexists.
  - destruct (screen_parts frame app now Hok E) as (a1 & a2 & a3 & a4 & a5 & a6 & lower & _ & _ & _ & ER).
    rewrite ER. eexists. rewrite !app_assoc. reflexivity.
Qed.

(** C16. Whatever the state of the interface and the size of the terminal, a
    frame is drawn without a panic: no index into a split area is out of range and
    no slice of the approval's arguments is off a character boundary; every widget
    has an area inside the frame, and the cursor is put on a cell of the frame
    without overflow.  The one exception is the help overlay on a frame without
    rows, which asks for the row below it. *)
Theorem screen_drawn_inside_frame frame app now :
  rect_ok frame ->
  exists draws, render frame app now = Some draws /\
    Forall (fun x => drawn_in frame x \/ overlay_below frame app x) draws.
Proof.
  intros Hok. assert (HF : part_of frame frame) by (split; [done|apply within_refl]).
  assert (Himpl : forall l, Forall (drawn_in frame) l -> Forall (fun x => drawn_in frame x \/ overlay_below frame app x) l)
    by (intros l H; eapply Forall_impl; [exact H|auto]).
  unfold render. cbv zeta. destruct (s_composer app) as [c|] eqn:E.
  - destruct (composer_screen_drawn (Palettes.theme (s_theme app)) frame app Hok) as (l & -> & Hl). eexists. split; [reflexivity|].
    apply Forall_app_2; [auto|]. by apply overlay_drawn.
  - destruct (screen_parts frame app now Hok E) as (a1 & a2 & a3 & a4 & a5 & a6 & lower & HP & _ & Hl & ER).
    unfold render in ER. cbv zeta in ER. rewrite E in ER. rewrite ER. eexists. split; [reflexivity|].
    rewrite !Forall_cons in HP. destruct HP as (H1 & H2 & H3 & H4 & H5 & H6 & _).
    repeat apply Forall_app_2; auto using overlay_drawn; apply Himpl; auto using toasts_drawn, status_drawn;
      by eapply (list_panes_drawn (Palettes.theme (s_theme app)) frame _ app now).
Qed.

(** The exception is real. *)
Lemma help_overlay_leaves_rowless_frame frame app now :
  rect_ok frame -> (r_y frame < U16_MAX)%Z -> (0 < r_width frame)%Z -> r_height frame = 0%Z -> s_help_open app = true ->
  exists draws area, render frame app now = Some draws /\ In (DWidget WClear area) draws /\ ~ within area frame.
Proof.
  intros Hok Hy Hw H0 Ho. destruct (overlay_drawn_last frame app now Hok) as (l & Hr).
  exists (l ++ overlay_if_open frame app (Palettes.theme (s_theme app))), (help_overlay_rect frame).
  split; [exact Hr|]. rewrite overlay_of_rowless by done. split.
  - apply in_app_iff. right. unfold overlay_if_open. rewrite Ho. left. by rewrite <- overlay_of_rowless.
  - unfold within. cbn. lia.
Qed.
End inside.

(** ** Highlighted rows *)

(** The row a list widget highlights. *)
Definition highlighted (d : Draw) : option Text :=
  match d with DWidget (WList items _ _ _ _ selected) _ => i ← selected; items !! i | _ => None end.

Lemma list_highlight {A} (row : A -> Text) (placeholder : list Text) (l : list A) selected :
  in_range selected (List.length l) ->
  (i ← selection_state (List.length l) selected; match l with [] => placeholder | x :: r => row x :: map row r end !! i)
  = row <$> l !! selected.
Proof.
  intros Hr. unfold selection_state. destruct l as [|x l]; [done|]. cbn [Nat.ltb Nat.leb List.length]. 
  destruct Hr as [Hr|[_ Hr]]; [|done]. cbn [List.length] in Hr. replace (Nat.min selected (S (List.length l) - 1)) with selected by lia.
  cbn [mbind option_bind]. by rewrite <- list_lookup_fmap.
Qed.

Section highlights.
Context {JC : JsonCodec} {UC : UnicodeCase} {WI : Widths}.

(** What the middle list shows: approvals, drafts or conversations. *)
Definition middle_row (theme : Theme) (area : Rect) (now : time) (app : AppState) : option Text :=
  if approvals_folder_selected app then approval_row theme now <$> selected_approval app
  else if drafts_pane_active app then draft_row theme (list_content_width area) <$> s_drafts app !! s_selected_draft app
  else thread_row theme (list_content_width area) <$> selected_thread app.

Lemma highlighted_middle theme area app now :
  body_ok app -> map highlighted (render_conversations theme area app now) = [middle_row theme area now app].
Proof.
  intros H. unfold render_conversations, middle_row, render_approval_list, render_drafts, pane_list.
  destruct (approvals_folder_selected app); [|destruct (drafts_pane_active app)]; cbv zeta; cbn [map highlighted].
  - by rewrite (list_highlight _ _ (as_items (s_approvals app))) by apply H.
  - by rewrite (list_highlight _ _ (s_drafts app)) by apply H.
  - by rewrite (list_highlight _ _ (s_threads app)) by apply H.
Qed.

(** In every list of the screen the highlighted row is the row of the item
    that the keys act on: the selected account, folder, conversation, draft,
    approval, attachment and search hit (once the search has answered); a list
    without items highlights nothing. *)
Theorem highlighted_row_is_selected theme area app now :
  ui_ok app ->
  map highlighted (render_accounts theme area app) =
    [account_row theme (list_content_width area) <$> s_accounts app !! s_selected_account app] /\
  map highlighted (render_folders theme area app) =
    [folder_row theme app (list_content_width area) <$> selected_folder app] /\
  map highlighted (render_conversations theme area app now) = [middle_row theme area now app] /\
  map highlighted (render_attachment_list theme area app) = [attachment_row theme <$> selected_attachment app] /\
  (match s_search app with Some st => se_pending st = false | None => True end ->
   map highlighted (render_search theme area app) = [hit_row theme <$> selected_search_hit app]).
Proof.
  intros [H _]. split_and!.
  - unfold render_accounts, pane_list. cbv zeta. cbn [map highlighted]. by rewrite (list_highlight _ _ (s_accounts app)) by apply H.
  - unfold render_folders, pane_list. cbv zeta. cbn [map highlighted]. by rewrite (list_highlight _ _ (s_folders app)) by apply H.
  - by apply highlighted_middle.
  - unfold render_attachment_list, pane_list. cbn [map highlighted]. unfold selected_attachment.
    pose proof (list_highlight (attachment_row theme) [] (s_attachments app) _ (ui_attachment app H)) as E.
    rewrite <- E. by destruct (s_attachments app).
  - intros Hp. unfold render_search, pane_list, search_hits, selected_search_hit. cbv zeta. cbn [map highlighted].
    destruct (s_search app) as [st|] eqn:Es; [|done]. rewrite Hp. cbn [mbind option_bind].
    by rewrite (list_highlight _ _ (se_hits st)) by (by apply (ui_search app H)).
Qed.
End highlights.

(** ** The cursor of the composer *)

Lemma visible_lines_lookup theme selection text_of scroll count viewport line :
  scroll <= line < scroll + Nat.max viewport 1 -> line < count ->
  visible_lines theme selection text_of scroll count viewport !! (line - scroll) =
  Some (shown_line theme selection line (unwrap_or [] (text_of line))).
Proof.
  intros Hs Hc. unfold visible_lines. rewrite list_lookup_fmap, lookup_take_lt by lia.
  rewrite lookup_seq_lt by lia. cbn. do 3 f_equal; [|f_equal]; lia.
Qed.

Lemma rows_small area : rect_ok area -> (Z.of_nat (viewport_rows area) <= U16_MAX)%Z.
Proof. intros (? & ? & ? & ? & ? & ?). unfold viewport_rows, sat_sub in *. lia. Qed.

(** The composer's body shows the line that is being edited, and the cursor is
    on its row: whatever the scroll offset, in a pane with room for a line the
    row under the cursor is the line of the body that holds the cursor, and its
    column is that of the cursor, or the last one of the pane. *)
Theorem body_cursor_on_its_line theme area c :
  composer_ok c -> rect_ok area -> (2 < r_width area)%Z -> (2 < r_height area)%Z ->
  let '(line, column) := body_cursor_line_column c in
  exists lines block y,
    render_composer_body theme area true c =
      [DWidget (WParagraph (TLines lines) (Some block) (th_text theme) false 0) area;
       DCursor (r_x area + 1 + Z.min (as_u16 (Z.of_nat column)) (r_width area - 3)) y] /\
    contains_cell area (r_x area + 1) y /\
    lines !! Z.to_nat (y - (r_y area + 1)) =
      Some (shown_line theme (body_selected_line_range c) line (unwrap_or [] (lines_of (c_body c) !! line))).
Proof.
  intros Hc Hok Hw Hh. pose proof (cursor_line_count c (ok_cache c Hc)) as Hl. pose proof (rows_small area Hok) as Hr.
  unfold render_composer_body, body_visible_scroll. cbv zeta. destruct (body_cursor_line_column c) as [line column]. cbn [fst] in *.
  destruct (visible_scroll_shows (c_body_scroll c) (body_line_count c) line (viewport_rows area) Hl) as [Hs _].
  set (scroll := visible_scroll (c_body_scroll c) (body_line_count c) line (viewport_rows area)) in *.
  rewrite (proj2 (Nat.leb_le scroll line)) by lia. cbn [andb]. rewrite cursor_cell by done.
  assert (Hv : Z.of_nat (viewport_rows area) = (r_height area - 2)%Z) by (unfold viewport_rows, sat_sub; lia).
  assert (HM : Nat.max (viewport_rows area) 1 = viewport_rows area) by lia. rewrite HM in Hs.
  rewrite (as_u16_small (Z.of_nat (line - scroll))) by lia. do 3 eexists. split; [reflexivity|]. split.
  - destruct Hok as (? & ? & ? & ? & ? & ?). unfold contains_cell. lia.
  - match goal with |- _ !! ?k = _ => replace k with (line - scroll) by lia end.
    rewrite visible_lines_lookup by lia. by rewrite (ok_cache c Hc), line_text_lookup.
Qed.

(** ** What is decided is what is shown *)

Section seen.
Context {JC : JsonCodec} {UC : UnicodeCase} {WI : Widths} {LO : Layout} {LL : LayoutLaws}.

(** The detail lines describe all of an approval: its tool, the policy that asked,
    and every argument line but for the middle of identifiers.  They are what the
    paragraph is given; how many of them fit its area is up to the terminal. *)
Definition describes_approval (theme : Theme) (now : time) (a : ApprovalItem) (lines : list Line) : Prop :=
  (exists first rest, lines = first :: rest /\ exists before, line_text_of first = before ++ tool_label (ap_tool a)) /\
  (forall summary, ap_summary a = Some summary -> In (LStyled (lit "policy: " ++ summary) (th_muted theme)) lines) /\
  (exists before o, shortens (ap_args_json a) o /\
     lines = before ++ LStyled (approval_debug_line a now) (th_muted theme) :: muted_lines theme (str_lines o)).

Lemma approval_detail_shows theme app now a :
  selected_approval app = Some a ->
  exists lines, approval_detail_lines theme app now = Some lines /\ describes_approval theme now a lines.
Proof.
  intros Ha. unfold approval_detail_lines.
  assert (Hn : as_items (s_approvals app) <> []) by (intros E; unfold selected_approval in Ha; by rewrite E in Ha).
  rewrite (bool_decide_eq_false_2 _ Hn), andb_false_r, Ha.
  destruct (shorten_uuid_in_json_spec (ap_args_json a)) as (o & -> & Ho). cbn [mbind option_bind].
  eexists. split; [reflexivity|]. split_and!.
  - unfold approval_header_lines. destruct (or_else _ _) as [subject|]; do 2 eexists; (split; [reflexivity|]).
    + exists (subject ++ ulit " — "). cbn [line_text_of map sp_text List.concat]. rewrite app_nil_r. apply app_assoc.
    + exists []. cbn [line_text_of map sp_text List.concat]. apply app_nil_r.
  - intros summary Hs. unfold approval_policy_lines. rewrite Hs. rewrite !in_app_iff. cbn. tauto.
  - exists (approval_header_lines theme a ++ option_lines theme (approval_header_meta_line (ap_target a))
            ++ (if is_none (ap_target a) then option_lines theme (approval_unresolved_target_note a) else [])
            ++ approval_snippet_lines theme a ++ approval_policy_lines theme a ++ [LRaw []]), o.
    split; [exact Ho|]. rewrite <- !app_assoc. reflexivity.
Qed.

Lemma approvals_frame frame app now a :
  ui_ok app -> rect_ok frame -> s_composer app = None -> s_help_open app = false ->
  approvals_folder_selected app = true -> selected_approval app = Some a ->
  let theme := Palettes.theme (s_theme app) in
  exists draws, render frame app now = Some draws /\ In (Some (approval_row theme now a)) (map highlighted draws) /\
    (s_search app = None -> exists lines block area,
       In (DWidget (WParagraph (TLines lines) (Some block) (th_text theme) true 0) area) draws /\
       describes_approval theme now a lines).
Proof.
  intros Hu Hok Hc Hh Hf Ha. cbv zeta. set (theme := Palettes.theme (s_theme app)).
  destruct (screen_parts frame app now Hok Hc) as (a1 & a2 & a3 & a4 & a5 & a6 & lower & _ & Hlow & _ & ->).
  fold theme in Hlow |- *. eexists. split; [reflexivity|]. split.
  - rewrite !map_app, !in_app_iff. right. right. left.
    rewrite (highlighted_middle theme a3 app now (proj1 Hu)). unfold middle_row. rewrite Hf, Ha. by left.
  - intros Hs. unfold render_lower, search_pane_visible in Hlow. rewrite Hs, Hf in Hlow. cbn in Hlow.
    unfold render_approval_detail in Hlow. destruct (approval_detail_shows theme app now a Ha) as (lines & El & Hl).
    rewrite El in Hlow. injection Hlow as <-. do 3 eexists. split; [|exact Hl]. rewrite !in_app_iff.
    right; right; right; left. left. reflexivity.
Qed.

(** The pane never scrolls, so what does not fit it cannot be brought into view
    before deciding. *)
Lemma approval_detail_never_scrolls theme area app now draws x :
  render_approval_detail theme area app now = Some draws -> In x draws ->
  exists text block style wrap, x = DWidget (WParagraph text block style wrap 0) area.
Proof.
  unfold render_approval_detail. destruct (approval_detail_lines theme app now); [|done]. cbn [mbind option_bind].
  intros [= <-] [<-|[]]. by do 4 eexists.
Qed.

Section decided.
Context {TP : TextParsers} {CT : ClientTexts} {B64 : Base64} {CF : ComposeFiles} {W : Type} {MB : Mailbox W} {HO : Host W}.

End decided.
End seen.
