(* ===== verification/TuiOverlay.v ===== *)
(** * The help overlay

    What the overlay of [TuiRender] lists: every row of the catalogue once, those
    of the focused pane and mode first; and how its scroll offset, which the keys
    change and only the drawing clamps, moves. *)

From stdpp Require Import gmap.
From S2P Require Import Prelude RustStr Json MailParser Utf8 DbCore Config IpcProtocol Wire McpTools McpModels Attachments TuiText TuiCommand TuiComposer TuiItems TuiApprovals TuiApp TuiHelp TuiFrame TuiPanes TuiRender TuiIpc TuiMailbox TuiForward TuiKeys TuiLoop.
#[local] Open Scope nat_scope.
#[local] Open Scope bool_scope.

(** ** The rows *)

Definition entry_text (e : HelpEntry) : str := lit "  " ++ he_keys e ++ ulit "  —  " ++ he_summary e.
(** The rows among the lines of the overlay: only they are indented. *)
Definition indented (t : str) : bool := starts_with t (lit "  ").
Definition rows_of (lines : list Line) : list str := List.filter indented (map line_text_of lines).

Lemma rows_of_app a b : rows_of (a ++ b) = rows_of a ++ rows_of b.
Proof. unfold rows_of. by rewrite map_app, List.filter_app. Qed.
Lemma rows_of_cons l r : rows_of (l :: r) = (if indented (line_text_of l) then [line_text_of l] else []) ++ rows_of r.
Proof. unfold rows_of. cbn [map List.filter]. by destruct (indented _). Qed.
Lemma one_span_text t style : line_text_of (LSpans [mkSpan t style]) = t.
Proof. cbn. apply app_nil_r. Qed.
Lemma entry_line_row e style : line_text_of (help_entry_line e style) = entry_text e /\ indented (entry_text e) = true.
Proof. split; [apply one_span_text|]. apply starts_with_app. Qed.
Lemma rows_of_entries style l : rows_of (map (fun e => help_entry_line e style) l) = map entry_text l.
Proof.
  induction l as [|e l IH]; [done|]. cbn [map]. rewrite rows_of_cons, IH. destruct (entry_line_row e style) as [-> ->]. done.
Qed.

Lemma titles_flush : Forall (fun s => indented (hs_title s) = false) HELP_ROWS.
Proof. by repeat constructor. Qed.

#[local] Hint Rewrite rows_of_app rows_of_cons rows_of_entries one_span_text : rows.
Ltac rows := autorewrite with rows; cbn [line_text_of indented]; autorewrite with rows; cbn [app].

Section overlay.
Variables (active : list Applicability) (theme : Theme).
Abbreviation on := (entry_is_active active).
Abbreviation off := (fun e => negb (entry_is_active active e)).

Lemma filter_existsb_nil {A} (f : A -> bool) l : existsb f l = false -> List.filter f l = [].
Proof.
  induction l as [|x l IH]; [done|]. cbn. intros H. apply orb_false_iff in H as [-> H]. by apply IH.
Qed.

Lemma active_rows sections lines first :
  Forall (fun s => indented (hs_title s) = false) sections ->
  rows_of (foldl (push_active_section active theme) (lines, first) sections).1 =
  rows_of lines ++ map entry_text (List.filter on (flat_map hs_entries sections)).
Proof.
  revert lines first. induction sections as [|s sections IH]; intros lines first HF; [cbn; by rewrite app_nil_r|].
  inversion HF as [|? ? Ht HF']; subst. cbn [foldl flat_map]. rewrite List.filter_app, map_app.
  unfold push_active_section at 2. destruct (existsb on (hs_entries s)) eqn:E; cbn [negb].
  - rewrite IH by done. rows. rewrite Ht. cbn [app]. rewrite <- !app_assoc. by destruct first.
  - rewrite IH by done. by rewrite (filter_existsb_nil _ _ E).
Qed.
Lemma rest_rows wrote sections lines first separator :
  Forall (fun s => indented (hs_title s) = false) sections ->
  rows_of (foldl (push_rest_section active theme wrote) (lines, first, separator) sections).1.1 =
  rows_of lines ++ map entry_text (List.filter off (flat_map hs_entries sections)).
Proof.
  revert lines first separator. induction sections as [|s sections IH]; intros lines first separator HF; [cbn; by rewrite app_nil_r|].
  inversion HF as [|? ? Ht HF']; subst. cbn [foldl flat_map]. rewrite List.filter_app, map_app.
  unfold push_rest_section at 2. cbv zeta. destruct (existsb off (hs_entries s)) eqn:E; cbn [negb].
  - rewrite IH by done. rows. rewrite Ht. cbn [app]. rewrite <- !app_assoc. by destruct first, separator, wrote.
  - rewrite IH by done. by rewrite (filter_existsb_nil _ _ E).
Qed.

Lemma overlay_rows label :
  rows_of (build_help_lines active label theme) =
  map entry_text (List.filter on help_entries) ++ map entry_text (List.filter off help_entries).
Proof.
  unfold build_help_lines. cbv zeta.
  set (start := [LSpans [mkSpan _ (th_command theme)]; LRaw []]).
  assert (Hs : rows_of start = []) by (subst start; rows; by destruct active).
  pose proof (active_rows HELP_ROWS start true titles_flush) as HA.
  destruct (foldl (push_active_section active theme) (start, true) HELP_ROWS) as [lines first]. cbn [fst] in HA.
  pose proof (rest_rows (negb first) HELP_ROWS lines true false titles_flush) as HR.
  destruct (foldl (push_rest_section active theme (negb first)) (lines, true, false) HELP_ROWS) as [[lines' ?] ?]. cbn [fst] in HR.
  rewrite rows_of_app, HR, HA, Hs. by rewrite app_nil_r.
Qed.
End overlay.

(** Where a row applies: everywhere, in the mode that is open, or in the focused
    pane unless a prompt is open over it. *)
Definition applies_here (app : AppState) (e : HelpEntry) : bool :=
  bool_decide (he_applies_to e = AGlobal) ||
  bool_decide (mode_overlay app = Some (he_applies_to e)) ||
  (bool_decide (pane_applicability app = Some (he_applies_to e)) &&
   (is_none (mode_overlay app) || bool_decide (mode_overlay app = Some AComposer))).

Lemma pane_is_pane app p : pane_applicability app = Some p -> p <> AGlobal /\ p <> AComposer /\ p <> ACommandBar.
Proof. unfold pane_applicability. destruct (s_active app); repeat case_goal; intros [= <-]; done. Qed.
Lemma overlay_is_mode app m : mode_overlay app = Some m -> m = AComposer \/ m = ACommandBar \/ m = AQuickSearch.
Proof. unfold mode_overlay. destruct (s_composer app); [intros [= <-]; auto|]. destruct (s_mode app); intros [= <-]; auto. Qed.

Lemma active_iff_applies app e : entry_is_active (active_applicability_set app) e = applies_here app e.
Proof.
  unfold entry_is_active, active_applicability_set, applies_here.
  destruct (mode_overlay app) as [m|] eqn:Em; [destruct (overlay_is_mode app m Em) as [->|[->| ->]]|];
    (destruct (pane_applicability app) as [p|] eqn:Ep; [pose proof (pane_is_pane app p Ep) as (H1 & H2 & H3)|]);
    try (destruct p; try done); destruct (he_applies_to e); done.
Qed.

Lemma entry_texts_distinct : NoDup (map entry_text help_entries).
Proof. apply (bool_decide_unpack _). by vm_compute. Qed.

Lemma filter_partition {A} (f : A -> bool) l : List.filter f l ++ List.filter (fun x => negb (f x)) l ≡ₚ l.
Proof.
  induction l as [|x l IH]; [done|]. cbn. destruct (f x); cbn [negb app]; [by rewrite IH|].
  by rewrite <- Permutation_middle, IH.
Qed.

(** C29. The help overlay lists every row of the catalogue exactly once: first,
    in the catalogue's order, the rows that apply where the user is (global ones,
    those of the open mode, those of the focused pane unless a prompt covers it),
    then all the others. *)
Theorem help_overlay_is_complete app theme :
  let shown := rows_of (build_help_lines (active_applicability_set app) (pane_label_for_help app) theme) in
  shown = map entry_text (List.filter (applies_here app) help_entries)
          ++ map entry_text (List.filter (fun e => negb (applies_here app e)) help_entries) /\
  shown ≡ₚ map entry_text help_entries /\ NoDup shown.
Proof.
  cbv zeta. rewrite overlay_rows.
  rewrite (List.filter_ext _ _ (active_iff_applies app)).
  rewrite (List.filter_ext (fun e => negb (entry_is_active (active_applicability_set app) e))
             (fun e => negb (applies_here app e))) by (intros e; by rewrite active_iff_applies).
  assert (HP : map entry_text (List.filter (applies_here app) help_entries)
    ++ map entry_text (List.filter (fun e => negb (applies_here app e)) help_entries) ≡ₚ map entry_text help_entries)
    by (rewrite <- map_app; apply Permutation_map, filter_partition).
  split; [done|]. split; [done|]. rewrite HP. apply entry_texts_distinct.
Qed.

(** ** Scrolling *)

Section scrolling.
Context {TP : TextParsers} {JC : JsonCodec} {UC : UnicodeCase} {CT : ClientTexts} {B64 : Base64} {CF : ComposeFiles}.
Context {W : Type} {MB : Mailbox W} {HO : Host W}.

(** The keys that scroll up. *)
Definition scrolls_up (key : KeyEvent) : Prop :=
  ke_code key = KUp \/ ke_code key = KPageUp \/ ke_code key = KChar (ch "k").
Fixpoint press_all (keys : list KeyEvent) (u : Ui W) : Ui W :=
  match keys with [] => u | key :: rest => press_all rest (handle_key key u).2 end.

(** The state with another offset. *)
Definition at_scroll (z : Z) (s : AppState) : AppState := s <| s_help_scroll := z |>.
Lemma at_scroll_fields z s :
  s_help_scroll (at_scroll z s) = z /\ s_help_open (at_scroll z s) = s_help_open s /\
  active_applicability_set (at_scroll z s) = active_applicability_set s /\
  pane_label_for_help (at_scroll z s) = pane_label_for_help s.
Proof. by destruct s. Qed.
Lemma at_scroll_twice z z' s : at_scroll z (at_scroll z' s) = at_scroll z s.
Proof. by destruct s. Qed.

Lemma help_key_press key (u : Ui W) :
  s_help_open (u_app u) = true -> (handle_key key u).2 = (handle_help_key key u).2.
Proof. intros H. unfold handle_key. rewrite kgets_then. rewrite H. done. Qed.

Lemma scroll_up_press key (u : Ui W) :
  s_help_open (u_app u) = true -> scrolls_up key ->
  exists z, u_app (handle_key key u).2 = at_scroll z (u_app u) /\
    (s_help_scroll (u_app u) - Z.of_nat HELP_PAGE_LINES <= z)%Z.
Proof.
  intros H Hk. rewrite help_key_press by done.
  assert (E : exists n, n <= HELP_PAGE_LINES /\ handle_help_key (W := W) key = kmodify (scroll_help_up n)).
  { unfold handle_help_key, HELP_PAGE_LINES. destruct Hk as [->|[->| ->]]; [exists 1|exists 10|exists 1]; (split; [lia|done]). }
  destruct E as (n & Hn & ->). exists (Z.max 0 (s_help_scroll (u_app u) - Z.of_nat n)). split; [done|lia].
Qed.
Lemma scroll_up_presses keys (u : Ui W) :
  s_help_open (u_app u) = true -> Forall scrolls_up keys ->
  exists z, u_app (press_all keys u) = at_scroll z (u_app u) /\
    (s_help_scroll (u_app u) - Z.of_nat HELP_PAGE_LINES * Z.of_nat (List.length keys) <= z)%Z.
Proof.
  revert u. induction keys as [|key keys IH]; intros u Ho HF.
  { exists (s_help_scroll (u_app u)). split; [by destruct (u_app u) eqn:E; cbn; rewrite E|cbn; lia]. }
  inversion HF as [|? ? Hk HF']; subst. cbn [press_all List.length].
  destruct (scroll_up_press key u Ho Hk) as (z & Ez & Hz). destruct (at_scroll_fields z (u_app u)) as (Hs & Ho' & _).
  destruct (IH (handle_key key u).2) as (z' & Ez' & Hz'); [by rewrite Ez, Ho'|done|].
  exists z'. rewrite Ez', Ez, at_scroll_twice. split; [done|]. rewrite Ez, Hs in Hz'. lia.
Qed.

Lemma help_line_count app theme :
  List.length (build_help_lines (active_applicability_set app) (pane_label_for_help app) theme) <= 1000.
Proof.
  unfold build_help_lines, active_applicability_set. generalize (pane_label_for_help app). intros label.
  destruct (mode_overlay app) as [m|] eqn:Em; [destruct (overlay_is_mode app m Em) as [->|[->| ->]]|];
    (destruct (pane_applicability app) as [p|] eqn:Ep; [pose proof (pane_is_pane app p Ep) as (H1 & H2 & H3)|]);
    try (destruct p; try done); apply Nat.leb_le; vm_compute; reflexivity.
Qed.

(** Offsets beyond the last line are drawn alike. *)
Lemma far_scroll_drawn {LO : Layout} z app frame theme :
  (1000 <= z)%Z -> (1000 <= s_help_scroll app)%Z ->
  render_help_overlay frame (at_scroll z app) theme = render_help_overlay frame app theme.
Proof.
  intros Hz Ha. unfold render_help_overlay. cbv zeta. destruct (at_scroll_fields z app) as (E & _ & -> & ->).
  pose proof (help_line_count app theme) as Hc. unfold help_shown_scroll, help_max_scroll. rewrite E.
  by rewrite !Z.min_r by lia.
Qed.

(** After End, the help overlay cannot be scrolled up again: Up, k and PgUp
    leave the picture as it is for the first 10^18 presses, because End stores
    the greatest offset and only the drawing clamps it.  Home and closing the
    overlay do get back. *)
Theorem end_key_pins_help_overlay {LO : Layout} (u : Ui W) keys frame theme :
  s_help_open (u_app u) = true -> Forall scrolls_up keys -> (Z.of_nat (List.length keys) <= 10 ^ 18)%Z ->
  let at_end := (handle_key (mkKey KEnd false false) u).2 in
  render_help_overlay frame (u_app (press_all keys at_end)) theme = render_help_overlay frame (u_app at_end) theme /\
  s_help_scroll (u_app (handle_key (mkKey KHome false false) at_end).2) = 0%Z.
Proof.
  intros Ho HF Hl. cbv zeta. rewrite help_key_press by done.
  assert (E : u_app (handle_help_key (mkKey KEnd false false) u).2 = at_scroll USIZE_MAX (u_app u)) by done.
  destruct (at_scroll_fields USIZE_MAX (u_app u)) as (Hs & Ho' & _).
  set (v := (handle_help_key (mkKey KEnd false false) u).2) in *.
  assert (Hv : s_help_open (u_app v) = true) by (by rewrite E, Ho').
  destruct (scroll_up_presses keys v Hv HF) as (z & -> & Hz). rewrite E, Hs in Hz.
  split; [|by rewrite help_key_press]. rewrite far_scroll_drawn; [done| |rewrite E, Hs; unfold USIZE_MAX; lia].
  unfold USIZE_MAX, HELP_PAGE_LINES in Hz. lia.
Qed.

(** ** Rows that document keys which do nothing *)

Lemma normal_dispatch key (u : Ui W) :
  s_help_open (u_app u) = false -> s_pending_open_attachment (u_app u) = None -> s_mode (u_app u) = MNormal ->
  handle_key key u = handle_normal_mode key u.
Proof.
  intros H1 H2 H3. unfold handle_key. rewrite kgets_then, H1. cbv iota. rewrite kgets_then, H2. cbn [negb is_none].
  by rewrite kgets_then, H3.
Qed.
Lemma pane_unused wanted (m : K W bool) u : (wanted (u_app u) = true -> m u = (false, u)) -> pane_uses wanted m u = (false, u).
Proof. intros H. unfold pane_uses. rewrite kgets_then. destruct (wanted (u_app u)); [by apply H|done]. Qed.
Lemma unused_then {B} (m : K W bool) (k : bool -> K W B) u : m u = (false, u) -> kbind m k u = k false u.
Proof. intros H. unfold kbind. cbv zeta. by rewrite H. Qed.

(** A key that no pane binds ends in the last [match]. *)
Lemma unbound_key key (u : Ui W) :
  ke_code key = KBackTab \/ (ke_code key = KChar (ch "y") /\ ke_control key = false /\ s_active (u_app u) = PDetails) ->
  handle_normal_mode key u = (false, u).
Proof.
  intros Hk. unfold handle_normal_mode. destruct key as [code control shift]. cbn [ke_code ke_control] in *.
  assert (Hc : match code with KChar c => pressed c "p" && control | _ => false end = false).
  { by destruct Hk as [->|(-> & -> & _)]; [|apply andb_false_r]. }
  rewrite Hc, kgets_then.
  assert (Hr : resolve_pane_action (id (u_app u)) (mkKey code control shift) = None).
  { unfold resolve_pane_action. by destruct Hk as [->|(-> & -> & _)]; [destruct control|]. }
  rewrite Hr. rewrite unused_then; [cbv beta iota; rewrite unused_then; [cbv beta iota; rewrite unused_then; [cbv beta iota|]|]|];
    try (apply pane_unused; intros Hp).
  - by destruct Hk as [->|(-> & -> & _)].
  - destruct Hk as [->|(-> & -> & Ha)]; [done|]. unfold is_preview_focus_active in Hp. rewrite Ha in Hp. by rewrite andb_false_r in Hp.
  - by destruct Hk as [->|(-> & -> & _)].
  - destruct Hk as [->|(-> & -> & Ha)]; [done|]. unfold in_pane in Hp. by rewrite Ha in Hp.
Qed.

(** "Shift-Tab / ←" is listed for every pane, but only Left is bound: in normal
    mode Shift-Tab changes nothing. *)
Lemma shift_tab_does_nothing (u : Ui W) control shift :
  s_help_open (u_app u) = false -> s_pending_open_attachment (u_app u) = None -> s_mode (u_app u) = MNormal ->
  handle_key (mkKey KBackTab control shift) u = (false, u).
Proof. intros. rewrite normal_dispatch by done. apply unbound_key. by left. Qed.
(** "y" is listed as copying the selection of the message, but only the preview
    binds it. *)
Lemma y_does_not_copy_the_message (u : Ui W) shift :
  s_help_open (u_app u) = false -> s_pending_open_attachment (u_app u) = None -> s_mode (u_app u) = MNormal ->
  s_active (u_app u) = PDetails ->
  handle_key (mkKey (KChar (ch "y")) false shift) u = (false, u).
Proof. intros. rewrite normal_dispatch by done. apply unbound_key. by right. Qed.
End scrolling.
