(* ===== verification/TuiView.v ===== *)
(** * The screen of the small mailbox

    A layout engine and two tables of character widths, the frames of the small
    mailbox on an 80-column terminal, and the theorems about the screen applied
    there.  The last part shows where the screen differs from what the comments
    of the renderer say. *)

From stdpp Require Import gmap relations.
From S2P Require Import Prelude RustStr Json MailParser Utf8 DbCore Config IpcProtocol Wire McpTools McpModels McpBridge Attachments TuiText TuiCommand TuiComposer TuiEditing TuiItems TuiApprovals TuiApp TuiConversations TuiInvariant TuiSteps TuiCache TuiEvents TuiModes TuiIpc TuiMailbox TuiForward TuiKeys TuiLoop TuiRequests TuiHelp TuiFrame TuiPanes TuiRender TuiScreen TuiOverlay TuiRun.
#[local] Open Scope nat_scope.
#[local] Open Scope bool_scope.

(** ** A layout: strips, one after the other *)

Definition reserved (cs : list Constraint) : Z :=
  foldr (fun c n => match c with CLength k => k + n | _ => n end)%Z 0%Z cs.
Definition portion (total left : Z) (c : Constraint) (later : list Constraint) : Z :=
  Z.max 0 (Z.min left (match c with
                       | CLength n => n
                       | CPercentage p => total * p / 100
                       | CMin n => Z.max n (left - reserved later)
                       end)).
Fixpoint strips (d : Direction) (total : Z) (cs : list Constraint) (a : Rect) : list Rect :=
  match cs with
  | [] => []
  | c :: later =>
      match d with
      | Vertical =>
          let n := portion total (r_height a) c later in
          mkRect (r_x a) (r_y a) (r_width a) n
          :: strips d total later (mkRect (r_x a) (r_y a + n) (r_width a) (r_height a - n))
      | Horizontal =>
          let n := portion total (r_width a) c later in
          mkRect (r_x a) (r_y a) n (r_height a)
          :: strips d total later (mkRect (r_x a + n) (r_y a) (r_width a - n) (r_height a))
      end
  end.
Definition strip_layout : Layout := {|
  split d cs a := strips d (match d with Vertical => r_height a | Horizontal => r_width a end) cs a;
  rect_new x y w h := mkRect x y (Z.min w (U16_MAX - x)) (Z.min h (U16_MAX - y)) |}.

Lemma portion_bounds total left c later : (0 <= left)%Z -> (0 <= portion total left c later <= left)%Z.
Proof. unfold portion. lia. Qed.
Lemma strips_length d total cs a : List.length (strips d total cs a) = List.length cs.
Proof. revert a. induction cs as [|c cs IH]; intros a; [done|]. destruct d; cbn; by rewrite IH. Qed.
Lemma strips_within d total cs a r : rect_ok a -> In r (strips d total cs a) -> rect_ok r /\ within r a.
Proof.
  revert a. induction cs as [|c cs IH]; intros a Ha Hin; [done|].
  assert (HW : (0 <= r_width a /\ 0 <= r_height a)%Z) by (unfold rect_ok in Ha; lia). destruct HW as [HW HH].
  destruct d; cbn [strips] in Hin; cbv zeta in Hin.
  - pose proof (portion_bounds total (r_height a) c cs HH) as Hp. generalize dependent (portion total (r_height a) c cs).
    intros n Hin Hn. destruct Hin as [<-|Hin]; [unfold rect_ok, within in *; cbn; lia|].
    apply IH in Hin; unfold rect_ok, within in *; cbn in *; lia.
  - pose proof (portion_bounds total (r_width a) c cs HW) as Hp. generalize dependent (portion total (r_width a) c cs).
    intros n Hin Hn. destruct Hin as [<-|Hin]; [unfold rect_ok, within in *; cbn; lia|].
    apply IH in Hin; unfold rect_ok, within in *; cbn in *; lia.
Qed.
Lemma strip_layout_laws : @LayoutLaws strip_layout.
Proof.
  constructor.
  - intros. apply strips_length.
  - intros d cs a r Ha Hin. exact (strips_within d _ cs a r Ha Hin).
  - intros x y w h (H1 & H2 & H3 & H4 & H5 & H6). cbn in *. unfold U16_MAX in *. f_equal; lia.
Qed.

(** ** Widths *)

(** Every character is one column wide. *)
Definition unit_widths : Widths := {| char_width _ := Some 1; str_width := List.length |}.
Lemma unit_width_laws : @WidthLaws unit_widths.
Proof. constructor. intros n. apply length_replicate. Qed.

#[local] Existing Instances plain_parsers no_codec ascii_case no_files trial_mailbox trial_host trial_client_texts no_base64
  strip_layout strip_layout_laws unit_widths unit_width_laws.

(** ** Frames *)

Definition terminal : Rect := mkRect 0 0 80 24.
Lemma terminal_ok : rect_ok terminal.
Proof. unfold rect_ok, U16_MAX. cbn. lia. Qed.

(** The texts of a frame, widget by widget. *)
Definition text_lines_of (t : Text) : list str := match t with TStr s => [s] | TLines l => map line_text_of l end.
Definition drawn_text (d : Draw) : list str :=
  match d with
  | DWidget (WList items _ _ _ _ _) _ => flat_map text_lines_of items
  | DWidget (WParagraph t _ _ _ _) _ => text_lines_of t
  | _ => []
  end.

(** A request to send a message, waiting for the user. *)
Definition some_uuid : str := lit "01234567-89ab-cdef-0123-456789abcdef".
Definition waiting : ApprovalItem :=
  mkApprovalItem 9 (lit "postblox_message_send") (lit "draft=x") (lit "{'draft_id': '" ++ some_uuid ++ lit "'}") (Some (lit "dangerous"))
    None 0.
Definition approvals_open : AppState := apply_approvals [waiting] (begin_approvals trial_inbox).

Lemma approvals_open_ok : ui_ok approvals_open.
Proof.
  apply (steps_ok (UC := ascii_case) (CF := no_files) trial_inbox approvals_open trial_inbox_ok).
  eapply rtc_l; [apply step_approvals_folder|]. apply rtc_once, step_approvals.
Qed.

(** On an 80-column terminal the frame of the approvals is drawn, and its lower
    pane reads as the user sees it. *)
Lemma screen_drawn_inside_frame_witness :
  exists draws, render terminal approvals_open 5000000000 = Some draws /\
    Forall (fun x => drawn_in terminal x \/ overlay_below terminal approvals_open x) draws.
Proof. exact (screen_drawn_inside_frame terminal approvals_open 5000000000 terminal_ok). Defined.

Example approval_on_screen :
  drawn_text <$> (render terminal approvals_open 5000000000 ≫= fun l => l !! 3) =
  Some [lit "Send message"; []; lit "policy: dangerous"; []; ulit "tool=postblox_message_send · args=payload · 5s ago";
        ulit "{'draft_id': '01234567…cdef'}"].
Proof. vm_compute. reflexivity. Qed.


(** With a composer left behind in normal mode
    ([TuiRun.delete_command_leaves_composer_behind]) only the composer is drawn,
    and the same letter still decides the approval. *)
Definition approvals_behind_composer : AppState := approvals_open <| s_composer := Some (composer_new 7) |>.
Example approval_decided_behind_composer :
  In (Sent (QDecideApproval 9 Allowed) (Err refused)) (requests (handle_key (key "a")) (desk approvals_behind_composer)) /\
  render terminal approvals_behind_composer 0 = render_composer terminal approvals_behind_composer dark_theme.
Proof. split; [vm_compute; left; reflexivity|vm_compute; reflexivity]. Qed.

(** A body of two lines in a pane with room for one: the second line is shown
    with the cursor on it. *)
Definition two_lines : ComposerState :=
  (run_key (KeyChar 98%N) (run_key KeyNewline (run_key (KeyChar 97%N) ((composer_new 7) <| c_focused := FBody |>)).2).2).2.
Example body_scrolls_to_cursor :
  map drawn_text (render_composer_body (theme Dark) (mkRect 0 0 10 3) true two_lines) = [[lit "b"]; []] /\
  (render_composer_body (theme Dark) (mkRect 0 0 10 3) true two_lines) !! 1 = Some (DCursor 2 1).
Proof. vm_compute. split; reflexivity. Qed.

(** ** Where the screen differs from its comments *)

(** unicode-width gives an emoji followed by the variation selector U+FE0F two
    columns, one more than its characters have: here for the heart U+2764. *)
Fixpoint emoji_width (s : str) : nat :=
  match s with
  | [] => 0
  | c :: r => (if (c =? 65039)%N then 0 else 1) + (match r with d :: _ => if (c =? 10084)%N && (d =? 65039)%N then 1 else 0 | [] => 0 end)
              + emoji_width r
  end.
Definition emoji_widths : Widths := {| char_width c := Some (if (c =? 65039)%N then 0 else 1); str_width := emoji_width |}.
Definition hearts : str := [10084; 65039; 10084; 65039]%N.

(** Text cut to two columns takes three, and text cut to one column takes two. *)
Lemma emoji_overruns_its_width :
  @display_width emoji_widths (@truncate_for_width emoji_widths hearts 2) = 3 /\
  @display_width emoji_widths (@take_width emoji_widths hearts 1) = 2.
Proof. vm_compute. split; reflexivity. Qed.

(** In a pane no wider than the date the row is one column wider than the pane,
    and there is no room left for anything but the date. *)
Lemma narrow_row_overruns subject :
  columnwise subject ->
  line_width (row_with_right_date [(subject, style_default)] (lit "2024-01-01 10:00") 16 dark_theme) = 17.
Proof.
  intros H. rewrite row_width; [reflexivity|by apply Forall_singleton|].
  intros p _. cbn. rewrite length_app. assert (E : forall s : str, cols s = List.length s) by (induction s as [|c s IH]; [done|]; cbn; by rewrite IH).
  rewrite E. cbn. lia.
Qed.

(** Ideographs are two columns wide. *)
Definition wide_widths : Widths := {|
  char_width c := Some (if (19968 <=? c)%N then 2 else 1);
  str_width s := list_sum (map (fun c => if (19968 <=? c)%N then 2 else 1) s) |}.
(** After the same ideograph the cursor of the subject is in the third column,
    that of the body in the second: on the right half of the glyph. *)
Definition ideograph_in (f : ComposeField) : ComposerState :=
  (run_key (KeyChar 28450%N) ((composer_new 7) <| c_focused := f |>)).2.
Lemma body_cursor_inside_wide_glyph :
  (render_composer_field (WI := wide_widths) dark_theme (mkRect 0 0 20 3) (lit "Subject") (c_subject (ideograph_in FSubject))
     (c_subject_cursor (ideograph_in FSubject)) true) !! 1 = Some (DCursor 3 1) /\
  (render_composer_body dark_theme (mkRect 0 0 20 3) true (ideograph_in FBody)) !! 1 = Some (DCursor 2 1).
Proof. vm_compute. split; reflexivity. Qed.

(** The rows a line needs when it is wrapped at [width] columns. *)
Definition rows_needed (width : nat) (l : Line) : nat := Nat.max 1 ((line_width l + width - 1) / width).
Lemma wrapped_at_least width rows (lines : list Line) :
  0 < width -> (forall l, 1 <= rows l /\ line_width l <= rows l * width) ->
  list_sum (map (rows_needed width) lines) <= list_sum (map rows lines).
Proof.
  intros Hw Hr. induction lines as [|l lines IH]; [done|]. cbn [map list_sum foldr]. destruct (Hr l) as [H1 H2].
  assert (rows_needed width l <= rows l); [|unfold list_sum in *; lia].
  unfold rows_needed. apply Nat.max_lub; [done|]. apply Nat.lt_succ_r, Nat.Div0.div_lt_upper_bound. nia.
Qed.

Definition help_overlay : Rect := help_overlay_rect terminal.
Definition help_lines : list Line :=
  build_help_lines (active_applicability_set trial_inbox) (pane_label_for_help trial_inbox) dark_theme.
(** The overlay counts its lines before they are wrapped: on an 80-column
    terminal, at the greatest offset it is ever drawn at, at least forty-one rows
    are still below the last one shown, however the lines are wrapped. *)
Lemma help_end_is_out_of_reach rows :
  (forall l, 1 <= rows l /\ line_width l <= rows l * 58) ->
  r_width help_overlay = 60%Z /\ viewport_rows help_overlay = 17 /\
  Z.to_nat (help_max_scroll help_overlay help_lines) + viewport_rows help_overlay + 41 <= list_sum (map rows help_lines).
Proof.
  intros Hr. pose proof (wrapped_at_least 58 rows help_lines ltac:(lia) Hr) as H.
  assert (E : Z.to_nat (help_max_scroll help_overlay help_lines) + viewport_rows help_overlay + 41
              <= list_sum (map (rows_needed 58) help_lines)) by (apply Nat.leb_le; vm_compute; reflexivity).
  split; [vm_compute; reflexivity|]. split; [vm_compute; reflexivity|]. lia.
Qed.
